(** * Alkaid: three-party share conversion (libspu/mpc/alkaid)

    A shallow embedding of [value.cc], [type.h] and [conversion.cc].

    Ring and back-type elements are [Z] with the wrap-around of the C++
    unsigned type written out ([wrap]).  Arrays are lists built by
    [pforeach] and read by index.  The three parties run the same kernel
    (SPMD); a kernel is modelled once, as a function over the three
    parties' views ([Parties]), in the monad [Proto], which threads the
    shared pseudo-random tape, its cursor and the log of communicator
    calls, and which fails as the source does (SPU_ENFORCE, SPU_THROW,
    assert, and C++ undefined behaviour). *)

From Stdlib Require Import String ZArith List Lia Bool.
Import ListNotations.
Local Open Scope string_scope.
Local Open Scope Z_scope.

(* ================================================================== *)
(** ** Failure *)

Inductive Fault : Type :=
| EnforceFailed      (* SPU_ENFORCE *)
| Thrown             (* SPU_THROW *)
| AssertFailed       (* assert, taken as checked *)
| Undefined          (* undefined behaviour of the C++ abstract machine *)
| ProtocolError      (* the parties' communicator calls do not match *)
| OutOfFuel.         (* a loop of the model ran out of fuel *)

Inductive result (A : Type) : Type :=
| Ok (a : A)
| Err (e : Fault).
Arguments Ok {A} a.
Arguments Err {A} e.

Definition rbind {A B : Type} (m : result A) (k : A -> result B) : result B :=
  match m with
  | Ok a => k a
  | Err e => Err e
  end.

Definition enforce (b : bool) : result unit :=
  if b then Ok tt else Err EnforceFailed.

Definition c_assert (b : bool) : result unit :=
  if b then Ok tt else Err AssertFailed.

(* ================================================================== *)
(** ** Plaintext types and fields (type.h, value.cc) *)

(** The unsigned plaintext types that DISPATCH_UINT_PT_TYPES ranges over. *)
Inductive PtType : Type := PT_U8 | PT_U16 | PT_U32 | PT_U64 | PT_U128.

(** [SizeOf], in bytes. *)
Definition SizeOf (t : PtType) : Z :=
  match t with
  | PT_U8 => 1
  | PT_U16 => 2
  | PT_U32 => 4
  | PT_U64 => 8
  | PT_U128 => 16
  end.

Definition bitsof (t : PtType) : Z := 8 * SizeOf t.

(** A value stored in an object of unsigned type [t]. *)
Definition wrap (t : PtType) (x : Z) : Z := x mod 2 ^ bitsof t.

(** The rings that DISPATCH_ALL_FIELDS ranges over. *)
Inductive FieldType : Type := FM32 | FM64 | FM128.

Definition GetStorageType (f : FieldType) : PtType :=
  match f with
  | FM32 => PT_U32
  | FM64 => PT_U64
  | FM128 => PT_U128
  end.

Definition SizeOfField (f : FieldType) : Z := SizeOf (GetStorageType f).

(** value.cc, [calcBShareBacktype]. *)
Definition calcBShareBacktype (nbits : Z) : result PtType :=
  if nbits <=? 8 then Ok PT_U8
  else if nbits <=? 16 then Ok PT_U16
  else if nbits <=? 32 then Ok PT_U32
  else if nbits <=? 64 then Ok PT_U64
  else if nbits <=? 128 then Ok PT_U128
  else Err Thrown.

(** type.h, [BShrTy] and [BShrTyMss]: the back type and the number of
    valid bits. *)
Record BShrTy : Type := mkBShrTy { getBacktype : PtType; nbits : Z }.

(** The constructor's SPU_ENFORCE. *)
Definition makeBShrTy (back_type : PtType) (n : Z) : result BShrTy :=
  rbind (enforce (n <=? SizeOf back_type * 8))
        (fun _ => Ok (mkBShrTy back_type n)).

(* ================================================================== *)
(** ** Arrays *)

(** [NdArrayRef]: an element type descriptor, a shape, and the elements
    in row-major order.  A share element is a [std::array] of two (RSS,
    and ASS held in an RSS container) or three (MSS) scalars. *)
Record NdArrayRef (T E : Type) : Type :=
  mkArr { eltype : T; shape : list nat; elems : list E }.
Arguments mkArr {T E} eltype shape elems.
Arguments eltype {T E} _.
Arguments shape {T E} _.
Arguments elems {T E} _.

Definition numel {T E : Type} (a : NdArrayRef T E) : nat :=
  fold_right Nat.mul 1%nat (shape a).

(** [pforeach(0, n, body)] where each index writes its own cell. *)
Definition pforeach {A : Type} (n : nat) (body : nat -> A) : list A :=
  map body (seq 0 n).

(** [NdArrayView<...> _a(a); _a[idx]]. *)
Definition view2 (a : list (Z * Z)) (idx : nat) : Z * Z := nth idx a (0, 0).
Definition view3 (a : list (Z * Z * Z)) (idx : nat) : Z * Z * Z :=
  nth idx a (0, 0, 0).
Definition view1 (a : list Z) (idx : nat) : Z := nth idx a 0.

(** alkaid.BShr (also the container of an ASS share, which uses slot 0
    only), alkaid.BShrMss, alkaid.AShr and the public ring type. *)
Definition BArr : Type := NdArrayRef BShrTy (Z * Z).
Definition MArr : Type := NdArrayRef BShrTy (Z * Z * Z).
Definition AArr : Type := NdArrayRef FieldType (Z * Z).
Definition PArr : Type := NdArrayRef FieldType Z.

Definition slot0 (e : Z * Z) : Z := fst e.
Definition slot1 (e : Z * Z) : Z := snd e.
Definition mslot0 (e : Z * Z * Z) : Z := fst (fst e).
Definition mslot1 (e : Z * Z * Z) : Z := snd (fst e).
Definition mslot2 (e : Z * Z * Z) : Z := snd e.

(* ================================================================== *)
(** ** The three parties *)

Record Parties (A : Type) : Type :=
  mkParties { party0 : A; party1 : A; party2 : A }.
Arguments mkParties {A} party0 party1 party2.
Arguments party0 {A} _.
Arguments party1 {A} _.
Arguments party2 {A} _.

Definition pget {A : Type} (p : Parties A) (rank : Z) : A :=
  if rank =? 0 then party0 p else if rank =? 1 then party1 p else party2 p.

Definition ptab {A : Type} (f : Z -> A) : Parties A :=
  mkParties (f 0) (f 1) (f 2).

Definition NextRank (rank : Z) : Z := (rank + 1) mod 3.
Definition PrevRank (rank : Z) : Z := (rank + 2) mod 3.

(* ================================================================== *)
(** ** Evaluation context: build flags, PRG state, communicator *)

(** The two preprocessor switches of conversion.cc.  Both are commented
    out in the source, which is [shipped]. *)
Record BuildFlags : Type :=
  mkFlags { EQ_USE_OFFLINE : bool; EQ_USE_PRG_STATE : bool }.

Definition shipped : BuildFlags := mkFlags false false.

(** Modelled from the spec: the communicator (common/communicator.h is
    not among the sources).  [rotate] passes every party's buffer one
    rank around the ring and [rotateR] passes it the other way; which
    way [rotate] turns is left open. *)
Inductive Orientation : Type := RecvFromNext | RecvFromPrev.

Inductive CommCall : Type :=
| CallRotate (tag : string)
| CallRotateR (tag : string)
| CallBcast (root : Z) (tag : string)
| CallSendAsync (sender receiver : Z) (tag : string)
| CallRecv (receiver sender : Z) (tag : string).

(** Modelled from the spec: the PRG state (common/prg_state.h is not
    among the sources).  Every seed is a stream indexed by the call
    number; [prss_tape c s w j] is element [j] of width [w] that the seed
    shared by party [s] and its predecessor yields at call [c];
    [publ_tape] is the seed all three parties share and [priv_tape] a
    party's own. *)
Record Tape : Type := mkTape {
  prss_tape : nat -> Z -> Z -> nat -> Z;
  publ_tape : nat -> Z;
  priv_tape : Z -> nat -> Z -> nat -> Z
}.

Module GenPrssCtrl.
Inductive t : Type := Both | First | Second | None.
End GenPrssCtrl.

Record World : Type := mkWorld {
  flags : BuildFlags;
  orientation : Orientation;
  default_field : FieldType;           (* Z2kState::getDefaultField *)
  tape : Tape;
  prss_counter : nat;
  publ_counter : nat;
  priv_counter : nat;
  comm_log : list CommCall
}.

(** A kernel run by the three parties together. *)
Definition Proto (A : Type) : Type := World -> result (A * World).

Definition ret {A : Type} (a : A) : Proto A := fun w => Ok (a, w).

Definition bind {A B : Type} (m : Proto A) (k : A -> Proto B) : Proto B :=
  fun w => match m w with
           | Ok (a, w') => k a w'
           | Err e => Err e
           end.

Definition lift {A : Type} (r : result A) : Proto A :=
  fun w => match r with
           | Ok a => Ok (a, w)
           | Err e => Err e
           end.

Notation "x <- m ;; k" := (bind m (fun x => k))
  (at level 61, m at next level, right associativity).
Notation "' pat <- m ;; k" := (bind m (fun x => match x with pat => k end))
  (at level 61, pat pattern, m at next level, right associativity).
Notation "x <~ m ;; k" := (rbind m (fun x => k))
  (at level 61, m at next level, right associativity).

(** The same local code at every rank. *)
Definition each_party {A : Type} (f : Z -> result A) : Proto (Parties A) :=
  lift (a0 <~ f 0 ;; a1 <~ f 1 ;; a2 <~ f 2 ;; Ok (mkParties a0 a1 a2)).

Definition getFlags : Proto BuildFlags := fun w => Ok (flags w, w).
Definition getDefaultField : Proto FieldType := fun w => Ok (default_field w, w).

Definition log_call (c : CommCall) : Proto unit :=
  fun w => Ok (tt, mkWorld (flags w) (orientation w) (default_field w) (tape w)
                     (prss_counter w) (publ_counter w) (priv_counter w)
                     (comm_log w ++ [c])).

(** [comm->rotate(buf, tag)]: returns at every party a neighbour's buffer. *)
Definition rotate {A : Type} (tag : string) (bufs : Parties A) : Proto (Parties A) :=
  _ <- log_call (CallRotate tag) ;;
  fun w => Ok (ptab (fun rank =>
                 match orientation w with
                 | RecvFromNext => pget bufs (NextRank rank)
                 | RecvFromPrev => pget bufs (PrevRank rank)
                 end), w).

(** [comm->rotateR(buf, tag)]: the opposite turn. *)
Definition rotateR {A : Type} (tag : string) (bufs : Parties A) : Proto (Parties A) :=
  _ <- log_call (CallRotateR tag) ;;
  fun w => Ok (ptab (fun rank =>
                 match orientation w with
                 | RecvFromNext => pget bufs (PrevRank rank)
                 | RecvFromPrev => pget bufs (NextRank rank)
                 end), w).

(** [comm->bcast(buf, root, tag)]: every party gets the root's buffer. *)
Definition bcast {A : Type} (tag : string) (root : Z) (bufs : Parties A) : Proto (Parties A) :=
  _ <- log_call (CallBcast root tag) ;;
  ret (ptab (fun _ => pget bufs root)).

(** [comm->sendAsync(receiver, buf, tag)] at [sender], matched by
    [comm->recv(sender, tag)] at [receiver]. *)
Definition send_recv {A : Type} (tag : string) (sender receiver : Z) (buf : A) : Proto A :=
  _ <- log_call (CallSendAsync sender receiver tag) ;;
  _ <- log_call (CallRecv receiver sender tag) ;;
  ret buf.

(** One PRSS stream element vector. *)
Definition prss_draw (tp : Tape) (c : nat) (seed : Z) (t : PtType) (n : nat) : list Z :=
  pforeach n (fun j => wrap t (prss_tape tp c seed (bitsof t) j)).

(** What [fillPrssPair(r0, r1, n, ctrl)] leaves in [r0] and [r1] at party
    [rank] for the call numbered [c]: [r0] comes from the seed shared
    with the previous party, [r1] from the seed shared with the next
    one; a side not asked for keeps its buffer ([old0], [old1]). *)
Definition prss_pair (tp : Tape) (c : nat) (rank : Z) (ctrl : GenPrssCtrl.t)
    (t : PtType) (n : nat) (old0 old1 : list Z) : list Z * list Z :=
  match ctrl with
  | GenPrssCtrl.Both => (prss_draw tp c rank t n, prss_draw tp c (NextRank rank) t n)
  | GenPrssCtrl.First => (prss_draw tp c rank t n, old1)
  | GenPrssCtrl.Second => (old0, prss_draw tp c (NextRank rank) t n)
  | GenPrssCtrl.None => (old0, old1)
  end.

Definition Sampler : Type :=
  Z -> GenPrssCtrl.t -> PtType -> nat -> list Z -> list Z -> list Z * list Z.

(** One [prg_state->fillPrssPair] call made by all three parties: the
    cursor advances once. *)
Definition fillPrssPair : Proto Sampler :=
  fun w => Ok (prss_pair (tape w) (prss_counter w),
               mkWorld (flags w) (orientation w) (default_field w) (tape w)
                 (S (prss_counter w)) (publ_counter w) (priv_counter w) (comm_log w)).

(** [prg_state->fillPubl(&pivot, 1)]: one [size_t] known to all. *)
Definition fillPubl : Proto Z :=
  fun w => Ok (publ_tape (tape w) (publ_counter w) mod 2 ^ 64,
               mkWorld (flags w) (orientation w) (default_field w) (tape w)
                 (prss_counter w) (S (publ_counter w)) (priv_counter w) (comm_log w)).

(** [prg_state->fillPriv(r)] at party [rank]. *)
Definition fillPriv (rank : Z) (t : PtType) (n : nat) : Proto (list Z) :=
  fun w => Ok (pforeach n (fun j => wrap t (priv_tape (tape w) rank (priv_counter w) (bitsof t) j)),
               mkWorld (flags w) (orientation w) (default_field w) (tape w)
                 (prss_counter w) (publ_counter w) (S (priv_counter w)) (comm_log w)).

(** [std::vector<T> v(n, 0)]. *)
Definition zeros (n : nat) : list Z := repeat 0 n.

(** The two buffers after [fillPrssPair(r0, r1, n, Both)] and the
    [std::fill(r0, 0); std::fill(r1, 0)] that the preprocessor leaves in
    unless [keep]. *)
Definition fill_unless (keep : bool) (n : nat) (rr : list Z * list Z) : list Z * list Z :=
  (if keep then fst rr else zeros n, if keep then snd rr else zeros n).

(** The same local kernel run by every party on its own view. *)
Definition local1 {A B : Type} (f : A -> result B) (a : Parties A) : Proto (Parties B) :=
  each_party (fun rank => f (pget a rank)).

Definition local2 {A B C : Type} (f : A -> B -> result C)
    (a : Parties A) (b : Parties B) : Proto (Parties C) :=
  each_party (fun rank => f (pget a rank) (pget b rank)).

(** A slot of a freshly allocated array that no statement writes.  Its
    content is indeterminate in C++; no kernel reads it. *)
Definition unwritten : Z := 0.

(* ================================================================== *)
(** ** Integer details of C++ that the kernels rely on *)

(** [T(1) << s]: the shift count must be below the width of the promoted
    operand ([int] for the 8- and 16-bit types), and [int] must not
    overflow. *)
Definition shl1 (t : PtType) (s : Z) : result Z :=
  match t with
  | PT_U8 | PT_U16 => if (0 <=? s) && (s <? 31) then Ok (2 ^ s) else Err Undefined
  | _ => if (0 <=? s) && (s <? bitsof t) then Ok (2 ^ s) else Err Undefined
  end.

(** [(1 << n) - 1] with the literal [1] of type [int]. *)
Definition int_mask (n : Z) : result Z :=
  if (0 <=? n) && (n <? 31) then Ok (2 ^ n - 1) else Err Undefined.

(** Modelled from the spec: [Log2Ceil] (core/bit_utils.h is not among the
    sources), the ceiling of the binary logarithm. *)
Definition Log2Ceil (x : Z) : Z := Z.log2_up x.

(** [yacl::MakeUint128(hi, lo)]. *)
Definition MakeUint128 (hi lo : Z) : Z := hi * 2 ^ 64 + lo.

(** Modelled from the spec: [yacl::pext_u64] (yacl/utils/platform_utils.h
    is not among the sources), the parallel bit extract of two 64-bit
    words: the bits of [x] selected by [mask], packed from bit 0 up. *)
Fixpoint pext_from (n : nat) (pos : Z) (x mask : Z) (k : Z) : Z :=
  match n with
  | O => 0
  | S n' =>
      if Z.testbit mask pos
      then (if Z.testbit x pos then 2 ^ k else 0) + pext_from n' (pos + 1) x mask (k + 1)
      else pext_from n' (pos + 1) x mask k
  end.

Definition pext_u64 (x mask : Z) : Z :=
  pext_from 64 0 (x mod 2 ^ 64) (mask mod 2 ^ 64) 0.

(* ================================================================== *)
(** ** XOR gates (conversion.cc, AssXor2 / RssXor2 / MssXor2) *)

Definition AssXor2 (lhs rhs : BArr) : result BArr :=
  let out_nbits := Z.min (nbits (eltype lhs)) (nbits (eltype rhs)) in
  out_btype <~ calcBShareBacktype out_nbits ;;
  Ok (mkArr (mkBShrTy out_btype out_nbits) (shape lhs)
        (pforeach (numel lhs) (fun idx =>
           let l := view2 (elems lhs) idx in
           let r := view2 (elems rhs) idx in
           (wrap out_btype (Z.lxor (slot0 l) (slot0 r)), unwritten)))).

Definition RssXor2 (lhs rhs : BArr) : result BArr :=
  let out_nbits := Z.min (nbits (eltype lhs)) (nbits (eltype rhs)) in
  out_btype <~ calcBShareBacktype out_nbits ;;
  Ok (mkArr (mkBShrTy out_btype out_nbits) (shape lhs)
        (pforeach (numel lhs) (fun idx =>
           let l := view2 (elems lhs) idx in
           let r := view2 (elems rhs) idx in
           (wrap out_btype (Z.lxor (slot0 l) (slot0 r)),
            wrap out_btype (Z.lxor (slot1 l) (slot1 r)))))).

Definition MssXor2 (lhs rhs : MArr) : result MArr :=
  let out_nbits := Z.min (nbits (eltype lhs)) (nbits (eltype rhs)) in
  out_btype <~ calcBShareBacktype out_nbits ;;
  Ok (mkArr (mkBShrTy out_btype out_nbits) (shape lhs)
        (pforeach (numel lhs) (fun idx =>
           let l := view3 (elems lhs) idx in
           let r := view3 (elems rhs) idx in
           (wrap out_btype (Z.lxor (mslot0 l) (mslot0 r)),
            wrap out_btype (Z.lxor (mslot1 l) (mslot1 r)),
            wrap out_btype (Z.lxor (mslot2 l) (mslot2 r)))))).

(* ================================================================== *)
(** ** AND gates without online communication *)

(** RssAnd2NoComm: RSS x RSS -> ASS. *)
Definition RssAnd2NoComm (lhs rhs : Parties BArr) : Proto (Parties BArr) :=
  fl <- getFlags ;;
  prss <- fillPrssPair ;;
  each_party (fun rank =>
    let lhs := pget lhs rank in
    let rhs := pget rhs rank in
    let out_nbits := Z.min (nbits (eltype lhs)) (nbits (eltype rhs)) in
    out_btype <~ calcBShareBacktype out_nbits ;;
    let n := numel lhs in
    (* #ifndef EQ_USE_PRG_STATE: std::fill(r0, 0); std::fill(r1, 0) *)
    let rr := fill_unless (EQ_USE_PRG_STATE fl) n
                (prss rank GenPrssCtrl.Both out_btype n (zeros n) (zeros n)) in
    let r0 := fst rr in
    let r1 := snd rr in
    Ok (mkArr (mkBShrTy out_btype out_nbits) (shape lhs)
          (pforeach n (fun idx =>
             let l := view2 (elems lhs) idx in
             let r := view2 (elems rhs) idx in
             (wrap out_btype
                (Z.lxor (Z.lxor (Z.lxor (Z.land (slot0 l) (slot0 r))
                                        (Z.land (slot0 l) (slot1 r)))
                                (Z.land (slot1 l) (slot0 r)))
                        (Z.lxor (view1 r0 idx) (view1 r1 idx))),
              unwritten))))).

(** MssAnd2NoComm: MSS x MSS -> RSS.  Under EQ_USE_OFFLINE the triple
    d_xy is computed and rotated first. *)
Definition MssAnd2NoComm (lhs rhs : Parties MArr) : Proto (Parties BArr) :=
  fl <- getFlags ;;
  prss <- fillPrssPair ;;
  pre <- each_party (fun rank =>
    let lhs := pget lhs rank in
    let rhs := pget rhs rank in
    let out_nbits := Z.min (nbits (eltype lhs)) (nbits (eltype rhs)) in
    out_btype <~ calcBShareBacktype out_nbits ;;
    let n := numel lhs in
    (* #if !defined(EQ_USE_PRG_STATE) || !defined(EQ_USE_OFFLINE) *)
    let rr := fill_unless (EQ_USE_PRG_STATE fl && EQ_USE_OFFLINE fl) n
                (prss rank GenPrssCtrl.Both out_btype n (zeros n) (zeros n)) in
    let r0 := fst rr in
    let r1 := snd rr in
    (* #ifdef EQ_USE_OFFLINE *)
    let r0 :=
      if EQ_USE_OFFLINE fl
      then pforeach n (fun idx =>
             let l := view3 (elems lhs) idx in
             let r := view3 (elems rhs) idx in
             wrap out_btype
               (Z.lxor (Z.lxor (Z.lxor (Z.land (mslot1 l) (mslot1 r))
                                       (Z.land (mslot1 l) (mslot2 r)))
                               (Z.land (mslot2 l) (mslot1 r)))
                       (Z.lxor (view1 r0 idx) (view1 r1 idx))))
      else r0 in
    Ok (out_btype, out_nbits, r0, r1)) ;;
  r1' <- (if EQ_USE_OFFLINE fl
          then rotate "MssAndBB, offline" (ptab (fun rank => snd (fst (pget pre rank))))
          else ret (ptab (fun rank => snd (pget pre rank)))) ;;
  each_party (fun rank =>
    let lhs := pget lhs rank in
    let rhs := pget rhs rank in
    let '(out_btype, out_nbits, r0, _) := pget pre rank in
    let r1 := pget r1' rank in
    Ok (mkArr (mkBShrTy out_btype out_nbits) (shape lhs)
          (pforeach (numel lhs) (fun idx =>
             let l := view3 (elems lhs) idx in
             let r := view3 (elems rhs) idx in
             (wrap out_btype
                (Z.lxor (Z.lxor (Z.lxor (Z.land (mslot0 l) (mslot0 r))
                                        (Z.land (mslot0 l) (mslot1 r)))
                                (Z.land (mslot1 l) (mslot0 r)))
                        (view1 r0 idx)),
              wrap out_btype
                (Z.lxor (Z.lxor (Z.lxor (Z.land (mslot0 l) (mslot0 r))
                                        (Z.land (mslot0 l) (mslot2 r)))
                                (Z.land (mslot2 l) (mslot0 r)))
                        (view1 r1 idx))))))).

(* ================================================================== *)
(** ** Resharing *)

(** ResharingRss2Mss. *)
Definition ResharingRss2Mss (inp : Parties BArr) : Proto (Parties MArr) :=
  fl <- getFlags ;;
  prss <- fillPrssPair ;;
  pre <- each_party (fun rank =>
    let inp := pget inp rank in
    let out_nbits := nbits (eltype inp) in
    out_btype <~ calcBShareBacktype out_nbits ;;
    let n := numel inp in
    (* #if !defined(EQ_USE_OFFLINE) || !defined(EQ_USE_PRG_STATE) *)
    let rr := fill_unless (EQ_USE_OFFLINE fl && EQ_USE_PRG_STATE fl) n
                (prss rank GenPrssCtrl.Both out_btype n (zeros n) (zeros n)) in
    let r0 := fst rr in
    let r1 := snd rr in
    Ok (out_btype, out_nbits,
        pforeach n (fun idx => (view1 r0 idx, view1 r1 idx)),     (* o[1], o[2] *)
        pforeach n (fun idx =>                                    (* r0 *)
          wrap out_btype (Z.lxor (slot0 (view2 (elems inp) idx)) (view1 r0 idx))))) ;;
  r0' <- rotateR "Resharing RSS to MSS, online" (ptab (fun rank => snd (pget pre rank))) ;;
  each_party (fun rank =>
    let inp := pget inp rank in
    let '(out_btype, out_nbits, o12, _) := pget pre rank in
    let r0 := pget r0' rank in
    Ok (mkArr (mkBShrTy out_btype out_nbits) (shape inp)
          (pforeach (numel inp) (fun idx =>
             let i := view2 (elems inp) idx in
             let o1 := fst (view2 o12 idx) in
             let o2 := snd (view2 o12 idx) in
             (wrap out_btype
                (Z.lxor (Z.lxor (Z.lxor (Z.lxor (slot0 i) (slot1 i)) o1) o2) (view1 r0 idx)),
              o1, o2))))).

(** ResharingAss2Rss. *)
Definition ResharingAss2Rss (inp : Parties BArr) : Proto (Parties BArr) :=
  fl <- getFlags ;;
  prss <- fillPrssPair ;;
  pre <- each_party (fun rank =>
    let inp := pget inp rank in
    let out_nbits := nbits (eltype inp) in
    out_btype <~ calcBShareBacktype out_nbits ;;
    let n := numel inp in
    (* #ifndef EQ_USE_PRG_STATE *)
    let rr := fill_unless (EQ_USE_PRG_STATE fl) n
                (prss rank GenPrssCtrl.Both out_btype n (zeros n) (zeros n)) in
    let r0 := fst rr in
    let r1 := snd rr in
    Ok (out_btype, out_nbits,
        pforeach n (fun idx =>
          wrap out_btype
            (Z.lxor (Z.lxor (slot0 (view2 (elems inp) idx)) (view1 r0 idx)) (view1 r1 idx))))) ;;
  r0' <- rotate "Resharing ASS to RSS, online" (ptab (fun rank => snd (pget pre rank))) ;;
  each_party (fun rank =>
    let inp := pget inp rank in
    let '(out_btype, out_nbits, o0) := pget pre rank in
    let r0 := pget r0' rank in
    Ok (mkArr (mkBShrTy out_btype out_nbits) (shape inp)
          (pforeach (numel inp) (fun idx => (view1 o0 idx, view1 r0 idx))))).

(** ResharingAss2Mss. *)
Definition ResharingAss2Mss (inp : Parties BArr) : Proto (Parties MArr) :=
  fl <- getFlags ;;
  prss <- fillPrssPair ;;
  pre <- each_party (fun rank =>
    let inp := pget inp rank in
    let out_nbits := nbits (eltype inp) in
    out_btype <~ calcBShareBacktype out_nbits ;;
    let n := numel inp in
    (* #if !defined(EQ_USE_OFFLINE) || !defined(EQ_USE_PRG_STATE) *)
    let rr := fill_unless (EQ_USE_OFFLINE fl && EQ_USE_PRG_STATE fl) n
                (prss rank GenPrssCtrl.Both out_btype n (zeros n) (zeros n)) in
    let r0 := fst rr in
    let r1 := snd rr in
    Ok (out_btype, out_nbits,
        pforeach n (fun idx => (view1 r0 idx, view1 r1 idx)),     (* o[1], o[2] *)
        pforeach n (fun idx =>                                    (* r0 *)
          wrap out_btype (Z.lxor (slot0 (view2 (elems inp) idx)) (view1 r0 idx))),
        pforeach n (fun idx =>                                    (* r1 *)
          wrap out_btype (slot0 (view2 (elems inp) idx))))) ;;
  r0' <- rotateR "Resharing ASS to MSS, online, message 1"
           (ptab (fun rank => snd (fst (pget pre rank)))) ;;
  r1' <- rotate "Resharing ASS to MSS, online, message 2"
           (ptab (fun rank => snd (pget pre rank))) ;;
  each_party (fun rank =>
    let inp := pget inp rank in
    let '(out_btype, out_nbits, o12, _, _) := pget pre rank in
    let r0 := pget r0' rank in
    let r1 := pget r1' rank in
    Ok (mkArr (mkBShrTy out_btype out_nbits) (shape inp)
          (pforeach (numel inp) (fun idx =>
             let i := view2 (elems inp) idx in
             let o1 := fst (view2 o12 idx) in
             let o2 := snd (view2 o12 idx) in
             (wrap out_btype
                (Z.lxor (Z.lxor (Z.lxor (Z.lxor (slot0 i) o1) o2) (view1 r0 idx)) (view1 r1 idx)),
              o1, o2))))).

(** ResharingMss2Rss: local. *)
Definition ResharingMss2Rss (inp : MArr) : result BArr :=
  let out_nbits := nbits (eltype inp) in
  out_btype <~ calcBShareBacktype out_nbits ;;
  Ok (mkArr (mkBShrTy out_btype out_nbits) (shape inp)
        (pforeach (numel inp) (fun idx =>
           let i := view3 (elems inp) idx in
           (wrap out_btype (Z.lxor (mslot0 i) (mslot1 i)),
            wrap out_btype (Z.lxor (mslot0 i) (mslot2 i)))))).

(** ResharingRss2Ass: local. *)
Definition ResharingRss2Ass (inp : BArr) : result BArr :=
  let out_nbits := nbits (eltype inp) in
  out_btype <~ calcBShareBacktype out_nbits ;;
  Ok (mkArr (mkBShrTy out_btype out_nbits) (shape inp)
        (pforeach (numel inp) (fun idx =>
           let i := view2 (elems inp) idx in
           (wrap out_btype (slot0 i), 0)))).

(* ================================================================== *)
(** ** Word helpers *)

Definition lshift (x shift : Z) : Z := Z.shiftl (x mod 2 ^ 64) shift mod 2 ^ 64.
Definition rshift (x shift : Z) : Z := Z.shiftr (x mod 2 ^ 64) shift.

Definition select (x mask offset : Z) (idx : Z) : Z :=
  Z.shiftl (Z.land (x mod 2 ^ 64) (Z.shiftl mask (idx * offset) mod 2 ^ 64))
           ((3 - idx) * offset) mod 2 ^ 64.

Definition SelectAndRotate (x mask stride : Z) : Z :=
  Z.shiftl (Z.land (x mod 2 ^ 64) mask) stride mod 2 ^ 64.

(* ================================================================== *)
(** ** Packing two bit vectors into one and back *)

Definition pack_2_bitvec_ass (lo hi : BArr) : result BArr :=
  _ <~ c_assert (nbits (eltype lo) =? nbits (eltype hi)) ;;
  let out_nbits := nbits (eltype lo) + nbits (eltype hi) in
  out_btype <~ calcBShareBacktype out_nbits ;;
  Ok (mkArr (mkBShrTy out_btype out_nbits) (shape lo)
        (pforeach (numel lo) (fun idx =>
           let l := view2 (elems lo) idx in
           let h := view2 (elems hi) idx in
           (wrap out_btype
              (Z.lor (slot0 l) (Z.shiftl (wrap out_btype (slot0 h)) (nbits (eltype lo)))),
            unwritten)))).

Definition pack_2_bitvec_rss (lo hi : BArr) : result BArr :=
  _ <~ c_assert (nbits (eltype lo) =? nbits (eltype hi)) ;;
  let out_nbits := nbits (eltype lo) + nbits (eltype hi) in
  out_btype <~ calcBShareBacktype out_nbits ;;
  Ok (mkArr (mkBShrTy out_btype out_nbits) (shape lo)
        (pforeach (numel lo) (fun idx =>
           let l := view2 (elems lo) idx in
           let h := view2 (elems hi) idx in
           (wrap out_btype
              (Z.lor (slot0 l) (Z.shiftl (wrap out_btype (slot0 h)) (nbits (eltype lo)))),
            wrap out_btype
              (Z.lor (slot1 l) (Z.shiftl (wrap out_btype (slot1 h)) (nbits (eltype lo)))))))).

Definition pack_2_bitvec_mss (lo hi : MArr) : result MArr :=
  _ <~ c_assert (nbits (eltype lo) =? nbits (eltype hi)) ;;
  let out_nbits := nbits (eltype lo) + nbits (eltype hi) in
  out_btype <~ calcBShareBacktype out_nbits ;;
  Ok (mkArr (mkBShrTy out_btype out_nbits) (shape lo)
        (pforeach (numel lo) (fun idx =>
           let l := view3 (elems lo) idx in
           let h := view3 (elems hi) idx in
           (wrap out_btype
              (Z.lor (mslot0 l) (Z.shiftl (wrap out_btype (mslot0 h)) (nbits (eltype lo)))),
            wrap out_btype
              (Z.lor (mslot1 l) (Z.shiftl (wrap out_btype (mslot1 h)) (nbits (eltype lo)))),
            wrap out_btype
              (Z.lor (mslot2 l) (Z.shiftl (wrap out_btype (mslot2 h)) (nbits (eltype lo)))))))).

(** The two masks of the unpack loops, [(1 << lo_nbits) - 1] and
    [(1 << hi_nbits) - 1].  They are evaluated by the loop body, so not
    at all on an empty array. *)
Definition unpack_masks (n : nat) (lo_nbits hi_nbits : Z) : result (Z * Z) :=
  match n with
  | O => Ok (0, 0)
  | S _ => ml <~ int_mask lo_nbits ;; mh <~ int_mask hi_nbits ;; Ok (ml, mh)
  end.

(** Each unpack returns [std::make_pair(hi, lo)]. *)
Definition unpack_2_bitvec_ass (inp : BArr) : result (BArr * BArr) :=
  let in_nbits := nbits (eltype inp) in
  _ <~ c_assert (negb (in_nbits =? 0) && (in_nbits mod 2 =? 0)) ;;
  let lo_nbits := in_nbits / 2 in
  let hi_nbits := in_nbits - lo_nbits in
  lo_btype <~ calcBShareBacktype lo_nbits ;;
  hi_btype <~ calcBShareBacktype hi_nbits ;;
  m <~ unpack_masks (numel inp) lo_nbits hi_nbits ;;
  let lo := mkArr (mkBShrTy lo_btype lo_nbits) (shape inp)
              (pforeach (numel inp) (fun idx =>
                 let i := view2 (elems inp) idx in
                 (wrap lo_btype (Z.land (slot0 i) (fst m)), unwritten))) in
  let hi := mkArr (mkBShrTy hi_btype hi_nbits) (shape inp)
              (pforeach (numel inp) (fun idx =>
                 let i := view2 (elems inp) idx in
                 (wrap hi_btype (Z.land (Z.shiftr (slot0 i) lo_nbits) (snd m)), unwritten))) in
  Ok (hi, lo).

Definition unpack_2_bitvec_rss (inp : BArr) : result (BArr * BArr) :=
  let in_nbits := nbits (eltype inp) in
  _ <~ c_assert (negb (in_nbits =? 0) && (in_nbits mod 2 =? 0)) ;;
  let lo_nbits := in_nbits / 2 in
  let hi_nbits := in_nbits - lo_nbits in
  lo_btype <~ calcBShareBacktype lo_nbits ;;
  hi_btype <~ calcBShareBacktype hi_nbits ;;
  m <~ unpack_masks (numel inp) lo_nbits hi_nbits ;;
  let lo := mkArr (mkBShrTy lo_btype lo_nbits) (shape inp)
              (pforeach (numel inp) (fun idx =>
                 let i := view2 (elems inp) idx in
                 (wrap lo_btype (Z.land (slot0 i) (fst m)),
                  wrap lo_btype (Z.land (slot1 i) (fst m))))) in
  let hi := mkArr (mkBShrTy hi_btype hi_nbits) (shape inp)
              (pforeach (numel inp) (fun idx =>
                 let i := view2 (elems inp) idx in
                 (wrap hi_btype (Z.land (Z.shiftr (slot0 i) lo_nbits) (snd m)),
                  wrap hi_btype (Z.land (Z.shiftr (slot1 i) lo_nbits) (snd m))))) in
  Ok (hi, lo).

Definition unpack_2_bitvec_mss (inp : MArr) : result (MArr * MArr) :=
  let in_nbits := nbits (eltype inp) in
  _ <~ c_assert (negb (in_nbits =? 0) && (in_nbits mod 2 =? 0)) ;;
  let lo_nbits := in_nbits / 2 in
  let hi_nbits := in_nbits - lo_nbits in
  lo_btype <~ calcBShareBacktype lo_nbits ;;
  hi_btype <~ calcBShareBacktype hi_nbits ;;
  m <~ unpack_masks (numel inp) lo_nbits hi_nbits ;;
  let lo := mkArr (mkBShrTy lo_btype lo_nbits) (shape inp)
              (pforeach (numel inp) (fun idx =>
                 let i := view3 (elems inp) idx in
                 (wrap lo_btype (Z.land (mslot0 i) (fst m)),
                  wrap lo_btype (Z.land (mslot1 i) (fst m)),
                  wrap lo_btype (Z.land (mslot2 i) (fst m))))) in
  let hi := mkArr (mkBShrTy hi_btype hi_nbits) (shape inp)
              (pforeach (numel inp) (fun idx =>
                 let i := view3 (elems inp) idx in
                 (wrap hi_btype (Z.land (Z.shiftr (mslot0 i) lo_nbits) (snd m)),
                  wrap hi_btype (Z.land (Z.shiftr (mslot1 i) lo_nbits) (snd m)),
                  wrap hi_btype (Z.land (Z.shiftr (mslot2 i) lo_nbits) (snd m))))) in
  Ok (hi, lo).

(* ================================================================== *)
(** ** bit_split: even and odd bits apart *)

Definition kSwapMasks : list Z :=
  [ MakeUint128 0x2222222222222222 0x2222222222222222;   (* 4bit *)
    MakeUint128 0x0C0C0C0C0C0C0C0C 0x0C0C0C0C0C0C0C0C;   (* 8bit *)
    MakeUint128 0x00F000F000F000F0 0x00F000F000F000F0;   (* 16bit *)
    MakeUint128 0x0000FF000000FF00 0x0000FF000000FF00;   (* 32bit *)
    MakeUint128 0x00000000FFFF0000 0x00000000FFFF0000;   (* 64bit *)
    MakeUint128 0x0000000000000000 0xFFFFFFFF00000000 ]. (* 128bit *)

Definition kKeepMasks : list Z :=
  [ MakeUint128 0x9999999999999999 0x9999999999999999;   (* 4bit *)
    MakeUint128 0xC3C3C3C3C3C3C3C3 0xC3C3C3C3C3C3C3C3;   (* 8bit *)
    MakeUint128 0xF00FF00FF00FF00F 0xF00FF00FF00FF00F;   (* 16bit *)
    MakeUint128 0xFF0000FFFF0000FF 0xFF0000FFFF0000FF;   (* 32bit *)
    MakeUint128 0xFFFF00000000FFFF 0xFFFF00000000FFFF;   (* 64bit *)
    MakeUint128 0xFFFFFFFF00000000 0x00000000FFFFFFFF ]. (* 128bit *)

(** One pass of the butterfly on a scalar of type [in_t]:
    [r = (r & keep) ^ ((r >> shift) & move) ^ ((r & move) << shift)]. *)
Definition swap_pass (in_t : PtType) (k : nat) (r : Z) : Z :=
  let keep := wrap in_t (nth k kKeepMasks 0) in
  let move := wrap in_t (nth k kSwapMasks 0) in
  let shift := Z.shiftl 1 (Z.of_nat k) in
  wrap in_t (Z.lxor (Z.lxor (Z.land r keep) (Z.land (Z.shiftr r shift) move))
                    (Z.shiftl (Z.land r move) shift)).

(** [for (int k = 0; k + 1 < Log2Ceil(in_nbits); k++)], from pass [k]
    on, [fuel] passes at most. *)
Fixpoint swap_passes (in_t : PtType) (in_nbits : Z) (fuel k : nat) (r : Z) : Z :=
  match fuel with
  | O => r
  | S fuel' =>
      if Z.of_nat k + 1 <? Log2Ceil in_nbits
      then swap_passes in_t in_nbits fuel' (S k) (swap_pass in_t k r)
      else r
  end.

Definition butterfly (in_t : PtType) (in_nbits : Z) (r : Z) : Z :=
  swap_passes in_t in_nbits 6 0 r.

(** bit_split on a B/RSS array; returns [std::make_pair(hi, lo)]. *)
Definition bit_split (inp : BArr) : result (BArr * BArr) :=
  let in_t := getBacktype (eltype inp) in
  let in_nbits := nbits (eltype inp) in
  _ <~ enforce (negb (in_nbits =? 0) && (in_nbits mod 2 =? 0)) ;;
  let out_nbits := in_nbits / 2 in
  out_backtype <~ calcBShareBacktype out_nbits ;;
  let n := numel inp in
  if SizeOf out_backtype <=? 8 then
    (* const out_el_t M = (out_el_t(1) << (in_nbits / 2)) - 1, in the loop body *)
    M <~ match n with
         | O => Ok 0
         | S _ => p <~ shl1 out_backtype (in_nbits / 2) ;; Ok (wrap out_backtype (p - 1))
         end ;;
    let S := 0x5555555555555555 in
    let nS := 0xAAAAAAAAAAAAAAAA in
    let lo := mkArr (mkBShrTy out_backtype out_nbits) (shape inp)
                (pforeach n (fun idx =>
                   let r := view2 (elems inp) idx in
                   (wrap out_backtype (Z.land (pext_u64 (slot0 r) S) M),
                    wrap out_backtype (Z.land (pext_u64 (slot1 r) S) M)))) in
    let hi := mkArr (mkBShrTy out_backtype out_nbits) (shape inp)
                (pforeach n (fun idx =>
                   let r := view2 (elems inp) idx in
                   (wrap out_backtype (Z.land (pext_u64 (slot0 r) nS) M),
                    wrap out_backtype (Z.land (pext_u64 (slot1 r) nS) M)))) in
    Ok (hi, lo)
  else
    mask <~ match n with
            | O => Ok 0
            | S _ => p <~ shl1 in_t (in_nbits / 2) ;; Ok (wrap in_t (p - 1))
            end ;;
    let lo := mkArr (mkBShrTy out_backtype out_nbits) (shape inp)
                (pforeach n (fun idx =>
                   let r := view2 (elems inp) idx in
                   let r0 := butterfly in_t in_nbits (slot0 r) in
                   let r1 := butterfly in_t in_nbits (slot1 r) in
                   (wrap out_backtype (Z.land (wrap out_backtype r0) mask),
                    wrap out_backtype (Z.land (wrap out_backtype r1) mask)))) in
    let hi := mkArr (mkBShrTy out_backtype out_nbits) (shape inp)
                (pforeach n (fun idx =>
                   let r := view2 (elems inp) idx in
                   let r0 := butterfly in_t in_nbits (slot0 r) in
                   let r1 := butterfly in_t in_nbits (slot1 r) in
                   (wrap out_backtype
                      (Z.land (wrap out_backtype (Z.shiftr r0 (in_nbits / 2))) mask),
                    wrap out_backtype
                      (Z.land (wrap out_backtype (Z.shiftr r1 (in_nbits / 2))) mask)))) in
    Ok (hi, lo).

(** bit_split_mss on a B/MSS array: the butterfly on all three slots;
    returns [std::make_pair(hi, lo)]. *)
Definition bit_split_mss (inp : MArr) : result (MArr * MArr) :=
  let in_t := getBacktype (eltype inp) in
  let in_nbits := nbits (eltype inp) in
  _ <~ enforce (negb (in_nbits =? 0) && (in_nbits mod 2 =? 0)) ;;
  let out_nbits := in_nbits / 2 in
  out_backtype <~ calcBShareBacktype out_nbits ;;
  let n := numel inp in
  mask <~ match n with
          | O => Ok 0
          | S _ => p <~ shl1 in_t (in_nbits / 2) ;; Ok (wrap in_t (p - 1))
          end ;;
  let lo_of (r : Z) := wrap out_backtype (Z.land (wrap out_backtype r) mask) in
  let hi_of (r : Z) :=
    wrap out_backtype (Z.land (wrap out_backtype (Z.shiftr r (in_nbits / 2))) mask) in
  let lo := mkArr (mkBShrTy out_backtype out_nbits) (shape inp)
              (pforeach n (fun idx =>
                 let r := view3 (elems inp) idx in
                 let r0 := butterfly in_t in_nbits (mslot0 r) in
                 let r1 := butterfly in_t in_nbits (mslot1 r) in
                 let r2 := butterfly in_t in_nbits (mslot2 r) in
                 (lo_of r0, lo_of r1, lo_of r2))) in
  let hi := mkArr (mkBShrTy out_backtype out_nbits) (shape inp)
              (pforeach n (fun idx =>
                 let r := view3 (elems inp) idx in
                 let r0 := butterfly in_t in_nbits (mslot0 r) in
                 let r1 := butterfly in_t in_nbits (mslot1 r) in
                 let r2 := butterfly in_t in_nbits (mslot2 r) in
                 (hi_of r0, hi_of r1, hi_of r2))) in
  Ok (hi, lo).

(* ================================================================== *)
(** ** B2A *)

Definition zero_ashare (field : FieldType) (inp : BArr) : AArr :=
  mkArr field (shape inp) (pforeach (numel inp) (fun _ => (0, 0))).

(** [bitDecompose<T>(in, nbits)]: [dep[idx * nbits + bit]]. *)
Definition bitDecompose (inp : list Z) (n : nat) (nb : nat) : list bool :=
  concat (pforeach n (fun idx =>
    pforeach nb (fun bit =>
      negb (Z.land (Z.shiftr (view1 inp idx) (Z.of_nat bit)) 1 =? 0)))).

(** [bitCompose<T>(in, nbits)] on [n * nbits] scalars of type [t]. *)
Definition bitCompose (t : PtType) (inp : list Z) (n : nat) (nb : nat) : list Z :=
  pforeach n (fun idx =>
    fold_left (fun acc bit =>
                 wrap t (acc + Z.shiftl (view1 inp (idx * nb + bit)) (Z.of_nat bit)))
              (seq 0 nb) 0).

Section B2A.

(** [add_bb] of ab_api.h, a kernel of the surrounding framework, is
    taken as a parameter. *)
Variable add_bb : Parties BArr -> Parties BArr -> Proto (Parties BArr).

Definition wrap_add_bb (x y : Parties BArr) : Proto (Parties BArr) :=
  _ <- each_party (fun rank =>
         enforce (if list_eq_dec Nat.eq_dec (shape (pget x rank)) (shape (pget y rank))
                  then true else false)) ;;
  add_bb x y.

(** B2AByPPA::proc. *)
Definition B2AByPPA (inp : Parties BArr) : Proto (Parties AArr) :=
  field <- getDefaultField ;;
  let el := GetStorageType field in
  pre <- each_party (fun rank =>
           let inp := pget inp rank in
           _ <~ enforce (nbits (eltype inp) <=? SizeOfField field * 8) ;;
           Ok (nbits (eltype inp) =? 0)) ;;
  if party0 pre && party1 pre && party2 pre then
    (* special case, it's known to be zero. *)
    ret (ptab (fun rank => zero_ashare field (pget inp rank)))
  else
    expanded_bt <- lift (calcBShareBacktype (SizeOfField field * 8)) ;;
    expanded_ty <- lift (makeBShrTy expanded_bt (SizeOfField field * 8)) ;;
    (* first expand b share to a share length. *)
    let x := ptab (fun rank =>
               let inp := pget inp rank in
               mkArr expanded_ty (shape inp)
                 (pforeach (numel inp) (fun idx =>
                    let v := view2 (elems inp) idx in
                    (wrap el (slot0 v), wrap el (slot1 v))))) in
    prss_a <- fillPrssPair ;;
    prss_b <- fillPrssPair ;;
    let n rank := numel (pget inp rank) in
    let ra rank := prss_a rank GenPrssCtrl.Both el (n rank) (zeros (n rank)) (zeros (n rank)) in
    let rb rank := prss_b rank GenPrssCtrl.Both el (n rank) (zeros (n rank)) (zeros (n rank)) in
    let rb0 := ptab (fun rank =>
                 pforeach (n rank) (fun idx =>
                   let zb := Z.lxor (view1 (fst (rb rank)) idx) (view1 (snd (rb rank)) idx) in
                   if rank =? 1
                   then wrap el (Z.lxor zb (wrap el (view1 (fst (ra rank)) idx
                                                      + view1 (snd (ra rank)) idx)))
                   else zb)) in
    rb1 <- rotate "b2a.rand" rb0 ;;
    (* compute [x+r]B *)
    let r := ptab (fun rank =>
               mkArr expanded_ty (shape (pget inp rank))
                 (pforeach (n rank) (fun idx =>
                    (view1 (pget rb0 rank) idx, view1 (pget rb1 rank) idx)))) in
    x_plus_r <- wrap_add_bb x r ;;
    (* reveal *)
    x_plus_r_2 <- send_recv "reveal.x_plus_r.to.P0" 2 0
                    (pforeach (n 2) (fun idx => slot0 (view2 (elems (pget x_plus_r 2)) idx))) ;;
    (* P0 hold x+r, P1 & P2 hold -r, reuse ra0 and ra1 as output *)
    let ra0 := ptab (fun rank =>
                 pforeach (n rank) (fun idx =>
                   if rank =? 0
                   then let x_r_v := view2 (elems (pget x_plus_r rank)) idx in
                        wrap el (Z.lxor (Z.lxor (slot0 x_r_v) (slot1 x_r_v))
                                        (view1 x_plus_r_2 idx))
                   else wrap el (- view1 (fst (ra rank)) idx))) in
    ra1 <- rotate "b2a.rotate" ra0 ;;
    ret (ptab (fun rank =>
           mkArr field (shape (pget inp rank))
             (pforeach (n rank) (fun idx =>
                (view1 (pget ra0 rank) idx, view1 (pget ra1 rank) idx))))).

(** The three roles of B2AByOT and of eqz, from one public draw. *)
Definition roles (pivot : Z) : Z * Z * Z :=
  (pivot mod 3, ((pivot + 1) mod 2 ^ 64) mod 3, ((pivot + 2) mod 2 ^ 64) mod 3).

Definition roles_distinct (P0 P1 P2 : Z) : bool :=
  negb (P0 =? P1) && negb (P1 =? P2) && negb (P0 =? P2).

(** B2AByOT::proc.  A party whose rank is none of the three roles
    throws. *)
Definition B2AByOT (inp : Parties BArr) : Proto (Parties AArr) :=
  field <- getDefaultField ;;
  let el := GetStorageType field in
  pre <- each_party (fun rank =>
           let inp := pget inp rank in
           _ <~ enforce (nbits (eltype inp) <=? SizeOfField field * 8) ;;
           Ok (nbits (eltype inp) =? 0)) ;;
  if party0 pre && party1 pre && party2 pre then
    (* special case, it's known to be zero. *)
    ret (ptab (fun rank => zero_ashare field (pget inp rank)))
  else
    pivot <- fillPubl ;;
    let '(P0, P1, P2) := roles pivot in
    _ <- lift (if roles_distinct P0 P1 P2 then Ok tt else Err Thrown) ;;
    let n rank := numel (pget inp rank) in
    let nb rank := Z.to_nat (nbits (eltype (pget inp rank))) in
    let total rank := (n rank * nb rank)%nat in
    prss_r <- fillPrssPair ;;
    let r rank := prss_r rank GenPrssCtrl.Both el (total rank) (zeros (total rank)) (zeros (total rank)) in
    (* gen masks with helper: First at the helper, Second at the sender,
       None at the receiver. *)
    prss_m0 <- fillPrssPair ;;
    prss_m1 <- fillPrssPair ;;
    (* the helper P0 *)
    let h_b2 := bitDecompose (map slot1 (elems (pget inp P0))) (n P0) (nb P0) in
    let h_m0 := fst (prss_m0 P0 GenPrssCtrl.First el (total P0) (zeros (total P0)) (zeros (total P0))) in
    let h_m1 := fst (prss_m1 P0 GenPrssCtrl.First el (total P0) (zeros (total P0)) (zeros (total P0))) in
    let h_mc := pforeach (total P0) (fun idx =>
                  if negb (nth idx h_b2 false) then view1 h_m0 idx else view1 h_m1 idx) in
    mc <- send_recv "mc" P0 P1 h_mc ;;
    let h_c1 := bitCompose el (fst (r P0)) (n P0) (nb P0) in
    (* the sender P2 *)
    let s_c3 := bitCompose el (fst (r P2)) (n P2) (nb P2) in
    let s_c1 := bitCompose el (snd (r P2)) (n P2) (nb P2) in
    let s_r0 := concat (pforeach (n P2) (fun idx =>
                  let x := view2 (elems (pget inp P2)) idx in
                  let xx := Z.lxor (slot0 x) (slot1 x) in
                  pforeach (nb P2) (fun bit =>
                    let flat_idx := (idx * nb P2 + bit)%nat in
                    let t := wrap el (view1 (fst (r P2)) flat_idx + view1 (snd (r P2)) flat_idx) in
                    wrap el (Z.land (Z.shiftr xx (Z.of_nat bit)) 1 - t)))) in
    let s_r1 := concat (pforeach (n P2) (fun idx =>
                  let x := view2 (elems (pget inp P2)) idx in
                  let xx := Z.lxor (slot0 x) (slot1 x) in
                  pforeach (nb P2) (fun bit =>
                    let flat_idx := (idx * nb P2 + bit)%nat in
                    let t := wrap el (view1 (fst (r P2)) flat_idx + view1 (snd (r P2)) flat_idx) in
                    wrap el (Z.land (Z.shiftr (Z.lnot xx) (Z.of_nat bit)) 1 - t)))) in
    let s_m0 := snd (prss_m0 P2 GenPrssCtrl.Second el (total P2) (zeros (total P2)) (zeros (total P2))) in
    let s_m1 := snd (prss_m1 P2 GenPrssCtrl.Second el (total P2) (zeros (total P2)) (zeros (total P2))) in
    m0 <- send_recv "m0" P2 P1
            (pforeach (total P2) (fun idx => Z.lxor (view1 s_m0 idx) (view1 s_r0 idx))) ;;
    m1 <- send_recv "m1" P2 P1
            (pforeach (total P2) (fun idx => Z.lxor (view1 s_m1 idx) (view1 s_r1 idx))) ;;
    (* the receiver P1 *)
    let v_b2 := bitDecompose (map slot0 (elems (pget inp P1))) (n P1) (nb P1) in
    let v_mc := pforeach (total P1) (fun idx =>
                  if negb (nth idx v_b2 false)
                  then Z.lxor (view1 m0 idx) (view1 mc idx)
                  else Z.lxor (view1 m1 idx) (view1 mc idx)) in
    let v_c2 := bitCompose el v_mc (n P1) (nb P1) in
    c2 <- send_recv "c2" P1 P0 v_c2 ;;
    let v_c3 := bitCompose el (snd (r P1)) (n P1) (nb P1) in
    ret (ptab (fun rank =>
           mkArr field (shape (pget inp rank))
             (pforeach (n rank) (fun idx =>
                if rank =? P0 then (view1 h_c1 idx, view1 c2 idx)
                else if rank =? P1 then (view1 v_c2 idx, view1 v_c3 idx)
                else (view1 s_c3 idx, view1 s_c1 idx))))).

(** The two ways [B2ASelector] can go. *)
Inductive B2AVariant : Type := ByOT | ByPPA.

Definition B2ASelector_choice (in_nbits : Z) : B2AVariant :=
  if in_nbits <=? 8 then ByOT else ByPPA.

(** B2ASelector::proc.  Each party decides on its own [in_ty->nbits()];
    the three views of one array carry the same type. *)
Definition B2ASelector (inp : Parties BArr) : Proto (Parties AArr) :=
  match B2ASelector_choice (nbits (eltype (party0 inp))) with
  | ByOT => B2AByOT inp
  | ByPPA => B2AByPPA inp
  end.

End B2A.

(* ================================================================== *)
(** ** Equality to zero *)

(** The object representation that [std::memcpy] copies out of a vector
    of [nb]-byte scalars (little-endian host). *)
Definition bytes_of (nb : nat) (v : Z) : list Z :=
  pforeach nb (fun i => (v / 2 ^ (8 * Z.of_nat i)) mod 256).

Definition memcpy_bytes (nb : nat) (src : list Z) (n : nat) : list Z :=
  concat (pforeach n (fun idx => bytes_of nb (view1 src idx))).

(** One party's split of [round_res] into [left_bits] and [right_bits].
    With more than one byte per element, index [idx] copies
    [byte_num_el / 2] bytes to the cells from [cur_byte_idx / 2] on, which
    is run [idx] of the concatenation ([byte_num_el] is even). *)
Definition eqz_split (numel cur_bytes cur_bits : nat) (round_res : list Z) : list Z * list Z :=
  if (cur_bytes =? numel)%nat then
    (* cur_bits <= 8, use rshift to split in half *)
    (pforeach numel (fun idx =>
       Z.shiftr (view1 round_res idx) (Z.of_nat (cur_bits / (numel * 2)))),
     pforeach numel (fun idx => view1 round_res idx))
  else
    (* cur_bits > 8 *)
    let byte_num_el := (cur_bytes / numel)%nat in
    (concat (pforeach numel (fun idx =>
       let cur_byte_idx := (idx * byte_num_el)%nat in
       pforeach (byte_num_el / 2) (fun i => view1 round_res (cur_byte_idx + i)))),
     concat (pforeach numel (fun idx =>
       let cur_byte_idx := (idx * byte_num_el)%nat in
       pforeach (byte_num_el / 2) (fun i =>
         view1 round_res (cur_byte_idx + byte_num_el / 2 + i))))).

(** The loop [while (cur_bits != cur_numel)], run by all parties: split,
    AND the halves (RSS x RSS with a PRSS mask), rotate. *)
Fixpoint eqz_and_tree (fuel : nat) (numel cur_bytes cur_bits : nat)
    (round_res : Parties (list Z * list Z)) : Proto (Parties (list Z * list Z)) :=
  match fuel with
  | O => lift (Err OutOfFuel)
  | S fuel' =>
      if (cur_bits =? numel)%nat then ret round_res
      else
        let half_num_bytes :=
          if (cur_bytes =? numel)%nat then numel else (cur_bytes / 2)%nat in
        prss <- fillPrssPair ;;
        let r0 := ptab (fun rank =>
          let res := pget round_res rank in
          let lr0 := eqz_split numel cur_bytes cur_bits (fst res) in
          let lr1 := eqz_split numel cur_bytes cur_bits (snd res) in
          let '(m0, m1) := prss rank GenPrssCtrl.Both PT_U8 half_num_bytes
                             (zeros half_num_bytes) (zeros half_num_bytes) in
          (* z1 = (x1 & y1) ^ (x1 & y2) ^ (x2 & y1) ^ (r0 ^ r1); *)
          pforeach half_num_bytes (fun idx =>
            Z.lxor (Z.lxor (Z.lxor (Z.land (view1 (fst lr0) idx) (view1 (snd lr0) idx))
                                   (Z.land (view1 (fst lr0) idx) (view1 (snd lr1) idx)))
                           (Z.land (view1 (fst lr1) idx) (view1 (snd lr0) idx)))
                   (Z.lxor (view1 m0 idx) (view1 m1 idx)))) in
        r1 <- rotate "andbb" r0 ;;
        eqz_and_tree fuel' numel half_num_bytes (cur_bits / 2)
          (ptab (fun rank => (pget r0 rank, pget r1 rank)))
  end.

(** The first half of eqz.  P0 deals [r] as [r]a and [r]b; P1 and P2
    open c = a + r; the flag not(c xor r) is shared again among the
    three: [zero_flag_3pc_0] and [zero_flag_3pc_1] at every party.  When
    the three roles are not three different ranks, the sends and
    receives of the parties no longer pair up. *)
Definition eqz_flags (field : FieldType) (in_bshr_btype : PtType) (n : nat)
    (inp : Parties AArr) : Proto (Parties (list Z * list Z)) :=
  let el := GetStorageType field in
  pivot <- fillPubl ;;
  let '(P0, P1, P2) := roles pivot in
  _ <- lift (if roles_distinct P0 P1 P2 then Ok tt else Err ProtocolError) ;;
  (* the dealer P0 *)
  r <- fillPriv P0 el n ;;
  prss_arith <- fillPrssPair ;;
  prss_bool <- fillPrssPair ;;
  let r_arith_0 := snd (prss_arith P0 GenPrssCtrl.Second el n (zeros n) (zeros n)) in
  let r_bool_0 := snd (prss_bool P0 GenPrssCtrl.Second in_bshr_btype n (zeros n) (zeros n)) in
  let r_arith_1 := pforeach n (fun idx => wrap el (view1 r idx - view1 r_arith_0 idx)) in
  r_arith_P2 <- send_recv "r_arith" P0 P2 r_arith_1 ;;
  let r_bool_1 :=
    pforeach n (fun idx => wrap in_bshr_btype (Z.lxor (view1 r idx) (view1 r_bool_0 idx))) in
  r_bool_P2 <- send_recv "r_bool" P0 P2 r_bool_1 ;;
  (* P1 and P2 *)
  let a_s_P1 := pforeach n (fun idx =>
                  let v := view2 (elems (pget inp P1)) idx in wrap el (slot0 v + slot1 v)) in
  let r_arith_P1 := fst (prss_arith P1 GenPrssCtrl.First el n (zeros n) (zeros n)) in
  let r_bool_P1 := fst (prss_bool P1 GenPrssCtrl.First in_bshr_btype n (zeros n) (zeros n)) in
  let a_s_P2 := pforeach n (fun idx => slot1 (view2 (elems (pget inp P2)) idx)) in
  (* c in secret share *)
  let c_s_P1 := pforeach n (fun idx => wrap el (view1 r_arith_P1 idx + view1 a_s_P1 idx)) in
  let c_s_P2 := pforeach n (fun idx => wrap el (view1 r_arith_P2 idx + view1 a_s_P2 idx)) in
  c_p <- send_recv "c_s" P2 P1 c_s_P2 ;;
  (* reveal c *)
  let c_p := pforeach n (fun idx => wrap el (view1 c_p idx + view1 c_s_P1 idx)) in
  prss_z <- fillPrssPair ;;
  let r_z := fst (prss_z P1 GenPrssCtrl.First in_bshr_btype n (zeros n) (zeros n)) in
  let zero_flag_2pc :=
    pforeach n (fun idx =>
      wrap in_bshr_btype
        (Z.lxor (Z.lnot (Z.lxor (view1 c_p idx) (view1 r_bool_P1 idx))) (view1 r_z idx))) in
  flag_split <- send_recv "flag_split" P1 P2 zero_flag_2pc ;;
  ret (ptab (fun rank =>
    if rank =? P0 then
      (* P0 zero_flag = (rb1, rz) *)
      (pforeach n (fun idx => view1 r_bool_1 idx),
       snd (prss_z P0 GenPrssCtrl.Second in_bshr_btype n (zeros n) (zeros n)))
    else if rank =? P1 then
      (pforeach n (fun idx => view1 r_z idx),
       pforeach n (fun idx => view1 zero_flag_2pc idx))
    else
      (pforeach n (fun idx => view1 flag_split idx),
       pforeach n (fun idx => view1 r_bool_P2 idx)))).

(** eqz: the flags, then the AND tree over their bytes; the result is an
    8-bit B/RSS array. *)
Definition eqz (inp : Parties AArr) : Proto (Parties BArr) :=
  let field := eltype (party0 inp) in
  in_bshr_btype <- lift (calcBShareBacktype (SizeOfField field * 8)) ;;
  out_btype <- lift (calcBShareBacktype 8) ;;
  let n := numel (party0 inp) in
  zero_flag_3pc <- eqz_flags field in_bshr_btype n inp ;;
  (* do log k round bit wise and *)
  let cur_bytes := (Z.to_nat (SizeOfField field) * n)%nat in
  let cur_bits := (cur_bytes * 8)%nat in
  let nb := Z.to_nat (SizeOfField field) in
  round_res <- eqz_and_tree 8 n cur_bytes cur_bits
                 (ptab (fun rank =>
                    (memcpy_bytes nb (fst (pget zero_flag_3pc rank)) n,
                     memcpy_bytes nb (snd (pget zero_flag_3pc rank)) n))) ;;
  ret (ptab (fun rank =>
         mkArr (mkBShrTy out_btype 8) (shape (pget inp rank))
           (pforeach n (fun idx =>
              (view1 (fst (pget round_res rank)) idx,
               view1 (snd (pget round_res rank)) idx))))).

Definition field_eqb (a b : FieldType) : bool :=
  match a, b with
  | FM32, FM32 | FM64, FM64 | FM128, FM128 => true
  | _, _ => false
  end.

(** EqualAA::proc. *)
Definition EqualAA (lhs rhs : Parties AArr) : Proto (Parties BArr) :=
  out <- each_party (fun rank =>
    let lhs := pget lhs rank in
    let rhs := pget rhs rank in
    _ <~ enforce (field_eqb (eltype lhs) (eltype rhs)) ;;
    let field := eltype lhs in
    let el := GetStorageType field in
    Ok (mkArr field (shape lhs)
          (pforeach (numel lhs) (fun idx =>
             let l := view2 (elems lhs) idx in
             let r := view2 (elems rhs) idx in
             (wrap el (slot0 l - slot0 r), wrap el (slot1 l - slot1 r)))))) ;;
  eqz out.

(** EqualAP::proc. *)
Definition EqualAP (lhs : Parties AArr) (rhs : Parties PArr) : Proto (Parties BArr) :=
  out <- each_party (fun rank =>
    let lhs := pget lhs rank in
    let rhs := pget rhs rank in
    _ <~ enforce (field_eqb (eltype lhs) (eltype rhs)) ;;
    let field := eltype lhs in
    let el := GetStorageType field in
    Ok (mkArr field (shape lhs)
          (pforeach (numel lhs) (fun idx =>
             let l := view2 (elems lhs) idx in
             let r := view1 (elems rhs) idx in
             (if rank =? 1 then wrap el (slot0 l - r) else slot0 l,
              if rank =? 0 then wrap el (slot1 l - r) else slot1 l))))) ;;
  eqz out.

(* ================================================================== *)
(** ** Multi-operand AND (MssAnd3NoComm, MssAnd4NoComm) *)

Definition MssAnd3NoComm (op1 op2 op3 : Parties MArr) : Proto (Parties BArr) :=
  lo_res <- MssAnd2NoComm op1 op2 ;;
  hi_res <- local1 ResharingMss2Rss op3 ;;
  RssAnd2NoComm lo_res hi_res.

Definition MssAnd4NoComm (op1 op2 op3 op4 : Parties MArr) : Proto (Parties BArr) :=
  lo_res <- MssAnd2NoComm op1 op2 ;;
  hi_res <- MssAnd2NoComm op3 op4 ;;
  RssAnd2NoComm lo_res hi_res.

(* ================================================================== *)
(** ** The first step shared by MsbA2BMultiFanIn and A2BMultiFanIn *)

(** Step 1: the A/RSS input becomes two B/MSS operands m and n with
    x = m + n, by one broadcast of Dm from rank 0 and one message with Dn
    from [start_rank_next] to [start_rank].  Then the signals
    p = m xor n and g = m and n. *)
Definition a2b_signals (start_rank : Z) (inp : Parties AArr)
    : Proto (Parties MArr * Parties MArr) :=
  let start_rank_next := (start_rank + 1) mod 3 in
  let field := eltype (party0 inp) in
  let el := GetStorageType field in
  mss_bshr_type <- lift (makeBShrTy (GetStorageType field) (SizeOfField field * 8)) ;;
  let n := numel (party0 inp) in
  fl <- getFlags ;;
  prss <- fillPrssPair ;;
  let r01 rank :=
    (* #ifndef EQ_USE_PRG_STATE *)
    fill_unless (EQ_USE_PRG_STATE fl) n
      (prss rank GenPrssCtrl.Both el n (zeros n) (zeros n)) in
  (* copy the correlated randomness into m and n *)
  let r1 := ptab (fun rank =>
    pforeach n (fun idx =>
      let i := view2 (elems (pget inp rank)) idx in
      let r0 := view1 (fst (r01 rank)) idx in
      let r1 := view1 (snd (r01 rank)) idx in
      if rank =? start_rank then
        wrap el (Z.lxor r1 (Z.lxor r0 (wrap el (slot0 i + slot1 i))))
      else if rank =? start_rank_next then
        wrap el (Z.lxor r1 (slot1 i))
      else r1)) in
  (* m and n before the external values arrive; the slot 0 that a party
     has not written yet is filled in below *)
  let m_pre rank idx :=
    let i := view2 (elems (pget inp rank)) idx in
    let r0 := view1 (fst (r01 rank)) idx in
    let r1_old := view1 (snd (r01 rank)) idx in
    if rank =? start_rank then (view1 (pget r1 rank) idx, r0, r1_old)
    else if rank =? start_rank_next then (unwritten, r0, 0)
    else (unwritten, 0, r1_old) in
  let n_pre rank idx :=
    let i := view2 (elems (pget inp rank)) idx in
    let r0 := view1 (fst (r01 rank)) idx in
    let r1_old := view1 (snd (r01 rank)) idx in
    if rank =? start_rank then (unwritten, 0, 0)
    else if rank =? start_rank_next then (view1 (pget r1 rank) idx, 0, r1_old)
    else (wrap el (Z.lxor (slot0 i) r0), r0, 0) in
  r0b <- bcast "MsbA2B, special resharing from ASS to MSS, broadcast Dm" 0 r1 ;;
  dn <- send_recv "MsbA2B, special resharing from ASS to MSS, send dn2"
          start_rank_next start_rank (pget r1 start_rank_next) ;;
  let r0 rank := if rank =? start_rank then dn else pget r0b rank in
  (* compute external value Dm, Dn *)
  let m := ptab (fun rank =>
    mkArr mss_bshr_type (shape (pget inp rank))
      (pforeach n (fun idx =>
         let '(m0, m1, m2) := m_pre rank idx in
         if rank =? start_rank then (m0, m1, m2)
         else (view1 (r0 rank) idx, m1, m2)))) in
  let nn := ptab (fun rank =>
    mkArr mss_bshr_type (shape (pget inp rank))
      (pforeach n (fun idx =>
         let '(n0, n1, n2) := n_pre rank idx in
         if rank =? start_rank then (view1 (r0 rank) idx, n1, n2)
         else (n0, n1, n2)))) in
  (* 4. generate signal p and g. *)
  sig_g_rss <- MssAnd2NoComm m nn ;;
  sig_g_ass <- local1 ResharingRss2Ass sig_g_rss ;;
  sig_g_mss <- ResharingAss2Mss sig_g_ass ;;
  let p := ptab (fun rank =>
    mkArr mss_bshr_type (shape (pget inp rank))
      (pforeach n (fun idx =>
         let a := view3 (elems (pget m rank)) idx in
         let b := view3 (elems (pget nn rank)) idx in
         (wrap el (Z.lxor (mslot0 a) (mslot0 b)),
          wrap el (Z.lxor (mslot1 a) (mslot1 b)),
          wrap el (Z.lxor (mslot2 a) (mslot2 b)))))) in
  let g := ptab (fun rank =>
    mkArr mss_bshr_type (shape (pget inp rank))
      (pforeach n (fun idx =>
         let a := view3 (elems (pget sig_g_mss rank)) idx in
         (wrap el (mslot0 a), wrap el (mslot1 a), wrap el (mslot2 a))))) in
  ret (p, g).

(* ================================================================== *)
(** ** MsbA2B *)

Definition split4 (x : Parties MArr)
    : Proto (Parties MArr * Parties MArr * Parties MArr * Parties MArr) :=
  hl <- local1 bit_split_mss x ;;
  let x_hi := ptab (fun rank => fst (pget hl rank)) in
  let x_lo := ptab (fun rank => snd (pget hl rank)) in
  s31 <- local1 bit_split_mss x_hi ;;
  s20 <- local1 bit_split_mss x_lo ;;
  ret (ptab (fun rank => snd (pget s20 rank)),     (* ops[0] *)
       ptab (fun rank => snd (pget s31 rank)),     (* ops[1] *)
       ptab (fun rank => fst (pget s20 rank)),     (* ops[2] *)
       ptab (fun rank => fst (pget s31 rank))).    (* ops[3] *)

(** The body of [while (k > 1)] up to the packed pair (p_res, g_combined). *)
Definition msb_cell (g p : Parties MArr) : Proto (Parties BArr) :=
  '(gops0, gops1, gops2, gops3) <- split4 g ;;
  '(pops0, pops1, pops2, pops3) <- split4 p ;;
  p_res <- MssAnd4NoComm pops0 pops1 pops2 pops3 ;;
  g3_rss <- local1 ResharingMss2Rss gops3 ;;
  g_res_3 <- local1 ResharingRss2Ass g3_rss ;;
  g2_rss <- MssAnd2NoComm gops2 pops3 ;;
  g_res_2 <- local1 ResharingRss2Ass g2_rss ;;
  g_res_1 <- MssAnd3NoComm gops1 pops3 pops2 ;;
  g_res_0 <- MssAnd4NoComm gops0 pops3 pops2 pops1 ;;
  g01 <- local2 AssXor2 g_res_0 g_res_1 ;;
  g23 <- local2 AssXor2 g_res_2 g_res_3 ;;
  g_combined <- local2 AssXor2 g01 g23 ;;
  local2 pack_2_bitvec_ass p_res g_combined.

(** [while (k > 1)]: returns the B/RSS array that [g] holds when the
    loop is left.  The loop is entered for every field (k starts at 31,
    63 or 127). *)
Fixpoint msb_loop (fuel : nat) (k : Z) (g p : Parties MArr) : Proto (Parties BArr) :=
  match fuel with
  | O => lift (Err OutOfFuel)
  | S fuel' =>
      pg <- msb_cell g p ;;
      (* online communication *)
      let k := k / 4 in
      if 1 <? k then
        pg <- ResharingAss2Mss pg ;;
        gp <- local1 unpack_2_bitvec_mss pg ;;
        msb_loop fuel' k (ptab (fun rank => fst (pget gp rank)))
                         (ptab (fun rank => snd (pget gp rank)))
      else
        pg <- ResharingAss2Rss pg ;;
        gp <- local1 unpack_2_bitvec_rss pg ;;
        ret (ptab (fun rank => fst (pget gp rank)))
  end.

(** MsbA2BMultiFanIn. *)
Definition MsbA2BMultiFanIn (inp : Parties AArr) (start_rank : Z) : Proto (Parties BArr) :=
  let field := eltype (party0 inp) in
  let el := GetStorageType field in
  rss_bshr_type <- lift (makeBShrTy (GetStorageType field) (SizeOfField field * 8)) ;;
  let n := numel (party0 inp) in
  '(p, g) <- a2b_signals start_rank inp ;;
  (* 5. PPA. *)
  let nbits := SizeOfField field * 8 - 1 in
  let k := nbits in
  top <- lift (match n with
               | O => Ok 0
               | S _ => shl1 PT_U64 nbits          (* 1ull << nbits *)
               end) ;;
  let out := ptab (fun rank =>
    pforeach n (fun idx =>
      let pe := view3 (elems (pget p rank)) idx in
      (wrap el (Z.shiftr (Z.lxor (mslot0 pe) (mslot1 pe)) nbits),
       wrap el (Z.shiftr (Z.lxor (mslot0 pe) (mslot2 pe)) nbits)))) in
  let p := ptab (fun rank =>
    mkArr (eltype (pget p rank)) (shape (pget p rank))
      (pforeach n (fun idx =>
         let pe := view3 (elems (pget p rank)) idx in
         (wrap el (Z.lor top (mslot0 pe)),
          wrap el (Z.land (top - 1) (mslot1 pe)),
          wrap el (Z.land (top - 1) (mslot2 pe)))))) in
  let g := ptab (fun rank =>
    mkArr (eltype (pget g rank)) (shape (pget g rank))
      (pforeach n (fun idx =>
         let ge := view3 (elems (pget g rank)) idx in
         (wrap el (Z.land (top - 1) (mslot0 ge)),
          wrap el (Z.land (top - 1) (mslot1 ge)),
          wrap el (Z.land (top - 1) (mslot2 ge)))))) in
  g_rss <- (if 1 <? k then msb_loop 8 k g p else lift (Err Undefined)) ;;
  ret (ptab (fun rank =>
         mkArr rss_bshr_type (shape (pget inp rank))
           (pforeach n (fun idx =>
              let o := view2 (pget out rank) idx in
              let ge := view2 (elems (pget g_rss rank)) idx in
              (wrap el (Z.lxor (slot0 o) (wrap PT_U8 (slot0 ge))),
               wrap el (Z.lxor (slot1 o) (wrap PT_U8 (slot1 ge)))))))).

(** MsbA2B::proc calls [MsbA2BMultiFanIn(ctx, in)]; the declaration's
    default for [start_rank] (conversion.h is not among the sources) is
    taken to be 0, the root of the broadcast. *)
Definition MsbA2B (inp : Parties AArr) : Proto (Parties BArr) :=
  MsbA2BMultiFanIn inp 0.

(* ================================================================== *)
(** ** A2B: the 4-ary prefix network on 64-bit words *)

(** Element-wise update of an ASS array in place: slot 0 and slot 1 of
    every element are replaced. *)
Definition upd2 (a : BArr) (f : nat -> Z * Z) : BArr :=
  mkArr (eltype a) (shape a) (pforeach (numel a) f).

(** PGCell_4FanIn4Out.  [_gr3[idx][s] ^= ...] and [_pr3[idx][s] ^= ...]
    update gr3_ass and pr3_ass (which is p0123_ass) in place; the scalar
    type is the back type of p0. *)
Definition PGCell_4FanIn4Out (p0 p1 p2 p3 g0 g1 g2 g3 : Parties MArr)
    : Proto (Parties MArr * Parties MArr) :=
  let el rank := getBacktype (eltype (pget p0 rank)) in
  p3_rss <- local1 ResharingMss2Rss p3 ;;
  p2_rss <- local1 ResharingMss2Rss p2 ;;
  g2_rss <- local1 ResharingMss2Rss g2 ;;
  g1_rss <- local1 ResharingMss2Rss g1 ;;
  p01_rss <- MssAnd2NoComm p0 p1 ;;
  p23_rss <- MssAnd2NoComm p2 p3 ;;
  g0p1_rss <- MssAnd2NoComm g0 p1 ;;
  p0123_ass <- RssAnd2NoComm p01_rss p23_rss ;;
  p012_ass <- RssAnd2NoComm p01_rss p2_rss ;;
  g2p3_ass <- RssAnd2NoComm g2_rss p3_rss ;;
  g1p23_ass <- RssAnd2NoComm g1_rss p23_rss ;;
  g0p123_ass <- RssAnd2NoComm g0p1_rss p23_rss ;;
  g1p2_ass <- RssAnd2NoComm g1_rss p2_rss ;;
  g0p12_ass <- RssAnd2NoComm g0p1_rss p2_rss ;;
  (* gr3 = g3 ^ gr3_ass *)
  t <- local2 AssXor2 g1p23_ass g0p123_ass ;;
  gr3_ass <- local2 AssXor2 g2p3_ass t ;;
  gr2_ass <- local2 AssXor2 g1p2_ass g0p12_ass ;;
  gr1_ass <- local1 ResharingRss2Ass g0p1_rss ;;
  g0_rss <- local1 ResharingMss2Rss g0 ;;
  gr0_ass <- local1 ResharingRss2Ass g0_rss ;;
  let pr3_ass := p0123_ass in
  let pr2_ass := p012_ass in
  pr1_ass <- local1 ResharingRss2Ass p01_rss ;;
  p0_rss <- local1 ResharingMss2Rss p0 ;;
  pr0_ass <- local1 ResharingRss2Ass p0_rss ;;
  g3_rss <- local1 ResharingMss2Rss g3 ;;
  g3_ass <- local1 ResharingRss2Ass g3_rss ;;
  g2_ass <- local1 ResharingRss2Ass g2_rss ;;
  g1_ass <- local1 ResharingRss2Ass g1_rss ;;
  let gr3_ass := ptab (fun rank =>
    let at_ (a : Parties BArr) idx := view2 (elems (pget a rank)) idx in
    upd2 (pget gr3_ass rank) (fun idx =>
      let tail :=
        Z.lxor (Z.lxor (slot0 (at_ g3_ass idx)) (rshift (slot0 (at_ g2_ass idx)) 1))
               (rshift (slot0 (at_ g1_ass idx)) 2) in
      (wrap (el rank)
         (Z.lxor (slot0 (at_ gr3_ass idx))
            (Z.lxor (Z.lxor (Z.lxor (rshift (slot0 (at_ gr2_ass idx)) 1)
                                    (rshift (slot0 (at_ gr1_ass idx)) 2))
                            (rshift (slot0 (at_ gr0_ass idx)) 3))
                    tail)),
       wrap (el rank)
         (Z.lxor (slot1 (at_ gr3_ass idx))
            (Z.lxor (Z.lxor (Z.lxor (rshift (slot1 (at_ gr2_ass idx)) 1)
                                    (rshift (slot1 (at_ gr1_ass idx)) 2))
                            (rshift (slot1 (at_ gr0_ass idx)) 3))
                    tail))))) in
  let pr3_ass := ptab (fun rank =>
    let at_ (a : Parties BArr) idx := view2 (elems (pget a rank)) idx in
    upd2 (pget pr3_ass rank) (fun idx =>
      (wrap (el rank)
         (Z.lxor (slot0 (at_ pr3_ass idx))
            (Z.lxor (Z.lxor (rshift (slot0 (at_ pr2_ass idx)) 1)
                            (rshift (slot0 (at_ pr1_ass idx)) 2))
                    (rshift (slot0 (at_ pr0_ass idx)) 3))),
       wrap (el rank)
         (Z.lxor (slot1 (at_ pr3_ass idx))
            (Z.lxor (Z.lxor (rshift (slot1 (at_ pr2_ass idx)) 1)
                            (rshift (slot1 (at_ pr1_ass idx)) 2))
                    (rshift (slot0 (at_ pr0_ass idx)) 3)))))) in
  first <- ResharingAss2Mss gr3_ass ;;
  second <- ResharingAss2Mss pr3_ass ;;
  ret (first, second).

(** PGCell_4FanIn1Out. *)
Definition PGCell_4FanIn1Out (p0 p1 p2 p3 g0 g1 g2 g3 : Parties MArr)
    : Proto (Parties MArr * Parties MArr) :=
  p3_rss <- local1 ResharingMss2Rss p3 ;;
  g2_rss <- local1 ResharingMss2Rss g2 ;;
  g1_rss <- local1 ResharingMss2Rss g1 ;;
  p01_rss <- MssAnd2NoComm p0 p1 ;;
  p23_rss <- MssAnd2NoComm p2 p3 ;;
  g0p1_rss <- MssAnd2NoComm g0 p1 ;;
  p0123_ass <- RssAnd2NoComm p01_rss p23_rss ;;
  g2p3_ass <- RssAnd2NoComm g2_rss p3_rss ;;
  g1p23_ass <- RssAnd2NoComm g1_rss p23_rss ;;
  g0p123_ass <- RssAnd2NoComm g0p1_rss p23_rss ;;
  g3_rss <- local1 ResharingMss2Rss g3 ;;
  g3_ass <- local1 ResharingRss2Ass g3_rss ;;
  (* gr3 = g3 ^ gr3_ass *)
  a <- local2 AssXor2 g3_ass g2p3_ass ;;
  b <- local2 AssXor2 g1p23_ass g0p123_ass ;;
  gr3_ass <- local2 AssXor2 a b ;;
  let pr3_ass := p0123_ass in
  gr3_mss <- ResharingAss2Mss gr3_ass ;;
  pr3_mss <- ResharingAss2Mss pr3_ass ;;
  ret (gr3_mss, pr3_mss).

Definition bit_mask (lev : nat) : Z :=
  nth lev [0x1111111111111111; 0x8888888888888888; 0x8888888888888888] 0.
Definition bit_offset (lev : nat) : Z := nth lev [1; 4; 16] 0.

(** An array of [mss_bshr_type] filled slot by slot from [x]. *)
Definition map_slots (el : PtType) (ty : BShrTy) (x : MArr) (f : Z -> Z) : MArr :=
  mkArr ty (shape x)
    (pforeach (numel x) (fun idx =>
       let e := view3 (elems x) idx in
       (wrap el (f (mslot0 e)), wrap el (f (mslot1 e)), wrap el (f (mslot2 e))))).

(** Levels 1 and 2: the cell on the four rotated selections, then
    [_g = (_g & 0x7777...) ^ _gops], the same for p. *)
Definition a2b_level (el : PtType) (ty : BShrTy) (lev : nat) (g p : Parties MArr)
    : Proto (Parties MArr * Parties MArr) :=
  let sel (x : Parties MArr) (i : Z) :=
    ptab (fun rank =>
      map_slots el ty (pget x rank)
        (fun v => SelectAndRotate v (bit_mask lev) (bit_offset lev * (3 - i)))) in
  '(gops0, pops0) <- PGCell_4FanIn1Out (sel p 0) (sel p 1) (sel p 2) (sel p 3)
                                      (sel g 0) (sel g 1) (sel g 2) (sel g 3) ;;
  let merge (x x0 : Parties MArr) :=
    ptab (fun rank =>
      mkArr (eltype (pget x rank)) (shape (pget x rank))
        (pforeach (numel (pget x rank)) (fun idx =>
           let e := view3 (elems (pget x rank)) idx in
           let o := view3 (elems (pget x0 rank)) idx in
           (wrap el (Z.lxor (Z.land (mslot0 e) 0x7777777777777777) (mslot0 o)),
            wrap el (Z.lxor (Z.land (mslot1 e) 0x7777777777777777) (mslot1 o)),
            wrap el (Z.lxor (Z.land (mslot2 e) 0x7777777777777777) (mslot2 o)))))) in
  ret (merge g gops0, merge p pops0).

(** A2BMultiFanIn. *)
Definition A2BMultiFanIn (inp : Parties AArr) : Proto (Parties BArr) :=
  let field := eltype (party0 inp) in
  let el := GetStorageType field in
  rss_bshr_type <- lift (makeBShrTy (GetStorageType field) (SizeOfField field * 8)) ;;
  mss_bshr_type <- lift (makeBShrTy (GetStorageType field) (SizeOfField field * 8)) ;;
  let n := numel (party0 inp) in
  '(p, g) <- a2b_signals 0 inp ;;
  (* 5. PPA. *)
  let out := ptab (fun rank =>
    pforeach n (fun idx =>
      let pe := view3 (elems (pget p rank)) idx in
      (wrap el (Z.lxor (mslot0 pe) (mslot1 pe)),
       wrap el (Z.lxor (mslot0 pe) (mslot2 pe))))) in
  (* Level 0. Use 4 fan-in and 4 outputs cell. *)
  let sel0 (x : Parties MArr) (i : Z) :=
    ptab (fun rank =>
      map_slots el mss_bshr_type (pget x rank)
        (fun v => select v (bit_mask 0) (bit_offset 0) i)) in
  '(g, p) <- PGCell_4FanIn4Out (sel0 p 0) (sel0 p 1) (sel0 p 2) (sel0 p 3)
                              (sel0 g 0) (sel0 g 1) (sel0 g 2) (sel0 g 3) ;;
  (* Level 1 and level 2. Use 4 fan-in and 1 output cell. *)
  '(g, p) <- a2b_level el mss_bshr_type 1 g p ;;
  '(g, p) <- a2b_level el mss_bshr_type 2 g p ;;
  (* Level 3. Use 2 fan-in and 1 output cell. *)
  let gops0 := ptab (fun rank =>
    map_slots el mss_bshr_type (pget g rank)
      (fun v => Z.lxor (Z.lxor (SelectAndRotate v 0x8888888888888888 1)
                               (SelectAndRotate v 0x8888888888888888 2))
                       (SelectAndRotate v 0x8888888888888888 3))) in
  let gops1 := ptab (fun rank => map_slots el mss_bshr_type (pget g rank) (fun v => v)) in
  let pops := ptab (fun rank =>
    map_slots el mss_bshr_type (pget p rank)
      (fun v => SelectAndRotate v 0x7777777777777777 0)) in
  gops1_rss <- local1 ResharingMss2Rss gops1 ;;
  g0p_rss <- MssAnd2NoComm gops0 pops ;;
  c <- local2 RssXor2 gops1_rss g0p_rss ;;
  ret (ptab (fun rank =>
         mkArr rss_bshr_type (shape (pget inp rank))
           (pforeach n (fun idx =>
              let o := view2 (pget out rank) idx in
              let ce := view2 (elems (pget c rank)) idx in
              (wrap el (Z.lxor (slot0 o) (lshift (slot0 ce) 1)),
               wrap el (Z.lxor (slot1 o) (lshift (slot1 ce) 1))))))).

(** A2B::proc. *)
Definition A2B (inp : Parties AArr) : Proto (Parties BArr) := A2BMultiFanIn inp.

(* ================================================================== *)
(** ** Sharings, runs and reconstruction *)

(** The A/RSS sharing of the vector x0 + x1 + x2: party i holds
    (x_i, x_{i+1}). *)
Definition share_a (field : FieldType) (shp : list nat) (x0 x1 x2 : list Z) : Parties AArr :=
  mkParties (mkArr field shp (combine x0 x1))
            (mkArr field shp (combine x1 x2))
            (mkArr field shp (combine x2 x0)).

(** The B/RSS sharing of the vector b0 xor b1 xor b2. *)
Definition share_b (ty : BShrTy) (shp : list nat) (b0 b1 b2 : list Z) : Parties BArr :=
  mkParties (mkArr ty shp (combine b0 b1))
            (mkArr ty shp (combine b1 b2))
            (mkArr ty shp (combine b2 b0)).

(** A public array, the same at every party. *)
Definition share_p (field : FieldType) (shp : list nat) (c : list Z) : Parties PArr :=
  ptab (fun _ => mkArr field shp c).

(** Reconstruction of a Boolean sharing (RSS or ASS): the XOR of the
    three parties' first slots, element by element. *)
Definition reconstruct_b (out : Parties BArr) : list Z :=
  pforeach (numel (party0 out)) (fun idx =>
    Z.lxor (Z.lxor (slot0 (view2 (elems (party0 out)) idx))
                   (slot0 (view2 (elems (party1 out)) idx)))
           (slot0 (view2 (elems (party2 out)) idx))).

(** Reconstruction of an A/RSS sharing: the sum of the first slots. *)
Definition reconstruct_a (out : Parties AArr) : list Z :=
  pforeach (numel (party0 out)) (fun idx =>
    wrap (GetStorageType (eltype (party0 out)))
      (slot0 (view2 (elems (party0 out)) idx)
       + slot0 (view2 (elems (party1 out)) idx)
       + slot0 (view2 (elems (party2 out)) idx))).

(** The result of a kernel, and the communicator calls it made. *)
Definition run {A : Type} (m : Proto A) (w : World) : result A :=
  match m w with
  | Ok (a, _) => Ok a
  | Err e => Err e
  end.

Definition calls {A : Type} (m : Proto A) (w : World) : result (list CommCall) :=
  match m w with
  | Ok (_, w') => Ok (skipn (length (comm_log w)) (comm_log w'))
  | Err e => Err e
  end.

(** A context whose PRG streams are all zero, at the start of a run. *)
Definition tape0 : Tape := mkTape (fun _ _ _ _ => 0) (fun _ => 0) (fun _ _ _ _ => 0).

Definition world0 (fl : BuildFlags) (o : Orientation) (f : FieldType) : World :=
  mkWorld fl o f tape0 0 0 0 [].

(* ================================================================== *)
(** * Vocabulary of the statements *)

(* ------------------------------------------------------------------ *)
(** ** Shapes and well-formed shares *)

(** The number of elements of an array of shape [shp] ([numel] of any
    array with that shape). *)
Definition nelems (shp : list nat) : nat := fold_right Nat.mul 1%nat shp.

(** A Boolean share type whose nbits fit its back type. *)
Definition wf_ty (ty : BShrTy) : Prop := 0 <= nbits ty <= bitsof (getBacktype ty).

(** [n] values of [nb] bits. *)
Definition wf_vec (nb : Z) (n : nat) (b : list Z) : Prop :=
  length b = n /\ Forall (fun v => 0 <= v < 2 ^ nb) b.

(** [k] two-slot elements whose slots have [n] bits. *)
Definition wf_pairs (n : Z) (k : nat) (l : list (Z * Z)) : Prop :=
  length l = k /\ Forall (fun e => 0 <= fst e < 2 ^ n /\ 0 <= snd e < 2 ^ n) l.

(** [k] three-slot elements whose slots have [n] bits. *)
Definition wf_triples (n : Z) (k : nat) (l : list (Z * Z * Z)) : Prop :=
  length l = k /\
  Forall (fun e => 0 <= mslot0 e < 2 ^ n /\ 0 <= mslot1 e < 2 ^ n /\ 0 <= mslot2 e < 2 ^ n) l.

(** The secret of an A/RSS sharing, before reduction. *)
Definition sum3 (x0 x1 x2 : list Z) (idx : nat) : Z :=
  view1 x0 idx + view1 x1 idx + view1 x2 idx.

(** The top bit of x in the field's ring. *)
Definition msb_of (field : FieldType) (x : Z) : Z :=
  Z.shiftr (wrap (GetStorageType field) x) (SizeOfField field * 8 - 1).

(* ------------------------------------------------------------------ *)
(** ** The AND gate *)

(** The mask that party [s]'s seed contributes to element [idx] of an
    RssAnd2NoComm output of back type [t]: the PRSS draw under
    EQ_USE_PRG_STATE, zero otherwise. *)
Definition and_mask (w : World) (t : PtType) (s : Z) (idx : nat) : Z :=
  if EQ_USE_PRG_STATE (flags w)
  then wrap t (prss_tape (tape w) (prss_counter w) s (bitsof t) idx)
  else 0.

(** The three AND terms of party [rank] on the sharings [l] and [r]. *)
Definition and_terms (l r : Parties (list Z)) (rank : Z) (idx : nat) : Z :=
  Z.lxor (Z.lxor (Z.land (view1 (pget l rank) idx) (view1 (pget r rank) idx))
                 (Z.land (view1 (pget l rank) idx) (view1 (pget r (NextRank rank)) idx)))
         (Z.land (view1 (pget l (NextRank rank)) idx) (view1 (pget r rank) idx)).

(** A PRG state whose PRSS stream under the seed of party 0 is all ones
    and under the other seeds is zero. *)
Definition tape_seed0 : Tape :=
  mkTape (fun _ seed _ _ => if seed =? 0 then 1 else 0) (fun _ => 0) (fun _ _ _ _ => 0).

Definition world_seed0 (fl : BuildFlags) : World :=
  mkWorld fl RecvFromNext FM64 tape_seed0 0 0 0 [].

(* ------------------------------------------------------------------ *)
(** ** The AND tree of eqz *)

Definition xor3 (a b c : Z) : Z := Z.lxor (Z.lxor a b) c.

(** The neighbour whose buffer [rotate] delivers. *)
Definition turn (o : Orientation) (rank : Z) : Z :=
  match o with
  | RecvFromNext => NextRank rank
  | RecvFromPrev => PrevRank rank
  end.

(** What one round leaves in [r0] at every party. *)
Definition tree_r0 (w : World) (n cur_bytes cur_bits : nat)
    (res : Parties (list Z * list Z)) : Parties (list Z) :=
  let half := if (cur_bytes =? n)%nat then n else (cur_bytes / 2)%nat in
  ptab (fun rank =>
    let lr0 := eqz_split n cur_bytes cur_bits (fst (pget res rank)) in
    let lr1 := eqz_split n cur_bytes cur_bits (snd (pget res rank)) in
    pforeach half (fun idx =>
      Z.lxor (Z.lxor (Z.lxor (Z.land (view1 (fst lr0) idx) (view1 (snd lr0) idx))
                             (Z.land (view1 (fst lr0) idx) (view1 (snd lr1) idx)))
                     (Z.land (view1 (fst lr1) idx) (view1 (snd lr0) idx)))
             (Z.lxor (view1 (prss_draw (tape w) (prss_counter w) rank PT_U8 half) idx)
                     (view1 (prss_draw (tape w) (prss_counter w) (NextRank rank) PT_U8 half) idx)))).

(** [round_res] after one round: own [r0] and the rotated one. *)
Definition tree_next (w : World) (n cur_bytes cur_bits : nat)
    (res : Parties (list Z * list Z)) : Parties (list Z * list Z) :=
  let r0 := tree_r0 w n cur_bytes cur_bits res in
  ptab (fun rank => (pget r0 rank, pget r0 (turn (orientation w) rank))).

(** The context after one round. *)
Definition tree_world (w : World) : World :=
  mkWorld (flags w) (orientation w) (default_field w) (tape w)
    (S (prss_counter w)) (publ_counter w) (priv_counter w)
    (comm_log w ++ [CallRotate "andbb"]).

(** The shares are replicated: the second list of a party is the first
    list of the neighbour that [sigma] names. *)
Definition coherent (sigma : Z -> Z) (res : Parties (list Z * list Z)) : Prop :=
  snd (party0 res) = fst (pget res (sigma 0)) /\
  snd (party1 res) = fst (pget res (sigma 1)) /\
  snd (party2 res) = fst (pget res (sigma 2)).

Definition sigma_ok (sigma : Z -> Z) : Prop := sigma = NextRank \/ sigma = PrevRank.

(** The value that the three first lists share at index [j]. *)
Definition rec3 (res : Parties (list Z * list Z)) (j : nat) : Z :=
  xor3 (view1 (fst (party0 res)) j) (view1 (fst (party1 res)) j) (view1 (fst (party2 res)) j).

(** The AND of the 2^k values W 0 .. W (2^k - 1), halving as the loop does. *)
Fixpoint and_fold (k : nat) (W : nat -> Z) : Z :=
  match k with
  | O => W 0%nat
  | S k' => and_fold k' (fun i => Z.land (W i) (W (2 ^ k' + i)%nat))
  end.

(** The three rounds on one byte: the AND of its eight bits ends in
    bit 0. *)
Definition bit_fold (a : Z) : Z :=
  let a1 := Z.land (Z.shiftr a 4) a in
  let a2 := Z.land (Z.shiftr a1 2) a1 in
  Z.land (Z.shiftr a2 1) a2.

(** Byte [i] of [v], little endian. *)
Definition byte_at (i : nat) (v : Z) : Z := (v / 2 ^ (8 * Z.of_nat i)) mod 256.

(** What eqz opens, up to the mask: the sum of the two slots at P1 and
    the second slot at the party after it. *)
Definition eqz_secret (inp : Parties AArr) (P1 : Z) (idx : nat) : Z :=
  slot0 (view2 (elems (pget inp P1)) idx) + slot1 (view2 (elems (pget inp P1)) idx)
  + slot1 (view2 (elems (pget inp (NextRank P1))) idx).

(** The binary logarithm of the field's size in bytes. *)
Definition field_log (f : FieldType) : nat :=
  match f with FM32 => 2%nat | FM64 => 3%nat | FM128 => 4%nat end.

(** The flags as the bytes the tree starts from. *)
Definition flag_bytes (field : FieldType) (n : nat) (zf : Parties (list Z * list Z))
  : Parties (list Z * list Z) :=
  ptab (fun rank =>
    (memcpy_bytes (Z.to_nat (SizeOfField field)) (fst (pget zf rank)) n,
     memcpy_bytes (Z.to_nat (SizeOfField field)) (snd (pget zf rank)) n)).

(* ------------------------------------------------------------------ *)
(** ** Even and odd bits *)

(** The bits of [v] at the positions start, start + 2, start + 4, ...,
    [half] of them, packed from bit 0 up: the even-indexed bits for
    start 0, the odd-indexed ones for start 1. *)
Fixpoint gather_bits (half : nat) (start : Z) (v : Z) : Z :=
  match half with
  | O => 0
  | S h =>
      gather_bits h start v
      + (if Z.testbit v (2 * Z.of_nat h + start) then 2 ^ Z.of_nat h else 0)
  end.

Definition even_bits (half : nat) (v : Z) : Z := gather_bits half 0 v.

Definition odd_bits (half : nat) (v : Z) : Z := gather_bits half 1 v.

(** The bits at start + 2 j, start + 2 (j + 1), ..., [m] of them, packed
    from bit j up. *)
Fixpoint gather_from (m : nat) (j : nat) (start : Z) (v : Z) : Z :=
  match m with
  | O => 0
  | S m' =>
      (if Z.testbit v (2 * Z.of_nat j + start) then 2 ^ Z.of_nat j else 0)
      + gather_from m' (S j) start v
  end.

(** A 64-bit mask that selects every second bit, from bit [start] on. *)
Definition alternating (mask : Z) (start : Z) : Prop :=
  forall j, (j < 32)%nat ->
    Z.testbit mask (2 * Z.of_nat j + start) = true /\
    Z.testbit mask (2 * Z.of_nat j + (1 - start)) = false.

Definition alternating_b (mask : Z) (start : Z) : bool :=
  forallb (fun j => Z.testbit mask (2 * Z.of_nat j + start)
                    && negb (Z.testbit mask (2 * Z.of_nat j + (1 - start))))
          (seq 0 32).

(** Where bit [j] of the result of pass [k] comes from. *)
Definition pass_src (k : nat) (j : Z) : Z :=
  if Z.testbit (nth k kKeepMasks 0) j then j
  else if Z.testbit (nth k kSwapMasks 0) j then j + 2 ^ Z.of_nat k
  else j - 2 ^ Z.of_nat k.

(** At bit [j], exactly one of the three terms of pass [k] can be set,
    and its source lies in the word of [bits] bits. *)
Definition pass_ok (bits : Z) (k : nat) (j : Z) : bool :=
  let keep := Z.testbit (nth k kKeepMasks 0) j in
  let move := Z.testbit (nth k kSwapMasks 0) j in
  let back := (2 ^ Z.of_nat k <=? j) && Z.testbit (nth k kSwapMasks 0) (j - 2 ^ Z.of_nat k) in
  (if keep then negb move && negb back
   else if move then negb back && (j + 2 ^ Z.of_nat k <? bits)
   else back).

(** Passes 0 .. K - 1 in turn. *)
Fixpoint iter_passes (t : PtType) (K : nat) (v : Z) : Z :=
  match K with
  | O => v
  | S K' => swap_pass t K' (iter_passes t K' v)
  end.

(** The source of bit [j] after passes 0 .. K - 1, and the check that
    every pass on the way is a permutation step inside [bits] bits. *)
Fixpoint total_src (K : nat) (j : Z) : Z :=
  match K with
  | O => j
  | S K' => total_src K' (pass_src K' j)
  end.

Fixpoint total_ok (bits : Z) (K : nat) (j : Z) : bool :=
  match K with
  | O => true
  | S K' =>
      pass_ok bits K' j && (0 <=? pass_src K' j) && (pass_src K' j <? bits)
      && total_ok bits K' (pass_src K' j)
  end.

(** After the passes for a word of 2^(K+1) bits, the low half holds the
    even-indexed bits and the high half the odd-indexed bits. *)
Definition deinterleaved (K : nat) : bool :=
  forallb (fun i =>
             let j := Z.of_nat i in
             total_ok (2 ^ Z.of_nat (S K)) K j
             && (total_src K j =? (if j <? 2 ^ Z.of_nat K then 2 * j
                                   else 2 * (j - 2 ^ Z.of_nat K) + 1)))
          (seq 0 (2 ^ S K)).

(* ------------------------------------------------------------------ *)
(** ** Sharings in the source as built *)





Definition fits (nb : Z) (f : nat -> Z) : Prop := forall idx : nat, 0 <= f idx < 2 ^ nb.




(* ------------------------------------------------------------------ *)
(** ** The carry network of MsbA2B *)







(** Propagate and generate of the positions lo, ..., lo + len - 1 of the
    words p and g: the group passes a carry on, the group puts a carry
    out. *)
Fixpoint blockP (p : Z) (lo : Z) (len : nat) : bool :=
  match len with
  | O => true
  | S l => Z.testbit p (lo + Z.of_nat l) && blockP p lo l
  end.




(* ------------------------------------------------------------------ *)
(** ** The prefix network of A2B *)

(** The position is the top one of its group of four, in a 64-bit word. *)
Definition top (r : Z) : bool := (r <? 64) && (r mod 4 =? 3).

(** The word holds, at every top position r, the bit [F r], and nothing
    elsewhere. *)
Definition topword (W : Z) (F : Z -> bool) : Prop :=
  forall r, 0 <= r -> Z.testbit W r = top r && F r.





(** Level 0 of A2BMultiFanIn on the words g and p. *)
Definition sel0 (v i : Z) : Z := wrap PT_U64 (select v 0x1111111111111111 1 i).










(* ------------------------------------------------------------------ *)
(** ** Masked sharings and the PRSS masks *)

(** The B/MSS sharing with the external value D and the masks d0, d1,
    d2: party i holds (D, d_i, d_{i+1}); the secret is
    D xor d0 xor d1 xor d2. *)
Definition share_m (ty : BShrTy) (shp : list nat) (D d0 d1 d2 : list Z) : Parties MArr :=
  mkParties (mkArr ty shp (combine (combine D d0) d1))
            (mkArr ty shp (combine (combine D d1) d2))
            (mkArr ty shp (combine (combine D d2) d0)).

(** Reconstruction of a B/MSS sharing: the external value and the three
    masks, each read at the party that holds it in its second slot. *)
Definition reconstruct_m (out : Parties MArr) : list Z :=
  pforeach (numel (party0 out)) (fun idx =>
    Z.lxor (mslot0 (view3 (elems (party0 out)) idx))
           (xor3 (mslot1 (view3 (elems (party0 out)) idx))
                 (mslot1 (view3 (elems (party1 out)) idx))
                 (mslot1 (view3 (elems (party2 out)) idx)))).

(** The element-wise XOR of three vectors. *)
Definition xor3v (a b c : list Z) (idx : nat) : Z :=
  xor3 (view1 a idx) (view1 b idx) (view1 c idx).

(** The element-wise XOR of two vectors, stored in the type [t]. *)
Definition xor_in (t : PtType) (n : nat) (a b : list Z) : list Z :=
  pforeach n (fun idx => wrap t (Z.lxor (view1 a idx) (view1 b idx))).

(** The mask that the seed of party [s] contributes to element [idx] at
    the PRSS call that the context [w] is about to make, in the type
    [t]; zero where the source fills the buffers with zeros ([keep] is
    the conjunction of the switches that the kernel tests). *)
Definition prss_mask (keep : bool) (w : World) (t : PtType) (s : Z) (idx : nat) : Z :=
  if keep then wrap t (prss_tape (tape w) (prss_counter w) s (bitsof t) idx) else 0.

(** The masks under the seed of party [s], one for every element. *)
Definition prss_masks (keep : bool) (w : World) (t : PtType) (n : nat) (s : Z) : list Z :=
  pforeach n (prss_mask keep w t s).

(** The context after one PRSS call and the communicator calls [cs]. *)
Definition after_prss (w : World) (cs : list CommCall) : World :=
  mkWorld (flags w) (orientation w) (default_field w) (tape w)
    (S (prss_counter w)) (publ_counter w) (priv_counter w) (comm_log w ++ cs).

(** An ASS sharing in the container of a B/RSS one: party i holds a_i in
    the first slot; the second slot holds whatever was there ([j_i]). *)
Definition share_s (ty : BShrTy) (shp : list nat) (a0 a1 a2 j0 j1 j2 : list Z)
    : Parties BArr :=
  mkParties (mkArr ty shp (combine a0 j0))
            (mkArr ty shp (combine a1 j1))
            (mkArr ty shp (combine a2 j2)).

(** The secret of a B/MSS sharing at index [idx]. *)
Definition mss_secret (D d0 d1 d2 : list Z) (idx : nat) : Z :=
  Z.lxor (view1 D idx) (xor3v d0 d1 d2 idx).

(** The first slot of a party in the output of MssAnd2NoComm, from the
    external values D, E, the party's masks d, e and its share q of the
    product of the masks. *)
Definition mss_and_share (t : PtType) (D E d e q : Z) : Z :=
  wrap t (Z.lxor (Z.lxor (Z.lxor (Z.land D E) (Z.land D e)) (Z.land d E)) q).

(** The share of the product of the masks that the offline part of
    MssAnd2NoComm computes at one party, from its masks d, e, the next
    party's masks d', e' and the two PRSS draws m, m'. *)
Definition mask_product_share (t : PtType) (d e d' e' m m' : Z) : Z :=
  wrap t (Z.lxor (Z.lxor (Z.lxor (Z.land d e) (Z.land d e')) (Z.land d' e)) (Z.lxor m m')).

(** The first slot of party [i] in the output of MssAnd2NoComm on the
    sharings (D, d0, d1, d2) and (E, e0, e1, e2). *)
Definition mss_and_out (w : World) (t : PtType) (n : nat)
    (D d0 d1 d2 E e0 e1 e2 : list Z) (i : Z) : list Z :=
  let keep := EQ_USE_PRG_STATE (flags w) && EQ_USE_OFFLINE (flags w) in
  let pick (a0 a1 a2 : list Z) (r : Z) := pget (mkParties a0 a1 a2) r in
  pforeach n (fun idx =>
    let d := view1 (pick d0 d1 d2 i) idx in
    let d' := view1 (pick d0 d1 d2 (NextRank i)) idx in
    let e := view1 (pick e0 e1 e2 i) idx in
    let e' := view1 (pick e0 e1 e2 (NextRank i)) idx in
    let q := if EQ_USE_OFFLINE (flags w)
             then mask_product_share t d e d' e'
                    (prss_mask keep w t i idx) (prss_mask keep w t (NextRank i) idx)
             else 0 in
    mss_and_share t (view1 D idx) (view1 E idx) d e q).

(** What MssAnd2NoComm's output reconstructs to, before it is cut to
    the back type: the AND of the secrets where the offline part is
    compiled in ([off]), and the AND xor the product of the masks where
    it is not. *)
Definition mss_and_value (off : bool) (D d0 d1 d2 E e0 e1 e2 : list Z) (idx : nat) : Z :=
  Z.lxor (Z.land (mss_secret D d0 d1 d2 idx) (mss_secret E e0 e1 e2 idx))
         (if off then 0 else Z.land (xor3v d0 d1 d2 idx) (xor3v e0 e1 e2 idx)).

(** The first slot of party [i] in the output of RssAnd2NoComm. *)
Definition rss_and_out (w : World) (t : PtType) (n : nat)
    (l0 l1 l2 r0 r1 r2 : list Z) (i : Z) : list Z :=
  let keep := EQ_USE_PRG_STATE (flags w) in
  pforeach n (fun idx =>
    wrap t (Z.lxor (and_terms (mkParties l0 l1 l2) (mkParties r0 r1 r2) i idx)
                   (Z.lxor (prss_mask keep w t i idx) (prss_mask keep w t (NextRank i) idx)))).

(** The data of a B/MSS sharing: the external value and the three
    masks. *)
Record Masked : Type := mkMasked { ext : list Z; mask0 : list Z; mask1 : list Z; mask2 : list Z }.

(** The B/MSS sharing with these data. *)
Definition share_masked (ty : BShrTy) (shp : list nat) (a : Masked) : Parties MArr :=
  share_m ty shp (ext a) (mask0 a) (mask1 a) (mask2 a).

(** All four vectors have [n] elements. *)
Definition sized (n : nat) (a : Masked) : Prop :=
  length (ext a) = n /\ length (mask0 a) = n /\ length (mask1 a) = n /\ length (mask2 a) = n.

(** The secret at index [idx]. *)
Definition secret_of (a : Masked) (idx : nat) : Z :=
  mss_secret (ext a) (mask0 a) (mask1 a) (mask2 a) idx.

(** What MssAnd2NoComm makes of two B/MSS sharings. *)
Definition and_of (off : bool) (a b : Masked) (idx : nat) : Z :=
  mss_and_value off (ext a) (mask0 a) (mask1 a) (mask2 a)
                    (ext b) (mask0 b) (mask1 b) (mask2 b) idx.

(* ------------------------------------------------------------------ *)
(** ** Bit composition *)

(** The number whose bit [k] weighs [f k], over [nb] positions. *)
Fixpoint wsum (nb : nat) (f : nat -> Z) : Z :=
  match nb with
  | O => 0
  | S k => wsum k f + f k * 2 ^ Z.of_nat k
  end.

(* ------------------------------------------------------------------ *)
(** ** The adder of B2AByPPA *)

(** What B2AByPPA needs of the Boolean adder it calls: on two
    replicated sharings of one type and shape it returns a replicated
    sharing of the sum of the two secrets in the back type, and it
    leaves the communicator turning the way it did. *)
Definition adds_shared (add_bb : Parties BArr -> Parties BArr -> Proto (Parties BArr)) : Prop :=
  forall (ty : BShrTy) (shp : list nat) (x0 x1 x2 y0 y1 y2 : list Z) (w : World),
    length x0 = nelems shp -> length x1 = nelems shp -> length x2 = nelems shp ->
    length y0 = nelems shp -> length y1 = nelems shp -> length y2 = nelems shp ->
    exists s0 s1 s2 w',
      add_bb (share_b ty shp x0 x1 x2) (share_b ty shp y0 y1 y2) w
        = Ok (share_b ty shp s0 s1 s2, w') /\
      length s0 = nelems shp /\ length s1 = nelems shp /\ length s2 = nelems shp /\
      orientation w' = orientation w /\
      forall idx, (idx < nelems shp)%nat ->
        xor3v s0 s1 s2 idx
          = wrap (getBacktype ty) (xor3v x0 x1 x2 idx + xor3v y0 y1 y2 idx).

(** An adder that meets [adds_shared], for the examples: the sum of the
    two secrets is the first summand of the sharing it returns and the
    other two summands are zero. *)
Definition plain_add_bb (x y : Parties BArr) : Proto (Parties BArr) :=
  let ty := eltype (party0 x) in
  let n := numel (party0 x) in
  ret (share_b ty (shape (party0 x))
         (pforeach n (fun idx =>
            wrap (getBacktype ty)
              (view1 (reconstruct_b x) idx + view1 (reconstruct_b y) idx)))
         (zeros n) (zeros n)).

(* ================================================================== *)
(** * Lemmas *)

(* ------------------------------------------------------------------ *)
(** ** Arrays and loops *)

Lemma pforeach_length {A} n (f : nat -> A) : length (pforeach n f) = n.
Proof. unfold pforeach. now rewrite length_map, length_seq. Qed.

Lemma nth_pforeach {A} n (f : nat -> A) d i : (i < n)%nat -> nth i (pforeach n f) d = f i.
Proof.
  intros H. unfold pforeach.
  rewrite (nth_indep _ d (f 0%nat)) by (now rewrite length_map, length_seq).
  rewrite (map_nth f (seq 0 n) 0%nat i). now rewrite seq_nth.
Qed.

Lemma view1_pforeach n f i : (i < n)%nat -> view1 (pforeach n f) i = f i.
Proof. apply nth_pforeach. Qed.

Lemma view2_pforeach n f i : (i < n)%nat -> view2 (pforeach n f) i = f i.
Proof. apply nth_pforeach. Qed.

Lemma view3_pforeach n f i : (i < n)%nat -> view3 (pforeach n f) i = f i.
Proof. apply nth_pforeach. Qed.

Lemma pforeach_ext {A} n (f g : nat -> A) :
  (forall i, (i < n)%nat -> f i = g i) -> pforeach n f = pforeach n g.
Proof.
  intros H. unfold pforeach. apply map_ext_in. intros i Hi. apply in_seq in Hi. apply H. lia.
Qed.

Lemma view2_combine a b i : (i < length a)%nat -> (i < length b)%nat ->
  view2 (combine a b) i = (view1 a i, view1 b i).
Proof.
  unfold view2, view1. revert b i.
  induction a as [|x a IH]; intros [|y b] [|i]; simpl; intros; try lia; auto.
  apply IH; lia.
Qed.

(* ------------------------------------------------------------------ *)
(** ** Words *)

Lemma wrap_ones t x : wrap t x = Z.land x (Z.ones (bitsof t)).
Proof. unfold wrap. rewrite Z.land_ones; [reflexivity|]. destruct t; cbv; discriminate. Qed.

Lemma bitsof_nonneg t : 0 <= bitsof t.
Proof. destruct t; cbv; discriminate. Qed.

Lemma wrap_small t x : 0 <= x < 2 ^ bitsof t -> wrap t x = x.
Proof. intros. unfold wrap. now apply Z.mod_small. Qed.

Lemma wf_vec_view nb n b idx : wf_vec nb n b -> (idx < n)%nat -> 0 <= view1 b idx < 2 ^ nb.
Proof.
  intros [Hl Hf] Hi. unfold view1. rewrite Forall_forall in Hf. apply Hf, nth_In. lia.
Qed.

Lemma calcBShareBacktype_ok n : 0 <= n <= 128 ->
  exists t, calcBShareBacktype n = Ok t /\ n <= bitsof t.
Proof.
  intros H. unfold calcBShareBacktype.
  destruct (n <=? 8) eqn:E8; [exists PT_U8|
  destruct (n <=? 16) eqn:E16; [exists PT_U16|
  destruct (n <=? 32) eqn:E32; [exists PT_U32|
  destruct (n <=? 64) eqn:E64; [exists PT_U64|
  destruct (n <=? 128) eqn:E128; [exists PT_U128|lia]]]]];
  (split; [reflexivity|cbv [bitsof SizeOf]; lia]).
Qed.

Lemma bitsof_le_128 t : bitsof t <= 128.
Proof. destruct t; cbv; discriminate. Qed.

Lemma rank_cases r : 0 <= r < 3 -> r = 0 \/ r = 1 \/ r = 2.
Proof. lia. Qed.

Lemma pow2_mono a b : 0 <= a <= b -> 2 ^ a <= 2 ^ b.
Proof. intros. apply Z.pow_le_mono_r; lia. Qed.

Lemma range_land_ones k v : 0 <= k -> 0 <= v < 2 ^ k -> Z.land v (Z.ones k) = v.
Proof. intros Hk Hv. rewrite Z.land_ones by assumption. now apply Z.mod_small. Qed.

Lemma land_ones_range k v : 0 <= k -> Z.land v (Z.ones k) = v -> 0 <= v < 2 ^ k.
Proof.
  intros Hk H. rewrite Z.land_ones in H by assumption. rewrite <- H.
  apply Z.mod_pos_bound. apply Z.pow_pos_nonneg; lia.
Qed.

Lemma lxor_range k a b : 0 <= k -> 0 <= a < 2 ^ k -> 0 <= b < 2 ^ k -> 0 <= Z.lxor a b < 2 ^ k.
Proof.
  intros Hk Ha Hb. apply land_ones_range; [assumption|].
  apply range_land_ones in Ha, Hb; try assumption.
  rewrite <- Ha, <- Hb at 2. apply Z.bits_inj'. intros n Hn.
  rewrite ?Z.land_spec, ?Z.lxor_spec, ?Z.land_spec.
  destruct (Z.testbit (Z.ones k) n), (Z.testbit a n), (Z.testbit b n); reflexivity.
Qed.

Lemma land_range k a b : 0 <= k -> 0 <= a < 2 ^ k -> 0 <= Z.land a b < 2 ^ k.
Proof.
  intros Hk Ha. apply land_ones_range; [assumption|].
  apply range_land_ones in Ha; try assumption.
  rewrite <- Ha at 2. apply Z.bits_inj'. intros n Hn.
  rewrite ?Z.land_spec.
  destruct (Z.testbit (Z.ones k) n), (Z.testbit a n), (Z.testbit b n); reflexivity.
Qed.

Lemma wrap_range t x : 0 <= wrap t x < 2 ^ bitsof t.
Proof. unfold wrap. apply Z.mod_pos_bound. apply Z.pow_pos_nonneg; [lia|apply bitsof_nonneg]. Qed.

Lemma view1_zeros n idx : view1 (zeros n) idx = 0.
Proof. unfold view1, zeros. apply nth_repeat. Qed.

(* ------------------------------------------------------------------ *)
(** ** Replicated AND *)

Lemma rss_and_identity l0 l1 l2 r0 r1 r2 :
  Z.lxor (Z.lxor
     (Z.lxor (Z.lxor (Z.land l0 r0) (Z.land l0 r1)) (Z.land l1 r0))
     (Z.lxor (Z.lxor (Z.land l1 r1) (Z.land l1 r2)) (Z.land l2 r1)))
     (Z.lxor (Z.lxor (Z.land l2 r2) (Z.land l2 r0)) (Z.land l0 r2))
  = Z.land (Z.lxor (Z.lxor l0 l1) l2) (Z.lxor (Z.lxor r0 r1) r2).
Proof.
  apply Z.bits_inj'. intros n Hn.
  rewrite ?Z.lxor_spec, ?Z.land_spec, ?Z.lxor_spec.
  destruct (Z.testbit l0 n), (Z.testbit l1 n), (Z.testbit l2 n),
           (Z.testbit r0 n), (Z.testbit r1 n), (Z.testbit r2 n); reflexivity.
Qed.

Lemma lxor_mask_cancel a0 a1 a2 m0 m1 m2 :
  Z.lxor (Z.lxor (Z.lxor a0 (Z.lxor m0 m1)) (Z.lxor a1 (Z.lxor m1 m2))) (Z.lxor a2 (Z.lxor m2 m0))
  = Z.lxor (Z.lxor a0 a1) a2.
Proof.
  apply Z.bits_inj'. intros n Hn. rewrite ?Z.lxor_spec.
  destruct (Z.testbit a0 n), (Z.testbit a1 n), (Z.testbit a2 n),
           (Z.testbit m0 n), (Z.testbit m1 n), (Z.testbit m2 n); reflexivity.
Qed.

Lemma Forall_pforeach {A} (P : A -> Prop) n f :
  (forall i, (i < n)%nat -> P (f i)) -> Forall P (pforeach n f).
Proof.
  intros H. unfold pforeach. apply Forall_forall. intros x Hx.
  apply in_map_iff in Hx. destruct Hx as (i & <- & Hi). apply in_seq in Hi. apply H. lia.
Qed.

(* ------------------------------------------------------------------ *)
(** ** The AND tree of eqz: one round *)

Lemma concat_chunks_length {A} (h : nat) (g : nat -> list A) s n :
  (forall a, length (g a) = h) ->
  length (concat (map g (seq s n))) = (n * h)%nat.
Proof.
  intros Hg. revert s. induction n as [|n IH]; intros s; simpl; [reflexivity|].
  rewrite length_app, Hg, IH. reflexivity.
Qed.

Lemma nth_concat_chunks {A} (h : nat) (g : nat -> list A) d s n idx i :
  (forall a, length (g a) = h) -> (idx < n)%nat -> (i < h)%nat ->
  nth (idx * h + i) (concat (map g (seq s n))) d = nth i (g (s + idx)%nat) d.
Proof.
  intros Hg. revert s idx. induction n as [|n IH]; intros s idx Hidx Hi; [lia|].
  simpl. destruct idx as [|idx].
  - simpl. rewrite app_nth1 by (rewrite Hg; lia). now rewrite Nat.add_0_r.
  - rewrite app_nth2 by (rewrite Hg; simpl; lia). rewrite Hg.
    replace (S idx * h + i - h)%nat with (idx * h + i)%nat by (simpl; lia).
    rewrite IH by lia. f_equal. f_equal. lia.
Qed.

Lemma view1_concat_pforeach n h (f : nat -> nat -> Z) idx i :
  (idx < n)%nat -> (i < h)%nat ->
  view1 (concat (pforeach n (fun a => pforeach h (f a)))) (idx * h + i) = f idx i.
Proof.
  intros Hidx Hi. unfold view1, pforeach at 1.
  rewrite (nth_concat_chunks h) by (try assumption; intros; apply pforeach_length).
  simpl. now apply nth_pforeach.
Qed.

Lemma eqz_and_tree_step fuel n cur_bytes cur_bits res w :
  (cur_bits =? n)%nat = false ->
  eqz_and_tree (S fuel) n cur_bytes cur_bits res w =
  eqz_and_tree fuel n (if (cur_bytes =? n)%nat then n else (cur_bytes / 2)%nat)
    (cur_bits / 2) (tree_next w n cur_bytes cur_bits res) (tree_world w).
Proof.
  intros H. cbn [eqz_and_tree]. rewrite H.
  unfold bind, fillPrssPair, rotate, log_call, bind, tree_next, tree_r0, tree_world, turn.
  cbn [orientation flags tape prss_counter default_field publ_counter priv_counter comm_log].
  destruct (orientation w); reflexivity.
Qed.

Lemma eqz_and_tree_done fuel n cur_bytes res w :
  eqz_and_tree (S fuel) n cur_bytes n res w = Ok (res, w).
Proof. cbn [eqz_and_tree]. rewrite Nat.eqb_refl. reflexivity. Qed.

Lemma tree_next_coherent w n cb cbits res :
  coherent (turn (orientation w)) (tree_next w n cb cbits res).
Proof.
  unfold coherent, tree_next, turn. destruct (orientation w); repeat split.
Qed.

Lemma rss_and_identity_prev l0 l1 l2 r0 r1 r2 :
  Z.lxor (Z.lxor
     (Z.lxor (Z.lxor (Z.land l0 r0) (Z.land l0 r2)) (Z.land l2 r0))
     (Z.lxor (Z.lxor (Z.land l1 r1) (Z.land l1 r0)) (Z.land l0 r1)))
     (Z.lxor (Z.lxor (Z.land l2 r2) (Z.land l2 r1)) (Z.land l1 r2))
  = Z.land (Z.lxor (Z.lxor l0 l1) l2) (Z.lxor (Z.lxor r0 r1) r2).
Proof.
  apply Z.bits_inj'. intros n Hn.
  rewrite ?Z.lxor_spec, ?Z.land_spec, ?Z.lxor_spec.
  destruct (Z.testbit l0 n), (Z.testbit l1 n), (Z.testbit l2 n),
           (Z.testbit r0 n), (Z.testbit r1 n), (Z.testbit r2 n); reflexivity.
Qed.

(** One round ANDs the reconstructed left half with the reconstructed
    right half, whatever the masks are. *)
Lemma tree_next_rec3 w n cb cbits res sigma j :
  (sigma = NextRank \/ sigma = PrevRank) ->
  coherent sigma res ->
  (j < (if (cb =? n)%nat then n else (cb / 2)%nat))%nat ->
  rec3 (tree_next w n cb cbits res) j =
  Z.land (xor3 (view1 (fst (eqz_split n cb cbits (fst (party0 res)))) j)
               (view1 (fst (eqz_split n cb cbits (fst (party1 res)))) j)
               (view1 (fst (eqz_split n cb cbits (fst (party2 res)))) j))
         (xor3 (view1 (snd (eqz_split n cb cbits (fst (party0 res)))) j)
               (view1 (snd (eqz_split n cb cbits (fst (party1 res)))) j)
               (view1 (snd (eqz_split n cb cbits (fst (party2 res)))) j)).
Proof.
  intros Hs (C0 & C1 & C2) Hj.
  unfold rec3, tree_next, tree_r0, xor3.
  cbn [ptab pget party0 party1 party2 fst snd Z.eqb Pos.eqb].
  rewrite !view1_pforeach by assumption.
  rewrite C0, C1, C2.
  change (NextRank 0) with 1. change (NextRank 1) with 2. change (NextRank 2) with 0.
  destruct Hs as [-> | ->].
  - change (NextRank 0) with 1. change (NextRank 1) with 2. change (NextRank 2) with 0.
    cbn [pget Z.eqb Pos.eqb].
    rewrite lxor_mask_cancel. apply rss_and_identity.
  - change (PrevRank 0) with 2. change (PrevRank 1) with 0. change (PrevRank 2) with 1.
    cbn [pget Z.eqb Pos.eqb].
    rewrite lxor_mask_cancel. apply rss_and_identity_prev.
Qed.

(* ------------------------------------------------------------------ *)
(** ** The AND tree of eqz: the byte rounds *)

Lemma eqz_split_bytes n h cbits l :
  (0 < n)%nat -> (0 < h)%nat ->
  eqz_split n (2 * h * n) cbits l =
  (concat (pforeach n (fun idx => pforeach h (fun i => view1 l (idx * (2 * h) + i)%nat))),
   concat (pforeach n (fun idx => pforeach h (fun i => view1 l (idx * (2 * h) + h + i)%nat)))).
Proof.
  intros Hn Hh. unfold eqz_split.
  assert (E : (2 * h * n =? n)%nat = false) by (apply Nat.eqb_neq; nia).
  rewrite E.
  rewrite (Nat.div_mul (2 * h) n) by lia.
  replace (2 * h / 2)%nat with h by (rewrite Nat.mul_comm, Nat.div_mul; lia).
  reflexivity.
Qed.

Lemma xor3_shiftr a b c s :
  xor3 (Z.shiftr a s) (Z.shiftr b s) (Z.shiftr c s) = Z.shiftr (xor3 a b c) s.
Proof. unfold xor3. now rewrite !Z.shiftr_lxor. Qed.

Lemma eqz_split_bits n s l :
  (0 < n)%nat -> (0 < s)%nat ->
  eqz_split n n (2 * s * n) l =
  (pforeach n (fun idx => Z.shiftr (view1 l idx) (Z.of_nat s)),
   pforeach n (fun idx => view1 l idx)).
Proof.
  intros Hn Hs. unfold eqz_split. rewrite Nat.eqb_refl.
  replace (2 * s * n / (n * 2))%nat with s; [reflexivity|].
  replace (2 * s * n)%nat with (s * (n * 2))%nat by lia.
  rewrite Nat.div_mul by lia. reflexivity.
Qed.

Lemma turn_ok o : sigma_ok (turn o).
Proof. destruct o; [left|right]; reflexivity. Qed.

Lemma tree_bytes k : forall fuel n res w sigma (W : nat -> nat -> Z),
  (0 < n)%nat -> sigma_ok sigma -> coherent sigma res ->
  (forall idx i, (idx < n)%nat -> (i < 2 ^ k)%nat -> rec3 res (idx * 2 ^ k + i) = W idx i) ->
  exists res' w' sigma',
    eqz_and_tree (k + fuel) n (2 ^ k * n) (2 ^ k * n * 8) res w =
    eqz_and_tree fuel n n (n * 8) res' w' /\
    sigma_ok sigma' /\ coherent sigma' res' /\
    forall idx, (idx < n)%nat -> rec3 res' idx = and_fold k (W idx).
Proof.
  induction k as [|k IH]; intros fuel n res w sigma W Hn Hs Hc HW.
  - exists res, w, sigma. cbn [Nat.pow Nat.add and_fold].
    rewrite Nat.mul_1_l. split; [reflexivity|]. split; [assumption|]. split; [assumption|].
    intros idx Hi. rewrite <- HW by (simpl; lia). f_equal. simpl. lia.
  - assert (Hp : (0 < 2 ^ k)%nat) by (apply Nat.neq_0_lt_0, Nat.pow_nonzero; lia).
    replace (2 ^ S k * n)%nat with (2 * 2 ^ k * n)%nat by (cbn [Nat.pow]; lia).
    cbn [Nat.add]. rewrite eqz_and_tree_step by (apply Nat.eqb_neq; nia).
    assert (E : (2 * 2 ^ k * n =? n)%nat = false) by (apply Nat.eqb_neq; nia).
    rewrite E.
    replace (2 * 2 ^ k * n / 2)%nat with (2 ^ k * n)%nat
      by (replace (2 * 2 ^ k * n)%nat with (2 ^ k * n * 2)%nat by lia;
          now rewrite Nat.div_mul by lia).
    replace (2 * 2 ^ k * n * 8 / 2)%nat with (2 ^ k * n * 8)%nat
      by (replace (2 * 2 ^ k * n * 8)%nat with (2 ^ k * n * 8 * 2)%nat by lia;
          now rewrite Nat.div_mul by lia).
    destruct (IH fuel n (tree_next w n (2 * 2 ^ k * n) (2 * 2 ^ k * n * 8) res)
                (tree_world w) (turn (orientation w))
                (fun idx i => Z.land (W idx i) (W idx (2 ^ k + i)%nat)))
      as (res' & w' & sigma' & Hrun & Hs' & Hc' & Hrec); try assumption.
    + apply turn_ok.
    + apply tree_next_coherent.
    + intros idx i Hidx Hi.
      rewrite (tree_next_rec3 _ _ _ _ _ sigma) by
        (try assumption; rewrite E;
         replace (2 * 2 ^ k * n / 2)%nat with (2 ^ k * n)%nat
           by (replace (2 * 2 ^ k * n)%nat with (2 ^ k * n * 2)%nat by lia;
               now rewrite Nat.div_mul by lia); nia).
      rewrite !eqz_split_bytes by assumption. cbn [fst snd].
      rewrite !view1_concat_pforeach by assumption.
      rewrite <- (HW idx i) by (try assumption; cbn [Nat.pow]; lia).
      rewrite <- (HW idx (2 ^ k + i)%nat) by (try assumption; cbn [Nat.pow]; lia).
      unfold rec3. cbn [Nat.pow].
      replace (idx * (2 * 2 ^ k) + (2 ^ k + i))%nat with (idx * (2 * 2 ^ k) + 2 ^ k + i)%nat by lia.
      reflexivity.
    + exists res', w', sigma'. split; [assumption|]. split; [assumption|].
      split; assumption.
Qed.

(* ------------------------------------------------------------------ *)
(** ** The AND tree of eqz: the bit rounds *)

Lemma tree_shift_round fuel n s res w sigma :
  (0 < n)%nat -> (0 < s)%nat -> sigma_ok sigma -> coherent sigma res ->
  eqz_and_tree (S fuel) n n (2 * s * n) res w =
    eqz_and_tree fuel n n (s * n) (tree_next w n n (2 * s * n) res) (tree_world w) /\
  forall idx, (idx < n)%nat ->
    rec3 (tree_next w n n (2 * s * n) res) idx =
    Z.land (Z.shiftr (rec3 res idx) (Z.of_nat s)) (rec3 res idx).
Proof.
  intros Hn Hs Hsig Hc. split.
  - rewrite eqz_and_tree_step by (apply Nat.eqb_neq; nia).
    rewrite Nat.eqb_refl.
    replace (2 * s * n / 2)%nat with (s * n)%nat
      by (replace (2 * s * n)%nat with (s * n * 2)%nat by lia; now rewrite Nat.div_mul by lia).
    reflexivity.
  - intros idx Hi.
    rewrite (tree_next_rec3 _ _ _ _ _ sigma) by (try assumption; now rewrite Nat.eqb_refl).
    rewrite !eqz_split_bits by assumption. cbn [fst snd].
    rewrite !view1_pforeach by assumption.
    rewrite xor3_shiftr. reflexivity.
Qed.

Lemma tree_bits fuel n res w sigma (V : nat -> Z) :
  (0 < n)%nat -> sigma_ok sigma -> coherent sigma res ->
  (forall idx, (idx < n)%nat -> rec3 res idx = V idx) ->
  exists res' w',
    eqz_and_tree (4 + fuel) n n (n * 8) res w = Ok (res', w') /\
    forall idx, (idx < n)%nat -> rec3 res' idx = bit_fold (V idx).
Proof.
  intros Hn Hsig Hc HV.
  replace (n * 8)%nat with (2 * 4 * n)%nat by lia.
  destruct (tree_shift_round (3 + fuel) n 4 res w sigma) as (E1 & R1); try assumption; try lia.
  set (res1 := tree_next w n n (2 * 4 * n) res) in *.
  replace (4 * n)%nat with (2 * 2 * n)%nat in E1 by lia.
  destruct (tree_shift_round (2 + fuel) n 2 res1 (tree_world w) (turn (orientation w)))
    as (E2 & R2); try assumption; try lia; [apply turn_ok|apply tree_next_coherent|].
  set (w1 := tree_world w) in *.
  set (res2 := tree_next w1 n n (2 * 2 * n) res1) in *.
  replace (2 * n)%nat with (2 * 1 * n)%nat in E2 by lia.
  destruct (tree_shift_round (1 + fuel) n 1 res2 (tree_world w1) (turn (orientation w1)))
    as (E3 & R3); try assumption; try lia; [apply turn_ok|apply tree_next_coherent|].
  set (w2 := tree_world w1) in *.
  set (res3 := tree_next w2 n n (2 * 1 * n) res2) in *.
  exists res3, (tree_world w2). split.
  - change (4 + fuel)%nat with (S (3 + fuel)). rewrite E1.
    change (3 + fuel)%nat with (S (2 + fuel)). rewrite E2.
    change (2 + fuel)%nat with (S (1 + fuel)). rewrite E3.
    rewrite Nat.mul_1_l. apply eqz_and_tree_done.
  - intros idx Hi. rewrite R3, R2, R1 by assumption. rewrite HV by assumption.
    reflexivity.
Qed.

(* ------------------------------------------------------------------ *)
(** ** The value the tree computes *)

Lemma byte_at_range i v : 0 <= byte_at i v < 256.
Proof. unfold byte_at. apply Z.mod_pos_bound. lia. Qed.

Lemma byte_at_testbit i v j :
  0 <= j < 8 -> Z.testbit (byte_at i v) j = Z.testbit v (8 * Z.of_nat i + j).
Proof.
  intros Hj. unfold byte_at. change 256 with (2 ^ 8).
  rewrite Z.mod_pow2_bits_low by lia.
  rewrite Z.div_pow2_bits by lia. f_equal. lia.
Qed.

Lemma byte_at_high i v j : 8 <= j -> Z.testbit (byte_at i v) j = false.
Proof.
  intros Hj. unfold byte_at. change 256 with (2 ^ 8).
  apply Z.mod_pow2_bits_high. lia.
Qed.

Lemma byte_at_lxor i a b : byte_at i (Z.lxor a b) = Z.lxor (byte_at i a) (byte_at i b).
Proof.
  apply Z.bits_inj'. intros j Hj. rewrite Z.lxor_spec.
  destruct (Z.ltb_spec j 8).
  - rewrite !byte_at_testbit by lia. apply Z.lxor_spec.
  - rewrite !byte_at_high by lia. reflexivity.
Qed.

Lemma testbit_255 j : 0 <= j -> Z.testbit 255 j = (j <? 8).
Proof.
  intros Hj. change 255 with (Z.ones 8).
  destruct (Z.ltb_spec j 8).
  - apply Z.ones_spec_low. lia.
  - apply Z.ones_spec_high. lia.
Qed.

Lemma byte_is_255 a :
  0 <= a < 256 -> (forall j, 0 <= j < 8 -> Z.testbit a j = true) -> a = 255.
Proof.
  intros Ha H. apply Z.bits_inj'. intros j Hj. rewrite testbit_255 by assumption.
  destruct (Z.ltb_spec j 8).
  - apply H. lia.
  - rewrite <- (Z.mod_small a (2 ^ 8)) by (change (2 ^ 8) with 256; lia).
    apply Z.mod_pow2_bits_high. lia.
Qed.

Lemma land_255_iff a b :
  0 <= a < 256 -> 0 <= b < 256 -> (Z.land a b = 255 <-> a = 255 /\ b = 255).
Proof.
  intros Ha Hb. split.
  - intros H.
    assert (Hbits : forall j, 0 <= j < 8 -> Z.testbit a j = true /\ Z.testbit b j = true).
    { intros j Hj. apply andb_true_iff. rewrite <- Z.land_spec, H, testbit_255 by lia.
      apply Z.ltb_lt. lia. }
    split; apply byte_is_255; try assumption; intros j Hj; apply Hbits; assumption.
  - intros [-> ->]. reflexivity.
Qed.

Lemma land_byte_range a b : 0 <= a < 256 -> 0 <= Z.land a b < 256.
Proof. intros. change 256 with (2 ^ 8). apply land_range; [lia|assumption]. Qed.

Lemma and_fold_spec k : forall W,
  (forall i, (i < 2 ^ k)%nat -> 0 <= W i < 256) ->
  0 <= and_fold k W < 256 /\
  (and_fold k W = 255 <-> forall i, (i < 2 ^ k)%nat -> W i = 255).
Proof.
  induction k as [|k IH]; intros W HW; cbn [and_fold].
  - split; [apply HW; simpl; lia|]. split.
    + intros H i Hi. simpl in Hi. now replace i with 0%nat by lia.
    + intros H. apply H. simpl. lia.
  - assert (Hp : (0 < 2 ^ k)%nat) by (apply Nat.neq_0_lt_0, Nat.pow_nonzero; lia).
    destruct (IH (fun i => Z.land (W i) (W (2 ^ k + i)%nat))) as (Hr & Hiff).
    { intros i Hi. apply land_byte_range, HW. cbn [Nat.pow]. lia. }
    split; [exact Hr|]. rewrite Hiff. split.
    + intros H i Hi. cbn [Nat.pow] in Hi.
      destruct (Nat.lt_ge_cases i (2 ^ k)) as [Hlt|Hge].
      * apply (land_255_iff (W i) (W (2 ^ k + i)%nat));
          [apply HW; cbn [Nat.pow]; lia|apply HW; cbn [Nat.pow]; lia|apply H; assumption].
      * replace i with (2 ^ k + (i - 2 ^ k))%nat by lia.
        apply (land_255_iff (W (i - 2 ^ k)%nat) (W (2 ^ k + (i - 2 ^ k))%nat));
          [apply HW; cbn [Nat.pow]; lia|apply HW; cbn [Nat.pow]; lia|apply H; lia].
    + intros H i Hi. apply land_255_iff;
        [apply HW; cbn [Nat.pow]; lia|apply HW; cbn [Nat.pow]; lia|].
      split; apply H; cbn [Nat.pow]; lia.
Qed.

Lemma bit_fold_spec a : 0 <= a < 256 -> bit_fold a = if a =? 255 then 1 else 0.
Proof.
  intros Ha.
  assert (H : forallb (fun m => bit_fold (Z.of_nat m) =? (if Z.of_nat m =? 255 then 1 else 0))
                (seq 0 256) = true) by (vm_compute; reflexivity).
  rewrite forallb_forall in H.
  specialize (H (Z.to_nat a)). rewrite Z2Nat.id in H by lia.
  apply Z.eqb_eq, H. apply in_seq. lia.
Qed.

Lemma all_bytes_255 (B : nat) v :
  0 <= v < 2 ^ (8 * Z.of_nat B) ->
  ((forall i, (i < B)%nat -> byte_at i v = 255) <-> v = 2 ^ (8 * Z.of_nat B) - 1).
Proof.
  intros Hv. split.
  - intros H.
    replace (2 ^ (8 * Z.of_nat B) - 1) with (Z.ones (8 * Z.of_nat B))
      by (rewrite Z.ones_equiv; lia).
    apply Z.bits_inj'. intros m Hm.
    destruct (Z.ltb_spec m (8 * Z.of_nat B)) as [Hlt|Hge].
    + rewrite Z.ones_spec_low by lia.
      replace m with (8 * Z.of_nat (Z.to_nat (m / 8)) + m mod 8)
        by (rewrite Z2Nat.id by (apply Z.div_pos; lia);
            symmetry; apply Z.div_mod; lia).
      rewrite <- byte_at_testbit by (apply Z.mod_pos_bound; lia).
      rewrite H.
      * rewrite testbit_255 by (apply Z.mod_pos_bound; lia).
        apply Z.ltb_lt. apply Z.mod_pos_bound. lia.
      * apply Nat2Z.inj_lt. rewrite Z2Nat.id by (apply Z.div_pos; lia).
        apply Z.div_lt_upper_bound; lia.
    + rewrite Z.ones_spec_high by lia.
      rewrite <- (Z.mod_small v (2 ^ (8 * Z.of_nat B))) by assumption.
      apply Z.mod_pow2_bits_high. lia.
  - intros -> i Hi. apply byte_is_255; [apply byte_at_range|].
    intros j Hj. rewrite byte_at_testbit by assumption.
    replace (2 ^ (8 * Z.of_nat B) - 1) with (Z.ones (8 * Z.of_nat B))
      by (rewrite Z.ones_equiv; lia).
    apply Z.ones_spec_low. lia.
Qed.

(** An element of 2^k bytes folds to 1 when all its bits are set, to 0
    otherwise. *)
Lemma fold_element k v :
  0 <= v < 2 ^ (8 * Z.of_nat (2 ^ k)) ->
  bit_fold (and_fold k (fun i => byte_at i v)) =
  if v =? 2 ^ (8 * Z.of_nat (2 ^ k)) - 1 then 1 else 0.
Proof.
  intros Hv.
  destruct (and_fold_spec k (fun i => byte_at i v)) as (Hr & Hiff).
  { intros; apply byte_at_range. }
  rewrite bit_fold_spec by assumption.
  rewrite all_bytes_255 in Hiff by assumption.
  destruct (Z.eqb_spec (and_fold k (fun i => byte_at i v)) 255) as [E|E];
    destruct (Z.eqb_spec v (2 ^ (8 * Z.of_nat (2 ^ k)) - 1)) as [E'|E'];
    try reflexivity; exfalso; tauto.
Qed.

(* ------------------------------------------------------------------ *)
(** ** The flags of eqz *)

Lemma roles_cases p :
  0 <= p < 2 ^ 64 - 2 ->
  roles p = (0, 1, 2) \/ roles p = (1, 2, 0) \/ roles p = (2, 0, 1).
Proof.
  intros Hp. unfold roles.
  rewrite (Z.mod_small (p + 1)), (Z.mod_small (p + 2)) by lia.
  assert (H3 : 0 <= p mod 3 < 3) by (apply Z.mod_pos_bound; lia).
  assert (E1 : (p + 1) mod 3 = (p mod 3 + 1) mod 3)
    by (rewrite Z.add_mod_idemp_l by lia; reflexivity).
  assert (E2 : (p + 2) mod 3 = (p mod 3 + 2) mod 3)
    by (rewrite Z.add_mod_idemp_l by lia; reflexivity).
  rewrite E1, E2.
  destruct (rank_cases _ H3) as [E|[E|E]]; rewrite E; [left|right; left|right; right];
    reflexivity.
Qed.

Lemma pforeach_view1 n f : pforeach n (fun idx => view1 (pforeach n f) idx) = pforeach n f.
Proof. apply pforeach_ext. intros i Hi. apply view1_pforeach. exact Hi. Qed.

(** not x on the low bits. *)
Lemma flag_xor K r rb rz c :
  0 <= K ->
  xor3 (Z.lxor r rb mod 2 ^ K) rz
       (Z.lxor (Z.lnot (Z.lxor c rb)) rz mod 2 ^ K) mod 2 ^ K
  = Z.lnot (Z.lxor r c) mod 2 ^ K.
Proof.
  intros HK. unfold xor3. apply Z.bits_inj'. intros j Hj.
  destruct (Z.ltb_spec j K) as [Hlt|Hge].
  - rewrite !Z.mod_pow2_bits_low by lia.
    rewrite !Z.lxor_spec. rewrite !Z.mod_pow2_bits_low by lia.
    rewrite !Z.lxor_spec, !Z.lnot_spec by lia. rewrite !Z.lxor_spec.
    destruct (Z.testbit r j), (Z.testbit rb j), (Z.testbit rz j), (Z.testbit c j); reflexivity.
  - rewrite !Z.mod_pow2_bits_high by lia. reflexivity.
Qed.

Lemma lnot_mod_full K x :
  0 <= K -> 0 <= x < 2 ^ K ->
  Z.lnot x mod 2 ^ K = 2 ^ K - 1 - x.
Proof.
  intros HK Hx. unfold Z.lnot, Z.pred.
  replace (- x + -1) with (2 ^ K - 1 - x + (-1) * 2 ^ K) by lia.
  rewrite Z.mod_add by lia. apply Z.mod_small. lia.
Qed.

Lemma open_is_zero M r s :
  0 < M -> 0 <= r < M ->
  ((r + s) mod M = r <-> s mod M = 0).
Proof.
  intros HM Hr. split; intros H.
  - assert (E : (r + s - r) mod M = 0).
    { rewrite <- Zminus_mod_idemp_l. rewrite H. rewrite Z.sub_diag. apply Z.mod_0_l. lia. }
    replace (r + s - r) with s in E by lia. exact E.
  - rewrite <- Z.add_mod_idemp_r by lia. rewrite H, Z.add_0_r. apply Z.mod_small. exact Hr.
Qed.

Lemma flag_value K r rb rz ra a1 a2 :
  0 <= K -> 0 <= r < 2 ^ K -> 0 <= rz < 2 ^ K ->
  let c := (((r - ra) mod 2 ^ K + a2) mod 2 ^ K + (ra + a1 mod 2 ^ K) mod 2 ^ K) mod 2 ^ K in
  let X := xor3 (Z.lxor r rb mod 2 ^ K) rz
                (Z.lxor (Z.lnot (Z.lxor c rb)) rz mod 2 ^ K) in
  0 <= X < 2 ^ K /\ ((X =? 2 ^ K - 1) = ((a1 + a2) mod 2 ^ K =? 0)).
Proof.
  intros HK Hr Hrz c X.
  assert (HM : 0 < 2 ^ K) by (apply Z.pow_pos_nonneg; lia).
  assert (Hc : 0 <= c < 2 ^ K) by (apply Z.mod_pos_bound; lia).
  assert (HX : 0 <= X < 2 ^ K).
  { unfold X, xor3. apply lxor_range; [lia| |apply Z.mod_pos_bound; lia].
    apply lxor_range; [lia|apply Z.mod_pos_bound; lia|exact Hrz]. }
  split; [exact HX|].
  assert (EX : X = Z.lnot (Z.lxor r c) mod 2 ^ K).
  { rewrite <- (Z.mod_small X (2 ^ K)) by exact HX. unfold X. apply flag_xor. exact HK. }
  assert (Hrc : 0 <= Z.lxor r c < 2 ^ K) by (apply lxor_range; lia).
  rewrite lnot_mod_full in EX by assumption.
  assert (Ec : c = (r + (a1 + a2)) mod 2 ^ K).
  { unfold c. rewrite Z.add_mod_idemp_l, Z.add_mod_idemp_r by lia.
    replace ((r - ra) mod 2 ^ K + a2 + (ra + a1 mod 2 ^ K))
      with (a1 mod 2 ^ K + ((r - ra) mod 2 ^ K + (a2 + ra))) by lia.
    rewrite Z.add_mod_idemp_l by lia.
    replace (a1 + ((r - ra) mod 2 ^ K + (a2 + ra)))
      with ((r - ra) mod 2 ^ K + (a1 + a2 + ra)) by lia.
    rewrite Z.add_mod_idemp_l by lia. f_equal. lia. }
  destruct (Z.eqb_spec ((a1 + a2) mod 2 ^ K) 0) as [E0|N0].
  - apply Z.eqb_eq. apply (open_is_zero (2 ^ K) r) in E0; [|lia|exact Hr].
    rewrite <- Ec in E0. rewrite E0, Z.lxor_nilpotent in EX. lia.
  - apply Z.eqb_neq. intros E. apply N0.
    apply (open_is_zero (2 ^ K) r); [lia|exact Hr|].
    rewrite <- Ec. assert (Z.lxor r c = 0) by lia.
    apply Z.lxor_eq in H. symmetry. exact H.
Qed.

Lemma xor3_rot a b c : xor3 b c a = xor3 a b c.
Proof. unfold xor3. rewrite (Z.lxor_comm _ a), Z.lxor_assoc. reflexivity. Qed.

Ltac run_proto :=
  lazy beta iota zeta delta
    [lift roles_distinct fillPriv fillPrssPair send_recv bind log_call ret
     Z.eqb Pos.eqb negb andb
     flags orientation default_field tape prss_counter publ_counter priv_counter comm_log].

Ltac at_ranks :=
  change (NextRank 0) with 1; change (NextRank 1) with 2; change (NextRank 2) with 0;
  cbn [ptab party0 party1 party2 fst snd pget Z.eqb Pos.eqb prss_pair];
  change (NextRank 0) with 1; change (NextRank 1) with 2; change (NextRank 2) with 0.

Lemma eqz_flags_spec field n inp w :
  publ_tape (tape w) (publ_counter w) mod 2 ^ 64 < 2 ^ 64 - 2 ->
  exists zf w' P1,
    eqz_flags field (GetStorageType field) n inp w = Ok (zf, w') /\
    0 <= P1 < 3 /\
    coherent NextRank zf /\
    forall idx, (idx < n)%nat ->
      let X := rec3 zf idx in
      0 <= X < 2 ^ bitsof (GetStorageType field) /\
      (X =? 2 ^ bitsof (GetStorageType field) - 1) =
      (wrap (GetStorageType field) (eqz_secret inp P1 idx) =? 0).
Proof.
  destruct w as [fl o df tp pc uc vc lg]. cbn [tape publ_counter]. intros Hp.
  assert (Hp0 : 0 <= publ_tape tp uc mod 2 ^ 64) by (apply Z.mod_pos_bound; lia).
  assert (HK : 0 <= bitsof (GetStorageType field)) by apply bitsof_nonneg.
  assert (HM : 0 < 2 ^ bitsof (GetStorageType field)) by (apply Z.pow_pos_nonneg; lia).
  destruct (roles_cases _ (conj Hp0 Hp)) as [E|[E|E]];
    unfold eqz_flags, bind at 1, fillPubl; cbn [tape publ_counter]; rewrite E;
    eexists; eexists;
    [exists 1|exists 2|exists 0];
    (split; [run_proto; reflexivity|]); (split; [lia|]);
    (split; [unfold coherent; at_ranks; unfold prss_draw; rewrite ?pforeach_view1;
             repeat split; reflexivity|]).
  all: intros idx Hi; unfold rec3, eqz_secret; at_ranks;
    unfold prss_draw; rewrite ?view1_pforeach by exact Hi; unfold wrap.
  - apply flag_value; try apply Z.mod_pos_bound; lia.
  - rewrite <- xor3_rot.
    apply flag_value; try apply Z.mod_pos_bound; lia.
  - rewrite xor3_rot.
    apply flag_value; try apply Z.mod_pos_bound; lia.
Qed.

(* ------------------------------------------------------------------ *)
(** ** eqz as a whole *)

Lemma field_bytes f : Z.to_nat (SizeOfField f) = (2 ^ field_log f)%nat.
Proof. destruct f; reflexivity. Qed.

Lemma field_bits f : bitsof (GetStorageType f) = 8 * Z.of_nat (2 ^ field_log f).
Proof. destruct f; reflexivity. Qed.

Lemma field_backtype f :
  calcBShareBacktype (SizeOfField f * 8) = Ok (GetStorageType f).
Proof. destruct f; reflexivity. Qed.

Lemma tree_total_fuel k extra n res w sigma (W : nat -> nat -> Z) :
  (0 < n)%nat -> sigma_ok sigma -> coherent sigma res ->
  (forall idx i, (idx < n)%nat -> (i < 2 ^ k)%nat -> rec3 res (idx * 2 ^ k + i) = W idx i) ->
  exists res' w',
    eqz_and_tree (k + (4 + extra)) n (2 ^ k * n) (2 ^ k * n * 8) res w = Ok (res', w') /\
    forall idx, (idx < n)%nat -> rec3 res' idx = bit_fold (and_fold k (W idx)).
Proof.
  intros Hn Hsig Hc HW.
  destruct (tree_bytes k (4 + extra) n res w sigma W Hn Hsig Hc HW)
    as (res1 & w1 & sigma1 & E1 & Hs1 & Hc1 & R1).
  destruct (tree_bits extra n res1 w1 sigma1 (fun idx => and_fold k (W idx)) Hn Hs1 Hc1 R1)
    as (res2 & w2 & E2 & R2).
  exists res2, w2. split; [|exact R2].
  rewrite E1. exact E2.
Qed.

Lemma view1_memcpy nb l n idx i :
  (idx < n)%nat -> (i < nb)%nat ->
  view1 (memcpy_bytes nb l n) (idx * nb + i) = byte_at i (view1 l idx).
Proof.
  intros Hidx Hi. unfold memcpy_bytes, bytes_of.
  rewrite (view1_concat_pforeach n nb (fun a j => (view1 l a / 2 ^ (8 * Z.of_nat j)) mod 256))
    by assumption.
  reflexivity.
Qed.

Lemma byte_at_xor3 i a b c : byte_at i (xor3 a b c) = xor3 (byte_at i a) (byte_at i b) (byte_at i c).
Proof. unfold xor3. rewrite !byte_at_lxor. reflexivity. Qed.

Lemma flag_bytes_coherent field n zf :
  coherent NextRank zf -> coherent NextRank (flag_bytes field n zf).
Proof.
  unfold coherent, flag_bytes, ptab.
  change (NextRank 0) with 1; change (NextRank 1) with 2; change (NextRank 2) with 0.
  cbn [party0 party1 party2 fst snd pget Z.eqb Pos.eqb].
  intros (H0 & H1 & H2). rewrite H0, H1, H2. repeat split.
Qed.

Lemma eqz_tree_runs field n zf w (Z0 : nat -> Z) :
  coherent NextRank zf ->
  (forall idx, (idx < n)%nat ->
     0 <= rec3 zf idx < 2 ^ bitsof (GetStorageType field) /\
     (rec3 zf idx =? 2 ^ bitsof (GetStorageType field) - 1) = (Z0 idx =? 0)) ->
  exists res' w',
    eqz_and_tree 8 n (Z.to_nat (SizeOfField field) * n)
      (Z.to_nat (SizeOfField field) * n * 8) (flag_bytes field n zf) w = Ok (res', w') /\
    forall idx, (idx < n)%nat -> rec3 res' idx = if Z0 idx =? 0 then 1 else 0.
Proof.
  intros Hc HX.
  destruct (Nat.eq_dec n 0) as [E0|N0].
  - subst n. exists (flag_bytes field 0 zf), w. split.
    + rewrite Nat.mul_0_r. reflexivity.
    + intros idx Hi. lia.
  - assert (Hfuel : exists extra, (8 = field_log field + (4 + extra))%nat).
    { destruct field; [exists 2%nat|exists 1%nat|exists 0%nat]; reflexivity. }
    destruct Hfuel as (extra & Hfuel). rewrite field_bytes.
    destruct (tree_total_fuel (field_log field) extra n (flag_bytes field n zf) w NextRank
                (fun idx i => byte_at i (rec3 zf idx))) as (res' & w' & E & R).
    + lia.
    + left; reflexivity.
    + apply flag_bytes_coherent. exact Hc.
    + intros idx i Hidx Hi. unfold rec3 at 1, flag_bytes, ptab.
      cbn [party0 party1 party2 fst snd pget Z.eqb Pos.eqb].
      rewrite field_bytes, !view1_memcpy by assumption.
      unfold rec3. rewrite byte_at_xor3. reflexivity.
    + rewrite <- Hfuel in E. exists res', w'. split; [exact E|].
      intros idx Hi. rewrite R by exact Hi.
      destruct (HX idx Hi) as (Hr & Hb).
      rewrite field_bits in Hr, Hb.
      rewrite fold_element by exact Hr. rewrite Hb. reflexivity.
Qed.

Lemma eqz_spec field shp e0 e1 e2 w :
  publ_tape (tape w) (publ_counter w) mod 2 ^ 64 < 2 ^ 64 - 2 ->
  let inp := mkParties (mkArr field shp e0) (mkArr field shp e1) (mkArr field shp e2) in
  exists out w' P1,
    eqz inp w = Ok (out, w') /\
    0 <= P1 < 3 /\
    (forall rank, eltype (pget out rank) = mkBShrTy PT_U8 8 /\
                  shape (pget out rank) = shp /\
                  length (elems (pget out rank)) = nelems shp) /\
    reconstruct_b out =
      pforeach (nelems shp) (fun idx =>
        if wrap (GetStorageType field) (eqz_secret inp P1 idx) =? 0 then 1 else 0).
Proof.
  intros Hp inp.
  destruct (eqz_flags_spec field (nelems shp) inp w Hp) as (zf & w1 & P1 & Ef & HP1 & Hcoh & HX).
  destruct (eqz_tree_runs field (nelems shp) zf w1
              (fun idx => wrap (GetStorageType field) (eqz_secret inp P1 idx)) Hcoh HX)
    as (res' & w' & Et & R).
  unfold eqz.
  change (eltype (party0 inp)) with field.
  change (numel (party0 inp)) with (nelems shp).
  rewrite field_backtype.
  change (calcBShareBacktype 8) with (Ok PT_U8).
  unfold bind, lift. rewrite Ef.
  unfold flag_bytes in Et. rewrite Et.
  eexists. exists w', P1. split; [reflexivity|]. split; [exact HP1|]. split.
  - intros rank. unfold ptab, pget.
    destruct (rank =? 0); [|destruct (rank =? 1)];
      cbn [eltype shape elems party0 party1 party2 Z.eqb Pos.eqb];
      rewrite pforeach_length; repeat split; reflexivity.
  - unfold reconstruct_b, ptab, numel.
    cbn [eltype shape elems party0 party1 party2 pget Z.eqb Pos.eqb].
    change (fold_right Nat.mul 1%nat shp) with (nelems shp).
    apply pforeach_ext. intros idx Hi.
    rewrite !view2_pforeach by exact Hi. unfold slot0. cbn [fst].
    rewrite <- R by exact Hi. reflexivity.
Qed.

(* ------------------------------------------------------------------ *)
(** ** EqualAA and EqualAP *)

Lemma mod_absorb M a : 0 < M -> exists q, a mod M = a + q * M.
Proof. intros HM. exists (- (a / M)). rewrite Z.mod_eq by lia. ring. Qed.

Lemma mod_eq_of_diff M a b q : a = b + q * M -> a mod M = b mod M.
Proof. intros ->. apply Z_mod_plus_full. Qed.

Ltac absorb HM q :=
  match goal with
  | |- ?L mod ?M = _ =>
      match L with
      | context [?t mod M] => destruct (mod_absorb M t HM) as (q & ->)
      end
  end.

Lemma eq_via_diff M S T D :
  0 < M -> D mod M = (S - T) mod M ->
  (D mod M =? 0) = (S mod M =? T mod M).
Proof.
  intros HM E. rewrite E.
  destruct (Z.eqb_spec (S mod M) (T mod M)) as [H|H].
  - apply Z.eqb_eq. rewrite Zminus_mod, H, Z.sub_diag. apply Z.mod_0_l. lia.
  - apply Z.eqb_neq. intros H0. apply H.
    replace S with (S - T + T) at 1 by lia.
    rewrite <- Z.add_mod_idemp_l, H0 by lia. reflexivity.
Qed.

Lemma field_eqb_refl f : field_eqb f f = true.
Proof. destruct f; reflexivity. Qed.

Lemma EqualAA_spec
    (field : FieldType) (shp : list nat) (x0 x1 x2 y0 y1 y2 : list Z) (w : World) :
  let n := nelems shp in
  let el := GetStorageType field in
  length x0 = n -> length x1 = n -> length x2 = n ->
  length y0 = n -> length y1 = n -> length y2 = n ->
  publ_tape (tape w) (publ_counter w) mod 2 ^ 64 < 2 ^ 64 - 2 ->
  exists outAA wAA,
    EqualAA (share_a field shp x0 x1 x2) (share_a field shp y0 y1 y2) w = Ok (outAA, wAA) /\
    (forall rank, eltype (pget outAA rank) = mkBShrTy PT_U8 8 /\
                  shape (pget outAA rank) = shp) /\
    reconstruct_b outAA =
      pforeach n (fun idx =>
        if wrap el (sum3 x0 x1 x2 idx) =? wrap el (sum3 y0 y1 y2 idx) then 1 else 0).
Proof.
  intros n el Hx0 Hx1 Hx2 Hy0 Hy1 Hy2 Hp.
  unfold EqualAA, bind, each_party, lift, share_a, enforce.
  cbn [pget Z.eqb Pos.eqb party0 party1 party2 eltype shape elems rbind numel].
  rewrite field_eqb_refl. cbn [rbind].
  match goal with
  | |- context [eqz (mkParties (mkArr _ _ ?e0) (mkArr _ _ ?e1) (mkArr _ _ ?e2))] =>
      destruct (eqz_spec field shp e0 e1 e2 w Hp) as (out & w' & P1 & E & HP1 & Hty & Hrec)
  end.
  rewrite E. exists out, w'. split; [reflexivity|]. split.
  - intros rank. destruct (Hty rank) as (A & B & _). split; assumption.
  - rewrite Hrec. apply pforeach_ext. intros idx Hi.
    assert (HM : 0 < 2 ^ bitsof (GetStorageType field))
      by (apply Z.pow_pos_nonneg; [lia|apply bitsof_nonneg]).
    unfold wrap, el, sum3, eqz_secret.
    match goal with
    | |- (if ?a then _ else _) = (if ?b then _ else _) => assert (Hab : a = b)
    end; [|rewrite Hab; reflexivity].
    apply eq_via_diff; [exact HM|].
    change (fold_right Nat.mul 1%nat shp) with (nelems shp).
    destruct (rank_cases _ HP1) as [EP|[EP|EP]]; subst P1;
      change (NextRank 0) with 1; change (NextRank 1) with 2; change (NextRank 2) with 0;
      cbn [pget Z.eqb Pos.eqb party0 party1 party2 elems];
      rewrite !view2_pforeach by exact Hi;
      rewrite !view2_combine by (fold n; lia);
      unfold slot0, slot1, wrap; cbn [fst snd].
    all: absorb HM q0; absorb HM q1; absorb HM q2;
      apply (mod_eq_of_diff _ _ _ (q0 + q1 + q2)); ring.
Qed.

Lemma EqualAP_spec
    (field : FieldType) (shp : list nat) (x0 x1 x2 c : list Z) (w : World) :
  let n := nelems shp in
  let el := GetStorageType field in
  length x0 = n -> length x1 = n -> length x2 = n ->
  publ_tape (tape w) (publ_counter w) mod 2 ^ 64 < 2 ^ 64 - 2 ->
  exists outAP wAP,
    EqualAP (share_a field shp x0 x1 x2) (share_p field shp c) w = Ok (outAP, wAP) /\
    (forall rank, eltype (pget outAP rank) = mkBShrTy PT_U8 8 /\
                  shape (pget outAP rank) = shp) /\
    reconstruct_b outAP =
      pforeach n (fun idx =>
        if wrap el (sum3 x0 x1 x2 idx) =? wrap el (view1 c idx) then 1 else 0).
Proof.
  intros n el Hx0 Hx1 Hx2 Hp.
  unfold EqualAP, bind, each_party, lift, share_a, share_p, ptab, enforce.
  cbn [pget Z.eqb Pos.eqb party0 party1 party2 eltype shape elems rbind numel].
  rewrite field_eqb_refl. cbn [rbind].
  match goal with
  | |- context [eqz (mkParties (mkArr _ _ ?e0) (mkArr _ _ ?e1) (mkArr _ _ ?e2))] =>
      destruct (eqz_spec field shp e0 e1 e2 w Hp) as (out & w' & P1 & E & HP1 & Hty & Hrec)
  end.
  rewrite E. exists out, w'. split; [reflexivity|]. split.
  - intros rank. destruct (Hty rank) as (A & B & _). split; assumption.
  - rewrite Hrec. apply pforeach_ext. intros idx Hi.
    assert (HM : 0 < 2 ^ bitsof (GetStorageType field))
      by (apply Z.pow_pos_nonneg; [lia|apply bitsof_nonneg]).
    unfold wrap, el, sum3, eqz_secret.
    match goal with
    | |- (if ?a then _ else _) = (if ?b then _ else _) => assert (Hab : a = b)
    end; [|rewrite Hab; reflexivity].
    apply eq_via_diff; [exact HM|].
    change (fold_right Nat.mul 1%nat shp) with (nelems shp).
    destruct (rank_cases _ HP1) as [EP|[EP|EP]]; subst P1;
      change (NextRank 0) with 1; change (NextRank 1) with 2; change (NextRank 2) with 0;
      cbn [pget Z.eqb Pos.eqb party0 party1 party2 elems];
      rewrite !view2_pforeach by exact Hi;
      rewrite !view2_combine by (fold n; lia);
      unfold slot0, slot1, wrap; cbn [fst snd].
    all: absorb HM q0; apply (mod_eq_of_diff _ _ _ q0); ring.
Qed.

(* ------------------------------------------------------------------ *)
(** ** pack and unpack *)

(** Packing and unpacking one word. *)
Lemma lor_range k a b : 0 <= k -> 0 <= a < 2 ^ k -> 0 <= b < 2 ^ k -> 0 <= Z.lor a b < 2 ^ k.
Proof.
  intros Hk Ha Hb. apply land_ones_range; [assumption|].
  apply range_land_ones in Ha, Hb; try assumption.
  rewrite <- Ha, <- Hb at 2. apply Z.bits_inj'. intros n Hn.
  rewrite ?Z.land_spec, ?Z.lor_spec, ?Z.land_spec.
  destruct (Z.testbit (Z.ones k) n), (Z.testbit a n), (Z.testbit b n); reflexivity.
Qed.

Lemma pack_word_range n l h :
  0 <= n -> 0 <= l < 2 ^ n -> 0 <= h < 2 ^ n ->
  0 <= Z.lor l (Z.shiftl h n) < 2 ^ (2 * n).
Proof.
  intros Hn Hl Hh.
  assert (E : 2 ^ (2 * n) = 2 ^ n * 2 ^ n) by (rewrite <- Z.pow_add_r by lia; f_equal; lia).
  apply lor_range; [lia|nia|].
  rewrite Z.shiftl_mul_pow2 by lia. nia.
Qed.

Lemma testbit_small n v j : 0 <= n -> 0 <= v < 2 ^ n -> n <= j -> Z.testbit v j = false.
Proof.
  intros Hn Hv Hj. destruct (Z.eq_dec v 0) as [->|Hv0]; [apply Z.bits_0|].
  apply Z.bits_above_log2; [lia|].
  assert (Z.log2 v < n) by (apply Z.log2_lt_pow2; lia). lia.
Qed.

Lemma unpack_word_lo n l h :
  0 <= n -> 0 <= l < 2 ^ n -> 0 <= h < 2 ^ n ->
  Z.land (Z.lor l (Z.shiftl h n)) (2 ^ n - 1) = l.
Proof.
  intros Hn Hl Hh.
  replace (2 ^ n - 1) with (Z.ones n) by (rewrite Z.ones_equiv; lia).
  apply Z.bits_inj'. intros j Hj. rewrite Z.land_spec, Z.lor_spec.
  destruct (Z.ltb_spec j n).
  - rewrite Z.ones_spec_low, Z.shiftl_spec_low by lia.
    rewrite orb_false_r, andb_true_r. reflexivity.
  - rewrite Z.ones_spec_high by lia. rewrite andb_false_r.
    symmetry. apply (testbit_small n); lia.
Qed.

Lemma unpack_word_hi n l h :
  0 <= n -> 0 <= l < 2 ^ n -> 0 <= h < 2 ^ n ->
  Z.land (Z.shiftr (Z.lor l (Z.shiftl h n)) n) (2 ^ n - 1) = h.
Proof.
  intros Hn Hl Hh.
  replace (2 ^ n - 1) with (Z.ones n) by (rewrite Z.ones_equiv; lia).
  apply Z.bits_inj'. intros j Hj.
  rewrite Z.land_spec, Z.shiftr_spec, Z.lor_spec by lia.
  rewrite Z.shiftl_spec by lia. replace (j + n - n) with j by lia.
  rewrite (testbit_small n l (j + n)) by lia. cbn [orb].
  destruct (Z.ltb_spec j n).
  - rewrite Z.ones_spec_low by lia. apply andb_true_r.
  - rewrite Z.ones_spec_high by lia. rewrite andb_false_r.
    symmetry. apply (testbit_small n); lia.
Qed.

Lemma pforeach_view2_eq k (l : list (Z * Z)) f :
  length l = k -> (forall idx, (idx < k)%nat -> f idx = view2 l idx) -> pforeach k f = l.
Proof.
  intros Hl Hf. apply (nth_ext _ _ (0, 0) (0, 0)).
  - rewrite pforeach_length. symmetry. exact Hl.
  - intros i Hi. rewrite pforeach_length in Hi. rewrite nth_pforeach by exact Hi.
    apply Hf. exact Hi.
Qed.

Lemma pforeach_view3_eq k (l : list (Z * Z * Z)) f :
  length l = k -> (forall idx, (idx < k)%nat -> f idx = view3 l idx) -> pforeach k f = l.
Proof.
  intros Hl Hf. apply (nth_ext _ _ (0, 0, 0) (0, 0, 0)).
  - rewrite pforeach_length. symmetry. exact Hl.
  - intros i Hi. rewrite pforeach_length in Hi. rewrite nth_pforeach by exact Hi.
    apply Hf. exact Hi.
Qed.

Lemma wf_pairs_view n k l idx :
  wf_pairs n k l -> (idx < k)%nat ->
  0 <= fst (view2 l idx) < 2 ^ n /\ 0 <= snd (view2 l idx) < 2 ^ n.
Proof.
  intros [Hl Hf] Hi. rewrite Forall_forall in Hf. apply Hf. unfold view2. apply nth_In. lia.
Qed.

Lemma wf_triples_view n k l idx :
  wf_triples n k l -> (idx < k)%nat ->
  0 <= mslot0 (view3 l idx) < 2 ^ n /\ 0 <= mslot1 (view3 l idx) < 2 ^ n /\
  0 <= mslot2 (view3 l idx) < 2 ^ n.
Proof.
  intros [Hl Hf] Hi. rewrite Forall_forall in Hf. apply Hf. unfold view3. apply nth_In. lia.
Qed.

Lemma even_double_checks n :
  1 <= n -> (negb (n + n =? 0) && ((n + n) mod 2 =? 0)) = true /\ (n + n) / 2 = n.
Proof.
  intros Hn. replace (n + n) with (n * 2) by lia.
  rewrite Z.mod_mul, Z.div_mul by lia.
  split; [|reflexivity]. destruct (Z.eqb_spec (n * 2) 0); [lia|reflexivity].
Qed.

Lemma unpack_masks_small k n :
  0 <= n <= 30 -> (0 < k)%nat -> unpack_masks k n n = Ok (2 ^ n - 1, 2 ^ n - 1).
Proof.
  intros Hn Hk. destruct k as [|k]; [lia|]. unfold unpack_masks, int_mask.
  destruct (Z.leb_spec 0 n); [|lia]. destruct (Z.ltb_spec n 31); [|lia]. reflexivity.
Qed.

(** One slot through pack and unpack, in the types the two functions
    choose. *)
Lemma slot_roundtrip tp t n l h :
  1 <= n -> n + n <= bitsof tp -> n <= bitsof t ->
  0 <= l < 2 ^ n -> 0 <= h < 2 ^ n ->
  wrap t (Z.land (wrap tp (Z.lor l (Z.shiftl (wrap tp h) n))) (2 ^ n - 1)) = l /\
  wrap t (Z.land (Z.shiftr (wrap tp (Z.lor l (Z.shiftl (wrap tp h) n))) n) (2 ^ n - 1)) = h.
Proof.
  intros Hn Htp Ht Hl Hh.
  pose proof (pow2_mono n (bitsof tp)) as M1.
  pose proof (pow2_mono (2 * n) (bitsof tp)) as M2.
  pose proof (pow2_mono n (bitsof t)) as M3.
  pose proof (pack_word_range n l h) as R.
  rewrite (wrap_small tp h) by lia.
  rewrite (wrap_small tp (Z.lor l (Z.shiftl h n))) by lia.
  rewrite unpack_word_lo, unpack_word_hi by lia.
  split; apply wrap_small; lia.
Qed.

Lemma pack_unpack_rss_roundtrip
    (tl th : PtType) (n : Z) (shp : list nat) (lo hi : list (Z * Z))
    (Hn : 1 <= n <= 30)
    (Hlo : wf_pairs n (nelems shp) lo) (Hhi : wf_pairs n (nelems shp) hi) :
  exists p h l,
    pack_2_bitvec_rss (mkArr (mkBShrTy tl n) shp lo) (mkArr (mkBShrTy th n) shp hi) = Ok p /\
    nbits (eltype p) = 2 * n /\
    unpack_2_bitvec_rss p = Ok (h, l) /\
    nbits (eltype h) = n /\ nbits (eltype l) = n /\
    shape h = shp /\ shape l = shp /\
    elems h = hi /\ elems l = lo.
Proof.
  destruct (calcBShareBacktype_ok (n + n)) as (tp & Etp & Htp); [lia|].
  destruct (calcBShareBacktype_ok n) as (t & Et & Ht); [lia|].
  destruct (even_double_checks n) as (Ea & Ed); [lia|].
  assert (Eh : n + n - n = n) by lia.
  assert (Em : exists m, unpack_masks (nelems shp) n n = Ok m /\
                ((0 < nelems shp)%nat -> m = (2 ^ n - 1, 2 ^ n - 1))).
  { destruct (Nat.eq_dec (nelems shp) 0) as [E0|N0].
    - rewrite E0. exists (0, 0). split; [reflexivity|lia].
    - eexists. split; [apply unpack_masks_small; lia|reflexivity]. }
  destruct Em as (m & Em & Hm).
  unfold pack_2_bitvec_rss, numel. cbn [eltype nbits shape elems].
  rewrite (Z.eqb_refl n). cbn [c_assert rbind]. rewrite Etp. cbn [rbind].
  eexists. eexists. eexists. split; [reflexivity|]. split; [cbn [eltype nbits]; lia|].
  unfold unpack_2_bitvec_rss, numel. cbn [eltype nbits shape elems].
  rewrite Ea. cbn [c_assert rbind]. rewrite Ed, Eh, Et. cbn [rbind].
  change (fold_right Nat.mul 1%nat shp) with (nelems shp).
  rewrite Em. cbn [rbind].
  split; [reflexivity|].
  cbn [eltype nbits shape elems]. repeat split.
  - apply pforeach_view2_eq; [apply Hhi|]. intros idx Hi.
    rewrite Hm by lia. cbn [fst snd].
    rewrite view2_pforeach by exact Hi. unfold slot0, slot1. cbn [fst snd].
    destruct (wf_pairs_view _ _ _ _ Hlo Hi) as (L0 & L1).
    destruct (wf_pairs_view _ _ _ _ Hhi Hi) as (H0 & H1).
    destruct (slot_roundtrip tp t n _ _ ltac:(lia) Htp Ht L0 H0) as (_ & ->).
    destruct (slot_roundtrip tp t n _ _ ltac:(lia) Htp Ht L1 H1) as (_ & ->).
    symmetry. apply surjective_pairing.
  - apply pforeach_view2_eq; [apply Hlo|]. intros idx Hi.
    rewrite Hm by lia. cbn [fst snd].
    rewrite view2_pforeach by exact Hi. unfold slot0, slot1. cbn [fst snd].
    destruct (wf_pairs_view _ _ _ _ Hlo Hi) as (L0 & L1).
    destruct (wf_pairs_view _ _ _ _ Hhi Hi) as (H0 & H1).
    destruct (slot_roundtrip tp t n _ _ ltac:(lia) Htp Ht L0 H0) as (-> & _).
    destruct (slot_roundtrip tp t n _ _ ltac:(lia) Htp Ht L1 H1) as (-> & _).
    symmetry. apply surjective_pairing.
Qed.

Lemma pack_unpack_mss_roundtrip
    (tl th : PtType) (n : Z) (shp : list nat) (lo hi : list (Z * Z * Z))
    (Hn : 1 <= n <= 30)
    (Hlo : wf_triples n (nelems shp) lo) (Hhi : wf_triples n (nelems shp) hi) :
  exists p h l,
    pack_2_bitvec_mss (mkArr (mkBShrTy tl n) shp lo) (mkArr (mkBShrTy th n) shp hi) = Ok p /\
    nbits (eltype p) = 2 * n /\
    unpack_2_bitvec_mss p = Ok (h, l) /\
    nbits (eltype h) = n /\ nbits (eltype l) = n /\
    shape h = shp /\ shape l = shp /\
    elems h = hi /\ elems l = lo.
Proof.
  destruct (calcBShareBacktype_ok (n + n)) as (tp & Etp & Htp); [lia|].
  destruct (calcBShareBacktype_ok n) as (t & Et & Ht); [lia|].
  destruct (even_double_checks n) as (Ea & Ed); [lia|].
  assert (Eh : n + n - n = n) by lia.
  assert (Em : exists m, unpack_masks (nelems shp) n n = Ok m /\
                ((0 < nelems shp)%nat -> m = (2 ^ n - 1, 2 ^ n - 1))).
  { destruct (Nat.eq_dec (nelems shp) 0) as [E0|N0].
    - rewrite E0. exists (0, 0). split; [reflexivity|lia].
    - eexists. split; [apply unpack_masks_small; lia|reflexivity]. }
  destruct Em as (m & Em & Hm).
  unfold pack_2_bitvec_mss, numel. cbn [eltype nbits shape elems].
  rewrite (Z.eqb_refl n). cbn [c_assert rbind]. rewrite Etp. cbn [rbind].
  eexists. eexists. eexists. split; [reflexivity|]. split; [cbn [eltype nbits]; lia|].
  unfold unpack_2_bitvec_mss, numel. cbn [eltype nbits shape elems].
  rewrite Ea. cbn [c_assert rbind]. rewrite Ed, Eh, Et. cbn [rbind].
  change (fold_right Nat.mul 1%nat shp) with (nelems shp).
  rewrite Em. cbn [rbind].
  split; [reflexivity|].
  cbn [eltype nbits shape elems]. repeat split.
  - apply pforeach_view3_eq; [apply Hhi|]. intros idx Hi.
    rewrite Hm by lia. cbn [fst snd].
    rewrite view3_pforeach by exact Hi.
    destruct (wf_triples_view _ _ _ _ Hlo Hi) as (L0 & L1 & L2).
    destruct (wf_triples_view _ _ _ _ Hhi Hi) as (H0 & H1 & H2).
    cbn [mslot0 mslot1 mslot2 fst snd].
    destruct (slot_roundtrip tp t n _ _ ltac:(lia) Htp Ht L0 H0) as (_ & ->).
    destruct (slot_roundtrip tp t n _ _ ltac:(lia) Htp Ht L1 H1) as (_ & ->).
    destruct (slot_roundtrip tp t n _ _ ltac:(lia) Htp Ht L2 H2) as (_ & ->).
    unfold mslot0, mslot1, mslot2. destruct (view3 hi idx) as [[a b] c]. reflexivity.
  - apply pforeach_view3_eq; [apply Hlo|]. intros idx Hi.
    rewrite Hm by lia. cbn [fst snd].
    rewrite view3_pforeach by exact Hi.
    destruct (wf_triples_view _ _ _ _ Hlo Hi) as (L0 & L1 & L2).
    destruct (wf_triples_view _ _ _ _ Hhi Hi) as (H0 & H1 & H2).
    cbn [mslot0 mslot1 mslot2 fst snd].
    destruct (slot_roundtrip tp t n _ _ ltac:(lia) Htp Ht L0 H0) as (-> & _).
    destruct (slot_roundtrip tp t n _ _ ltac:(lia) Htp Ht L1 H1) as (-> & _).
    destruct (slot_roundtrip tp t n _ _ ltac:(lia) Htp Ht L2 H2) as (-> & _).
    unfold mslot0, mslot1, mslot2. destruct (view3 lo idx) as [[a b] c]. reflexivity.
Qed.

Lemma pack_unpack_ass_roundtrip
    (tl th : PtType) (n : Z) (shp : list nat) (lo hi : list (Z * Z))
    (Hn : 1 <= n <= 30)
    (Hlo : wf_pairs n (nelems shp) lo) (Hhi : wf_pairs n (nelems shp) hi) :
  exists p h l,
    pack_2_bitvec_ass (mkArr (mkBShrTy tl n) shp lo) (mkArr (mkBShrTy th n) shp hi) = Ok p /\
    nbits (eltype p) = 2 * n /\
    unpack_2_bitvec_ass p = Ok (h, l) /\
    nbits (eltype h) = n /\ nbits (eltype l) = n /\
    shape h = shp /\ shape l = shp /\
    map slot0 (elems h) = map slot0 hi /\ map slot0 (elems l) = map slot0 lo.
Proof.
  destruct (calcBShareBacktype_ok (n + n)) as (tp & Etp & Htp); [lia|].
  destruct (calcBShareBacktype_ok n) as (t & Et & Ht); [lia|].
  destruct (even_double_checks n) as (Ea & Ed); [lia|].
  assert (Eh : n + n - n = n) by lia.
  assert (Em : exists m, unpack_masks (nelems shp) n n = Ok m /\
                ((0 < nelems shp)%nat -> m = (2 ^ n - 1, 2 ^ n - 1))).
  { destruct (Nat.eq_dec (nelems shp) 0) as [E0|N0].
    - rewrite E0. exists (0, 0). split; [reflexivity|lia].
    - eexists. split; [apply unpack_masks_small; lia|reflexivity]. }
  destruct Em as (m & Em & Hm).
  unfold pack_2_bitvec_ass, numel. cbn [eltype nbits shape elems].
  rewrite (Z.eqb_refl n). cbn [c_assert rbind]. rewrite Etp. cbn [rbind].
  eexists. eexists. eexists. split; [reflexivity|]. split; [cbn [eltype nbits]; lia|].
  unfold unpack_2_bitvec_ass, numel. cbn [eltype nbits shape elems].
  rewrite Ea. cbn [c_assert rbind]. rewrite Ed, Eh, Et. cbn [rbind].
  change (fold_right Nat.mul 1%nat shp) with (nelems shp).
  rewrite Em. cbn [rbind].
  split; [reflexivity|].
  cbn [eltype nbits shape elems]. repeat split.
  - apply (nth_ext _ _ 0 0).
    + rewrite !length_map, pforeach_length. symmetry. apply Hhi.
    + intros i Hi. rewrite length_map, pforeach_length in Hi.
      change 0 with (slot0 (0, 0)) at 1 2. rewrite !map_nth.
      rewrite nth_pforeach by exact Hi. fold (view2 hi i).
      rewrite Hm by lia. cbn [fst snd].
      rewrite view2_pforeach by exact Hi. unfold slot0. cbn [fst snd].
      destruct (wf_pairs_view _ _ _ _ Hlo Hi) as (L0 & L1).
      destruct (wf_pairs_view _ _ _ _ Hhi Hi) as (H0 & H1).
      destruct (slot_roundtrip tp t n _ _ ltac:(lia) Htp Ht L0 H0) as (_ & ->).
      reflexivity.
  - apply (nth_ext _ _ 0 0).
    + rewrite !length_map, pforeach_length. symmetry. apply Hlo.
    + intros i Hi. rewrite length_map, pforeach_length in Hi.
      change 0 with (slot0 (0, 0)) at 1 2. rewrite !map_nth.
      rewrite nth_pforeach by exact Hi. fold (view2 lo i).
      rewrite Hm by lia. cbn [fst snd].
      rewrite view2_pforeach by exact Hi. unfold slot0. cbn [fst snd].
      destruct (wf_pairs_view _ _ _ _ Hlo Hi) as (L0 & L1).
      destruct (wf_pairs_view _ _ _ _ Hhi Hi) as (H0 & H1).
      destruct (slot_roundtrip tp t n _ _ ltac:(lia) Htp Ht L0 H0) as (-> & _).
      reflexivity.
Qed.

(* ------------------------------------------------------------------ *)
(** ** bit_split: the PEXT path *)

Lemma gather_bits_app m : forall j start v,
  gather_bits (j + m) start v = gather_bits j start v + gather_from m j start v.
Proof.
  induction m as [|m IH]; intros j start v.
  - rewrite Nat.add_0_r. cbn [gather_from]. lia.
  - replace (j + S m)%nat with (S j + m)%nat by lia. rewrite IH.
    cbn [gather_bits gather_from]. lia.
Qed.

Lemma gather_bits_range h start v : 0 <= gather_bits h start v < 2 ^ Z.of_nat h.
Proof.
  induction h as [|h IH]; cbn [gather_bits].
  - simpl. lia.
  - rewrite Nat2Z.inj_succ, Z.pow_succ_r by lia.
    destruct (Z.testbit v (2 * Z.of_nat h + start)); lia.
Qed.

Lemma gather_from_multiple m : forall j start v,
  exists q, gather_from m j start v = q * 2 ^ Z.of_nat j.
Proof.
  induction m as [|m IH]; intros j start v; cbn [gather_from].
  - exists 0. lia.
  - destruct (IH (S j) start v) as (q & ->).
    rewrite Nat2Z.inj_succ, Z.pow_succ_r by lia.
    destruct (Z.testbit v (2 * Z.of_nat j + start)).
    + exists (1 + q * 2). lia.
    + exists (q * 2). lia.
Qed.

(** Masking the low [h] gathered bits out of more. *)
Lemma gather_bits_mask h m start v :
  Z.land (gather_bits (h + m) start v) (2 ^ Z.of_nat h - 1) = gather_bits h start v.
Proof.
  replace (2 ^ Z.of_nat h - 1) with (Z.ones (Z.of_nat h)) by (rewrite Z.ones_equiv; lia).
  rewrite Z.land_ones by lia. rewrite gather_bits_app.
  destruct (gather_from_multiple m h start v) as (q & ->).
  rewrite Z.mod_add by (apply Z.pow_nonzero; lia).
  apply Z.mod_small. apply gather_bits_range.
Qed.

Lemma alternating_b_ok mask start : alternating_b mask start = true -> alternating mask start.
Proof.
  unfold alternating_b, alternating. intros H j Hj.
  rewrite forallb_forall in H. specialize (H j).
  rewrite in_seq in H. specialize (H ltac:(lia)).
  apply andb_true_iff in H. destruct H as (H1 & H2).
  apply negb_true_iff in H2. split; assumption.
Qed.

Lemma pext_from_alternating mask start x :
  (start = 0 \/ start = 1) -> alternating mask start ->
  forall m j, (j + m <= 32)%nat ->
    pext_from (2 * m) (2 * Z.of_nat j) x mask (Z.of_nat j) = gather_from m j start x.
Proof.
  intros Hs Hmask. induction m as [|m IH]; intros j Hj.
  - reflexivity.
  - replace (2 * S m)%nat with (S (S (2 * m))) by lia.
    destruct (Hmask j ltac:(lia)) as (Ht & Hf).
    cbn [pext_from gather_from].
    replace (2 * Z.of_nat j + 1 + 1) with (2 * Z.of_nat (S j)) by lia.
    replace (Z.of_nat j + 1) with (Z.of_nat (S j)) by lia.
    destruct Hs as [-> | ->].
    + rewrite Z.add_0_r in Ht. rewrite Ht. rewrite Z.add_0_r.
      replace (2 * Z.of_nat j + (1 - 0)) with (2 * Z.of_nat j + 1) in Hf by lia.
      rewrite Hf. rewrite IH by lia. reflexivity.
    + replace (2 * Z.of_nat j + (1 - 1)) with (2 * Z.of_nat j) in Hf by lia.
      rewrite Hf, Ht. rewrite IH by lia. reflexivity.
Qed.

Lemma gather_bits_mod h start v :
  (start = 0 \/ start = 1) -> (h <= 32)%nat ->
  gather_bits h start (v mod 2 ^ 64) = gather_bits h start v.
Proof.
  intros Hs. induction h as [|h IH]; intros Hh; cbn [gather_bits].
  - reflexivity.
  - rewrite IH by lia. rewrite Z.mod_pow2_bits_low by lia. reflexivity.
Qed.

(** [pext_u64] with 0x5555555555555555 gathers the 32 even bits, with its
    complement the 32 odd bits. *)
Lemma pext_u64_alternating mask start x :
  (start = 0 \/ start = 1) -> alternating_b (mask mod 2 ^ 64) start = true ->
  pext_u64 x mask = gather_bits 32 start x.
Proof.
  intros Hs Hb. unfold pext_u64.
  change (pext_from 64 0 (x mod 2 ^ 64) (mask mod 2 ^ 64) 0)
    with (pext_from (2 * 32) (2 * Z.of_nat 0) (x mod 2 ^ 64) (mask mod 2 ^ 64) (Z.of_nat 0)).
  rewrite (pext_from_alternating _ start) by (try assumption; try lia; apply alternating_b_ok, Hb).
  rewrite <- (gather_bits_mod 32 start x) by (assumption || lia).
  rewrite (gather_bits_app 32 0). cbn [gather_bits]. lia.
Qed.

Lemma calc_small n :
  1 <= n <= 31 ->
  exists t, calcBShareBacktype n = Ok t /\ n <= bitsof t /\
            (SizeOf t <=? 8) = true /\ shl1 t n = Ok (2 ^ n).
Proof.
  intros Hn. unfold calcBShareBacktype.
  destruct (Z.leb_spec n 8); [exists PT_U8|
  destruct (Z.leb_spec n 16); [exists PT_U16|
  destruct (Z.leb_spec n 32); [exists PT_U32|lia]]];
  (split; [reflexivity|]); (split; [cbv [bitsof SizeOf]; lia|]);
  (split; [reflexivity|]); unfold shl1; cbv [bitsof SizeOf];
  (destruct (Z.leb_spec 0 n); [|lia]);
  match goal with |- context [n <? ?b] => destruct (Z.ltb_spec n b); [|lia] end;
  reflexivity.
Qed.

Lemma even_twice_checks h :
  1 <= h -> (negb (2 * h =? 0) && ((2 * h) mod 2 =? 0)) = true /\ 2 * h / 2 = h.
Proof.
  intros Hh. replace (2 * h) with (h * 2) by lia.
  rewrite Z.mod_mul, Z.div_mul by lia.
  split; [|reflexivity]. destruct (Z.eqb_spec (h * 2) 0); [lia|reflexivity].
Qed.

(** One slot of the PEXT path. *)
Lemma pext_slot t h mask start v :
  (start = 0 \/ start = 1) -> alternating_b (mask mod 2 ^ 64) start = true ->
  (h <= 32)%nat -> Z.of_nat h <= bitsof t ->
  wrap t (Z.land (pext_u64 v mask) (2 ^ Z.of_nat h - 1)) = gather_bits h start v.
Proof.
  intros Hs Hb Hh Ht. rewrite (pext_u64_alternating mask start) by assumption.
  replace 32%nat with (h + (32 - h))%nat by lia. rewrite gather_bits_mask.
  apply wrap_small. pose proof (gather_bits_range h start v).
  pose proof (pow2_mono (Z.of_nat h) (bitsof t)). lia.
Qed.

(* ------------------------------------------------------------------ *)
(** ** bit_split_mss: the swap passes *)

Lemma testbit_wrap_low t m j : 0 <= j < bitsof t -> Z.testbit (wrap t m) j = Z.testbit m j.
Proof. intros Hj. unfold wrap. apply Z.mod_pow2_bits_low. lia. Qed.

Lemma testbit_wrap_high t m j : bitsof t <= j -> Z.testbit (wrap t m) j = false.
Proof.
  intros Hj. unfold wrap. apply Z.mod_pow2_bits_high. pose proof (bitsof_nonneg t). lia.
Qed.

Lemma swap_pass_bit t k r j :
  0 <= j < bitsof t -> pass_ok (bitsof t) k j = true ->
  Z.testbit (swap_pass t k r) j = Z.testbit r (pass_src k j).
Proof.
  intros Hj Hok. unfold swap_pass, pass_ok, pass_src in *.
  rewrite Z.shiftl_1_l.
  assert (Hs : 0 < 2 ^ Z.of_nat k) by (apply Z.pow_pos_nonneg; lia).
  set (s := 2 ^ Z.of_nat k) in *.
  rewrite testbit_wrap_low by lia.
  rewrite !Z.lxor_spec, !Z.land_spec, Z.shiftr_spec by lia.
  rewrite !(testbit_wrap_low t _ j) by lia.
  rewrite Z.shiftl_spec by lia.
  assert (Hback : Z.testbit (Z.land r (wrap t (nth k kSwapMasks 0))) (j - s) =
                  Z.testbit r (j - s) && ((s <=? j) && Z.testbit (nth k kSwapMasks 0) (j - s))).
  { destruct (Z.leb_spec s j) as [Hle|Hlt].
    - rewrite Z.land_spec, testbit_wrap_low by lia. reflexivity.
    - rewrite Z.testbit_neg_r by lia. rewrite andb_false_r. reflexivity. }
  rewrite Hback. clear Hback.
  destruct (Z.testbit (nth k kKeepMasks 0) j).
  - apply andb_true_iff in Hok. destruct Hok as (Hm & Hb).
    apply negb_true_iff in Hm, Hb. rewrite Hm, Hb.
    rewrite !andb_false_r, andb_true_r, !xorb_false_r. reflexivity.
  - destruct (Z.testbit (nth k kSwapMasks 0) j).
    + apply andb_true_iff in Hok. destruct Hok as (Hb & _).
      apply negb_true_iff in Hb. rewrite Hb.
      rewrite !andb_false_r, andb_true_r, xorb_false_r. reflexivity.
    + rewrite Hok. rewrite !andb_false_r, andb_true_r. reflexivity.
Qed.

Lemma swap_passes_iter t nbits K v :
  Log2Ceil nbits = Z.of_nat K + 1 ->
  forall fuel k, (k <= K)%nat -> (K - k <= fuel)%nat ->
    swap_passes t nbits fuel k (iter_passes t k v) = iter_passes t K v.
Proof.
  intros HL. induction fuel as [|fuel IH]; intros k Hk Hf.
  - assert (k = K) by lia. subst k. reflexivity.
  - cbn [swap_passes]. rewrite HL.
    destruct (Z.ltb_spec (Z.of_nat k + 1) (Z.of_nat K + 1)) as [Hlt|Hge].
    + change (swap_pass t k (iter_passes t k v)) with (iter_passes t (S k) v).
      apply IH; lia.
    + assert (k = K) by lia. subst k. reflexivity.
Qed.

Lemma butterfly_iter t nbits K v :
  Log2Ceil nbits = Z.of_nat K + 1 -> (K <= 6)%nat ->
  butterfly t nbits v = iter_passes t K v.
Proof.
  intros HL HK. unfold butterfly.
  apply (swap_passes_iter t nbits K v HL 6%nat 0%nat); lia.
Qed.

Lemma iter_passes_bit t K : forall v j,
  0 <= j < bitsof t -> total_ok (bitsof t) K j = true ->
  Z.testbit (iter_passes t K v) j = Z.testbit v (total_src K j).
Proof.
  induction K as [|K IH]; intros v j Hj Hok.
  - reflexivity.
  - cbn [iter_passes total_src total_ok] in *.
    apply andb_true_iff in Hok. destruct Hok as (Hok & H4).
    apply andb_true_iff in Hok. destruct Hok as (Hok & H3).
    apply andb_true_iff in Hok. destruct Hok as (H1 & H2).
    apply Z.leb_le in H2. apply Z.ltb_lt in H3.
    rewrite swap_pass_bit by assumption.
    apply IH; [lia|assumption].
Qed.

Lemma pass_ok_mono b b' k j : b <= b' -> pass_ok b k j = true -> pass_ok b' k j = true.
Proof.
  intros Hb. unfold pass_ok.
  destruct (Z.testbit (nth k kKeepMasks 0) j); [trivial|].
  destruct (Z.testbit (nth k kSwapMasks 0) j); [|trivial].
  intros H. apply andb_true_iff in H. destruct H as (H1 & H2).
  apply Z.ltb_lt in H2. rewrite H1. cbn [andb]. apply Z.ltb_lt. lia.
Qed.

Lemma total_ok_mono b b' K : b <= b' -> forall j,
  total_ok b K j = true -> total_ok b' K j = true.
Proof.
  intros Hb. induction K as [|K IH]; intros j H; [reflexivity|].
  cbn [total_ok] in *.
  apply andb_true_iff in H. destruct H as (H & H4).
  apply andb_true_iff in H. destruct H as (H & H3).
  apply andb_true_iff in H. destruct H as (H1 & H2).
  rewrite (pass_ok_mono b b' K j Hb H1), H2, (IH _ H4). cbn [andb].
  apply Z.ltb_lt in H3. rewrite andb_true_r. apply Z.ltb_lt. lia.
Qed.

Lemma deinterleaved_up_to_128 K : (K <= 6)%nat -> deinterleaved K = true.
Proof.
  intros HK.
  destruct K as [|[|[|[|[|[|[|K]]]]]]]; try lia; vm_compute; reflexivity.
Qed.

Lemma butterfly_bit t K v j :
  (K <= 6)%nat -> 2 ^ Z.of_nat (S K) <= bitsof t -> 0 <= j < 2 ^ Z.of_nat (S K) ->
  Z.testbit (butterfly t (2 ^ Z.of_nat (S K)) v) j =
  Z.testbit v (if j <? 2 ^ Z.of_nat K then 2 * j else 2 * (j - 2 ^ Z.of_nat K) + 1).
Proof.
  intros HK Ht Hj.
  rewrite (butterfly_iter t _ K).
  2: { unfold Log2Ceil. rewrite Z.log2_up_pow2 by lia. lia. }
  2: exact HK.
  pose proof (deinterleaved_up_to_128 K HK) as HD. unfold deinterleaved in HD.
  rewrite forallb_forall in HD. specialize (HD (Z.to_nat j)).
  rewrite in_seq in HD.
  assert (Hin : (0 <= Z.to_nat j < 0 + 2 ^ S K)%nat).
  { split; [lia|]. rewrite Nat.add_0_l. apply Nat2Z.inj_lt. rewrite Z2Nat.id by lia.
    rewrite Nat2Z.inj_pow. change (Z.of_nat 2) with 2. lia. }
  specialize (HD Hin). cbv zeta in HD. rewrite Z2Nat.id in HD by lia.
  apply andb_true_iff in HD. destruct HD as (Hok & Hsrc). apply Z.eqb_eq in Hsrc.
  rewrite iter_passes_bit; [rewrite Hsrc; reflexivity|lia|].
  apply (total_ok_mono (2 ^ Z.of_nat (S K))); assumption.
Qed.

Lemma testbit_split_sum h a c i :
  0 <= h -> 0 <= a < 2 ^ h -> 0 <= i ->
  Z.testbit (a + c * 2 ^ h) i = if i <? h then Z.testbit a i else Z.testbit c (i - h).
Proof.
  intros Hh Ha Hi. destruct (Z.ltb_spec i h).
  - rewrite <- (Z.mod_pow2_bits_low (a + c * 2 ^ h) h i) by lia.
    rewrite Z.mod_add by (apply Z.pow_nonzero; lia).
    rewrite Z.mod_small by lia. reflexivity.
  - replace i with ((i - h) + h) at 1 by lia.
    rewrite <- Z.div_pow2_bits by lia.
    rewrite Z.div_add by (apply Z.pow_nonzero; lia).
    rewrite Z.div_small by lia. reflexivity.
Qed.

Lemma testbit_gather_bits h start v i :
  0 <= i ->
  Z.testbit (gather_bits h start v) i =
  if i <? Z.of_nat h then Z.testbit v (2 * i + start) else false.
Proof.
  revert i. induction h as [|h IH]; intros i Hi; cbn [gather_bits].
  - rewrite Z.bits_0. destruct (Z.ltb_spec i (Z.of_nat 0)); [lia|reflexivity].
  - pose proof (gather_bits_range h start v) as R.
    set (b := Z.testbit v (2 * Z.of_nat h + start)).
    replace (if b then 2 ^ Z.of_nat h else 0) with (Z.b2z b * 2 ^ Z.of_nat h)
      by (destruct b; cbn [Z.b2z]; lia).
    rewrite testbit_split_sum by lia.
    destruct (Z.ltb_spec i (Z.of_nat h)) as [Hlt|Hge].
    + rewrite IH by lia. destruct (Z.ltb_spec i (Z.of_nat h)); [|lia].
      destruct (Z.ltb_spec i (Z.of_nat (S h))); [reflexivity|lia].
    + destruct (Z.ltb_spec i (Z.of_nat (S h))) as [Hlt'|Hge'].
      * assert (i = Z.of_nat h) by lia. subst i. rewrite Z.sub_diag.
        rewrite Z.b2z_bit0. reflexivity.
      * destruct b; cbn [Z.b2z].
        -- change 1 with (2 ^ 0). rewrite Z.pow2_bits_eqb by lia.
           apply Z.eqb_neq. lia.
        -- apply Z.bits_0.
Qed.

Lemma shl1_half t h : 1 <= h -> 2 * h <= bitsof t -> shl1 t h = Ok (2 ^ h).
Proof.
  intros Hh Ht. unfold shl1.
  destruct (Z.leb_spec 0 h); [|lia].
  destruct t; cbv [bitsof SizeOf] in *;
    match goal with |- context [h <? ?b] => destruct (Z.ltb_spec h b); [reflexivity|lia] end.
Qed.

Lemma half_width_nat K : Z.of_nat (2 ^ K) = 2 ^ Z.of_nat K.
Proof. rewrite Nat2Z.inj_pow. reflexivity. Qed.

(** The two halves of a deinterleaved word. *)
Lemma mss_slots t to K v :
  (K <= 6)%nat -> 2 ^ Z.of_nat (S K) <= bitsof t -> 2 ^ Z.of_nat K <= bitsof to ->
  wrap to (Z.land (wrap to (butterfly t (2 ^ Z.of_nat (S K)) v))
                  (2 ^ (2 ^ Z.of_nat K) - 1))
    = even_bits (2 ^ K) v /\
  wrap to (Z.land (wrap to (Z.shiftr (butterfly t (2 ^ Z.of_nat (S K)) v) (2 ^ Z.of_nat K)))
                  (2 ^ (2 ^ Z.of_nat K) - 1))
    = odd_bits (2 ^ K) v.
Proof.
  intros HK Ht Hto.
  assert (Hh : 0 < 2 ^ Z.of_nat K) by (apply Z.pow_pos_nonneg; lia).
  assert (E2 : 2 ^ Z.of_nat (S K) = 2 * 2 ^ Z.of_nat K)
    by (rewrite Nat2Z.inj_succ, Z.pow_succ_r by lia; reflexivity).
  replace (2 ^ (2 ^ Z.of_nat K) - 1) with (Z.ones (2 ^ Z.of_nat K))
    by (rewrite Z.ones_equiv; lia).
  unfold even_bits, odd_bits.
  split; apply Z.bits_inj'; intros i Hi; rewrite testbit_gather_bits by lia;
    rewrite half_width_nat;
    (destruct (Z.ltb_spec i (2 ^ Z.of_nat K)) as [Hlt|Hge];
     [rewrite testbit_wrap_low, Z.land_spec, testbit_wrap_low, Z.ones_spec_low by lia;
      rewrite andb_true_r
     |destruct (Z.ltb_spec i (bitsof to));
      [rewrite testbit_wrap_low, Z.land_spec, Z.ones_spec_high by lia; apply andb_false_r
      |apply testbit_wrap_high; lia]]).
  - rewrite butterfly_bit by lia.
    destruct (Z.ltb_spec i (2 ^ Z.of_nat K)); [|lia]. f_equal. lia.
  - rewrite Z.shiftr_spec by lia. rewrite butterfly_bit by lia.
    destruct (Z.ltb_spec (i + 2 ^ Z.of_nat K) (2 ^ Z.of_nat K)); [lia|]. f_equal. lia.
Qed.

(* ------------------------------------------------------------------ *)
(** ** Kernels in the source as built *)











(* ------------------------------------------------------------------ *)
(** ** The gates on plain sharings *)










(* ------------------------------------------------------------------ *)
(** ** Local kernels on plain sharings *)










(* ------------------------------------------------------------------ *)
(** ** The cell of MsbA2B *)












(* ------------------------------------------------------------------ *)
(** ** Step 1 of the conversions *)






Lemma wrap_wrap t x : wrap t (wrap t x) = wrap t x.
Proof. apply wrap_small. apply wrap_range. Qed.


(* ------------------------------------------------------------------ *)
(** ** Groups, generate and propagate *)






Lemma blockP_ext p p' lo len :
  (forall i, lo <= i < lo + Z.of_nat len -> Z.testbit p i = Z.testbit p' i) ->
  blockP p lo len = blockP p' lo len.
Proof.
  induction len as [|l IH]; intros H; [reflexivity|]. cbn [blockP].
  rewrite H by lia. rewrite IH; [reflexivity|]. intros i Hi. apply H. lia.
Qed.




(* ------------------------------------------------------------------ *)
(** ** The rounds of MsbA2B *)







(* ------------------------------------------------------------------ *)
(** ** The top bit of a sum *)



(* ------------------------------------------------------------------ *)
(** ** The loop of MsbA2B on 64 bits *)







(* ------------------------------------------------------------------ *)
(** ** The output of MsbA2B on 64 bits *)






(* ------------------------------------------------------------------ *)
(** ** Masks and shifts of A2B *)















Lemma topword_range W F : 0 <= W -> topword W F -> 0 <= W < 2 ^ 64.
Proof.
  intros H0 H. split; [assumption|].
  destruct (Z.eq_dec W 0) as [->|Hn]; [lia|].
  assert (Hl : Z.log2 W < 64).
  { destruct (Z.ltb_spec (Z.log2 W) 64); [assumption|].
    pose proof (Z.bit_log2 W ltac:(lia)) as Hb.
    rewrite H in Hb by (apply Z.log2_nonneg). unfold top in Hb.
    destruct (Z.ltb_spec (Z.log2 W) 64); [lia|]. discriminate. }
  apply Z.log2_lt_pow2; lia.
Qed.

(* ------------------------------------------------------------------ *)
(** ** Groups that start below position 0 *)





(* ------------------------------------------------------------------ *)
(** ** The cells of A2B, bit by bit *)








(* ------------------------------------------------------------------ *)
(** ** The levels of A2B *)











(* ------------------------------------------------------------------ *)
(** ** The prefix network adds *)



(* ------------------------------------------------------------------ *)
(** ** The cells of A2B on plain sharings *)






Lemma fits_rshift (f : nat -> Z) k : 0 <= k -> fits 64 (fun idx => rshift (f idx) k).
Proof.
  intros Hk idx. unfold rshift. rewrite Z.shiftr_div_pow2 by lia.
  pose proof (Z.mod_pos_bound (f idx) (2 ^ 64) ltac:(lia)) as R.
  assert (0 < 2 ^ k) by (apply Z.pow_pos_nonneg; lia).
  split; [apply Z.div_pos; lia|].
  apply Z.div_lt_upper_bound; [lia|]. nia.
Qed.






(* ------------------------------------------------------------------ *)
(** ** A2B on 64 bits *)



Lemma reconstruct_a_share field shp x0 x1 x2 :
  length x0 = nelems shp -> length x1 = nelems shp -> length x2 = nelems shp ->
  reconstruct_a (share_a field shp x0 x1 x2)
    = pforeach (nelems shp) (fun idx => wrap (GetStorageType field) (sum3 x0 x1 x2 idx)).
Proof.
  intros L0 L1 L2. unfold reconstruct_a, share_a, numel, sum3.
  cbn [party0 party1 party2 elems shape eltype].
  change (fold_right Nat.mul 1%nat) with nelems.
  apply pforeach_ext. intros idx Hi. rewrite !view2_combine by lia. reflexivity.
Qed.

(* ------------------------------------------------------------------ *)
(** ** Masked sharings *)

Lemma combine_pforeach {A B} n (f : nat -> A) (g : nat -> B) :
  combine (pforeach n f) (pforeach n g) = pforeach n (fun i => (f i, g i)).
Proof.
  unfold pforeach. generalize (seq 0 n). intros l.
  induction l as [|x l IH]; cbn; [reflexivity|]. rewrite IH. reflexivity.
Qed.

Lemma view3_combine a b c i :
  (i < length a)%nat -> (i < length b)%nat -> (i < length c)%nat ->
  view3 (combine (combine a b) c) i = (view1 a i, view1 b i, view1 c i).
Proof.
  unfold view3, view1. revert b c i.
  induction a as [|x a IH]; intros [|y b] [|z c] [|i]; simpl; intros; try lia; auto.
  apply IH; lia.
Qed.

Lemma wrap_lxor t a b : wrap t (Z.lxor a b) = Z.lxor (wrap t a) (wrap t b).
Proof.
  rewrite !wrap_ones. apply Z.bits_inj'. intros n Hn.
  rewrite !Z.lxor_spec, !Z.land_spec, Z.lxor_spec.
  destruct (Z.testbit a n), (Z.testbit b n), (Z.testbit (Z.ones (bitsof t)) n); reflexivity.
Qed.


Lemma reconstruct_b_share ty shp b0 b1 b2 :
  length b0 = nelems shp -> length b1 = nelems shp -> length b2 = nelems shp ->
  reconstruct_b (share_b ty shp b0 b1 b2) = pforeach (nelems shp) (xor3v b0 b1 b2).
Proof.
  intros L0 L1 L2. unfold reconstruct_b, share_b, numel, xor3v, xor3.
  cbn [party0 party1 party2 elems shape].
  change (fold_right Nat.mul 1%nat) with nelems.
  apply pforeach_ext. intros idx Hi. rewrite !view2_combine by lia. reflexivity.
Qed.

Lemma reconstruct_m_share ty shp D d0 d1 d2 :
  length D = nelems shp -> length d0 = nelems shp -> length d1 = nelems shp ->
  length d2 = nelems shp ->
  reconstruct_m (share_m ty shp D d0 d1 d2)
    = pforeach (nelems shp) (fun idx => Z.lxor (view1 D idx) (xor3v d0 d1 d2 idx)).
Proof.
  intros LD L0 L1 L2. unfold reconstruct_m, share_m, numel, xor3v.
  cbn [party0 party1 party2 elems shape].
  change (fold_right Nat.mul 1%nat) with nelems.
  apply pforeach_ext. intros idx Hi. rewrite !view3_combine by lia. reflexivity.
Qed.

(** An array as a list of its elements, read back by index. *)
Lemma pforeach_view1_id n l : length l = n -> pforeach n (view1 l) = l.
Proof.
  intros Hl. apply (nth_ext _ _ 0 0).
  - rewrite pforeach_length. symmetry. exact Hl.
  - intros i Hi. rewrite pforeach_length in Hi. rewrite nth_pforeach by exact Hi. reflexivity.
Qed.

Lemma xor_in_length t n a b : length (xor_in t n a b) = n.
Proof. apply pforeach_length. Qed.

Lemma view1_xor_in t n a b idx :
  (idx < n)%nat -> view1 (xor_in t n a b) idx = wrap t (Z.lxor (view1 a idx) (view1 b idx)).
Proof. intros Hi. unfold xor_in. apply view1_pforeach. exact Hi. Qed.

Lemma local2_ok {A B C} (F : A -> B -> result C) (a : Parties A) (b : Parties B) c w :
  F (party0 a) (party0 b) = Ok (party0 c) ->
  F (party1 a) (party1 b) = Ok (party1 c) ->
  F (party2 a) (party2 b) = Ok (party2 c) ->
  local2 F a b w = Ok (c, w).
Proof.
  intros E0 E1 E2. unfold local2, each_party, lift.
  cbn [pget Z.eqb Pos.eqb]. rewrite E0, E1, E2. destruct c. reflexivity.
Qed.

Lemma local1_ok {A B} (F : A -> result B) (a : Parties A) c w :
  F (party0 a) = Ok (party0 c) ->
  F (party1 a) = Ok (party1 c) ->
  F (party2 a) = Ok (party2 c) ->
  local1 F a w = Ok (c, w).
Proof.
  intros E0 E1 E2. unfold local1, each_party, lift.
  cbn [pget Z.eqb Pos.eqb]. rewrite E0, E1, E2. destruct c. reflexivity.
Qed.

Lemma zeros_pforeach n : zeros n = pforeach n (fun _ => 0).
Proof.
  apply (nth_ext _ _ 0 0).
  - unfold zeros. rewrite repeat_length, pforeach_length. reflexivity.
  - intros i Hi. unfold zeros in *. rewrite repeat_length in Hi.
    rewrite nth_pforeach by exact Hi. apply nth_repeat.
Qed.


(* ------------------------------------------------------------------ *)
(** ** Resharing in every build *)

Lemma prss_mask_wrapped keep w t s idx :
  wrap t (prss_mask keep w t s idx) = prss_mask keep w t s idx.
Proof.
  unfold prss_mask. destruct keep; [|reflexivity]. apply wrap_small. apply wrap_range.
Qed.

Lemma view1_fill_fst keep n tp c s s' t idx :
  (idx < n)%nat ->
  view1 (fst (fill_unless keep n (prss_draw tp c s t n, prss_draw tp c s' t n))) idx
    = if keep then wrap t (prss_tape tp c s (bitsof t) idx) else 0.
Proof.
  intros Hi. unfold fill_unless. cbn [fst snd]. destruct keep.
  - unfold prss_draw. apply view1_pforeach. exact Hi.
  - apply view1_zeros.
Qed.

Lemma view1_fill_snd keep n tp c s s' t idx :
  (idx < n)%nat ->
  view1 (snd (fill_unless keep n (prss_draw tp c s t n, prss_draw tp c s' t n))) idx
    = if keep then wrap t (prss_tape tp c s' (bitsof t) idx) else 0.
Proof.
  intros Hi. unfold fill_unless. cbn [fst snd]. destruct keep.
  - unfold prss_draw. apply view1_pforeach. exact Hi.
  - apply view1_zeros.
Qed.

Lemma share_m_eq ty shp (a0 a1 a2 : list (Z * Z * Z)) D d0 d1 d2 :
  a0 = combine (combine D d0) d1 -> a1 = combine (combine D d1) d2 ->
  a2 = combine (combine D d2) d0 ->
  mkParties (mkArr ty shp a0) (mkArr ty shp a1) (mkArr ty shp a2) = share_m ty shp D d0 d1 d2.
Proof. intros -> -> ->. reflexivity. Qed.

Lemma share_b_eq ty shp (a0 a1 a2 : list (Z * Z)) b0 b1 b2 :
  a0 = combine b0 b1 -> a1 = combine b1 b2 -> a2 = combine b2 b0 ->
  mkParties (mkArr ty shp a0) (mkArr ty shp a1) (mkArr ty shp a2) = share_b ty shp b0 b1 b2.
Proof. intros -> -> ->. reflexivity. Qed.

Lemma combine3_pforeach n (f g h : nat -> Z) :
  combine (combine (pforeach n f) (pforeach n g)) (pforeach n h)
    = pforeach n (fun i => (f i, g i, h i)).
Proof. rewrite !combine_pforeach. reflexivity. Qed.

Ltac eval_proto :=
  lazy beta iota zeta delta
    [lift getFlags fillPrssPair bind log_call ret each_party rotate rotateR bcast send_recv
     local1 local2 rbind pget ptab party0 party1 party2 numel eltype shape elems nbits
     getBacktype Z.eqb Pos.eqb negb andb prss_pair share_b share_m
     flags orientation default_field tape prss_counter publ_counter priv_counter comm_log];
  change (NextRank 0) with 1; change (NextRank 1) with 2; change (NextRank 2) with 0;
  change (PrevRank 0) with 2; change (PrevRank 1) with 0; change (PrevRank 2) with 1;
  change (fold_right Nat.mul 1%nat) with nelems.

Ltac xor_bits :=
  apply Z.bits_inj'; let k := fresh "k" in let Hk := fresh "Hk" in
  intros k Hk; rewrite ?Z.lxor_spec;
  repeat match goal with
         | |- context [Z.testbit ?a k] => destruct (Z.testbit a k)
         end;
  reflexivity.

Lemma wrap_0 t : wrap t 0 = 0.
Proof.
  apply wrap_small.
  pose proof (Z.pow_pos_nonneg 2 (bitsof t) ltac:(lia) (bitsof_nonneg t)). lia.
Qed.

Ltac xor_wrapped Hi :=
  unfold xor3v, xor3; rewrite ?view1_pforeach by exact Hi;
  rewrite ?wrap_lxor, ?wrap_wrap, ?wrap_0, ?Z.lxor_0_r, ?Z.lxor_0_l; xor_bits.

Ltac read_views Hi :=
  rewrite ?view1_pforeach, ?view2_pforeach, ?view3_pforeach by exact Hi;
  cbn [fst snd slot0 slot1 mslot0 mslot1 mslot2];
  rewrite ?view1_pforeach, ?view2_pforeach, ?view3_pforeach by exact Hi;
  rewrite ?view2_combine, ?view3_combine by lia;
  cbn [fst snd slot0 slot1 mslot0 mslot1 mslot2];
  rewrite ?view1_fill_fst, ?view1_fill_snd by exact Hi.

(** ResharingRss2Mss, where rotate delivers the buffer of the next
    party. *)
Lemma ResharingRss2Mss_spec w ty shp x0 x1 x2 :
  orientation w = RecvFromNext ->
  0 <= nbits ty <= 128 ->
  length x0 = nelems shp -> length x1 = nelems shp -> length x2 = nelems shp ->
  exists t,
    calcBShareBacktype (nbits ty) = Ok t /\
    let keep := EQ_USE_OFFLINE (flags w) && EQ_USE_PRG_STATE (flags w) in
    let n := nelems shp in
    let m s := prss_masks keep w t n s in
    ResharingRss2Mss (share_b ty shp x0 x1 x2) w
      = Ok (share_m (mkBShrTy t (nbits ty)) shp
              (pforeach n (fun idx =>
                 wrap t (Z.lxor (xor3v x0 x1 x2 idx) (xor3v (m 0) (m 1) (m 2) idx))))
              (m 0) (m 1) (m 2),
            after_prss w [CallRotateR "Resharing RSS to MSS, online"]).
Proof.
  intros Ho Hn L0 L1 L2.
  destruct (calcBShareBacktype_ok _ Hn) as (t & Ec & _).
  exists t. split; [exact Ec|]. cbv zeta.
  destruct w as [fl o df tp pc uc vc lg]. cbn [orientation] in Ho. subst o.
  destruct ty as [bt nb]. cbn [nbits] in *.
  unfold ResharingRss2Mss. eval_proto. rewrite Ec. eval_proto.
  apply f_equal. apply (f_equal2 pair); [|reflexivity].
  apply share_m_eq; unfold prss_masks, prss_mask; cbn [flags tape prss_counter];
    rewrite combine3_pforeach; apply pforeach_ext; intros idx Hi; read_views Hi;
    rewrite ?view1_pforeach by exact Hi;
    (apply (f_equal2 pair); [apply (f_equal2 pair)|]); try reflexivity;
    destruct fl as [[|] [|]]; cbn [EQ_USE_OFFLINE EQ_USE_PRG_STATE andb]; xor_wrapped Hi.
Qed.

Lemma reconstruct_b_share_s ty shp a0 a1 a2 j0 j1 j2 :
  length a0 = nelems shp -> length a1 = nelems shp -> length a2 = nelems shp ->
  length j0 = nelems shp -> length j1 = nelems shp -> length j2 = nelems shp ->
  reconstruct_b (share_s ty shp a0 a1 a2 j0 j1 j2) = pforeach (nelems shp) (xor3v a0 a1 a2).
Proof.
  intros. unfold reconstruct_b, share_s, numel, xor3v, xor3.
  cbn [party0 party1 party2 elems shape].
  change (fold_right Nat.mul 1%nat) with nelems.
  apply pforeach_ext. intros idx Hi. rewrite !view2_combine by lia. reflexivity.
Qed.

(** ResharingAss2Rss, where rotate delivers the buffer of the next
    party. *)
Lemma ResharingAss2Rss_spec w ty shp a0 a1 a2 j0 j1 j2 :
  orientation w = RecvFromNext ->
  0 <= nbits ty <= 128 ->
  length a0 = nelems shp -> length a1 = nelems shp -> length a2 = nelems shp ->
  length j0 = nelems shp -> length j1 = nelems shp -> length j2 = nelems shp ->
  exists t,
    calcBShareBacktype (nbits ty) = Ok t /\
    let keep := EQ_USE_PRG_STATE (flags w) in
    let n := nelems shp in
    let m s := prss_masks keep w t n s in
    let o a s s' :=
      pforeach n (fun idx =>
        wrap t (Z.lxor (Z.lxor (view1 a idx) (view1 (m s) idx)) (view1 (m s') idx))) in
    ResharingAss2Rss (share_s ty shp a0 a1 a2 j0 j1 j2) w
      = Ok (share_b (mkBShrTy t (nbits ty)) shp (o a0 0 1) (o a1 1 2) (o a2 2 0),
            after_prss w [CallRotate "Resharing ASS to RSS, online"]).
Proof.
  intros Ho Hn L0 L1 L2 J0 J1 J2.
  destruct (calcBShareBacktype_ok _ Hn) as (t & Ec & _).
  exists t. split; [exact Ec|]. cbv zeta.
  destruct w as [fl o df tp pc uc vc lg]. cbn [orientation] in Ho. subst o.
  destruct ty as [bt nb]. cbn [nbits] in *.
  unfold ResharingAss2Rss, share_s. eval_proto. rewrite Ec. eval_proto.
  apply f_equal. apply (f_equal2 pair); [|reflexivity].
  apply share_b_eq; unfold prss_masks, prss_mask; cbn [flags tape prss_counter];
    rewrite combine_pforeach; apply pforeach_ext; intros idx Hi; read_views Hi;
    rewrite ?view1_pforeach by exact Hi; reflexivity.
Qed.

(** ResharingAss2Mss, where rotate delivers the buffer of the next
    party. *)
Lemma ResharingAss2Mss_spec w ty shp a0 a1 a2 j0 j1 j2 :
  orientation w = RecvFromNext ->
  0 <= nbits ty <= 128 ->
  length a0 = nelems shp -> length a1 = nelems shp -> length a2 = nelems shp ->
  length j0 = nelems shp -> length j1 = nelems shp -> length j2 = nelems shp ->
  exists t,
    calcBShareBacktype (nbits ty) = Ok t /\
    let keep := EQ_USE_OFFLINE (flags w) && EQ_USE_PRG_STATE (flags w) in
    let n := nelems shp in
    let m s := prss_masks keep w t n s in
    ResharingAss2Mss (share_s ty shp a0 a1 a2 j0 j1 j2) w
      = Ok (share_m (mkBShrTy t (nbits ty)) shp
              (pforeach n (fun idx =>
                 wrap t (Z.lxor (xor3v a0 a1 a2 idx) (xor3v (m 0) (m 1) (m 2) idx))))
              (m 0) (m 1) (m 2),
            after_prss w [CallRotateR "Resharing ASS to MSS, online, message 1";
                          CallRotate "Resharing ASS to MSS, online, message 2"]).
Proof.
  intros Ho Hn L0 L1 L2 J0 J1 J2.
  destruct (calcBShareBacktype_ok _ Hn) as (t & Ec & _).
  exists t. split; [exact Ec|]. cbv zeta.
  destruct w as [fl o df tp pc uc vc lg]. cbn [orientation] in Ho. subst o.
  destruct ty as [bt nb]. cbn [nbits] in *.
  unfold ResharingAss2Mss, share_s. eval_proto. rewrite Ec. eval_proto.
  apply f_equal. apply (f_equal2 pair);
    [|unfold after_prss; cbn [flags orientation default_field tape prss_counter publ_counter
                              priv_counter comm_log];
      rewrite <- app_assoc; reflexivity].
  apply share_m_eq; unfold prss_masks, prss_mask; cbn [flags tape prss_counter];
    rewrite combine3_pforeach; apply pforeach_ext; intros idx Hi; read_views Hi;
    rewrite ?view1_pforeach by exact Hi;
    (apply (f_equal2 pair); [apply (f_equal2 pair)|]); try reflexivity;
    destruct fl as [[|] [|]]; cbn [EQ_USE_OFFLINE EQ_USE_PRG_STATE andb]; xor_wrapped Hi.
Qed.

(** ResharingMss2Rss at one party. *)
Lemma ResharingMss2Rss_triple ty t shp D da db :
  calcBShareBacktype (nbits ty) = Ok t ->
  length D = nelems shp -> length da = nelems shp -> length db = nelems shp ->
  ResharingMss2Rss (mkArr ty shp (combine (combine D da) db))
    = Ok (mkArr (mkBShrTy t (nbits ty)) shp
            (combine (xor_in t (nelems shp) D da) (xor_in t (nelems shp) D db))).
Proof.
  intros Ec LD La Lb. unfold ResharingMss2Rss, numel. cbn [eltype shape elems].
  rewrite Ec. cbn [rbind]. change (fold_right Nat.mul 1%nat) with nelems.
  unfold xor_in. rewrite combine_pforeach.
  apply (f_equal Ok). apply (f_equal (mkArr _ _)). apply pforeach_ext. intros idx Hi.
  rewrite !view3_combine by lia. reflexivity.
Qed.

(** MssXor2 at one party. *)
Lemma MssXor2_triple tl tr t shp D da db E ea eb :
  calcBShareBacktype (Z.min (nbits tl) (nbits tr)) = Ok t ->
  length D = nelems shp -> length da = nelems shp -> length db = nelems shp ->
  length E = nelems shp -> length ea = nelems shp -> length eb = nelems shp ->
  MssXor2 (mkArr tl shp (combine (combine D da) db)) (mkArr tr shp (combine (combine E ea) eb))
    = Ok (mkArr (mkBShrTy t (Z.min (nbits tl) (nbits tr))) shp
            (combine (combine (xor_in t (nelems shp) D E) (xor_in t (nelems shp) da ea))
                     (xor_in t (nelems shp) db eb))).
Proof.
  intros Ec LD La Lb LE Lea Leb. unfold MssXor2, numel. cbn [eltype shape elems].
  rewrite Ec. cbn [rbind]. change (fold_right Nat.mul 1%nat) with nelems.
  unfold xor_in. rewrite combine3_pforeach.
  apply (f_equal Ok). apply (f_equal (mkArr _ _)). apply pforeach_ext. intros idx Hi.
  rewrite !view3_combine by lia. reflexivity.
Qed.

(* ------------------------------------------------------------------ *)
(** ** The AND gates in every build *)

Ltac bits_solve :=
  rewrite ?wrap_ones;
  apply Z.bits_inj'; let k := fresh "k" in let Hk := fresh "Hk" in
  intros k Hk; repeat (progress rewrite ?Z.lxor_spec, ?Z.land_spec, ?Z.bits_0);
  repeat match goal with
         | |- context [Z.testbit ?a k] => destruct (Z.testbit a k)
         end;
  reflexivity.

(** MssAnd2NoComm on two B/MSS sharings; where the offline part is
    compiled in, rotate has to deliver the buffer of the next party. *)
Lemma MssAnd2NoComm_spec w tl tr shp D d0 d1 d2 E e0 e1 e2 :
  (EQ_USE_OFFLINE (flags w) = true -> orientation w = RecvFromNext) ->
  0 <= Z.min (nbits tl) (nbits tr) <= 128 ->
  length D = nelems shp -> length d0 = nelems shp -> length d1 = nelems shp ->
  length d2 = nelems shp ->
  length E = nelems shp -> length e0 = nelems shp -> length e1 = nelems shp ->
  length e2 = nelems shp ->
  exists t,
    calcBShareBacktype (Z.min (nbits tl) (nbits tr)) = Ok t /\
    let z := mss_and_out w t (nelems shp) D d0 d1 d2 E e0 e1 e2 in
    MssAnd2NoComm (share_m tl shp D d0 d1 d2) (share_m tr shp E e0 e1 e2) w
      = Ok (share_b (mkBShrTy t (Z.min (nbits tl) (nbits tr))) shp (z 0) (z 1) (z 2),
            after_prss w (if EQ_USE_OFFLINE (flags w)
                          then [CallRotate "MssAndBB, offline"] else [])) /\
    forall idx, (idx < nelems shp)%nat ->
      xor3v (z 0) (z 1) (z 2) idx
        = wrap t (Z.lxor (Z.land (mss_secret D d0 d1 d2 idx) (mss_secret E e0 e1 e2 idx))
                         (if EQ_USE_OFFLINE (flags w) then 0
                          else Z.land (xor3v d0 d1 d2 idx) (xor3v e0 e1 e2 idx))).
Proof.
  intros Ho Hn LD L0 L1 L2 LE M0 M1 M2.
  destruct (calcBShareBacktype_ok _ Hn) as (t & Ec & _).
  exists t.
  destruct w as [fl o df tp pc uc vc lg]. cbn [orientation flags] in Ho.
  destruct tl as [bl nl]. destruct tr as [br nr]. cbn [nbits] in *.
  split; [exact Ec|]. cbv zeta. split.
  - unfold MssAnd2NoComm. eval_proto. rewrite Ec. eval_proto.
    destruct fl as [[|] prg]; cbn [EQ_USE_OFFLINE EQ_USE_PRG_STATE andb] in *.
    + rewrite (Ho eq_refl). eval_proto.
      apply f_equal. apply (f_equal2 pair); [|reflexivity].
      apply share_b_eq; unfold mss_and_out, mss_and_share, mask_product_share, prss_mask;
        cbn [flags tape prss_counter EQ_USE_OFFLINE EQ_USE_PRG_STATE pget party0 party1 party2
             Z.eqb Pos.eqb];
        change (NextRank 0) with 1; change (NextRank 1) with 2; change (NextRank 2) with 0;
        cbn [pget party0 party1 party2 Z.eqb Pos.eqb];
        rewrite combine_pforeach; apply pforeach_ext; intros idx Hi; read_views Hi;
        rewrite ?view1_pforeach by exact Hi; read_views Hi;
        destruct prg; reflexivity.
    + eval_proto.
      apply f_equal. apply (f_equal2 pair);
        [|unfold after_prss; cbn [flags orientation default_field tape prss_counter
                                  publ_counter priv_counter comm_log EQ_USE_OFFLINE];
          rewrite app_nil_r; reflexivity].
      apply share_b_eq; unfold mss_and_out, mss_and_share, mask_product_share, prss_mask;
        cbn [flags tape prss_counter EQ_USE_OFFLINE EQ_USE_PRG_STATE pget party0 party1 party2
             Z.eqb Pos.eqb];
        change (NextRank 0) with 1; change (NextRank 1) with 2; change (NextRank 2) with 0;
        cbn [pget party0 party1 party2 Z.eqb Pos.eqb];
        rewrite combine_pforeach; apply pforeach_ext; intros idx Hi; read_views Hi;
        rewrite ?view1_pforeach by exact Hi; read_views Hi;
        destruct prg; cbn [fill_unless fst snd]; rewrite ?view1_zeros; reflexivity.
  - intros idx Hi. unfold xor3v at 1, mss_and_out.
    rewrite !view1_pforeach by exact Hi.
    unfold mss_and_share, mask_product_share, mss_secret, xor3v, xor3, prss_mask.
    cbn [flags tape prss_counter pget party0 party1 party2 Z.eqb Pos.eqb].
    change (NextRank 0) with 1; change (NextRank 1) with 2; change (NextRank 2) with 0.
    cbn [pget party0 party1 party2 Z.eqb Pos.eqb].
    destruct fl as [[|] [|]]; cbn [EQ_USE_OFFLINE EQ_USE_PRG_STATE andb]; bits_solve.
Qed.

Lemma after_prss_nil w :
  after_prss w [] = mkWorld (flags w) (orientation w) (default_field w) (tape w)
                      (S (prss_counter w)) (publ_counter w) (priv_counter w) (comm_log w).
Proof. unfold after_prss. rewrite app_nil_r. reflexivity. Qed.

Lemma share_s_eq ty shp (x0 x1 x2 : list (Z * Z)) a0 a1 a2 j0 j1 j2 :
  x0 = combine a0 j0 -> x1 = combine a1 j1 -> x2 = combine a2 j2 ->
  mkParties (mkArr ty shp x0) (mkArr ty shp x1) (mkArr ty shp x2)
    = share_s ty shp a0 a1 a2 j0 j1 j2.
Proof. intros -> -> ->. reflexivity. Qed.

(** RssAnd2NoComm on two B/RSS sharings with any slot contents. *)
Lemma RssAnd2NoComm_spec w tl tr shp l0 l1 l2 r0 r1 r2 :
  0 <= Z.min (nbits tl) (nbits tr) <= 128 ->
  length l0 = nelems shp -> length l1 = nelems shp -> length l2 = nelems shp ->
  length r0 = nelems shp -> length r1 = nelems shp -> length r2 = nelems shp ->
  exists t,
    calcBShareBacktype (Z.min (nbits tl) (nbits tr)) = Ok t /\
    let z := rss_and_out w t (nelems shp) l0 l1 l2 r0 r1 r2 in
    RssAnd2NoComm (share_b tl shp l0 l1 l2) (share_b tr shp r0 r1 r2) w
      = Ok (share_s (mkBShrTy t (Z.min (nbits tl) (nbits tr))) shp (z 0) (z 1) (z 2)
              (zeros (nelems shp)) (zeros (nelems shp)) (zeros (nelems shp)),
            after_prss w []) /\
    forall idx, (idx < nelems shp)%nat ->
      xor3v (z 0) (z 1) (z 2) idx
        = wrap t (Z.land (xor3v l0 l1 l2 idx) (xor3v r0 r1 r2 idx)).
Proof.
  intros Hn L0 L1 L2 M0 M1 M2.
  destruct (calcBShareBacktype_ok _ Hn) as (t & Ec & _).
  exists t. split; [exact Ec|]. cbv zeta. split.
  - rewrite after_prss_nil.
    destruct w as [fl o df tp pc uc vc lg].
    destruct tl as [bl nl]. destruct tr as [br nr]. cbn [nbits] in *.
    unfold RssAnd2NoComm. eval_proto. rewrite Ec. eval_proto.
    apply f_equal. apply (f_equal2 pair); [|reflexivity].
    apply share_s_eq; unfold rss_and_out, and_terms, prss_mask, unwritten;
      cbn [flags tape prss_counter pget party0 party1 party2 Z.eqb Pos.eqb];
      change (NextRank 0) with 1; change (NextRank 1) with 2; change (NextRank 2) with 0;
      cbn [pget party0 party1 party2 Z.eqb Pos.eqb];
      rewrite zeros_pforeach, combine_pforeach; apply pforeach_ext; intros idx Hi;
      read_views Hi; rewrite ?view1_pforeach by exact Hi; read_views Hi;
      destruct fl as [off [|]]; cbn [EQ_USE_PRG_STATE]; reflexivity.
  - intros idx Hi. unfold xor3v at 1, rss_and_out.
    rewrite !view1_pforeach by exact Hi.
    unfold and_terms, xor3v, xor3, prss_mask.
    change (NextRank 0) with 1; change (NextRank 1) with 2; change (NextRank 2) with 0.
    cbn [pget party0 party1 party2 Z.eqb Pos.eqb].
    destruct (EQ_USE_PRG_STATE (flags w)); bits_solve.
Qed.

Lemma wrap_bits t x k : Z.testbit (wrap t x) k = (k <? bitsof t) && Z.testbit x k.
Proof. unfold wrap. apply Z.testbit_mod_pow2. apply bitsof_nonneg. Qed.

Lemma wrap_land_wider t t1 t2 a b :
  bitsof t <= bitsof t1 -> bitsof t <= bitsof t2 ->
  wrap t (Z.land (wrap t1 a) (wrap t2 b)) = wrap t (Z.land a b).
Proof.
  intros H1 H2. apply Z.bits_inj'. intros k Hk.
  rewrite !wrap_bits, !Z.land_spec, !wrap_bits.
  destruct (k <? bitsof t) eqn:E; [|reflexivity].
  apply Z.ltb_lt in E.
  replace (k <? bitsof t1) with true by (symmetry; apply Z.ltb_lt; lia).
  replace (k <? bitsof t2) with true by (symmetry; apply Z.ltb_lt; lia).
  reflexivity.
Qed.

Lemma calcBShareBacktype_mono a b ta tb :
  calcBShareBacktype a = Ok ta -> calcBShareBacktype b = Ok tb -> a <= b ->
  bitsof ta <= bitsof tb.
Proof.
  unfold calcBShareBacktype. intros Ha Hb Hab.
  destruct (a <=? 8) eqn:A8; [|destruct (a <=? 16) eqn:A16; [|destruct (a <=? 32) eqn:A32;
    [|destruct (a <=? 64) eqn:A64; [|destruct (a <=? 128) eqn:A128; [|discriminate]]]]];
  (destruct (b <=? 8) eqn:B8; [|destruct (b <=? 16) eqn:B16; [|destruct (b <=? 32) eqn:B32;
    [|destruct (b <=? 64) eqn:B64; [|destruct (b <=? 128) eqn:B128; [|discriminate]]]]]);
  injection Ha as <-; injection Hb as <-; cbv [bitsof SizeOf]; lia.
Qed.

Lemma prss_masks_length keep w t n s : length (prss_masks keep w t n s) = n.
Proof. apply pforeach_length. Qed.

Lemma view1_prss_masks keep w t n s idx :
  (idx < n)%nat -> view1 (prss_masks keep w t n s) idx = prss_mask keep w t s idx.
Proof. intros Hi. unfold prss_masks. apply view1_pforeach. exact Hi. Qed.

(** The secret of the sharing that a resharing into MSS builds from the
    value [x] and the PRSS masks. *)
Lemma mss_secret_masked keep w t n (x : nat -> Z) idx :
  (idx < n)%nat ->
  mss_secret
    (pforeach n (fun i =>
       wrap t (Z.lxor (x i)
                 (xor3v (prss_masks keep w t n 0) (prss_masks keep w t n 1)
                        (prss_masks keep w t n 2) i))))
    (prss_masks keep w t n 0) (prss_masks keep w t n 1) (prss_masks keep w t n 2) idx
  = wrap t (x idx).
Proof.
  intros Hi. unfold mss_secret. rewrite view1_pforeach by exact Hi.
  unfold xor3v, xor3. rewrite !view1_prss_masks by exact Hi.
  rewrite !wrap_lxor, !prss_mask_wrapped.
  apply Z.bits_inj'. intros k Hk. rewrite !Z.lxor_spec.
  destruct (Z.testbit (wrap t (x idx)) k), (Z.testbit (prss_mask keep w t 0 idx) k),
    (Z.testbit (prss_mask keep w t 1 idx) k), (Z.testbit (prss_mask keep w t 2 idx) k);
    reflexivity.
Qed.

Lemma masks_vanish w t n idx :
  (idx < n)%nat ->
  xor3v (prss_masks false w t n 0) (prss_masks false w t n 1) (prss_masks false w t n 2) idx = 0.
Proof.
  intros Hi. unfold xor3v, xor3. rewrite !view1_prss_masks by exact Hi. reflexivity.
Qed.

(** Resharing into MSS and back: the sharing reconstructs to the secret
    of the input, cut to the back type. *)
Lemma Rss2Mss2Rss_spec w ty shp x0 x1 x2 :
  orientation w = RecvFromNext ->
  0 <= nbits ty <= 128 ->
  length x0 = nelems shp -> length x1 = nelems shp -> length x2 = nelems shp ->
  exists t b0 b1 b2,
    calcBShareBacktype (nbits ty) = Ok t /\
    bind (ResharingRss2Mss (share_b ty shp x0 x1 x2)) (local1 ResharingMss2Rss) w
      = Ok (share_b (mkBShrTy t (nbits ty)) shp b0 b1 b2,
            after_prss w [CallRotateR "Resharing RSS to MSS, online"]) /\
    length b0 = nelems shp /\ length b1 = nelems shp /\ length b2 = nelems shp /\
    forall idx, (idx < nelems shp)%nat ->
      xor3v b0 b1 b2 idx = wrap t (xor3v x0 x1 x2 idx).
Proof.
  intros Ho Hn L0 L1 L2.
  destruct (ResharingRss2Mss_spec w ty shp x0 x1 x2 Ho Hn L0 L1 L2) as (t & Ec & E).
  cbv zeta in E.
  set (keep := EQ_USE_OFFLINE (flags w) && EQ_USE_PRG_STATE (flags w)) in *.
  set (n := nelems shp) in *.
  set (m := fun s => prss_masks keep w t n s) in *.
  set (D := pforeach n (fun idx =>
              wrap t (Z.lxor (xor3v x0 x1 x2 idx) (xor3v (m 0) (m 1) (m 2) idx)))) in *.
  exists t, (xor_in t n D (m 0)), (xor_in t n D (m 1)), (xor_in t n D (m 2)).
  split; [exact Ec|]. split; [|split; [|split; [|split]]]; try apply xor_in_length.
  - unfold bind. rewrite E.
    apply local1_ok; cbn [share_m share_b party0 party1 party2];
      apply (ResharingMss2Rss_triple (mkBShrTy t (nbits ty))); try exact Ec;
      try apply prss_masks_length; apply pforeach_length.
  - intros idx Hi. unfold xor3v at 1. rewrite !view1_xor_in by exact Hi.
    rewrite <- (mss_secret_masked keep w t n (xor3v x0 x1 x2) idx Hi).
    unfold mss_secret, xor3v, xor3.
    assert (HD : wrap t (view1 D idx) = view1 D idx).
    { unfold D. rewrite view1_pforeach by exact Hi. apply wrap_wrap. }
    assert (Hm : forall s, wrap t (view1 (m s) idx) = view1 (m s) idx).
    { intros s. unfold m. rewrite view1_prss_masks by exact Hi. apply prss_mask_wrapped. }
    rewrite !wrap_lxor, HD, !Hm. unfold D, m, xor3v, xor3.
    xor_bits.
Qed.

(** Two sharings reshared into MSS and multiplied by MssAnd2NoComm:
    whatever the switches, the result reconstructs to the AND of the
    secrets, cut to the back type of the smaller width. *)
Lemma Rss2Mss_MssAnd2_spec w tx ty shp x0 x1 x2 y0 y1 y2 :
  orientation w = RecvFromNext ->
  0 <= nbits tx <= 128 -> 0 <= nbits ty <= 128 ->
  length x0 = nelems shp -> length x1 = nelems shp -> length x2 = nelems shp ->
  length y0 = nelems shp -> length y1 = nelems shp -> length y2 = nelems shp ->
  exists t z0 z1 z2 w',
    calcBShareBacktype (Z.min (nbits tx) (nbits ty)) = Ok t /\
    (mx <- ResharingRss2Mss (share_b tx shp x0 x1 x2) ;;
     my <- ResharingRss2Mss (share_b ty shp y0 y1 y2) ;;
     MssAnd2NoComm mx my) w
      = Ok (share_b (mkBShrTy t (Z.min (nbits tx) (nbits ty))) shp z0 z1 z2, w') /\
    length z0 = nelems shp /\ length z1 = nelems shp /\ length z2 = nelems shp /\
    comm_log w' =
      (comm_log w ++
       [CallRotateR "Resharing RSS to MSS, online"; CallRotateR "Resharing RSS to MSS, online"]
       ++ (if EQ_USE_OFFLINE (flags w) then [CallRotate "MssAndBB, offline"] else []))%list /\
    forall idx, (idx < nelems shp)%nat ->
      xor3v z0 z1 z2 idx = wrap t (Z.land (xor3v x0 x1 x2 idx) (xor3v y0 y1 y2 idx)).
Proof.
  intros Ho Hx Hy L0 L1 L2 M0 M1 M2.
  destruct (ResharingRss2Mss_spec w tx shp x0 x1 x2 Ho Hx L0 L1 L2) as (t1 & Ec1 & E1).
  set (w1 := after_prss w [CallRotateR "Resharing RSS to MSS, online"]) in *.
  destruct (ResharingRss2Mss_spec w1 ty shp y0 y1 y2 Ho Hy M0 M1 M2) as (t2 & Ec2 & E2).
  set (w2 := after_prss w1 [CallRotateR "Resharing RSS to MSS, online"]) in *.
  cbv zeta in E1, E2.
  change (flags w1) with (flags w) in E2.
  set (keep := EQ_USE_OFFLINE (flags w) && EQ_USE_PRG_STATE (flags w)) in *.
  set (n := nelems shp) in *.
  set (m1 := fun s => prss_masks keep w t1 n s) in *.
  set (m2 := fun s => prss_masks keep w1 t2 n s) in *.
  set (D1 := pforeach n (fun idx =>
               wrap t1 (Z.lxor (xor3v x0 x1 x2 idx) (xor3v (m1 0) (m1 1) (m1 2) idx)))) in *.
  set (D2 := pforeach n (fun idx =>
               wrap t2 (Z.lxor (xor3v y0 y1 y2 idx) (xor3v (m2 0) (m2 1) (m2 2) idx)))) in *.
  assert (Hmin : 0 <= Z.min (nbits tx) (nbits ty) <= 128) by lia.
  destruct (MssAnd2NoComm_spec w2 (mkBShrTy t1 (nbits tx)) (mkBShrTy t2 (nbits ty)) shp
              D1 (m1 0) (m1 1) (m1 2) D2 (m2 0) (m2 1) (m2 2))
    as (t & Ec & E3 & V);
    try (intros _; exact Ho); try exact Hmin;
    try apply pforeach_length.
  cbn [nbits] in Ec, E3.
  cbv zeta in E3, V. change (flags w2) with (flags w) in *.
  eexists t, _, _, _, _. split; [exact Ec|].
  split; [|split; [|split; [|split; [|split]]]].
  - unfold bind at 1. rewrite E1. unfold bind at 1. rewrite E2. exact E3.
  - apply pforeach_length.
  - apply pforeach_length.
  - apply pforeach_length.
  - unfold after_prss, w2, w1, after_prss. cbn [comm_log]. rewrite <- !app_assoc. reflexivity.
  - intros idx Hi. rewrite (V idx Hi).
    unfold D1, D2, m1, m2.
    rewrite !mss_secret_masked by exact Hi.
    assert (Hz : (if EQ_USE_OFFLINE (flags w) then 0
                  else Z.land (xor3v (prss_masks keep w t1 n 0) (prss_masks keep w t1 n 1)
                                     (prss_masks keep w t1 n 2) idx)
                              (xor3v (prss_masks keep w1 t2 n 0) (prss_masks keep w1 t2 n 1)
                                     (prss_masks keep w1 t2 n 2) idx)) = 0).
    { unfold keep. destruct (EQ_USE_OFFLINE (flags w)); [reflexivity|].
      cbn [andb]. rewrite !masks_vanish by exact Hi. reflexivity. }
    rewrite Hz, Z.lxor_0_r.
    apply wrap_land_wider.
    + eapply calcBShareBacktype_mono; [exact Ec|exact Ec1|lia].
    + eapply calcBShareBacktype_mono; [exact Ec|exact Ec2|lia].
Qed.

Lemma MssAnd2NoComm_masked w tl tr shp a b :
  (EQ_USE_OFFLINE (flags w) = true -> orientation w = RecvFromNext) ->
  0 <= Z.min (nbits tl) (nbits tr) <= 128 ->
  sized (nelems shp) a -> sized (nelems shp) b ->
  exists t z0 z1 z2,
    calcBShareBacktype (Z.min (nbits tl) (nbits tr)) = Ok t /\
    MssAnd2NoComm (share_masked tl shp a) (share_masked tr shp b) w
      = Ok (share_b (mkBShrTy t (Z.min (nbits tl) (nbits tr))) shp z0 z1 z2,
            after_prss w (if EQ_USE_OFFLINE (flags w)
                          then [CallRotate "MssAndBB, offline"] else [])) /\
    length z0 = nelems shp /\ length z1 = nelems shp /\ length z2 = nelems shp /\
    forall idx, (idx < nelems shp)%nat ->
      xor3v z0 z1 z2 idx = wrap t (and_of (EQ_USE_OFFLINE (flags w)) a b idx).
Proof.
  intros Ho Hn (LD & L0 & L1 & L2) (LE & M0 & M1 & M2).
  destruct (MssAnd2NoComm_spec w tl tr shp _ _ _ _ _ _ _ _ Ho Hn LD L0 L1 L2 LE M0 M1 M2)
    as (t & Ec & E & V).
  cbv zeta in E, V.
  eexists t, _, _, _. split; [exact Ec|]. split; [exact E|].
  split; [apply pforeach_length|]. split; [apply pforeach_length|].
  split; [apply pforeach_length|].
  intros idx Hi. rewrite (V idx Hi). unfold and_of, mss_and_value.
  destruct (EQ_USE_OFFLINE (flags w)); reflexivity.
Qed.

(** MssAnd4NoComm: two MssAnd2NoComm and one RssAnd2NoComm. *)
Lemma MssAnd4NoComm_spec w t1 t2 t3 t4 shp a b c d :
  (EQ_USE_OFFLINE (flags w) = true -> orientation w = RecvFromNext) ->
  0 <= Z.min (nbits t1) (nbits t2) <= 128 ->
  0 <= Z.min (nbits t3) (nbits t4) <= 128 ->
  sized (nelems shp) a -> sized (nelems shp) b ->
  sized (nelems shp) c -> sized (nelems shp) d ->
  exists t out w',
    calcBShareBacktype (Z.min (Z.min (nbits t1) (nbits t2)) (Z.min (nbits t3) (nbits t4)))
      = Ok t /\
    MssAnd4NoComm (share_masked t1 shp a) (share_masked t2 shp b)
                  (share_masked t3 shp c) (share_masked t4 shp d) w = Ok (out, w') /\
    comm_log w' =
      (comm_log w ++
       (if EQ_USE_OFFLINE (flags w)
        then [CallRotate "MssAndBB, offline"; CallRotate "MssAndBB, offline"] else []))%list /\
    reconstruct_b out
      = pforeach (nelems shp) (fun idx =>
          wrap t (Z.land (and_of (EQ_USE_OFFLINE (flags w)) a b idx)
                         (and_of (EQ_USE_OFFLINE (flags w)) c d idx))).
Proof.
  intros Ho H12 H34 Sa Sb Sc Sd.
  destruct (MssAnd2NoComm_masked w t1 t2 shp a b Ho H12 Sa Sb)
    as (u & y0 & y1 & y2 & Eu & E1 & Ly0 & Ly1 & Ly2 & V1).
  set (w1 := after_prss w (if EQ_USE_OFFLINE (flags w)
                           then [CallRotate "MssAndBB, offline"] else [])) in *.
  destruct (MssAnd2NoComm_masked w1 t3 t4 shp c d Ho H34 Sc Sd)
    as (v & z0 & z1 & z2 & Ev & E2 & Lz0 & Lz1 & Lz2 & V2).
  change (flags w1) with (flags w) in *.
  set (w2 := after_prss w1 (if EQ_USE_OFFLINE (flags w)
                            then [CallRotate "MssAndBB, offline"] else [])) in *.
  destruct (RssAnd2NoComm_spec w2
              (mkBShrTy u (Z.min (nbits t1) (nbits t2)))
              (mkBShrTy v (Z.min (nbits t3) (nbits t4))) shp y0 y1 y2 z0 z1 z2)
    as (t & Ec & E3 & V3); try assumption; cbn [nbits] in *; [lia|].
  cbv zeta in E3, V3.
  eexists t, _, _. split; [exact Ec|]. split; [|split].
  - unfold MssAnd4NoComm. unfold bind at 1. rewrite E1. unfold bind at 1. rewrite E2.
    exact E3.
  - unfold after_prss, w2, w1, after_prss. cbn [comm_log].
    rewrite app_nil_r, <- app_assoc.
    destruct (EQ_USE_OFFLINE (flags w)); reflexivity.
  - rewrite reconstruct_b_share_s;
      try apply pforeach_length; try (unfold zeros; apply repeat_length).
    apply pforeach_ext. intros idx Hi. rewrite (V3 idx Hi), (V1 idx Hi), (V2 idx Hi).
    apply wrap_land_wider.
    + eapply calcBShareBacktype_mono; [exact Ec|exact Eu|lia].
    + eapply calcBShareBacktype_mono; [exact Ec|exact Ev|lia].
Qed.

(** The three first slots that ResharingMss2Rss leaves. *)
Lemma Mss2Rss_masked w ty shp c :
  0 <= nbits ty <= 128 -> sized (nelems shp) c ->
  exists t b0 b1 b2,
    calcBShareBacktype (nbits ty) = Ok t /\
    local1 ResharingMss2Rss (share_masked ty shp c) w
      = Ok (share_b (mkBShrTy t (nbits ty)) shp b0 b1 b2, w) /\
    length b0 = nelems shp /\ length b1 = nelems shp /\ length b2 = nelems shp /\
    forall idx, (idx < nelems shp)%nat -> xor3v b0 b1 b2 idx = wrap t (secret_of c idx).
Proof.
  intros Hn (LD & L0 & L1 & L2).
  destruct (calcBShareBacktype_ok _ Hn) as (t & Ec & _).
  exists t, (xor_in t (nelems shp) (ext c) (mask0 c)),
            (xor_in t (nelems shp) (ext c) (mask1 c)),
            (xor_in t (nelems shp) (ext c) (mask2 c)).
  split; [exact Ec|]. split; [|split; [|split; [|split]]]; try apply xor_in_length.
  - apply local1_ok; cbn [share_masked share_m share_b party0 party1 party2];
      apply ResharingMss2Rss_triple; assumption.
  - intros idx Hi. unfold xor3v at 1. rewrite !view1_xor_in by exact Hi.
    unfold secret_of, mss_secret, xor3v, xor3.
    rewrite <- !wrap_lxor. f_equal. xor_bits.
Qed.

(** MssAnd3NoComm: MssAnd2NoComm, ResharingMss2Rss and RssAnd2NoComm. *)
Lemma MssAnd3NoComm_spec w t1 t2 t3 shp a b c :
  (EQ_USE_OFFLINE (flags w) = true -> orientation w = RecvFromNext) ->
  0 <= Z.min (nbits t1) (nbits t2) <= 128 ->
  0 <= nbits t3 <= 128 ->
  sized (nelems shp) a -> sized (nelems shp) b -> sized (nelems shp) c ->
  exists t out w',
    calcBShareBacktype (Z.min (Z.min (nbits t1) (nbits t2)) (nbits t3)) = Ok t /\
    MssAnd3NoComm (share_masked t1 shp a) (share_masked t2 shp b)
                  (share_masked t3 shp c) w = Ok (out, w') /\
    comm_log w' =
      (comm_log w ++
       (if EQ_USE_OFFLINE (flags w) then [CallRotate "MssAndBB, offline"] else []))%list /\
    reconstruct_b out
      = pforeach (nelems shp) (fun idx =>
          wrap t (Z.land (and_of (EQ_USE_OFFLINE (flags w)) a b idx) (secret_of c idx))).
Proof.
  intros Ho H12 H3 Sa Sb Sc.
  destruct (MssAnd2NoComm_masked w t1 t2 shp a b Ho H12 Sa Sb)
    as (u & y0 & y1 & y2 & Eu & E1 & Ly0 & Ly1 & Ly2 & V1).
  set (w1 := after_prss w (if EQ_USE_OFFLINE (flags w)
                           then [CallRotate "MssAndBB, offline"] else [])) in *.
  destruct (Mss2Rss_masked w1 t3 shp c H3 Sc)
    as (v & z0 & z1 & z2 & Ev & E2 & Lz0 & Lz1 & Lz2 & V2).
  destruct (RssAnd2NoComm_spec w1
              (mkBShrTy u (Z.min (nbits t1) (nbits t2)))
              (mkBShrTy v (nbits t3)) shp y0 y1 y2 z0 z1 z2)
    as (t & Ec & E3 & V3); try assumption; cbn [nbits] in *; [lia|].
  cbv zeta in E3, V3.
  eexists t, _, _. split; [exact Ec|]. split; [|split].
  - unfold MssAnd3NoComm. unfold bind at 1. rewrite E1. unfold bind at 1. rewrite E2.
    exact E3.
  - unfold after_prss, w1, after_prss. cbn [comm_log]. rewrite app_nil_r. reflexivity.
  - rewrite reconstruct_b_share_s;
      try apply pforeach_length; try (unfold zeros; apply repeat_length).
    apply pforeach_ext. intros idx Hi. rewrite (V3 idx Hi), (V1 idx Hi), (V2 idx Hi).
    apply wrap_land_wider.
    + eapply calcBShareBacktype_mono; [exact Ec|exact Eu|lia].
    + eapply calcBShareBacktype_mono; [exact Ec|exact Ev|lia].
Qed.

(* ------------------------------------------------------------------ *)
(** ** Bit composition and the oblivious transfer *)

Lemma wrap_add t a b : wrap t (a + b) = wrap t (wrap t a + wrap t b).
Proof. unfold wrap. apply Zplus_mod. Qed.

Lemma wrap_add_l t a b : wrap t (wrap t a + b) = wrap t (a + b).
Proof. unfold wrap. apply Zplus_mod_idemp_l. Qed.

Lemma wrap_sub_r t a b : wrap t (a - wrap t b) = wrap t (a - b).
Proof. unfold wrap. apply Zminus_mod_idemp_r. Qed.

Lemma wrap_mul_l t a b : wrap t (wrap t a * b) = wrap t (a * b).
Proof. unfold wrap. apply Zmult_mod_idemp_l. Qed.

Lemma bitCompose_fold t (f : nat -> Z) nb :
  fold_left (fun acc bit => wrap t (acc + Z.shiftl (f bit) (Z.of_nat bit))) (seq 0 nb) 0
    = wrap t (wsum nb f).
Proof.
  induction nb as [|k IH].
  - cbn [seq fold_left wsum]. symmetry. apply wrap_0.
  - rewrite seq_S, fold_left_app, IH. cbn [fold_left wsum Nat.add].
    rewrite wrap_add_l, Z.shiftl_mul_pow2 by lia. reflexivity.
Qed.

Lemma view1_bitCompose t inp n nb idx :
  (idx < n)%nat ->
  view1 (bitCompose t inp n nb) idx
    = wrap t (wsum nb (fun bit => view1 inp (idx * nb + bit))).
Proof.
  intros Hi. unfold bitCompose. rewrite view1_pforeach by exact Hi.
  apply (bitCompose_fold t (fun bit => view1 inp (idx * nb + bit))).
Qed.

Lemma wsum_add nb f g : wsum nb (fun k => f k + g k) = wsum nb f + wsum nb g.
Proof. induction nb as [|k IH]; cbn [wsum]; [reflexivity|]. rewrite IH. ring. Qed.

Lemma wsum_wrap_ext t nb f g :
  (forall k, (k < nb)%nat -> wrap t (f k) = wrap t (g k)) ->
  wrap t (wsum nb f) = wrap t (wsum nb g).
Proof.
  induction nb as [|k IH]; intros H; cbn [wsum]; [reflexivity|].
  rewrite wrap_add, IH by (intros; apply H; lia).
  rewrite <- (wrap_mul_l t (f k)), (H k) by lia.
  rewrite wrap_mul_l, <- wrap_add. reflexivity.
Qed.

Lemma bit_at x k : 0 <= k -> Z.land (Z.shiftr x k) 1 = Z.b2z (Z.testbit x k).
Proof.
  intros Hk. change 1 with (Z.ones 1). rewrite Z.land_ones by lia.
  rewrite Z.shiftr_div_pow2 by lia. change (2 ^ 1) with 2.
  symmetry. apply Z.testbit_spec'. exact Hk.
Qed.

Lemma wsum_bits b nb :
  wsum nb (fun k => Z.b2z (Z.testbit b (Z.of_nat k))) = b mod 2 ^ Z.of_nat nb.
Proof.
  induction nb as [|k IH].
  - cbn [wsum]. change (2 ^ Z.of_nat 0) with 1. rewrite Z.mod_1_r. reflexivity.
  - cbn [wsum]. rewrite IH. rewrite Nat2Z.inj_succ, Z.pow_succ_r by lia.
    rewrite (Z.mul_comm 2), Z.rem_mul_r by (try lia; apply Z.pow_nonzero; lia).
    rewrite Z.testbit_spec' by lia. ring.
Qed.

Lemma roles_rotation p :
  0 <= p < 2 ^ 64 - 2 ->
  roles p = (0, 1, 2) \/ roles p = (1, 2, 0) \/ roles p = (2, 0, 1).
Proof.
  intros Hp. unfold roles.
  rewrite (Z.mod_small (p + 1)), (Z.mod_small (p + 2)) by lia.
  assert (C : p mod 3 = 0 \/ p mod 3 = 1 \/ p mod 3 = 2)
    by (Z.to_euclidean_division_equations; lia).
  destruct C as [C|[C|C]]; [left|right; left|right; right];
    (replace ((p + 1) mod 3) with ((p mod 3 + 1) mod 3)
       by (Z.to_euclidean_division_equations; lia));
    (replace ((p + 2) mod 3) with ((p mod 3 + 2) mod 3)
       by (Z.to_euclidean_division_equations; lia));
    rewrite C; reflexivity.
Qed.

Ltac eval_ot :=
  lazy beta iota zeta delta
    [B2AByOT getDefaultField fillPubl lift getFlags fillPrssPair bind log_call ret each_party
     send_recv rbind enforce pget ptab party0 party1 party2 numel eltype shape elems nbits
     getBacktype Z.eqb Pos.eqb andb prss_pair share_b
     flags orientation default_field tape prss_counter publ_counter priv_counter comm_log];
  change (NextRank 0) with 1; change (NextRank 1) with 2; change (NextRank 2) with 0;
  change (fold_right Nat.mul 1%nat) with nelems.

Lemma flat_lt n nbn idx k : (idx < n)%nat -> (k < nbn)%nat -> (idx * nbn + k < n * nbn)%nat.
Proof. intros. nia. Qed.

Lemma nth_bitDecompose l n nbn idx k :
  (idx < n)%nat -> (k < nbn)%nat ->
  nth (idx * nbn + k) (bitDecompose l n nbn) false = Z.testbit (view1 l idx) (Z.of_nat k).
Proof.
  intros Hi Hk. unfold bitDecompose, pforeach at 1.
  rewrite (nth_concat_chunks nbn) by (try assumption; intros; apply pforeach_length).
  rewrite nth_pforeach by exact Hk. cbn [Nat.add].
  rewrite bit_at by lia. destruct (Z.testbit (view1 l idx) (Z.of_nat k)); reflexivity.
Qed.

Lemma view1_map_slot0 a b idx :
  length a = length b -> view1 (map slot0 (combine a b)) idx = view1 a idx.
Proof.
  unfold view1. revert b idx. induction a as [|x a IH]; intros [|y b] idx H;
    try discriminate; destruct idx; cbn; try reflexivity.
  apply IH. cbn in H. lia.
Qed.

Lemma view1_map_slot1 a b idx :
  length a = length b -> view1 (map slot1 (combine a b)) idx = view1 b idx.
Proof.
  unfold view1. revert b idx. induction a as [|x a IH]; intros [|y b] idx H;
    try discriminate; destruct idx; cbn; try reflexivity.
  apply IH. cbn in H. lia.
Qed.

Lemma pforeach_pairs n (a b : list Z) :
  length a = n -> length b = n ->
  pforeach n (fun idx => (view1 a idx, view1 b idx)) = combine a b.
Proof.
  intros La Lb.
  transitivity (combine (pforeach n (view1 a)) (pforeach n (view1 b))).
  - rewrite combine_pforeach. reflexivity.
  - rewrite !pforeach_view1_id by assumption. reflexivity.
Qed.

Lemma share_a_eq f shp (x0 x1 x2 : list (Z * Z)) a0 a1 a2 :
  x0 = combine a0 a1 -> x1 = combine a1 a2 -> x2 = combine a2 a0 ->
  mkParties (mkArr f shp x0) (mkArr f shp x1) (mkArr f shp x2) = share_a f shp a0 a1 a2.
Proof. intros -> -> ->. reflexivity. Qed.

Lemma bitCompose_length t inp n nbn : length (bitCompose t inp n nbn) = n.
Proof. apply pforeach_length. Qed.

Lemma lxor_unmask m r : Z.lxor (Z.lxor m r) m = r.
Proof. rewrite (Z.lxor_comm m r), Z.lxor_assoc, Z.lxor_nilpotent, Z.lxor_0_r. reflexivity. Qed.

Lemma wrap_add3 t a b c : wrap t (wrap t a + wrap t b + wrap t c) = wrap t (a + b + c).
Proof.
  rewrite (wrap_add t (wrap t a + wrap t b)), <- (wrap_add t a b), wrap_wrap, <- wrap_add.
  reflexivity.
Qed.

(** The three shares that the oblivious transfer leaves add up to the
    secret: c1 and c3 are random, and bit by bit c2 is the bit of the
    secret minus the bits of c1 and c3. *)
Lemma ot_sum el nbn (A V C : nat -> Z) (b : Z) :
  Z.of_nat nbn <= bitsof el ->
  (forall k, (k < nbn)%nat ->
     wrap el (V k) = wrap el (Z.b2z (Z.testbit b (Z.of_nat k)) - (C k + A k))) ->
  wrap el (wrap el (wsum nbn A) + wrap el (wsum nbn V) + wrap el (wsum nbn C))
    = b mod 2 ^ Z.of_nat nbn.
Proof.
  intros Hb HV.
  rewrite wrap_add3, <- !wsum_add.
  rewrite (wsum_wrap_ext el nbn _ (fun k => Z.b2z (Z.testbit b (Z.of_nat k)))).
  - rewrite wsum_bits. apply wrap_small.
    pose proof (Z.mod_pos_bound b (2 ^ Z.of_nat nbn) ltac:(apply Z.pow_pos_nonneg; lia)).
    pose proof (pow2_mono (Z.of_nat nbn) (bitsof el)). lia.
  - intros k Hk. cbv beta.
    rewrite <- (wrap_add3 el (A k) (V k) (C k)), (HV k Hk), wrap_add3.
    f_equal. ring.
Qed.

(** What the receiver of the oblivious transfer ends with at one bit. *)
Lemma ot_message el (beta : bool) (m0 m1 x t : Z) (k : Z) (b1 : Z) :
  0 <= k -> beta = Z.testbit b1 k ->
  wrap el
    (if negb beta
     then Z.lxor (Z.lxor m0 (wrap el (Z.land (Z.shiftr x k) 1 - wrap el t)))
                 (if negb beta then m0 else m1)
     else Z.lxor (Z.lxor m1 (wrap el (Z.land (Z.shiftr (Z.lnot x) k) 1 - wrap el t)))
                 (if negb beta then m0 else m1))
  = wrap el (Z.b2z (Z.testbit (Z.lxor b1 x) k) - t).
Proof.
  intros Hk ->. rewrite Z.lxor_spec.
  destruct (Z.testbit b1 k); cbn [negb]; rewrite lxor_unmask, wrap_wrap, wrap_sub_r, bit_at
    by exact Hk; [rewrite Z.lnot_spec by exact Hk|];
    destruct (Z.testbit x k); reflexivity.
Qed.

Ltac ot_shares :=
  eexists _, _, _, _; split; [|split; [|split; [|split; [|split; [|split; [|split]]]]]];
  [ apply f_equal; apply (f_equal2 pair); [|reflexivity];
    apply share_a_eq; apply pforeach_pairs; apply bitCompose_length
  | apply bitCompose_length | apply bitCompose_length | apply bitCompose_length
  |
  | reflexivity | reflexivity
  | cbn [comm_log]; rewrite <- !app_assoc; reflexivity ].

Ltac ot_bit Hi Hk :=
  let Hf := fresh "Hf" in
  pose proof (flat_lt _ _ _ _ Hi Hk) as Hf;
  rewrite !view1_pforeach by exact Hf;
  rewrite !nth_bitDecompose by assumption;
  rewrite view1_map_slot0, view1_map_slot1 by lia;
  rewrite !view1_concat_pforeach by assumption;
  rewrite !view2_combine by lia; cbn [slot0 slot1 fst snd];
  erewrite ot_message by (try lia; reflexivity);
  f_equal; f_equal; f_equal;
  unfold xor3v, xor3; rewrite !Z.lxor_spec;
  repeat match goal with
         | |- context [Z.testbit ?a ?k] => destruct (Z.testbit a k)
         end;
  reflexivity.

Lemma B2AByOT_spec w ty shp b0 b1 b2 :
  0 < nbits ty <= SizeOfField (default_field w) * 8 ->
  0 <= publ_tape (tape w) (publ_counter w) mod 2 ^ 64 < 2 ^ 64 - 2 ->
  length b0 = nelems shp -> length b1 = nelems shp -> length b2 = nelems shp ->
  exists a0 a1 a2 w',
    B2AByOT (share_b ty shp b0 b1 b2) w = Ok (share_a (default_field w) shp a0 a1 a2, w') /\
    length a0 = nelems shp /\ length a1 = nelems shp /\ length a2 = nelems shp /\
    (forall idx, (idx < nelems shp)%nat ->
       wrap (GetStorageType (default_field w)) (sum3 a0 a1 a2 idx)
         = xor3v b0 b1 b2 idx mod 2 ^ nbits ty) /\
    prss_counter w' = (3 + prss_counter w)%nat /\
    publ_counter w' = S (publ_counter w) /\
    let '(P0, P1, P2) := roles (publ_tape (tape w) (publ_counter w) mod 2 ^ 64) in
    comm_log w' =
      (comm_log w ++
       [CallSendAsync P0 P1 "mc"; CallRecv P1 P0 "mc";
        CallSendAsync P2 P1 "m0"; CallRecv P1 P2 "m0";
        CallSendAsync P2 P1 "m1"; CallRecv P1 P2 "m1";
        CallSendAsync P1 P0 "c2"; CallRecv P0 P1 "c2"])%list.
Proof.
  intros Hn Hp L0 L1 L2.
  destruct w as [fl o df tp pc uc vc lg].
  cbn [default_field tape publ_counter] in *.
  destruct ty as [bt nb]. cbn [nbits] in *.
  destruct nb as [|nb|nb]; try lia.
  assert (G1 : (Z.pos nb <=? SizeOfField df * 8) = true) by (apply Z.leb_le; lia).
  assert (Hw : Z.of_nat (Z.to_nat (Z.pos nb)) <= bitsof (GetStorageType df)).
  { rewrite Z2Nat.id by lia. unfold SizeOfField, bitsof in *. lia. }
  replace (2 ^ Z.pos nb) with (2 ^ Z.of_nat (Z.to_nat (Z.pos nb)))
    by (rewrite Z2Nat.id; lia).
  destruct (roles_rotation _ Hp) as [R|[R|R]].
  - eval_ot. rewrite G1. eval_ot. rewrite R. eval_ot.
    change (roles_distinct 0 1 2) with true. eval_ot. cbn [fst snd].
    ot_shares.
    intros idx Hi. unfold sum3. rewrite !view1_bitCompose by exact Hi.
    apply (ot_sum _ _ _ _ _ (xor3v b0 b1 b2 idx) Hw).
    intros k Hk. cbv beta. ot_bit Hi Hk.
  - eval_ot. rewrite G1. eval_ot. rewrite R. eval_ot.
    change (roles_distinct 1 2 0) with true. eval_ot. cbn [fst snd].
    ot_shares.
    intros idx Hi. unfold sum3. rewrite !view1_bitCompose by exact Hi.
    match goal with
    | |- wrap _ (?x + ?y + ?z) = _ => replace (x + y + z) with (y + z + x) by ring
    end.
    apply (ot_sum _ _ _ _ _ (xor3v b0 b1 b2 idx) Hw).
    intros k Hk. cbv beta. ot_bit Hi Hk.
  - eval_ot. rewrite G1. eval_ot. rewrite R. eval_ot.
    change (roles_distinct 2 0 1) with true. eval_ot. cbn [fst snd].
    ot_shares.
    intros idx Hi. unfold sum3. rewrite !view1_bitCompose by exact Hi.
    match goal with
    | |- wrap _ (?x + ?y + ?z) = _ => replace (x + y + z) with (z + x + y) by ring
    end.
    apply (ot_sum _ _ _ _ _ (xor3v b0 b1 b2 idx) Hw).
    intros k Hk. cbv beta. ot_bit Hi Hk.
Qed.

(* ------------------------------------------------------------------ *)
(** ** B2AByPPA around its adder *)

Lemma expanded_type f :
  calcBShareBacktype (SizeOfField f * 8) = Ok (GetStorageType f) /\
  makeBShrTy (GetStorageType f) (SizeOfField f * 8)
    = Ok (mkBShrTy (GetStorageType f) (SizeOfField f * 8)).
Proof. destruct f; split; reflexivity. Qed.

Lemma shape_eq_refl (shp : list nat) :
  (if list_eq_dec Nat.eq_dec shp shp then true else false) = true.
Proof. destruct (list_eq_dec Nat.eq_dec shp shp); [reflexivity|contradiction]. Qed.

Ltac eval_ppa :=
  lazy beta iota zeta delta
    [B2AByPPA wrap_add_bb getDefaultField lift getFlags fillPrssPair bind log_call ret each_party
     send_recv rotate rbind enforce pget ptab party0 party1 party2 numel eltype shape elems nbits
     getBacktype Z.eqb Pos.eqb andb prss_pair share_b
     flags orientation default_field tape prss_counter publ_counter priv_counter comm_log];
  change (NextRank 0) with 1; change (NextRank 1) with 2; change (NextRank 2) with 0;
  change (fold_right Nat.mul 1%nat) with nelems.

Lemma share_b_pairs ty shp (c0 c1 c2 : list Z) :
  length c0 = nelems shp -> length c1 = nelems shp -> length c2 = nelems shp ->
  mkParties
    (mkArr ty shp (pforeach (nelems shp) (fun idx => (view1 c0 idx, view1 c1 idx))))
    (mkArr ty shp (pforeach (nelems shp) (fun idx => (view1 c1 idx, view1 c2 idx))))
    (mkArr ty shp (pforeach (nelems shp) (fun idx => (view1 c2 idx, view1 c0 idx))))
  = share_b ty shp c0 c1 c2.
Proof. intros. apply share_b_eq; apply pforeach_pairs; assumption. Qed.

Lemma share_b_expand ty el shp (b0 b1 b2 : list Z) :
  length b0 = nelems shp -> length b1 = nelems shp -> length b2 = nelems shp ->
  mkParties
    (mkArr ty shp (pforeach (nelems shp) (fun idx =>
       (wrap el (slot0 (view2 (combine b0 b1) idx)),
        wrap el (slot1 (view2 (combine b0 b1) idx))))))
    (mkArr ty shp (pforeach (nelems shp) (fun idx =>
       (wrap el (slot0 (view2 (combine b1 b2) idx)),
        wrap el (slot1 (view2 (combine b1 b2) idx))))))
    (mkArr ty shp (pforeach (nelems shp) (fun idx =>
       (wrap el (slot0 (view2 (combine b2 b0) idx)),
        wrap el (slot1 (view2 (combine b2 b0) idx))))))
  = share_b ty shp (pforeach (nelems shp) (fun idx => wrap el (view1 b0 idx)))
                   (pforeach (nelems shp) (fun idx => wrap el (view1 b1 idx)))
                   (pforeach (nelems shp) (fun idx => wrap el (view1 b2 idx))).
Proof.
  intros. apply share_b_eq; rewrite combine_pforeach; apply pforeach_ext; intros idx Hi;
    rewrite view2_combine by lia; reflexivity.
Qed.

Section PPA.

Variable add_bb : Parties BArr -> Parties BArr -> Proto (Parties BArr).
Hypothesis Hadd : adds_shared add_bb.

Lemma B2AByPPA_spec w ty shp b0 b1 b2 :
  orientation w = RecvFromNext ->
  0 < nbits ty <= SizeOfField (default_field w) * 8 ->
  length b0 = nelems shp -> length b1 = nelems shp -> length b2 = nelems shp ->
  exists a0 a1 a2 w',
    B2AByPPA add_bb (share_b ty shp b0 b1 b2) w
      = Ok (share_a (default_field w) shp a0 a1 a2, w') /\
    length a0 = nelems shp /\ length a1 = nelems shp /\ length a2 = nelems shp /\
    forall idx, (idx < nelems shp)%nat ->
      wrap (GetStorageType (default_field w)) (sum3 a0 a1 a2 idx)
        = wrap (GetStorageType (default_field w)) (xor3v b0 b1 b2 idx).
Proof.
  intros Ho Hn L0 L1 L2.
  destruct w as [fl o df tp pc uc vc lg].
  cbn [default_field orientation] in *. subst o.
  destruct ty as [bt nb]. cbn [nbits] in *.
  destruct nb as [|nb|nb]; try lia.
  assert (G1 : (Z.pos nb <=? SizeOfField df * 8) = true) by (apply Z.leb_le; lia).
  destruct (expanded_type df) as (E1 & E2).
  eval_ppa. rewrite G1. eval_ppa. rewrite E1. eval_ppa. rewrite E2. eval_ppa.
  rewrite shape_eq_refl. eval_ppa. cbn [fst snd].
  rewrite share_b_expand by assumption.
  rewrite share_b_pairs by apply pforeach_length.
  match goal with
  | |- context [add_bb (share_b ?T ?S ?X0 ?X1 ?X2) (share_b _ _ ?Y0 ?Y1 ?Y2) ?W] =>
      destruct (Hadd T S X0 X1 X2 Y0 Y1 Y2 W) as (s0 & s1 & s2 & w2 & E & S0 & S1 & S2 & Ho2 & V);
        try apply pforeach_length
  end.
  rewrite E. destruct w2 as [fl2 o2 df2 tp2 pc2 uc2 vc2 lg2].
  cbn [orientation] in Ho2. subst o2. cbn [getBacktype] in V.
  eval_ppa.
  eexists _, _, _, _. split; [|split; [|split; [|split]]].
  - apply f_equal. apply (f_equal2 pair); [|reflexivity].
    apply share_a_eq; apply pforeach_pairs; apply pforeach_length.
  - apply pforeach_length.
  - apply pforeach_length.
  - apply pforeach_length.
  - intros idx Hi. unfold sum3. rewrite !view1_pforeach by exact Hi.
    rewrite !view2_combine by lia. cbn [slot0 slot1 fst snd].
    change (Z.lxor (Z.lxor (view1 s0 idx) (view1 s1 idx)) (view1 s2 idx))
      with (xor3v s0 s1 s2 idx).
    rewrite (V idx Hi). clear V E.
    unfold xor3v, xor3. rewrite !view1_pforeach by exact Hi.
    set (d1 := view1 (prss_draw tp pc 1 (GetStorageType df) (nelems shp)) idx).
    set (d2 := view1 (prss_draw tp pc 2 (GetStorageType df) (nelems shp)) idx).
    set (e0 := view1 (prss_draw tp (S pc) 0 (GetStorageType df) (nelems shp)) idx).
    set (e1 := view1 (prss_draw tp (S pc) 1 (GetStorageType df) (nelems shp)) idx).
    set (e2 := view1 (prss_draw tp (S pc) 2 (GetStorageType df) (nelems shp)) idx).
    assert (W0 : wrap (GetStorageType df) e0 = e0)
      by (unfold e0, prss_draw; rewrite view1_pforeach by exact Hi; apply wrap_wrap).
    assert (W1 : wrap (GetStorageType df) e1 = e1)
      by (unfold e1, prss_draw; rewrite view1_pforeach by exact Hi; apply wrap_wrap).
    assert (W2 : wrap (GetStorageType df) e2 = e2)
      by (unfold e2, prss_draw; rewrite view1_pforeach by exact Hi; apply wrap_wrap).
    assert (HR : Z.lxor (Z.lxor (Z.lxor e0 e1)
                           (wrap (GetStorageType df)
                              (Z.lxor (Z.lxor e1 e2) (wrap (GetStorageType df) (d1 + d2)))))
                        (Z.lxor e2 e0)
                 = wrap (GetStorageType df) (d1 + d2)).
    { rewrite !wrap_lxor, wrap_wrap, W1, W2. xor_bits. }
    rewrite HR, <- !wrap_lxor, wrap_wrap, wrap_add3.
    match goal with
    | |- wrap ?t (wrap ?t ?a + wrap ?t ?b + ?c + ?d) = _ =>
        replace (wrap t a + wrap t b + c + d) with (wrap t a + wrap t b + (c + d)) by ring;
        rewrite <- (wrap_add3 t (wrap t a) (wrap t b) (c + d)), !wrap_wrap, wrap_add3
    end.
    f_equal. ring.
Qed.

End PPA.

(* ------------------------------------------------------------------ *)
(** ** Reconstruction *)

Lemma reconstruct_m_masked ty shp a :
  sized (nelems shp) a ->
  reconstruct_m (share_masked ty shp a) = pforeach (nelems shp) (secret_of a).
Proof.
  intros (LD & L0 & L1 & L2). unfold share_masked.
  rewrite reconstruct_m_share by assumption. reflexivity.
Qed.

Lemma reconstruct_b_values ty shp b0 b1 b2 (f : nat -> Z) :
  length b0 = nelems shp -> length b1 = nelems shp -> length b2 = nelems shp ->
  (forall idx, (idx < nelems shp)%nat -> xor3v b0 b1 b2 idx = f idx) ->
  reconstruct_b (share_b ty shp b0 b1 b2) = pforeach (nelems shp) f.
Proof.
  intros L0 L1 L2 H. rewrite reconstruct_b_share by assumption.
  apply pforeach_ext. exact H.
Qed.

Lemma plain_add_bb_adds : adds_shared plain_add_bb.
Proof.
  intros ty shp x0 x1 x2 y0 y1 y2 w L0 L1 L2 M0 M1 M2.
  unfold plain_add_bb, ret, numel. cbn [share_b party0 eltype shape].
  change (fold_right Nat.mul 1%nat) with nelems.
  eexists _, _, _, w. split; [reflexivity|].
  split; [apply pforeach_length|]. split; [apply repeat_length|].
  split; [apply repeat_length|]. split; [reflexivity|].
  intros idx Hi. unfold xor3v at 1, xor3.
  rewrite view1_pforeach by exact Hi. rewrite !view1_zeros, !Z.lxor_0_r.
  change (mkParties (mkArr ty shp (combine x0 x1)) (mkArr ty shp (combine x1 x2))
                    (mkArr ty shp (combine x2 x0))) with (share_b ty shp x0 x1 x2).
  change (mkParties (mkArr ty shp (combine y0 y1)) (mkArr ty shp (combine y1 y2))
                    (mkArr ty shp (combine y2 y0))) with (share_b ty shp y0 y1 y2).
  rewrite !reconstruct_b_share by assumption.
  rewrite !view1_pforeach by exact Hi. reflexivity.
Qed.

(* ------------------------------------------------------------------ *)
(** ** B2ASelector and the roles of B2AByOT *)

Lemma roles_collide p :
  2 ^ 64 - 2 <= p < 2 ^ 64 ->
  exists P0 P1 P2, roles p = (P0, P1, P2) /\ roles_distinct P0 P1 P2 = false.
Proof.
  intros Hp. assert (C : p = 2 ^ 64 - 2 \/ p = 2 ^ 64 - 1) by lia.
  destruct C as [-> | ->].
  - exists 2, 0, 0. split; reflexivity.
  - exists 0, 0, 1. split; reflexivity.
Qed.

Lemma B2AByOT_collision w ty shp b0 b1 b2 :
  0 < nbits ty <= SizeOfField (default_field w) * 8 ->
  2 ^ 64 - 2 <= publ_tape (tape w) (publ_counter w) mod 2 ^ 64 ->
  B2AByOT (share_b ty shp b0 b1 b2) w = Err Thrown.
Proof.
  intros Hn Hp.
  assert (Hp' : 2 ^ 64 - 2 <= publ_tape (tape w) (publ_counter w) mod 2 ^ 64 < 2 ^ 64).
  { split; [exact Hp|]. apply Z.mod_pos_bound. lia. }
  destruct (roles_collide _ Hp') as (P0 & P1 & P2 & R & Hd).
  destruct w as [fl o df tp pc uc vc lg].
  cbn [default_field tape publ_counter] in *.
  destruct ty as [bt nb]. cbn [nbits] in *.
  destruct nb as [|nb|nb]; try lia.
  assert (G1 : (Z.pos nb <=? SizeOfField df * 8) = true) by (apply Z.leb_le; lia).
  eval_ot. rewrite G1. eval_ot. rewrite R. eval_ot. rewrite Hd. reflexivity.
Qed.

Lemma zero_share_a f ty shp (b0 b1 b2 : list Z) :
  ptab (fun rank => zero_ashare f (pget (share_b ty shp b0 b1 b2) rank))
    = share_a f shp (zeros (nelems shp)) (zeros (nelems shp)) (zeros (nelems shp)).
Proof.
  unfold ptab, zero_ashare, share_b, numel.
  cbn [pget party0 party1 party2 Z.eqb Pos.eqb shape].
  change (fold_right Nat.mul 1%nat) with nelems.
  apply share_a_eq; rewrite zeros_pforeach, combine_pforeach; reflexivity.
Qed.

Lemma wf_xor3v nb n b0 b1 b2 idx :
  0 <= nb -> wf_vec nb n b0 -> wf_vec nb n b1 -> wf_vec nb n b2 -> (idx < n)%nat ->
  0 <= xor3v b0 b1 b2 idx < 2 ^ nb.
Proof.
  intros Hnb H0 H1 H2 Hi. unfold xor3v, xor3.
  apply lxor_range; [exact Hnb| |eapply wf_vec_view; eassumption].
  apply lxor_range; [exact Hnb| |]; eapply wf_vec_view; eassumption.
Qed.

Section Selector.

Variable add_bb : Parties BArr -> Parties BArr -> Proto (Parties BArr).
Hypothesis Hadd : adds_shared add_bb.

Lemma B2ASelector_spec w ty shp b0 b1 b2 :
  orientation w = RecvFromNext ->
  0 <= nbits ty <= SizeOfField (default_field w) * 8 ->
  publ_tape (tape w) (publ_counter w) mod 2 ^ 64 < 2 ^ 64 - 2 ->
  wf_vec (nbits ty) (nelems shp) b0 -> wf_vec (nbits ty) (nelems shp) b1 ->
  wf_vec (nbits ty) (nelems shp) b2 ->
  exists a0 a1 a2 w',
    B2ASelector add_bb (share_b ty shp b0 b1 b2) w
      = Ok (share_a (default_field w) shp a0 a1 a2, w') /\
    reconstruct_a (share_a (default_field w) shp a0 a1 a2)
      = pforeach (nelems shp) (xor3v b0 b1 b2).
Proof.
  intros Ho Hn Hp W0 W1 W2.
  pose proof W0 as (L0 & _). pose proof W1 as (L1 & _). pose proof W2 as (L2 & _).
  assert (Hp' : 0 <= publ_tape (tape w) (publ_counter w) mod 2 ^ 64 < 2 ^ 64 - 2).
  { split; [|exact Hp]. apply Z.mod_pos_bound. lia. }
  assert (Hel : bitsof (GetStorageType (default_field w)) = SizeOfField (default_field w) * 8).
  { unfold bitsof, SizeOfField. lia. }
  unfold B2ASelector, B2ASelector_choice. cbn [share_b party0 eltype].
  destruct (Z.eq_dec (nbits ty) 0) as [Hz|Hz].
  - (* nothing to convert *)
    rewrite Hz. cbn [Z.leb Z.compare].
    exists (zeros (nelems shp)), (zeros (nelems shp)), (zeros (nelems shp)), w. split.
    + assert (G : (0 <=? SizeOfField (default_field w) * 8) = true)
        by (destruct (default_field w); reflexivity).
      unfold B2AByOT, bind, getDefaultField, each_party, lift.
      cbn [pget Z.eqb Pos.eqb share_b party0 party1 party2 eltype].
      rewrite Hz, G. cbn [rbind enforce Z.eqb andb party0 party1 party2 ret].
      rewrite <- zero_share_a with (ty := ty) (b0 := b0) (b1 := b1) (b2 := b2).
      reflexivity.
    + rewrite reconstruct_a_share by (unfold zeros; apply repeat_length).
      apply pforeach_ext. intros idx Hi.
      unfold sum3. rewrite !view1_zeros. cbn [Z.add]. rewrite wrap_0.
      pose proof (wf_xor3v (nbits ty) _ _ _ _ idx ltac:(lia) W0 W1 W2 Hi) as Hx.
      rewrite Hz in Hx. change (2 ^ 0) with 1 in Hx. lia.
  - destruct (nbits ty <=? 8) eqn:E8.
    + destruct (B2AByOT_spec w ty shp b0 b1 b2 ltac:(lia) Hp' L0 L1 L2)
        as (a0 & a1 & a2 & w' & E & M0 & M1 & M2 & V & _).
      exists a0, a1, a2, w'. split; [exact E|].
      rewrite reconstruct_a_share by assumption. apply pforeach_ext. intros idx Hi.
      rewrite (V idx Hi). apply Z.mod_small.
      apply (wf_xor3v (nbits ty) _ _ _ _ idx ltac:(lia) W0 W1 W2 Hi).
    + destruct (B2AByPPA_spec add_bb Hadd w ty shp b0 b1 b2 Ho ltac:(lia) L0 L1 L2)
        as (a0 & a1 & a2 & w' & E & M0 & M1 & M2 & V).
      exists a0, a1, a2, w'. split; [exact E|].
      rewrite reconstruct_a_share by assumption. apply pforeach_ext. intros idx Hi.
      rewrite (V idx Hi). apply wrap_small.
      pose proof (wf_xor3v (nbits ty) _ _ _ _ idx ltac:(lia) W0 W1 W2 Hi) as Hx.
      pose proof (pow2_mono (nbits ty) (bitsof (GetStorageType (default_field w)))). lia.
Qed.

End Selector.

(* ------------------------------------------------------------------ *)
(** ** EqualAA and EqualAP: the roles and the second slots *)

(** The rounds of the AND tree leave the communicator turning as it
    did; after at least one round the result is replicated the way
    rotate turns. *)
Lemma eqz_and_tree_turns fuel : forall n cb cbits res w res' w',
  eqz_and_tree fuel n cb cbits res w = Ok (res', w') ->
  orientation w' = orientation w /\
  (res' = res \/ coherent (turn (orientation w)) res').
Proof.
  induction fuel as [|fuel IH]; intros n cb cbits res w res' w' E.
  - discriminate E.
  - destruct (cbits =? n)%nat eqn:Eb.
    + cbn [eqz_and_tree] in E. rewrite Eb in E. injection E as <- <-.
      split; [reflexivity|left; reflexivity].
    + rewrite eqz_and_tree_step in E by exact Eb.
      destruct (IH _ _ _ _ _ _ _ E) as (Ho & Hc).
      change (orientation (tree_world w)) with (orientation w) in Ho, Hc.
      split; [exact Ho|]. right. destruct Hc as [-> | Hc]; [|exact Hc].
      apply tree_next_coherent.
Qed.

Lemma eqz_and_tree_replicated fuel n cb cbits res w res' w' :
  (cbits =? n)%nat = false ->
  eqz_and_tree fuel n cb cbits res w = Ok (res', w') ->
  coherent (turn (orientation w)) res'.
Proof.
  intros Eb E. destruct fuel as [|fuel]; [discriminate E|].
  rewrite eqz_and_tree_step in E by exact Eb.
  destruct (eqz_and_tree_turns _ _ _ _ _ _ _ _ E) as (_ & [-> | Hc]).
  - apply tree_next_coherent.
  - exact Hc.
Qed.

(** The first half of eqz leaves the communicator turning as it did. *)
Lemma eqz_flags_turns field bt n inp w zf w' :
  eqz_flags field bt n inp w = Ok (zf, w') -> orientation w' = orientation w.
Proof.
  destruct w as [fl o df tp pc uc vc lg].
  unfold eqz_flags, bind at 1, fillPubl. cbn [tape publ_counter].
  destruct (roles (publ_tape tp uc mod 2 ^ 64)) as [[P0 P1] P2].
  unfold bind at 1, lift.
  destruct (roles_distinct P0 P1 P2); [|discriminate].
  lazy beta iota zeta delta
    [fillPriv fillPrssPair send_recv bind log_call ret
     flags orientation default_field tape prss_counter publ_counter priv_counter comm_log].
  intros E. injection E as _ <-. reflexivity.
Qed.

(** At the two top values of the public draw eqz stops at the roles. *)
Lemma eqz_collision field shp e0 e1 e2 w :
  2 ^ 64 - 2 <= publ_tape (tape w) (publ_counter w) mod 2 ^ 64 ->
  eqz (mkParties (mkArr field shp e0) (mkArr field shp e1) (mkArr field shp e2)) w
    = Err ProtocolError.
Proof.
  intros Hp.
  assert (Hp' : 2 ^ 64 - 2 <= publ_tape (tape w) (publ_counter w) mod 2 ^ 64 < 2 ^ 64).
  { split; [exact Hp|]. apply Z.mod_pos_bound. lia. }
  destruct (roles_collide _ Hp') as (P0 & P1 & P2 & R & Hd).
  unfold eqz. cbn [party0 eltype].
  rewrite field_backtype. change (calcBShareBacktype 8) with (Ok PT_U8).
  unfold bind at 1, lift. unfold bind at 1, lift. unfold bind at 1.
  unfold eqz_flags, bind at 1, fillPubl.
  destruct w as [fl o df tp pc uc vc lg]. cbn [tape publ_counter] in *.
  rewrite R. unfold bind at 1, lift. rewrite Hd. reflexivity.
Qed.

Lemma turn_range o rank : 0 <= turn o rank < 3.
Proof. unfold turn, NextRank, PrevRank. destruct o; apply Z.mod_pos_bound; lia. Qed.

Lemma pairs_replicated (ty : BShrTy) (shp_of : Z -> list nat) n
    (res : Parties (list Z * list Z)) (sigma : Z -> Z) :
  ((0 < n)%nat -> coherent sigma res) ->
  forall rank idx, 0 <= rank < 3 -> 0 <= sigma rank < 3 ->
    slot1 (view2 (elems (pget (ptab (fun r =>
             mkArr ty (shp_of r)
               (pforeach n (fun i => (view1 (fst (pget res r)) i,
                                      view1 (snd (pget res r)) i))))) rank)) idx)
    = slot0 (view2 (elems (pget (ptab (fun r =>
             mkArr ty (shp_of r)
               (pforeach n (fun i => (view1 (fst (pget res r)) i,
                                      view1 (snd (pget res r)) i))))) (sigma rank))) idx).
Proof.
  intros Hc rank idx Hr Hs.
  assert (E : forall r, 0 <= r < 3 ->
            view2 (elems (pget (ptab (fun r =>
                 mkArr ty (shp_of r)
                   (pforeach n (fun i => (view1 (fst (pget res r)) i,
                                          view1 (snd (pget res r)) i))))) r)) idx
            = if (idx <? n)%nat
              then (view1 (fst (pget res r)) idx, view1 (snd (pget res r)) idx)
              else (0, 0)).
  { intros r Hr'. destruct (Nat.ltb_spec idx n) as [Hi|Hi];
      destruct (rank_cases r Hr') as [->|[->| ->]];
      cbn [ptab pget Z.eqb Pos.eqb party0 party1 party2 elems];
      first [apply view2_pforeach; exact Hi
            |unfold view2; apply nth_overflow; rewrite pforeach_length; exact Hi]. }
  rewrite (E rank Hr), (E (sigma rank) Hs).
  destruct (Nat.ltb_spec idx n) as [Hi|Hi]; [|reflexivity].
  cbn [slot0 slot1 fst snd]. f_equal.
  destruct (Hc ltac:(lia)) as (C0 & C1 & C2).
  destruct (rank_cases rank Hr) as [->|[->| ->]];
    cbn [pget Z.eqb Pos.eqb]; assumption.
Qed.

Lemma eqz_run inp w :
  eqz inp w =
  let field := eltype (party0 inp) in
  let n := numel (party0 inp) in
  match eqz_flags field (GetStorageType field) n inp w with
  | Ok (zf, w1) =>
      match eqz_and_tree 8 n (Z.to_nat (SizeOfField field) * n)
              (Z.to_nat (SizeOfField field) * n * 8) (flag_bytes field n zf) w1 with
      | Ok (res, w2) =>
          Ok (ptab (fun rank =>
                mkArr (mkBShrTy PT_U8 8) (shape (pget inp rank))
                  (pforeach n (fun idx =>
                     (view1 (fst (pget res rank)) idx, view1 (snd (pget res rank)) idx)))),
              w2)
      | Err e => Err e
      end
  | Err e => Err e
  end.
Proof.
  unfold eqz. rewrite field_backtype. change (calcBShareBacktype 8) with (Ok PT_U8).
  unfold bind, lift, ret, flag_bytes. cbv zeta.
  destruct (eqz_flags _ _ _ inp w) as [[zf w1]|]; reflexivity.
Qed.

(** The array that eqz returns is replicated the way rotate turns: the
    second slot of a party is the first slot of the party whose buffer
    rotate delivers to it. *)
Lemma eqz_replicated inp w out w' :
  eqz inp w = Ok (out, w') ->
  forall rank idx, 0 <= rank < 3 ->
    slot1 (view2 (elems (pget out rank)) idx)
      = slot0 (view2 (elems (pget out (turn (orientation w) rank))) idx).
Proof.
  rewrite eqz_run. cbv zeta.
  destruct (eqz_flags _ _ _ inp w) as [[zf w1]|] eqn:Ef; [|discriminate].
  destruct (eqz_and_tree _ _ _ _ _ w1) as [[res' w2]|] eqn:Et; [|discriminate].
  intros E. injection E as <- <-.
  pose proof (eqz_flags_turns _ _ _ _ _ _ _ Ef) as Ho.
  intros rank idx Hr.
  apply pairs_replicated; [|exact Hr|apply turn_range].
  intros Hn. rewrite <- Ho. eapply eqz_and_tree_replicated; [|exact Et].
  apply Nat.eqb_neq. rewrite field_bytes.
  assert (0 < 2 ^ field_log (eltype (party0 inp)))%nat
    by (apply Nat.neq_0_lt_0, Nat.pow_nonzero; lia).
  nia.
Qed.

Lemma EqualAA_replicated lhs rhs w out w' :
  EqualAA lhs rhs w = Ok (out, w') ->
  forall rank idx, 0 <= rank < 3 ->
    slot1 (view2 (elems (pget out rank)) idx)
      = slot0 (view2 (elems (pget out (turn (orientation w) rank))) idx).
Proof.
  unfold EqualAA, bind at 1, each_party, lift. intros E.
  match type of E with
  | match (match ?r with _ => _ end) with _ => _ end = _ =>
      destruct r as [d|]; [|discriminate E]
  end.
  exact (eqz_replicated _ _ _ _ E).
Qed.

Lemma EqualAP_replicated lhs rhs w out w' :
  EqualAP lhs rhs w = Ok (out, w') ->
  forall rank idx, 0 <= rank < 3 ->
    slot1 (view2 (elems (pget out rank)) idx)
      = slot0 (view2 (elems (pget out (turn (orientation w) rank))) idx).
Proof.
  unfold EqualAP, bind at 1, each_party, lift. intros E.
  match type of E with
  | match (match ?r with _ => _ end) with _ => _ end = _ =>
      destruct r as [d|]; [|discriminate E]
  end.
  exact (eqz_replicated _ _ _ _ E).
Qed.

Lemma Equal_collision field shp x0 x1 x2 y0 y1 y2 c w :
  2 ^ 64 - 2 <= publ_tape (tape w) (publ_counter w) mod 2 ^ 64 ->
  EqualAA (share_a field shp x0 x1 x2) (share_a field shp y0 y1 y2) w = Err ProtocolError /\
  EqualAP (share_a field shp x0 x1 x2) (share_p field shp c) w = Err ProtocolError.
Proof.
  intros Hp. split.
  - unfold EqualAA, bind, each_party, lift, share_a, enforce.
    cbn [pget Z.eqb Pos.eqb party0 party1 party2 eltype shape elems rbind numel].
    rewrite field_eqb_refl. cbn [rbind].
    apply eqz_collision. exact Hp.
  - unfold EqualAP, bind, each_party, lift, share_a, share_p, ptab, enforce.
    cbn [pget Z.eqb Pos.eqb party0 party1 party2 eltype shape elems rbind numel].
    rewrite field_eqb_refl. cbn [rbind].
    apply eqz_collision. exact Hp.
Qed.

Lemma eqz_lengths inp w out w' :
  eqz inp w = Ok (out, w') ->
  forall rank, 0 <= rank < 3 -> length (elems (pget out rank)) = numel (party0 inp).
Proof.
  rewrite eqz_run. cbv zeta.
  destruct (eqz_flags _ _ _ inp w) as [[zf w1]|]; [|discriminate].
  destruct (eqz_and_tree _ _ _ _ _ w1) as [[res' w2]|]; [|discriminate].
  intros E. injection E as <- <-. intros rank Hr.
  destruct (rank_cases rank Hr) as [->|[->| ->]];
    cbn [ptab pget Z.eqb Pos.eqb party0 party1 party2 elems]; apply pforeach_length.
Qed.

Lemma EqualAA_lengths lhs rhs w out w' :
  EqualAA lhs rhs w = Ok (out, w') ->
  forall rank, 0 <= rank < 3 -> length (elems (pget out rank)) = numel (party0 lhs).
Proof.
  unfold EqualAA, bind at 1, each_party, lift, rbind. cbn [pget Z.eqb Pos.eqb].
  destruct (enforce (field_eqb (eltype (party0 lhs)) (eltype (party0 rhs)))); [|discriminate].
  destruct (enforce (field_eqb (eltype (party1 lhs)) (eltype (party1 rhs)))); [|discriminate].
  destruct (enforce (field_eqb (eltype (party2 lhs)) (eltype (party2 rhs)))); [|discriminate].
  intros E rank Hr. rewrite (eqz_lengths _ _ _ _ E rank Hr). reflexivity.
Qed.

Lemma EqualAP_lengths lhs rhs w out w' :
  EqualAP lhs rhs w = Ok (out, w') ->
  forall rank, 0 <= rank < 3 -> length (elems (pget out rank)) = numel (party0 lhs).
Proof.
  unfold EqualAP, bind at 1, each_party, lift, rbind. cbn [pget Z.eqb Pos.eqb].
  destruct (enforce (field_eqb (eltype (party0 lhs)) (eltype (party0 rhs)))); [|discriminate].
  destruct (enforce (field_eqb (eltype (party1 lhs)) (eltype (party1 rhs)))); [|discriminate].
  destruct (enforce (field_eqb (eltype (party2 lhs)) (eltype (party2 rhs)))); [|discriminate].
  intros E rank Hr. rewrite (eqz_lengths _ _ _ _ E rank Hr). reflexivity.
Qed.

(* ================================================================== *)
(** * The claims *)

Ltac run_to_value :=
  match goal with
  | |- exists out, ?m = Ok out /\ _ =>
      let r := eval vm_compute in m in
      match r with
      | Ok ?v => exists v; split; [vm_compute; reflexivity|]
      end
  end.

(* ------------------------------------------------------------------ *)
(** ** C1: MsbA2B *)

(** C1 (the code departs from the claim).  The claim: for every field
    width k, MsbA2B on a sharing of x reconstructs to the top bit of x
    modulo 2^k.  The prefix loop of MsbA2BMultiFanIn divides
    k = 8 * SizeOf(field) - 1 by four while k > 1, which ends with one
    carry bit only from 63.  From 31 it stops at k = 1 with the carries
    of two 16-bit groups, never combined, and XORs both into the output.
    On FM32, for the two secrets 2^30 + 0 + 2^30 and 2^30 + 2^30 + 0,
    both 2^31 with top bit 1, MsbA2B reconstructs to 2 and 1; whatever
    rank MsbA2BMultiFanIn starts from, one of the two results is wrong.
    On FM128 the masks are computed as [1ull << 127], a shift that C++
    leaves undefined. *)
Theorem MsbA2B_wrong_outside_FM64 (o : Orientation) :
  (exists out,
     run (MsbA2B (share_a FM32 [2%nat] [2 ^ 30; 2 ^ 30] [0; 2 ^ 30] [2 ^ 30; 0]))
         (world0 shipped o FM32) = Ok out /\
     reconstruct_b out = [2; 1] /\
     msb_of FM32 (2 ^ 30 + 0 + 2 ^ 30) = 1 /\ msb_of FM32 (2 ^ 30 + 2 ^ 30 + 0) = 1) /\
  (exists out1 out2,
     run (MsbA2BMultiFanIn (share_a FM32 [2%nat] [2 ^ 30; 2 ^ 30] [0; 2 ^ 30] [2 ^ 30; 0]) 1)
         (world0 shipped o FM32) = Ok out1 /\
     run (MsbA2BMultiFanIn (share_a FM32 [2%nat] [2 ^ 30; 2 ^ 30] [0; 2 ^ 30] [2 ^ 30; 0]) 2)
         (world0 shipped o FM32) = Ok out2 /\
     reconstruct_b out1 = [2; 2] /\ reconstruct_b out2 = [1; 2]) /\
  run (MsbA2B (share_a FM128 [1%nat] [1] [0] [0])) (world0 shipped o FM128) = Err Undefined.
Proof.
  destruct o; (split; [|split]).
  all: try (run_to_value; repeat split; reflexivity).
  all: try (vm_compute; reflexivity).
  all: eexists; eexists; (split; [vm_compute; reflexivity|]);
    (split; [vm_compute; reflexivity|]); split; reflexivity.
Qed.

(* ------------------------------------------------------------------ *)
(** ** C2: A2B *)

(** C2 (the code departs from the claim).  The claim: A2B on a sharing of
    x reconstructs to x.  A2BMultiFanIn passes the signals p and g, of
    the field's width, through select, SelectAndRotate and lshift, whose
    parameters are [uint64_t], and through 64-bit masks: on FM128 the
    upper 64 bits are lost.  For x = 2^63 + 0 + 2^63 = 2^64 the result
    reconstructs to 0. *)
Theorem A2B_FM128_loses_high_half (o : Orientation) :
  exists out,
    run (A2B (share_a FM128 [1%nat] [2 ^ 63] [0] [2 ^ 63])) (world0 shipped o FM128) = Ok out /\
    reconstruct_b out = [0] /\
    wrap (GetStorageType FM128) (2 ^ 63 + 0 + 2 ^ 63) = 2 ^ 64.
Proof.
  destruct o; run_to_value; split; reflexivity.
Qed.

(* ------------------------------------------------------------------ *)
(** ** C3: EqualAA and EqualAP *)

(** C3 (the code departs from the claim).  The claim: for every pair of
    A/RSS sharings of the same shape and field EqualAA reconstructs to
    1 or 0, and likewise EqualAP.  eqz draws a public [size_t] pivot and
    takes the roles [pivot % 3], [(pivot + 1) % 3], [(pivot + 2) % 3].
    When the draw is 2^64 - 2 or 2^64 - 1 the sums wrap around and two
    roles fall on one party: the sends and receives of the three
    parties no longer pair up, and on every input EqualAA and EqualAP
    return no result. *)
Theorem Equal_fails_at_top_pivots
    (field : FieldType) (shp : list nat) (x0 x1 x2 y0 y1 y2 c : list Z) (w : World)
    (Hpivot : 2 ^ 64 - 2 <= publ_tape (tape w) (publ_counter w) mod 2 ^ 64) :
  (roles (publ_tape (tape w) (publ_counter w) mod 2 ^ 64) = (2, 0, 0) \/
   roles (publ_tape (tape w) (publ_counter w) mod 2 ^ 64) = (0, 0, 1)) /\
  EqualAA (share_a field shp x0 x1 x2) (share_a field shp y0 y1 y2) w = Err ProtocolError /\
  EqualAP (share_a field shp x0 x1 x2) (share_p field shp c) w = Err ProtocolError.
Proof.
  split.
  - pose proof (Z.mod_pos_bound (publ_tape (tape w) (publ_counter w)) (2 ^ 64) ltac:(lia)) as Hb.
    assert (C : publ_tape (tape w) (publ_counter w) mod 2 ^ 64 = 2 ^ 64 - 2 \/
                publ_tape (tape w) (publ_counter w) mod 2 ^ 64 = 2 ^ 64 - 1) by lia.
    destruct C as [-> | ->]; [left|right]; reflexivity.
  - apply Equal_collision. exact Hpivot.
Qed.

Lemma Equal_fails_at_top_pivots_witness :
  (roles (2 ^ 64 - 2) = (2, 0, 0) \/ roles (2 ^ 64 - 2) = (0, 0, 1)) /\
  EqualAA (share_a FM64 [2%nat] [1; 5] [2; 0] [3; 0]) (share_a FM64 [2%nat] [6; 1] [0; 1] [0; 1])
    (mkWorld shipped RecvFromNext FM64
       (mkTape (fun _ _ _ _ => 0) (fun _ => 2 ^ 64 - 2) (fun _ _ _ _ => 0)) 0 0 0 [])
    = Err ProtocolError /\
  EqualAP (share_a FM64 [2%nat] [1; 5] [2; 0] [3; 0]) (share_p FM64 [2%nat] [7; 5])
    (mkWorld shipped RecvFromNext FM64
       (mkTape (fun _ _ _ _ => 0) (fun _ => 2 ^ 64 - 2) (fun _ _ _ _ => 0)) 0 0 0 [])
    = Err ProtocolError.
Proof.
  apply (Equal_fails_at_top_pivots FM64 [2%nat] [1; 5] [2; 0] [3; 0] [6; 1] [0; 1] [0; 1] [7; 5]
           (mkWorld shipped RecvFromNext FM64
              (mkTape (fun _ _ _ _ => 0) (fun _ => 2 ^ 64 - 2) (fun _ _ _ _ => 0)) 0 0 0 [])).
  cbn. lia.
Defined.

(* ------------------------------------------------------------------ *)
(** ** C4 and C10: B2ASelector, B2AByPPA, B2AByOT *)

Section B2AKernels.

(** The Boolean adder that B2AByPPA calls through the kernel registry. *)
Variable add_bb : Parties BArr -> Parties BArr -> Proto (Parties BArr).

(** C4.  B2ASelector runs the oblivious-transfer kernel exactly when the
    input's nbits is at most 8 and the parallel-prefix-adder kernel
    exactly when nbits exceeds 8. *)
Theorem B2ASelector_dispatch (inp : Parties BArr) :
  (B2ASelector_choice (nbits (eltype (party0 inp))) = ByOT
     <-> nbits (eltype (party0 inp)) <= 8) /\
  (B2ASelector_choice (nbits (eltype (party0 inp))) = ByPPA
     <-> 8 < nbits (eltype (party0 inp))) /\
  (B2ASelector add_bb inp =
     if nbits (eltype (party0 inp)) <=? 8 then B2AByOT inp else B2AByPPA add_bb inp).
Proof.
  unfold B2ASelector, B2ASelector_choice.
  destruct (Z.leb_spec (nbits (eltype (party0 inp))) 8) as [E|E].
  - repeat split; intros; try reflexivity; try assumption; try discriminate; lia.
  - repeat split; intros; try reflexivity; try assumption; try discriminate; lia.
Qed.

(** C10.  When the input's nbits is 0 (at every party), B2AByPPA and
    B2AByOT both return, without touching the PRG state or the
    communicator, the A/RSS array of the input's shape whose slots are
    all zero. *)
Theorem B2A_zero_bits_is_local (w : World) (inp : Parties BArr)
    (H0 : nbits (eltype (party0 inp)) = 0)
    (H1 : nbits (eltype (party1 inp)) = 0)
    (H2 : nbits (eltype (party2 inp)) = 0) :
  exists out,
    B2AByPPA add_bb inp w = Ok (out, w) /\
    B2AByOT inp w = Ok (out, w) /\
    forall rank, 0 <= rank < 3 ->
      eltype (pget out rank) = default_field w /\
      shape (pget out rank) = shape (pget inp rank) /\
      length (elems (pget out rank)) = numel (pget inp rank) /\
      Forall (fun e => e = (0, 0)) (elems (pget out rank)).
Proof.
  exists (ptab (fun rank => zero_ashare (default_field w) (pget inp rank))).
  assert (Hf : forall f, (0 <=? SizeOfField f * 8) = true) by (intros []; reflexivity).
  repeat split.
  - unfold B2AByPPA, bind, getDefaultField, each_party, lift.
    cbn [pget Z.eqb Pos.eqb]. rewrite H0, H1, H2, Hf. reflexivity.
  - unfold B2AByOT, bind, getDefaultField, each_party, lift.
    cbn [pget Z.eqb Pos.eqb]. rewrite H0, H1, H2, Hf. reflexivity.
  - destruct (rank_cases rank H) as [->|[->| ->]]; reflexivity.
  - destruct (rank_cases rank H) as [->|[->| ->]]; reflexivity.
  - destruct (rank_cases rank H) as [->|[->| ->]];
      cbn [pget ptab Z.eqb Pos.eqb party0 party1 party2 zero_ashare elems];
      apply pforeach_length.
  - destruct (rank_cases rank H) as [->|[->| ->]];
      cbn [pget ptab Z.eqb Pos.eqb party0 party1 party2 zero_ashare elems];
      apply Forall_pforeach; reflexivity.
Qed.

End B2AKernels.

Lemma B2A_zero_bits_is_local_witness :
  exists out,
    B2AByPPA (fun x _ => ret x) (share_b (mkBShrTy PT_U8 0) [2%nat] [0; 0] [0; 0] [0; 0])
      (world0 shipped RecvFromNext FM64) = Ok (out, world0 shipped RecvFromNext FM64) /\
    B2AByOT (share_b (mkBShrTy PT_U8 0) [2%nat] [0; 0] [0; 0] [0; 0])
      (world0 shipped RecvFromNext FM64) = Ok (out, world0 shipped RecvFromNext FM64) /\
    forall rank, 0 <= rank < 3 ->
      eltype (pget out rank) = default_field (world0 shipped RecvFromNext FM64) /\
      shape (pget out rank)
        = shape (pget (share_b (mkBShrTy PT_U8 0) [2%nat] [0; 0] [0; 0] [0; 0]) rank) /\
      length (elems (pget out rank))
        = numel (pget (share_b (mkBShrTy PT_U8 0) [2%nat] [0; 0] [0; 0] [0; 0]) rank) /\
      Forall (fun e => e = (0, 0)) (elems (pget out rank)).
Proof.
  apply B2A_zero_bits_is_local; reflexivity.
Defined.

(* ------------------------------------------------------------------ *)
(** ** C5: RssAnd2NoComm *)

(** C5 (amended).  For well-formed B/RSS inputs RssAnd2NoComm makes no
    communicator call, party i outputs
    (l_i0 & r_i0) ^ (l_i0 & r_i1) ^ (l_i1 & r_i0) ^ (m_i ^ m_{i+1}),
    and the XOR of the three outputs is the AND of the two reconstructed
    secrets.  The pair (m_i, m_{i+1}) is the pairwise PRSS draw only in a
    build with EQ_USE_PRG_STATE; in the source as it is the pair is
    overwritten with zeros and the output is the three AND terms alone. *)
Theorem RssAnd2NoComm_reconstructs_and
    (w : World) (tl tr : BShrTy) (shp : list nat) (l0 l1 l2 r0 r1 r2 : list Z)
    (Htl : wf_ty tl) (Htr : wf_ty tr)
    (Hl0 : wf_vec (nbits tl) (nelems shp) l0)
    (Hl1 : wf_vec (nbits tl) (nelems shp) l1)
    (Hl2 : wf_vec (nbits tl) (nelems shp) l2)
    (Hr0 : wf_vec (nbits tr) (nelems shp) r0)
    (Hr1 : wf_vec (nbits tr) (nelems shp) r1)
    (Hr2 : wf_vec (nbits tr) (nelems shp) r2) :
  exists t out w',
    calcBShareBacktype (Z.min (nbits tl) (nbits tr)) = Ok t /\
    RssAnd2NoComm (share_b tl shp l0 l1 l2) (share_b tr shp r0 r1 r2) w = Ok (out, w') /\
    comm_log w' = comm_log w /\
    (forall rank idx, 0 <= rank < 3 -> (idx < nelems shp)%nat ->
       slot0 (view2 (elems (pget out rank)) idx) =
         Z.lxor (and_terms (mkParties l0 l1 l2) (mkParties r0 r1 r2) rank idx)
                (Z.lxor (and_mask w t rank idx) (and_mask w t (NextRank rank) idx))) /\
    reconstruct_b out =
      pforeach (nelems shp) (fun idx =>
        Z.land (Z.lxor (Z.lxor (view1 l0 idx) (view1 l1 idx)) (view1 l2 idx))
               (Z.lxor (Z.lxor (view1 r0 idx) (view1 r1 idx)) (view1 r2 idx))).
Proof.
  set (nb := Z.min (nbits tl) (nbits tr)).
  destruct (calcBShareBacktype_ok nb) as (t & Ht & Hle).
  { pose proof (bitsof_le_128 (getBacktype tl)). unfold wf_ty in *. subst nb. lia. }
  assert (Hnb : 0 <= nb) by (unfold wf_ty in *; subst nb; lia).
  pose proof (bitsof_nonneg t) as Hbt.
  (* every AND term fits the output type *)
  assert (Hand : forall a b idx,
            (wf_vec (nbits tl) (nelems shp) a) -> wf_vec (nbits tr) (nelems shp) b ->
            (idx < nelems shp)%nat ->
            0 <= Z.land (view1 a idx) (view1 b idx) < 2 ^ bitsof t).
  { intros a b idx Ha Hb Hi.
    pose proof (wf_vec_view _ _ _ _ Ha Hi) as Hva.
    pose proof (wf_vec_view _ _ _ _ Hb Hi) as Hvb.
    assert (0 <= Z.land (view1 a idx) (view1 b idx) < 2 ^ nb).
    { unfold nb. destruct (Z.min_spec (nbits tl) (nbits tr)) as [[_ ->]|[_ ->]].
      - apply land_range; [unfold wf_ty in *; lia|assumption].
      - rewrite Z.land_comm. apply land_range; [unfold wf_ty in *; lia|assumption]. }
    pose proof (pow2_mono nb (bitsof t)). lia. }
  assert (Hmask : forall s idx, 0 <= and_mask w t s idx < 2 ^ bitsof t).
  { intros. unfold and_mask. destruct (EQ_USE_PRG_STATE (flags w)); [apply wrap_range|].
    split; [lia|]. apply Z.pow_pos_nonneg; lia. }
  (* what each party computes *)
  set (L := mkParties l0 l1 l2). set (R := mkParties r0 r1 r2).
  assert (Hterms : forall rank idx, 0 <= rank < 3 -> (idx < nelems shp)%nat ->
            0 <= and_terms L R rank idx < 2 ^ bitsof t).
  { intros rank idx Hr Hi. unfold and_terms.
    destruct (rank_cases rank Hr) as [->|[->| ->]]; cbn [pget NextRank L R Z.eqb Pos.eqb];
      change ((0 + 1) mod 3) with 1; change ((1 + 1) mod 3) with 2;
      change ((2 + 1) mod 3) with 0; cbn;
      repeat apply lxor_range; try assumption; eapply Hand; eauto. }
  assert (Hmk0 : forall s s' idx, (idx < nelems shp)%nat ->
            view1 (fst (fill_unless (EQ_USE_PRG_STATE (flags w)) (nelems shp)
                     (prss_draw (tape w) (prss_counter w) s t (nelems shp),
                      prss_draw (tape w) (prss_counter w) s' t (nelems shp)))) idx
            = and_mask w t s idx).
  { intros s s' idx Hi. unfold and_mask, fill_unless; cbn [fst snd].
    destruct (EQ_USE_PRG_STATE (flags w)).
    - unfold prss_draw. now rewrite view1_pforeach.
    - apply view1_zeros. }
  assert (Hmk1 : forall s s' idx, (idx < nelems shp)%nat ->
            view1 (snd (fill_unless (EQ_USE_PRG_STATE (flags w)) (nelems shp)
                     (prss_draw (tape w) (prss_counter w) s t (nelems shp),
                      prss_draw (tape w) (prss_counter w) s' t (nelems shp)))) idx
            = and_mask w t s' idx).
  { intros s s' idx Hi. unfold and_mask, fill_unless; cbn [fst snd].
    destruct (EQ_USE_PRG_STATE (flags w)).
    - unfold prss_draw. now rewrite view1_pforeach.
    - apply view1_zeros. }
  assert (Hlen : length l0 = nelems shp /\ length l1 = nelems shp /\ length l2 = nelems shp /\
                 length r0 = nelems shp /\ length r1 = nelems shp /\ length r2 = nelems shp).
  { destruct Hl0, Hl1, Hl2, Hr0, Hr1, Hr2. repeat split; assumption. }
  assert (Hout : forall rank idx, 0 <= rank < 3 -> (idx < nelems shp)%nat ->
     wrap t (Z.lxor (Z.lxor (Z.lxor
        (Z.land (slot0 (view2 (elems (pget (share_b tl shp l0 l1 l2) rank)) idx))
                (slot0 (view2 (elems (pget (share_b tr shp r0 r1 r2) rank)) idx)))
        (Z.land (slot0 (view2 (elems (pget (share_b tl shp l0 l1 l2) rank)) idx))
                (slot1 (view2 (elems (pget (share_b tr shp r0 r1 r2) rank)) idx))))
        (Z.land (slot1 (view2 (elems (pget (share_b tl shp l0 l1 l2) rank)) idx))
                (slot0 (view2 (elems (pget (share_b tr shp r0 r1 r2) rank)) idx))))
        (Z.lxor (and_mask w t rank idx) (and_mask w t (NextRank rank) idx)))
     = Z.lxor (and_terms L R rank idx)
              (Z.lxor (and_mask w t rank idx) (and_mask w t (NextRank rank) idx))).
  { intros rank idx Hr Hi.
    pose proof (Hterms rank idx Hr Hi) as Hb.
    pose proof (Hmask rank idx) as Hm0. pose proof (Hmask (NextRank rank) idx) as Hm1.
    destruct Hlen as (? & ? & ? & ? & ? & ?).
    destruct (rank_cases rank Hr) as [->|[->| ->]];
      unfold share_b; cbn [pget Z.eqb Pos.eqb party0 party1 party2 elems];
      rewrite !view2_combine by lia; cbn [fst snd slot0 slot1];
      (rewrite wrap_small; [reflexivity|]);
      apply lxor_range; try assumption; try exact Hb; apply lxor_range; assumption. }
  eexists t, _, _. split; [exact Ht|]. split; [|split; [|split]].
  - unfold RssAnd2NoComm, bind, getFlags, fillPrssPair, each_party, lift, share_b.
    cbn [pget Z.eqb Pos.eqb party0 party1 party2 eltype shape elems rbind fst snd].
    fold nb. rewrite Ht. cbn [rbind]. reflexivity.
  - reflexivity.
  - intros rank idx Hr Hi. rewrite <- Hout by assumption.
    destruct (rank_cases rank Hr) as [->|[->| ->]];
      cbn [pget Z.eqb Pos.eqb party0 party1 party2 elems];
      unfold numel; cbn [shape share_b party0 party1 party2 pget Z.eqb Pos.eqb]; fold (nelems shp);
      rewrite view2_pforeach by assumption; cbn [slot0 fst];
      unfold prss_pair; rewrite Hmk0, Hmk1 by assumption; reflexivity.
  - unfold reconstruct_b. cbn [party0 party1 party2 elems].
    unfold numel; cbn [shape share_b party0 party1 party2 pget Z.eqb Pos.eqb]; fold (nelems shp).
    apply pforeach_ext. intros idx Hi.
    rewrite !view2_pforeach by assumption. cbn [slot0 fst].
    unfold prss_pair. rewrite !Hmk0, !Hmk1 by assumption.
    pose proof (Hout 0 idx ltac:(lia) Hi) as E0.
    pose proof (Hout 1 idx ltac:(lia) Hi) as E1.
    pose proof (Hout 2 idx ltac:(lia) Hi) as E2.
    cbn [pget Z.eqb Pos.eqb party0 party1 party2 elems share_b] in E0, E1, E2.
    rewrite E0, E1, E2. clear E0 E1 E2.
    change (NextRank 0) with 1. change (NextRank 1) with 2. change (NextRank 2) with 0.
    rewrite lxor_mask_cancel. unfold and_terms.
    change (NextRank 0) with 1. change (NextRank 1) with 2. change (NextRank 2) with 0.
    cbn [pget L R Z.eqb Pos.eqb party0 party1 party2].
    apply rss_and_identity.
Qed.

Lemma RssAnd2NoComm_reconstructs_and_witness :
  exists t out w',
    calcBShareBacktype (Z.min 8 8) = Ok t /\
    RssAnd2NoComm (share_b (mkBShrTy PT_U8 8) [1%nat] [3] [5] [9])
                  (share_b (mkBShrTy PT_U8 8) [1%nat] [6] [10] [1])
                  (world_seed0 shipped) = Ok (out, w') /\
    comm_log w' = comm_log (world_seed0 shipped) /\
    (forall rank idx, 0 <= rank < 3 -> (idx < nelems [1%nat])%nat ->
       slot0 (view2 (elems (pget out rank)) idx) =
         Z.lxor (and_terms (mkParties [3] [5] [9]) (mkParties [6] [10] [1]) rank idx)
                (Z.lxor (and_mask (world_seed0 shipped) t rank idx)
                        (and_mask (world_seed0 shipped) t (NextRank rank) idx))) /\
    reconstruct_b out =
      pforeach (nelems [1%nat]) (fun idx =>
        Z.land (Z.lxor (Z.lxor (view1 [3] idx) (view1 [5] idx)) (view1 [9] idx))
               (Z.lxor (Z.lxor (view1 [6] idx) (view1 [10] idx)) (view1 [1] idx))).
Proof.
  apply (RssAnd2NoComm_reconstructs_and (world_seed0 shipped)
           (mkBShrTy PT_U8 8) (mkBShrTy PT_U8 8) [1%nat] [3] [5] [9] [6] [10] [1]);
    try (unfold wf_ty; cbn; lia);
    (split; [reflexivity|repeat constructor; cbn; lia]).
Defined.

(** The claim as stated fails in the source as it is: with a PRSS stream
    that is 1 under the seed of party 0 and 0 under the seed of party 1,
    the formula with the PRG pair gives 1 for party 0 on all-zero inputs,
    and RssAnd2NoComm gives 0. *)
Lemma RssAnd2NoComm_shipped_has_no_mask :
  exists out w',
    RssAnd2NoComm (share_b (mkBShrTy PT_U8 1) [1%nat] [0] [0] [0])
                  (share_b (mkBShrTy PT_U8 1) [1%nat] [0] [0] [0])
                  (world_seed0 shipped) = Ok (out, w') /\
    slot0 (view2 (elems (party0 out)) 0) = 0 /\
    Z.lxor (and_terms (mkParties [0] [0] [0]) (mkParties [0] [0] [0]) 0 0)
           (Z.lxor (view1 (prss_draw tape_seed0 0 0 PT_U8 1) 0)
                   (view1 (prss_draw tape_seed0 0 (NextRank 0) PT_U8 1) 0)) = 1.
Proof.
  eexists. eexists. split; [vm_compute; reflexivity|]. split; reflexivity.
Qed.

(* ------------------------------------------------------------------ *)
(** ** C6: ResharingRss2Ass *)

(** C6 (amended).  ResharingRss2Ass is local: it leaves the PRG state and
    the communicator untouched.  For a well-formed B/RSS input every
    party (not party 0 alone) keeps its own first RSS half in slot 0 and
    writes 0 to slot 1, and the XOR of the three outputs is the shared
    secret. *)
Theorem ResharingRss2Ass_keeps_first_half
    (w : World) (ty : BShrTy) (shp : list nat) (b0 b1 b2 : list Z)
    (Hty : wf_ty ty)
    (H0 : wf_vec (nbits ty) (nelems shp) b0)
    (H1 : wf_vec (nbits ty) (nelems shp) b1)
    (H2 : wf_vec (nbits ty) (nelems shp) b2) :
  exists out,
    local1 ResharingRss2Ass (share_b ty shp b0 b1 b2) w = Ok (out, w) /\
    (forall rank idx, 0 <= rank < 3 -> (idx < nelems shp)%nat ->
       view2 (elems (pget out rank)) idx = (view1 (pget (mkParties b0 b1 b2) rank) idx, 0)) /\
    reconstruct_b out =
      pforeach (nelems shp) (fun idx =>
        Z.lxor (Z.lxor (view1 b0 idx) (view1 b1 idx)) (view1 b2 idx)).
Proof.
  destruct (calcBShareBacktype_ok (nbits ty)) as (t & Ht & Hle).
  { pose proof (bitsof_le_128 (getBacktype ty)). unfold wf_ty in Hty. lia. }
  assert (Hv : forall b c idx, wf_vec (nbits ty) (nelems shp) b -> wf_vec (nbits ty) (nelems shp) c ->
            (idx < nelems shp)%nat ->
            wrap t (slot0 (view2 (combine b c) idx)) = view1 b idx).
  { intros b c idx Hb Hc Hi. rewrite view2_combine by (destruct Hb, Hc; lia).
    simpl. apply wrap_small. pose proof (wf_vec_view _ _ _ _ Hb Hi).
    pose proof (pow2_mono (nbits ty) (bitsof t)). unfold wf_ty in Hty. lia. }
  eexists. split; [|split].
  - unfold local1, each_party, lift, share_b, ResharingRss2Ass; simpl. rewrite Ht. simpl. reflexivity.
  - intros rank idx Hr Hi.
    destruct (rank_cases rank Hr) as [->|[->| ->]]; simpl;
      unfold numel; simpl; fold (nelems shp);
      rewrite view2_pforeach by assumption; rewrite Hv by assumption; reflexivity.
  - unfold reconstruct_b; simpl. unfold numel; simpl. fold (nelems shp).
    apply pforeach_ext. intros idx Hi.
    rewrite !view2_pforeach by assumption. simpl. rewrite !Hv by assumption. reflexivity.
Qed.

Lemma ResharingRss2Ass_keeps_first_half_witness :
  exists out,
    local1 ResharingRss2Ass (share_b (mkBShrTy PT_U8 8) [1%nat] [1] [2] [4])
      (world0 shipped RecvFromNext FM64) = Ok (out, world0 shipped RecvFromNext FM64) /\
    (forall rank idx, 0 <= rank < 3 -> (idx < nelems [1%nat])%nat ->
       view2 (elems (pget out rank)) idx = (view1 (pget (mkParties [1] [2] [4]) rank) idx, 0)) /\
    reconstruct_b out =
      pforeach (nelems [1%nat]) (fun idx =>
        Z.lxor (Z.lxor (view1 [1] idx) (view1 [2] idx)) (view1 [4] idx)).
Proof.
  apply (ResharingRss2Ass_keeps_first_half (world0 shipped RecvFromNext FM64)
           (mkBShrTy PT_U8 8) [1%nat] [1] [2] [4]);
    try (unfold wf_ty; cbn; lia);
    (split; [reflexivity|repeat constructor; cbn; lia]).
Defined.

(** The claim as stated fails: on the sharing (1, 2, 4) of 7, parties 1
    and 2 output 2 and 4, not zero. *)
Lemma ResharingRss2Ass_others_not_zero :
  exists out,
    local1 ResharingRss2Ass (share_b (mkBShrTy PT_U8 8) [1%nat] [1] [2] [4])
      (world0 shipped RecvFromNext FM64) = Ok (out, world0 shipped RecvFromNext FM64) /\
    view2 (elems (party0 out)) 0 = (1, 0) /\
    view2 (elems (party1 out)) 0 = (2, 0) /\
    view2 (elems (party2 out)) 0 = (4, 0).
Proof.
  eexists. split; [vm_compute; reflexivity|]. repeat split; reflexivity.
Qed.

(* ------------------------------------------------------------------ *)
(** ** C7: bit_split and bit_split_mss *)

(** C7 (the code departs from the claim).  The claim: for every even,
    nonzero nbits the lo output holds the even-indexed bits and the hi
    output the odd-indexed bits.  bit_split_mss runs the swap passes
    k = 0 .. Log2Ceil(nbits) - 2, which sort the bits of a word whose
    width is a power of two, and then cuts at nbits / 2: for nbits = 6
    the odd bits b1 b3 b5 of the slots 0x2A and 0x3F come out as 6, not
    7, while the PEXT path of bit_split, which bit_split_mss carries as
    a comment, gives 7 on the same slot.  bit_split itself computes its
    mask as [out_el_t(1) << (nbits / 2)]: for nbits = 64 that shifts a
    32-bit operand by 32, which C++ leaves undefined. *)
Theorem bit_split_wrong_on_some_even_widths :
  (exists hi lo,
     bit_split_mss (mkArr (mkBShrTy PT_U8 6) [1%nat] [(0x2A, 0x15, 0x3F)]) = Ok (hi, lo) /\
     elems hi = [(6, 0, 6)] /\ elems lo = [(0, 7, 7)] /\
     odd_bits 3 0x2A = 7 /\ odd_bits 3 0x3F = 7) /\
  (exists hi lo,
     bit_split (mkArr (mkBShrTy PT_U8 6) [1%nat] [(0x2A, 0x3F)]) = Ok (hi, lo) /\
     elems hi = [(7, 7)] /\ elems lo = [(0, 7)]) /\
  bit_split (mkArr (mkBShrTy PT_U64 64) [1%nat] [(2, 0)]) = Err Undefined.
Proof.
  split; [|split].
  - eexists. eexists. split; [vm_compute; reflexivity|]. repeat split; reflexivity.
  - eexists. eexists. split; [vm_compute; reflexivity|]. repeat split; reflexivity.
  - vm_compute. reflexivity.
Qed.

(* ------------------------------------------------------------------ *)
(** ** C8: pack and unpack *)

(** C8 (the code departs from the claim).  The claim: unpack inverts pack
    for every pair of shares of equal nbits.  The three unpack functions
    compute their masks as [(1 << lo_nbits) - 1] with the literal 1 of
    type [int]: from lo_nbits = 31 on the shift or the subtraction
    overflows [int], which C++ leaves undefined.  Two shares of 32 bits
    pack into one of 64 bits, and unpack of that has no defined
    result. *)
Theorem unpack_undefined_from_31_bits :
  (exists p,
     pack_2_bitvec_rss (mkArr (mkBShrTy PT_U32 32) [1%nat] [(1, 2)])
                       (mkArr (mkBShrTy PT_U32 32) [1%nat] [(3, 4)]) = Ok p /\
     nbits (eltype p) = 64 /\
     unpack_2_bitvec_rss p = Err Undefined) /\
  (exists p,
     pack_2_bitvec_ass (mkArr (mkBShrTy PT_U32 32) [1%nat] [(1, 0)])
                       (mkArr (mkBShrTy PT_U32 32) [1%nat] [(3, 0)]) = Ok p /\
     nbits (eltype p) = 64 /\
     unpack_2_bitvec_ass p = Err Undefined) /\
  (exists p,
     pack_2_bitvec_mss (mkArr (mkBShrTy PT_U32 32) [1%nat] [(1, 2, 5)])
                       (mkArr (mkBShrTy PT_U32 32) [1%nat] [(3, 4, 6)]) = Ok p /\
     nbits (eltype p) = 64 /\
     unpack_2_bitvec_mss p = Err Undefined).
Proof.
  repeat split; (eexists; split; [vm_compute; reflexivity|]); split; reflexivity.
Qed.

(* ------------------------------------------------------------------ *)
(** ** C9: calcBShareBacktype *)

(** C9. For 0 <= nbits <= 128 [calcBShareBacktype] returns the smallest
    of the five unsigned back types whose width is at least nbits; above
    128 it throws. *)
Theorem calcBShareBacktype_smallest (n : Z) (Hn : 0 <= n) :
  (n <= 128 ->
     exists t, calcBShareBacktype n = Ok t /\ n <= bitsof t /\
               forall t', n <= bitsof t' -> bitsof t <= bitsof t') /\
  (128 < n -> calcBShareBacktype n = Err Thrown).
Proof.
  unfold calcBShareBacktype. split; intro H.
  - destruct (n <=? 8) eqn:E8; [exists PT_U8|
    destruct (n <=? 16) eqn:E16; [exists PT_U16|
    destruct (n <=? 32) eqn:E32; [exists PT_U32|
    destruct (n <=? 64) eqn:E64; [exists PT_U64|
    destruct (n <=? 128) eqn:E128; [exists PT_U128|]]]]];
    try (split; [reflexivity|]; split; [cbv [bitsof SizeOf]; lia|];
         intros t'; destruct t'; cbv [bitsof SizeOf]; lia).
    lia.
  - repeat match goal with |- context [?a <=? ?b] =>
        let E := fresh in destruct (a <=? b) eqn:E; [lia|] end.
    reflexivity.
Qed.

Lemma calcBShareBacktype_smallest_witness :
  (exists t, calcBShareBacktype 9 = Ok t /\ 9 <= bitsof t /\
             forall t', 9 <= bitsof t' -> bitsof t <= bitsof t').
Proof.
  exact (proj1 (calcBShareBacktype_smallest 9 ltac:(lia)) ltac:(lia)).
Defined.


(* ================================================================== *)
(** * Further properties *)

(* ------------------------------------------------------------------ *)
(** ** pack and unpack on halves of at most 30 bits *)

(** X1.  For halves of 1 to 30 bits whose slots fit their nbits, unpack
    inverts pack in each of the three variants: the pair returned is
    (hi, lo), slot for slot (slot 0 for ASS, which has no other). *)
Theorem pack_unpack_roundtrip_to_30_bits
    (tl th : PtType) (n : Z) (shp : list nat)
    (lo hi : list (Z * Z)) (lo3 hi3 : list (Z * Z * Z))
    (Hn : 1 <= n <= 30)
    (Hlo : wf_pairs n (nelems shp) lo) (Hhi : wf_pairs n (nelems shp) hi)
    (Hlo3 : wf_triples n (nelems shp) lo3) (Hhi3 : wf_triples n (nelems shp) hi3) :
  (exists p h l,
     pack_2_bitvec_rss (mkArr (mkBShrTy tl n) shp lo) (mkArr (mkBShrTy th n) shp hi) = Ok p /\
     nbits (eltype p) = 2 * n /\
     unpack_2_bitvec_rss p = Ok (h, l) /\
     nbits (eltype h) = n /\ nbits (eltype l) = n /\
     shape h = shp /\ shape l = shp /\
     elems h = hi /\ elems l = lo) /\
  (exists p h l,
     pack_2_bitvec_ass (mkArr (mkBShrTy tl n) shp lo) (mkArr (mkBShrTy th n) shp hi) = Ok p /\
     nbits (eltype p) = 2 * n /\
     unpack_2_bitvec_ass p = Ok (h, l) /\
     nbits (eltype h) = n /\ nbits (eltype l) = n /\
     shape h = shp /\ shape l = shp /\
     map slot0 (elems h) = map slot0 hi /\ map slot0 (elems l) = map slot0 lo) /\
  (exists p h l,
     pack_2_bitvec_mss (mkArr (mkBShrTy tl n) shp lo3) (mkArr (mkBShrTy th n) shp hi3) = Ok p /\
     nbits (eltype p) = 2 * n /\
     unpack_2_bitvec_mss p = Ok (h, l) /\
     nbits (eltype h) = n /\ nbits (eltype l) = n /\
     shape h = shp /\ shape l = shp /\
     elems h = hi3 /\ elems l = lo3).
Proof.
  split; [|split].
  - apply pack_unpack_rss_roundtrip; assumption.
  - apply pack_unpack_ass_roundtrip; assumption.
  - apply pack_unpack_mss_roundtrip; assumption.
Qed.

Lemma pack_unpack_roundtrip_to_30_bits_witness :
  exists p h l,
    pack_2_bitvec_rss (mkArr (mkBShrTy PT_U8 4) [2%nat] [(1, 2); (15, 0)])
                      (mkArr (mkBShrTy PT_U8 4) [2%nat] [(3, 4); (9, 9)]) = Ok p /\
    nbits (eltype p) = 2 * 4 /\
    unpack_2_bitvec_rss p = Ok (h, l) /\
    nbits (eltype h) = 4 /\ nbits (eltype l) = 4 /\
    shape h = [2%nat] /\ shape l = [2%nat] /\
    elems h = [(3, 4); (9, 9)] /\ elems l = [(1, 2); (15, 0)].
Proof.
  refine (proj1 (pack_unpack_roundtrip_to_30_bits PT_U8 PT_U8 4 [2%nat]
                   [(1, 2); (15, 0)] [(3, 4); (9, 9)]
                   [(1, 2, 3); (4, 5, 6)] [(7, 8, 9); (10, 11, 12)] _ _ _ _ _));
    try lia; (split; [reflexivity|repeat constructor; cbn; lia]).
Defined.

(* ------------------------------------------------------------------ *)
(** ** bit_split and bit_split_mss where they are right *)

(** X2.  For every even nbits from 2 to 62, whatever the back type and
    the slots, bit_split returns (hi, lo) of nbits / 2 bits each, lo
    holding the even-indexed and hi the odd-indexed bits of the input,
    slot by slot. *)
Theorem bit_split_even_odd
    (t : PtType) (h : nat) (shp : list nat) (e : list (Z * Z))
    (Hh : (1 <= h <= 31)%nat) :
  exists hi lo,
    bit_split (mkArr (mkBShrTy t (2 * Z.of_nat h)) shp e) = Ok (hi, lo) /\
    nbits (eltype hi) = Z.of_nat h /\ nbits (eltype lo) = Z.of_nat h /\
    shape hi = shp /\ shape lo = shp /\
    elems lo = pforeach (nelems shp) (fun idx =>
                 (even_bits h (slot0 (view2 e idx)), even_bits h (slot1 (view2 e idx)))) /\
    elems hi = pforeach (nelems shp) (fun idx =>
                 (odd_bits h (slot0 (view2 e idx)), odd_bits h (slot1 (view2 e idx)))).
Proof.
  destruct (calc_small (Z.of_nat h)) as (to & Eto & Hto & Hsz & Eshl); [lia|].
  destruct (even_twice_checks (Z.of_nat h)) as (Ea & Ed); [lia|].
  assert (EM : exists M,
             match nelems shp with
             | O => Ok 0
             | S _ => p <~ shl1 to (Z.of_nat h) ;; Ok (wrap to (p - 1))
             end = Ok M /\
             ((0 < nelems shp)%nat -> M = 2 ^ Z.of_nat h - 1)).
  { destruct (nelems shp) as [|k].
    - exists 0. split; [reflexivity|lia].
    - rewrite Eshl. cbn [rbind]. eexists. split; [reflexivity|]. intros _.
      apply wrap_small. pose proof (pow2_mono (Z.of_nat h) (bitsof to)).
      assert (0 < 2 ^ Z.of_nat h) by (apply Z.pow_pos_nonneg; lia). lia. }
  destruct EM as (M & EM & HM).
  unfold bit_split, numel. cbn [eltype nbits shape elems getBacktype].
  rewrite Ea. cbn [enforce rbind]. rewrite Ed, Eto. cbn [rbind]. rewrite Hsz.
  change (fold_right Nat.mul 1%nat shp) with (nelems shp).
  rewrite EM. cbn [rbind].
  eexists. eexists. split; [reflexivity|].
  cbn [eltype nbits shape elems]. repeat split.
  - apply pforeach_ext. intros idx Hi. rewrite HM by lia.
    unfold even_bits. f_equal; apply pext_slot; try (left; reflexivity); try lia;
      vm_compute; reflexivity.
  - apply pforeach_ext. intros idx Hi. rewrite HM by lia.
    unfold odd_bits. f_equal; apply pext_slot; try (right; reflexivity); try lia;
      vm_compute; reflexivity.
Qed.

Lemma bit_split_even_odd_witness :
  exists hi lo,
    bit_split (mkArr (mkBShrTy PT_U8 (2 * Z.of_nat 3)) [1%nat] [(0x2A, 0x3F)]) = Ok (hi, lo) /\
    nbits (eltype hi) = Z.of_nat 3 /\ nbits (eltype lo) = Z.of_nat 3 /\
    shape hi = [1%nat] /\ shape lo = [1%nat] /\
    elems lo = pforeach (nelems [1%nat]) (fun idx =>
                 (even_bits 3 (slot0 (view2 [(0x2A, 0x3F)] idx)),
                  even_bits 3 (slot1 (view2 [(0x2A, 0x3F)] idx)))) /\
    elems hi = pforeach (nelems [1%nat]) (fun idx =>
                 (odd_bits 3 (slot0 (view2 [(0x2A, 0x3F)] idx)),
                  odd_bits 3 (slot1 (view2 [(0x2A, 0x3F)] idx)))).
Proof.
  apply (bit_split_even_odd PT_U8 3 [1%nat] [(0x2A, 0x3F)]). lia.
Defined.

(** X3.  bit_split and bit_split_mss fail their SPU_ENFORCE on an input
    whose nbits is zero or odd. *)
Theorem bit_split_rejects_odd_or_zero (inp : BArr) (inm : MArr)
    (Hb : nbits (eltype inp) = 0 \/ nbits (eltype inp) mod 2 = 1)
    (Hm : nbits (eltype inm) = 0 \/ nbits (eltype inm) mod 2 = 1) :
  bit_split inp = Err EnforceFailed /\ bit_split_mss inm = Err EnforceFailed.
Proof.
  assert (E : forall n, n = 0 \/ n mod 2 = 1 -> (negb (n =? 0) && (n mod 2 =? 0)) = false).
  { intros n [-> | H]; [reflexivity|]. rewrite H. apply andb_false_r. }
  unfold bit_split, bit_split_mss. rewrite !E by assumption. split; reflexivity.
Qed.

Lemma bit_split_rejects_odd_or_zero_witness :
  bit_split (mkArr (mkBShrTy PT_U8 3) [1%nat] [(1, 2)]) = Err EnforceFailed /\
  bit_split_mss (mkArr (mkBShrTy PT_U8 0) [1%nat] [(1, 2, 3)]) = Err EnforceFailed.
Proof.
  apply bit_split_rejects_odd_or_zero; [right|left]; reflexivity.
Defined.

(** X4.  On a width that is a power of two, 2 to 128 bits, held in a back
    type at least that wide, bit_split_mss returns (hi, lo) with lo
    holding the even-indexed and hi the odd-indexed bits of the input,
    slot by slot. *)
Theorem bit_split_mss_power_of_two
    (t : PtType) (K : nat) (shp : list nat) (e : list (Z * Z * Z))
    (HK : (K <= 6)%nat) (Ht : 2 ^ Z.of_nat (S K) <= bitsof t) :
  exists hi lo,
    bit_split_mss (mkArr (mkBShrTy t (2 ^ Z.of_nat (S K))) shp e) = Ok (hi, lo) /\
    nbits (eltype hi) = 2 ^ Z.of_nat K /\ nbits (eltype lo) = 2 ^ Z.of_nat K /\
    shape hi = shp /\ shape lo = shp /\
    elems lo = pforeach (nelems shp) (fun idx =>
                 (even_bits (2 ^ K) (mslot0 (view3 e idx)),
                  even_bits (2 ^ K) (mslot1 (view3 e idx)),
                  even_bits (2 ^ K) (mslot2 (view3 e idx)))) /\
    elems hi = pforeach (nelems shp) (fun idx =>
                 (odd_bits (2 ^ K) (mslot0 (view3 e idx)),
                  odd_bits (2 ^ K) (mslot1 (view3 e idx)),
                  odd_bits (2 ^ K) (mslot2 (view3 e idx)))).
Proof.
  assert (Hh : 0 < 2 ^ Z.of_nat K) by (apply Z.pow_pos_nonneg; lia).
  assert (E2 : 2 ^ Z.of_nat (S K) = 2 * 2 ^ Z.of_nat K)
    by (rewrite Nat2Z.inj_succ, Z.pow_succ_r by lia; reflexivity).
  assert (H64 : 2 ^ Z.of_nat K <= 64).
  { change 64 with (2 ^ 6). apply Z.pow_le_mono_r; lia. }
  destruct (calcBShareBacktype_ok (2 ^ Z.of_nat K)) as (to & Eto & Hto); [lia|].
  destruct (even_twice_checks (2 ^ Z.of_nat K)) as (Ea & Ed); [lia|].
  assert (EM : exists M,
             match nelems shp with
             | O => Ok 0
             | S _ => p <~ shl1 t (2 ^ Z.of_nat K) ;; Ok (wrap t (p - 1))
             end = Ok M /\
             ((0 < nelems shp)%nat -> M = 2 ^ (2 ^ Z.of_nat K) - 1)).
  { destruct (nelems shp) as [|k].
    - exists 0. split; [reflexivity|lia].
    - rewrite shl1_half by lia. cbn [rbind]. eexists. split; [reflexivity|]. intros _.
      apply wrap_small. pose proof (pow2_mono (2 ^ Z.of_nat K) (bitsof t)).
      assert (0 < 2 ^ (2 ^ Z.of_nat K)) by (apply Z.pow_pos_nonneg; lia). lia. }
  destruct EM as (M & EM & HM).
  unfold bit_split_mss, numel. cbn [eltype nbits shape elems getBacktype].
  rewrite E2, Ea. cbn [enforce rbind]. rewrite Ed, Eto. cbn [rbind].
  change (fold_right Nat.mul 1%nat shp) with (nelems shp).
  rewrite EM. cbn [rbind].
  eexists. eexists. split; [reflexivity|].
  cbn [eltype nbits shape elems]. repeat split.
  - apply pforeach_ext. intros idx Hi. rewrite HM by lia. rewrite <- E2.
    repeat f_equal; apply (mss_slots t to K); assumption.
  - apply pforeach_ext. intros idx Hi. rewrite HM by lia. rewrite <- E2.
    repeat f_equal; apply (mss_slots t to K); assumption.
Qed.

Lemma bit_split_mss_power_of_two_witness :
  exists hi lo,
    bit_split_mss (mkArr (mkBShrTy PT_U8 (2 ^ Z.of_nat 3)) [1%nat] [(0xA5, 1, 0xFF)])
      = Ok (hi, lo) /\
    nbits (eltype hi) = 2 ^ Z.of_nat 2 /\ nbits (eltype lo) = 2 ^ Z.of_nat 2 /\
    shape hi = [1%nat] /\ shape lo = [1%nat] /\
    elems lo = pforeach (nelems [1%nat]) (fun idx =>
                 (even_bits (2 ^ 2) (mslot0 (view3 [(0xA5, 1, 0xFF)] idx)),
                  even_bits (2 ^ 2) (mslot1 (view3 [(0xA5, 1, 0xFF)] idx)),
                  even_bits (2 ^ 2) (mslot2 (view3 [(0xA5, 1, 0xFF)] idx)))) /\
    elems hi = pforeach (nelems [1%nat]) (fun idx =>
                 (odd_bits (2 ^ 2) (mslot0 (view3 [(0xA5, 1, 0xFF)] idx)),
                  odd_bits (2 ^ 2) (mslot1 (view3 [(0xA5, 1, 0xFF)] idx)),
                  odd_bits (2 ^ 2) (mslot2 (view3 [(0xA5, 1, 0xFF)] idx)))).
Proof.
  apply (bit_split_mss_power_of_two PT_U8 2 [1%nat] [(0xA5, 1, 0xFF)]);
    [lia|vm_compute; discriminate].
Defined.

(* ------------------------------------------------------------------ *)
(** ** The roles of eqz *)


(* ------------------------------------------------------------------ *)
(** ** The 64-bit scenarios *)


(* ------------------------------------------------------------------ *)
(** ** MsbA2B on the 64-bit ring *)



(* ------------------------------------------------------------------ *)
(** ** A2B on the 64-bit ring *)



(* ------------------------------------------------------------------ *)
(** ** The XOR gates *)



(** X10.  MssXor2 gives the output the smaller of the two widths and its
    back type, and XORs the external values and the masks slot by slot:
    the B/MSS sharing it returns reconstructs to the XOR of the two
    secrets, cut to that back type. *)
Theorem MssXor2_reconstructs_xor
    (w : World) (tl tr : BShrTy) (shp : list nat) (a b : Masked)
    (Hn : 0 <= Z.min (nbits tl) (nbits tr) <= 128)
    (Ha : sized (nelems shp) a) (Hb : sized (nelems shp) b) :
  exists t c,
    calcBShareBacktype (Z.min (nbits tl) (nbits tr)) = Ok t /\
    local2 MssXor2 (share_masked tl shp a) (share_masked tr shp b) w
      = Ok (share_masked (mkBShrTy t (Z.min (nbits tl) (nbits tr))) shp c, w) /\
    sized (nelems shp) c /\
    reconstruct_m (share_masked (mkBShrTy t (Z.min (nbits tl) (nbits tr))) shp c)
      = pforeach (nelems shp)
          (fun idx => wrap t (Z.lxor (secret_of a idx) (secret_of b idx))).
Proof.
  destruct (calcBShareBacktype_ok _ Hn) as (t & Ec & _).
  destruct Ha as (LD & L0 & L1 & L2). destruct Hb as (LE & M0 & M1 & M2).
  set (n := nelems shp) in *.
  exists t, (mkMasked (xor_in t n (ext a) (ext b)) (xor_in t n (mask0 a) (mask0 b))
                      (xor_in t n (mask1 a) (mask1 b)) (xor_in t n (mask2 a) (mask2 b))).
  assert (Hs : sized n (mkMasked (xor_in t n (ext a) (ext b))
                          (xor_in t n (mask0 a) (mask0 b))
                          (xor_in t n (mask1 a) (mask1 b))
                          (xor_in t n (mask2 a) (mask2 b))))
    by (repeat split; apply xor_in_length).
  split; [exact Ec|]. split; [|split; [exact Hs|]].
  - apply local2_ok; cbn [share_masked share_m party0 party1 party2 ext mask0 mask1 mask2];
      apply MssXor2_triple; assumption.
  - rewrite reconstruct_m_masked by exact Hs.
    apply pforeach_ext. intros idx Hi.
    unfold secret_of, mss_secret, xor3v, xor3. cbn [ext mask0 mask1 mask2].
    rewrite !view1_xor_in by exact Hi.
    rewrite <- !wrap_lxor. f_equal. xor_bits.
Qed.

Lemma MssXor2_reconstructs_xor_witness :
  exists t c,
    calcBShareBacktype (Z.min 16 8) = Ok t /\
    local2 MssXor2
      (share_masked (mkBShrTy PT_U16 16) [2%nat]
         (mkMasked [0x1234; 7] [0x0101; 1] [0x0022; 2] [0x0300; 4]))
      (share_masked (mkBShrTy PT_U8 8) [2%nat] (mkMasked [0x5A; 9] [3; 8] [5; 16] [9; 32]))
      (world0 shipped RecvFromNext FM64)
      = Ok (share_masked (mkBShrTy t (Z.min 16 8)) [2%nat] c,
            world0 shipped RecvFromNext FM64) /\
    sized (nelems [2%nat]) c /\
    reconstruct_m (share_masked (mkBShrTy t (Z.min 16 8)) [2%nat] c)
      = pforeach (nelems [2%nat])
          (fun idx =>
             wrap t (Z.lxor
                       (secret_of (mkMasked [0x1234; 7] [0x0101; 1] [0x0022; 2] [0x0300; 4]) idx)
                       (secret_of (mkMasked [0x5A; 9] [3; 8] [5; 16] [9; 32]) idx))).
Proof.
  apply (MssXor2_reconstructs_xor (world0 shipped RecvFromNext FM64)
           (mkBShrTy PT_U16 16) (mkBShrTy PT_U8 8) [2%nat]
           (mkMasked [0x1234; 7] [0x0101; 1] [0x0022; 2] [0x0300; 4])
           (mkMasked [0x5A; 9] [3; 8] [5; 16] [9; 32]));
    [cbn; lia|repeat split|repeat split].
Defined.

(* ------------------------------------------------------------------ *)
(** ** Resharing *)

(** X11.  ResharingMss2Rss is local: every party XORs the external value
    into its two masks.  What it returns is a replicated sharing (the
    second slot of a party is the first slot of the next one) that
    reconstructs to the secret of the input, cut to the back type of its
    width. *)
Theorem ResharingMss2Rss_keeps_secret
    (w : World) (ty : BShrTy) (shp : list nat) (a : Masked)
    (Hn : 0 <= nbits ty <= 128) (Ha : sized (nelems shp) a) :
  exists t b0 b1 b2,
    calcBShareBacktype (nbits ty) = Ok t /\
    local1 ResharingMss2Rss (share_masked ty shp a) w
      = Ok (share_b (mkBShrTy t (nbits ty)) shp b0 b1 b2, w) /\
    reconstruct_b (share_b (mkBShrTy t (nbits ty)) shp b0 b1 b2)
      = pforeach (nelems shp) (fun idx => wrap t (secret_of a idx)).
Proof.
  destruct (Mss2Rss_masked w ty shp a Hn Ha)
    as (t & b0 & b1 & b2 & Ec & E & L0 & L1 & L2 & V).
  exists t, b0, b1, b2. split; [exact Ec|]. split; [exact E|].
  apply reconstruct_b_values; assumption.
Qed.

Lemma ResharingMss2Rss_keeps_secret_witness :
  exists t b0 b1 b2,
    calcBShareBacktype 12 = Ok t /\
    local1 ResharingMss2Rss
      (share_masked (mkBShrTy PT_U16 12) [2%nat]
         (mkMasked [0x0ABC; 7] [0x0101; 1] [0x0022; 2] [0x0300; 4]))
      (world0 shipped RecvFromNext FM64)
      = Ok (share_b (mkBShrTy t 12) [2%nat] b0 b1 b2, world0 shipped RecvFromNext FM64) /\
    reconstruct_b (share_b (mkBShrTy t 12) [2%nat] b0 b1 b2)
      = pforeach (nelems [2%nat])
          (fun idx =>
             wrap t (secret_of (mkMasked [0x0ABC; 7] [0x0101; 1] [0x0022; 2] [0x0300; 4]) idx)).
Proof.
  apply (ResharingMss2Rss_keeps_secret (world0 shipped RecvFromNext FM64)
           (mkBShrTy PT_U16 12) [2%nat]
           (mkMasked [0x0ABC; 7] [0x0101; 1] [0x0022; 2] [0x0300; 4]));
    [cbn; lia|repeat split].
Defined.

(** X12.  Where rotate delivers the buffer of the next party,
    ResharingRss2Mss makes one rotateR call and returns a B/MSS sharing:
    all three parties hold the same external value, the masks are the
    PRSS draws, and the sharing reconstructs to the secret of the input
    cut to the back type.  The masks are drawn only in a build with both
    switches; in any other build they are zero and the external value,
    which every party holds, is the secret itself. *)
Theorem ResharingRss2Mss_keeps_secret
    (w : World) (ty : BShrTy) (shp : list nat) (x0 x1 x2 : list Z)
    (Ho : orientation w = RecvFromNext)
    (Hn : 0 <= nbits ty <= 128)
    (H0 : length x0 = nelems shp) (H1 : length x1 = nelems shp)
    (H2 : length x2 = nelems shp) :
  exists t D,
    calcBShareBacktype (nbits ty) = Ok t /\
    let keep := EQ_USE_OFFLINE (flags w) && EQ_USE_PRG_STATE (flags w) in
    let m := prss_masks keep w t (nelems shp) in
    ResharingRss2Mss (share_b ty shp x0 x1 x2) w
      = Ok (share_m (mkBShrTy t (nbits ty)) shp D (m 0) (m 1) (m 2),
            after_prss w [CallRotateR "Resharing RSS to MSS, online"]) /\
    reconstruct_m (share_m (mkBShrTy t (nbits ty)) shp D (m 0) (m 1) (m 2))
      = pforeach (nelems shp) (fun idx => wrap t (xor3v x0 x1 x2 idx)) /\
    (keep = false -> D = pforeach (nelems shp) (fun idx => wrap t (xor3v x0 x1 x2 idx))).
Proof.
  destruct (ResharingRss2Mss_spec w ty shp x0 x1 x2 Ho Hn H0 H1 H2) as (t & Ec & E).
  cbv zeta in E. exists t. eexists. split; [exact Ec|]. cbv zeta.
  split; [exact E|]. split.
  - rewrite reconstruct_m_share
      by (try apply prss_masks_length; apply pforeach_length).
    apply pforeach_ext. intros idx Hi.
    apply (mss_secret_masked _ w t (nelems shp) (xor3v x0 x1 x2) idx Hi).
  - intros Hk. rewrite Hk. apply pforeach_ext. intros idx Hi.
    rewrite masks_vanish by exact Hi. rewrite Z.lxor_0_r. reflexivity.
Qed.

Lemma ResharingRss2Mss_keeps_secret_witness :
  exists t D,
    calcBShareBacktype 8 = Ok t /\
    let keep := EQ_USE_OFFLINE (flags (world_seed0 (mkFlags true true)))
                && EQ_USE_PRG_STATE (flags (world_seed0 (mkFlags true true))) in
    let m := prss_masks keep (world_seed0 (mkFlags true true)) t (nelems [2%nat]) in
    ResharingRss2Mss (share_b (mkBShrTy PT_U8 8) [2%nat] [1; 2] [4; 8] [16; 32])
      (world_seed0 (mkFlags true true))
      = Ok (share_m (mkBShrTy t 8) [2%nat] D (m 0) (m 1) (m 2),
            after_prss (world_seed0 (mkFlags true true))
              [CallRotateR "Resharing RSS to MSS, online"]) /\
    reconstruct_m (share_m (mkBShrTy t 8) [2%nat] D (m 0) (m 1) (m 2))
      = pforeach (nelems [2%nat]) (fun idx => wrap t (xor3v [1; 2] [4; 8] [16; 32] idx)) /\
    (keep = false ->
     D = pforeach (nelems [2%nat]) (fun idx => wrap t (xor3v [1; 2] [4; 8] [16; 32] idx))).
Proof.
  apply (ResharingRss2Mss_keeps_secret (world_seed0 (mkFlags true true))
           (mkBShrTy PT_U8 8) [2%nat] [1; 2] [4; 8] [16; 32]);
    try reflexivity; cbn; lia.
Defined.

(** X13.  Where rotate delivers the buffer of the next party,
    ResharingAss2Rss makes one rotate call and turns the three summands
    of an additive Boolean sharing (first slots; the second slots are
    not read) into a replicated sharing of the same secret, cut to the
    back type: party i holds a_i xor m_i xor m_{i+1} and the same of
    party i+1.  The masks m are the PRSS draws in a build with
    EQ_USE_PRG_STATE and zero without it. *)
Theorem ResharingAss2Rss_makes_replicated
    (w : World) (ty : BShrTy) (shp : list nat) (a0 a1 a2 j0 j1 j2 : list Z)
    (Ho : orientation w = RecvFromNext)
    (Hn : 0 <= nbits ty <= 128)
    (H0 : length a0 = nelems shp) (H1 : length a1 = nelems shp)
    (H2 : length a2 = nelems shp)
    (J0 : length j0 = nelems shp) (J1 : length j1 = nelems shp)
    (J2 : length j2 = nelems shp) :
  exists t,
    calcBShareBacktype (nbits ty) = Ok t /\
    let m := prss_masks (EQ_USE_PRG_STATE (flags w)) w t (nelems shp) in
    let o a s s' :=
      pforeach (nelems shp) (fun idx =>
        wrap t (Z.lxor (Z.lxor (view1 a idx) (view1 (m s) idx)) (view1 (m s') idx))) in
    ResharingAss2Rss (share_s ty shp a0 a1 a2 j0 j1 j2) w
      = Ok (share_b (mkBShrTy t (nbits ty)) shp (o a0 0 1) (o a1 1 2) (o a2 2 0),
            after_prss w [CallRotate "Resharing ASS to RSS, online"]) /\
    reconstruct_b (share_b (mkBShrTy t (nbits ty)) shp (o a0 0 1) (o a1 1 2) (o a2 2 0))
      = pforeach (nelems shp) (fun idx => wrap t (xor3v a0 a1 a2 idx)).
Proof.
  destruct (ResharingAss2Rss_spec w ty shp a0 a1 a2 j0 j1 j2 Ho Hn H0 H1 H2 J0 J1 J2)
    as (t & Ec & E).
  cbv zeta in E. exists t. split; [exact Ec|]. cbv zeta. split; [exact E|].
  apply reconstruct_b_values; try apply pforeach_length.
  intros idx Hi. unfold xor3v, xor3. rewrite !view1_pforeach by exact Hi.
  rewrite <- !wrap_lxor. f_equal. xor_bits.
Qed.

Lemma ResharingAss2Rss_makes_replicated_witness :
  exists t,
    calcBShareBacktype 8 = Ok t /\
    let m := prss_masks (EQ_USE_PRG_STATE (flags (world_seed0 (mkFlags false true))))
               (world_seed0 (mkFlags false true)) t (nelems [2%nat]) in
    let o a s s' :=
      pforeach (nelems [2%nat]) (fun idx =>
        wrap t (Z.lxor (Z.lxor (view1 a idx) (view1 (m s) idx)) (view1 (m s') idx))) in
    ResharingAss2Rss
      (share_s (mkBShrTy PT_U8 8) [2%nat] [1; 2] [4; 8] [16; 32] [0; 0] [7; 7] [9; 9])
      (world_seed0 (mkFlags false true))
      = Ok (share_b (mkBShrTy t 8) [2%nat] (o [1; 2] 0 1) (o [4; 8] 1 2) (o [16; 32] 2 0),
            after_prss (world_seed0 (mkFlags false true))
              [CallRotate "Resharing ASS to RSS, online"]) /\
    reconstruct_b (share_b (mkBShrTy t 8) [2%nat]
                     (o [1; 2] 0 1) (o [4; 8] 1 2) (o [16; 32] 2 0))
      = pforeach (nelems [2%nat]) (fun idx => wrap t (xor3v [1; 2] [4; 8] [16; 32] idx)).
Proof.
  apply (ResharingAss2Rss_makes_replicated (world_seed0 (mkFlags false true))
           (mkBShrTy PT_U8 8) [2%nat] [1; 2] [4; 8] [16; 32] [0; 0] [7; 7] [9; 9]);
    try reflexivity; cbn; lia.
Defined.

(** X14.  Where rotate delivers the buffer of the next party,
    ResharingAss2Mss makes one rotateR and one rotate call and returns a
    B/MSS sharing of the secret of the additive input, cut to the back
    type: the same external value at all three parties and the PRSS
    draws as masks.  In a build without both switches the masks are zero
    and the external value is the secret itself. *)
Theorem ResharingAss2Mss_keeps_secret
    (w : World) (ty : BShrTy) (shp : list nat) (a0 a1 a2 j0 j1 j2 : list Z)
    (Ho : orientation w = RecvFromNext)
    (Hn : 0 <= nbits ty <= 128)
    (H0 : length a0 = nelems shp) (H1 : length a1 = nelems shp)
    (H2 : length a2 = nelems shp)
    (J0 : length j0 = nelems shp) (J1 : length j1 = nelems shp)
    (J2 : length j2 = nelems shp) :
  exists t D,
    calcBShareBacktype (nbits ty) = Ok t /\
    let keep := EQ_USE_OFFLINE (flags w) && EQ_USE_PRG_STATE (flags w) in
    let m := prss_masks keep w t (nelems shp) in
    ResharingAss2Mss (share_s ty shp a0 a1 a2 j0 j1 j2) w
      = Ok (share_m (mkBShrTy t (nbits ty)) shp D (m 0) (m 1) (m 2),
            after_prss w [CallRotateR "Resharing ASS to MSS, online, message 1";
                          CallRotate "Resharing ASS to MSS, online, message 2"]) /\
    reconstruct_m (share_m (mkBShrTy t (nbits ty)) shp D (m 0) (m 1) (m 2))
      = pforeach (nelems shp) (fun idx => wrap t (xor3v a0 a1 a2 idx)) /\
    (keep = false -> D = pforeach (nelems shp) (fun idx => wrap t (xor3v a0 a1 a2 idx))).
Proof.
  destruct (ResharingAss2Mss_spec w ty shp a0 a1 a2 j0 j1 j2 Ho Hn H0 H1 H2 J0 J1 J2)
    as (t & Ec & E).
  cbv zeta in E. exists t. eexists. split; [exact Ec|]. cbv zeta.
  split; [exact E|]. split.
  - rewrite reconstruct_m_share
      by (try apply prss_masks_length; apply pforeach_length).
    apply pforeach_ext. intros idx Hi.
    apply (mss_secret_masked _ w t (nelems shp) (xor3v a0 a1 a2) idx Hi).
  - intros Hk. rewrite Hk. apply pforeach_ext. intros idx Hi.
    rewrite masks_vanish by exact Hi. rewrite Z.lxor_0_r. reflexivity.
Qed.

Lemma ResharingAss2Mss_keeps_secret_witness :
  exists t D,
    calcBShareBacktype 8 = Ok t /\
    let keep := EQ_USE_OFFLINE (flags (world_seed0 (mkFlags true true)))
                && EQ_USE_PRG_STATE (flags (world_seed0 (mkFlags true true))) in
    let m := prss_masks keep (world_seed0 (mkFlags true true)) t (nelems [2%nat]) in
    ResharingAss2Mss
      (share_s (mkBShrTy PT_U8 8) [2%nat] [1; 2] [4; 8] [16; 32] [0; 0] [7; 7] [9; 9])
      (world_seed0 (mkFlags true true))
      = Ok (share_m (mkBShrTy t 8) [2%nat] D (m 0) (m 1) (m 2),
            after_prss (world_seed0 (mkFlags true true))
              [CallRotateR "Resharing ASS to MSS, online, message 1";
               CallRotate "Resharing ASS to MSS, online, message 2"]) /\
    reconstruct_m (share_m (mkBShrTy t 8) [2%nat] D (m 0) (m 1) (m 2))
      = pforeach (nelems [2%nat]) (fun idx => wrap t (xor3v [1; 2] [4; 8] [16; 32] idx)) /\
    (keep = false ->
     D = pforeach (nelems [2%nat]) (fun idx => wrap t (xor3v [1; 2] [4; 8] [16; 32] idx))).
Proof.
  apply (ResharingAss2Mss_keeps_secret (world_seed0 (mkFlags true true))
           (mkBShrTy PT_U8 8) [2%nat] [1; 2] [4; 8] [16; 32] [0; 0] [7; 7] [9; 9]);
    try reflexivity; cbn; lia.
Defined.

(** X15.  Resharing into MSS and back is a round trip on the secret:
    where rotate delivers the buffer of the next party, ResharingRss2Mss
    followed by ResharingMss2Rss returns a replicated sharing that
    reconstructs to the secret of the input cut to the back type, at the
    price of one rotateR call. *)
Theorem Rss2Mss_Mss2Rss_round_trip
    (w : World) (ty : BShrTy) (shp : list nat) (x0 x1 x2 : list Z)
    (Ho : orientation w = RecvFromNext)
    (Hn : 0 <= nbits ty <= 128)
    (H0 : length x0 = nelems shp) (H1 : length x1 = nelems shp)
    (H2 : length x2 = nelems shp) :
  exists t b0 b1 b2,
    calcBShareBacktype (nbits ty) = Ok t /\
    (m <- ResharingRss2Mss (share_b ty shp x0 x1 x2) ;; local1 ResharingMss2Rss m) w
      = Ok (share_b (mkBShrTy t (nbits ty)) shp b0 b1 b2,
            after_prss w [CallRotateR "Resharing RSS to MSS, online"]) /\
    reconstruct_b (share_b (mkBShrTy t (nbits ty)) shp b0 b1 b2)
      = pforeach (nelems shp) (fun idx => wrap t (xor3v x0 x1 x2 idx)).
Proof.
  destruct (Rss2Mss2Rss_spec w ty shp x0 x1 x2 Ho Hn H0 H1 H2)
    as (t & b0 & b1 & b2 & Ec & E & L0 & L1 & L2 & V).
  exists t, b0, b1, b2. split; [exact Ec|]. split; [exact E|].
  apply reconstruct_b_values; assumption.
Qed.

Lemma Rss2Mss_Mss2Rss_round_trip_witness :
  exists t b0 b1 b2,
    calcBShareBacktype 8 = Ok t /\
    (m <- ResharingRss2Mss (share_b (mkBShrTy PT_U8 8) [2%nat] [1; 2] [4; 8] [16; 32]) ;;
     local1 ResharingMss2Rss m) (world_seed0 (mkFlags true true))
      = Ok (share_b (mkBShrTy t 8) [2%nat] b0 b1 b2,
            after_prss (world_seed0 (mkFlags true true))
              [CallRotateR "Resharing RSS to MSS, online"]) /\
    reconstruct_b (share_b (mkBShrTy t 8) [2%nat] b0 b1 b2)
      = pforeach (nelems [2%nat]) (fun idx => wrap t (xor3v [1; 2] [4; 8] [16; 32] idx)).
Proof.
  apply (Rss2Mss_Mss2Rss_round_trip (world_seed0 (mkFlags true true))
           (mkBShrTy PT_U8 8) [2%nat] [1; 2] [4; 8] [16; 32]);
    try reflexivity; cbn; lia.
Defined.

(* ------------------------------------------------------------------ *)
(** ** The AND gates on masked sharings *)

(** X16.  MssAnd2NoComm on two B/MSS sharings returns a replicated
    sharing and makes no online call.  In a build with EQ_USE_OFFLINE,
    where rotate delivers the buffer of the next party, the product of
    the masks is shared by one offline rotate and the output
    reconstructs to the AND of the two secrets, cut to the back type of
    the smaller width.  In a build without the switch nothing is sent
    and the output reconstructs to the AND of the secrets xor the AND of
    the two masks: it is the AND where one of the masks is zero. *)
Theorem MssAnd2NoComm_reconstructs
    (w : World) (tl tr : BShrTy) (shp : list nat) (a b : Masked)
    (Ho : EQ_USE_OFFLINE (flags w) = true -> orientation w = RecvFromNext)
    (Hn : 0 <= Z.min (nbits tl) (nbits tr) <= 128)
    (Ha : sized (nelems shp) a) (Hb : sized (nelems shp) b) :
  exists t z0 z1 z2,
    calcBShareBacktype (Z.min (nbits tl) (nbits tr)) = Ok t /\
    MssAnd2NoComm (share_masked tl shp a) (share_masked tr shp b) w
      = Ok (share_b (mkBShrTy t (Z.min (nbits tl) (nbits tr))) shp z0 z1 z2,
            after_prss w (if EQ_USE_OFFLINE (flags w)
                          then [CallRotate "MssAndBB, offline"] else [])) /\
    reconstruct_b (share_b (mkBShrTy t (Z.min (nbits tl) (nbits tr))) shp z0 z1 z2)
      = pforeach (nelems shp) (fun idx =>
          wrap t (Z.lxor (Z.land (secret_of a idx) (secret_of b idx))
                         (if EQ_USE_OFFLINE (flags w) then 0
                          else Z.land (xor3v (mask0 a) (mask1 a) (mask2 a) idx)
                                      (xor3v (mask0 b) (mask1 b) (mask2 b) idx)))).
Proof.
  destruct (MssAnd2NoComm_masked w tl tr shp a b Ho Hn Ha Hb)
    as (t & z0 & z1 & z2 & Ec & E & L0 & L1 & L2 & V).
  exists t, z0, z1, z2. split; [exact Ec|]. split; [exact E|].
  apply reconstruct_b_values; try assumption.
Qed.

Lemma MssAnd2NoComm_reconstructs_witness :
  exists t z0 z1 z2,
    calcBShareBacktype (Z.min 8 8) = Ok t /\
    MssAnd2NoComm
      (share_masked (mkBShrTy PT_U8 8) [2%nat] (mkMasked [0xBC; 7] [1; 1] [0x22; 2] [0x30; 4]))
      (share_masked (mkBShrTy PT_U8 8) [2%nat] (mkMasked [0x5A; 9] [3; 8] [5; 16] [9; 32]))
      (world_seed0 (mkFlags true true))
      = Ok (share_b (mkBShrTy t (Z.min 8 8)) [2%nat] z0 z1 z2,
            after_prss (world_seed0 (mkFlags true true))
              (if EQ_USE_OFFLINE (flags (world_seed0 (mkFlags true true)))
               then [CallRotate "MssAndBB, offline"] else [])) /\
    reconstruct_b (share_b (mkBShrTy t (Z.min 8 8)) [2%nat] z0 z1 z2)
      = pforeach (nelems [2%nat]) (fun idx =>
          wrap t (Z.lxor
                    (Z.land (secret_of (mkMasked [0xBC; 7] [1; 1] [0x22; 2] [0x30; 4]) idx)
                            (secret_of (mkMasked [0x5A; 9] [3; 8] [5; 16] [9; 32]) idx))
                    (if EQ_USE_OFFLINE (flags (world_seed0 (mkFlags true true))) then 0
                     else Z.land
                            (xor3v (mask0 (mkMasked [0xBC; 7] [1; 1] [0x22; 2] [0x30; 4]))
                                   (mask1 (mkMasked [0xBC; 7] [1; 1] [0x22; 2] [0x30; 4]))
                                   (mask2 (mkMasked [0xBC; 7] [1; 1] [0x22; 2] [0x30; 4])) idx)
                            (xor3v (mask0 (mkMasked [0x5A; 9] [3; 8] [5; 16] [9; 32]))
                                   (mask1 (mkMasked [0x5A; 9] [3; 8] [5; 16] [9; 32]))
                                   (mask2 (mkMasked [0x5A; 9] [3; 8] [5; 16] [9; 32])) idx)))).
Proof.
  apply (MssAnd2NoComm_reconstructs (world_seed0 (mkFlags true true))
           (mkBShrTy PT_U8 8) (mkBShrTy PT_U8 8) [2%nat]
           (mkMasked [0xBC; 7] [1; 1] [0x22; 2] [0x30; 4])
           (mkMasked [0x5A; 9] [3; 8] [5; 16] [9; 32]));
    [reflexivity|cbn; lia|repeat split|repeat split].
Defined.

(** X17.  Two replicated sharings reshared by ResharingRss2Mss and
    multiplied by MssAnd2NoComm give, in every build, a replicated
    sharing of the AND of the two secrets, cut to the back type of the
    smaller width: the resharing draws masks exactly in the builds in
    which the AND gate shares their product.  The cost is two rotateR
    calls, and one rotate in a build with EQ_USE_OFFLINE. *)
Theorem reshared_and_reconstructs_and
    (w : World) (tx ty : BShrTy) (shp : list nat) (x0 x1 x2 y0 y1 y2 : list Z)
    (Ho : orientation w = RecvFromNext)
    (Hx : 0 <= nbits tx <= 128) (Hy : 0 <= nbits ty <= 128)
    (H0 : length x0 = nelems shp) (H1 : length x1 = nelems shp)
    (H2 : length x2 = nelems shp)
    (K0 : length y0 = nelems shp) (K1 : length y1 = nelems shp)
    (K2 : length y2 = nelems shp) :
  exists t z0 z1 z2 w',
    calcBShareBacktype (Z.min (nbits tx) (nbits ty)) = Ok t /\
    (mx <- ResharingRss2Mss (share_b tx shp x0 x1 x2) ;;
     my <- ResharingRss2Mss (share_b ty shp y0 y1 y2) ;;
     MssAnd2NoComm mx my) w
      = Ok (share_b (mkBShrTy t (Z.min (nbits tx) (nbits ty))) shp z0 z1 z2, w') /\
    comm_log w' =
      (comm_log w ++
       [CallRotateR "Resharing RSS to MSS, online"; CallRotateR "Resharing RSS to MSS, online"]
       ++ (if EQ_USE_OFFLINE (flags w) then [CallRotate "MssAndBB, offline"] else []))%list /\
    reconstruct_b (share_b (mkBShrTy t (Z.min (nbits tx) (nbits ty))) shp z0 z1 z2)
      = pforeach (nelems shp) (fun idx =>
          wrap t (Z.land (xor3v x0 x1 x2 idx) (xor3v y0 y1 y2 idx))).
Proof.
  destruct (Rss2Mss_MssAnd2_spec w tx ty shp x0 x1 x2 y0 y1 y2 Ho Hx Hy H0 H1 H2 K0 K1 K2)
    as (t & z0 & z1 & z2 & w' & Ec & E & L0 & L1 & L2 & Hlog & V).
  exists t, z0, z1, z2, w'. split; [exact Ec|]. split; [exact E|]. split; [exact Hlog|].
  apply reconstruct_b_values; assumption.
Qed.

Lemma reshared_and_reconstructs_and_witness :
  exists t z0 z1 z2 w',
    calcBShareBacktype (Z.min 16 8) = Ok t /\
    (mx <- ResharingRss2Mss (share_b (mkBShrTy PT_U16 16) [2%nat] [0x101; 2] [4; 8] [16; 32]) ;;
     my <- ResharingRss2Mss (share_b (mkBShrTy PT_U8 8) [2%nat] [3; 5] [6; 10] [17; 33]) ;;
     MssAnd2NoComm mx my) (world_seed0 (mkFlags false true))
      = Ok (share_b (mkBShrTy t (Z.min 16 8)) [2%nat] z0 z1 z2, w') /\
    comm_log w' =
      (comm_log (world_seed0 (mkFlags false true)) ++
       [CallRotateR "Resharing RSS to MSS, online"; CallRotateR "Resharing RSS to MSS, online"]
       ++ (if EQ_USE_OFFLINE (flags (world_seed0 (mkFlags false true)))
           then [CallRotate "MssAndBB, offline"] else []))%list /\
    reconstruct_b (share_b (mkBShrTy t (Z.min 16 8)) [2%nat] z0 z1 z2)
      = pforeach (nelems [2%nat]) (fun idx =>
          wrap t (Z.land (xor3v [0x101; 2] [4; 8] [16; 32] idx)
                         (xor3v [3; 5] [6; 10] [17; 33] idx))).
Proof.
  apply (reshared_and_reconstructs_and (world_seed0 (mkFlags false true))
           (mkBShrTy PT_U16 16) (mkBShrTy PT_U8 8) [2%nat]
           [0x101; 2] [4; 8] [16; 32] [3; 5] [6; 10] [17; 33]);
    try reflexivity; cbn; lia.
Defined.

(** X18.  MssAnd4NoComm composes two MssAnd2NoComm and one
    RssAnd2NoComm.  In a build without EQ_USE_OFFLINE it makes no
    communicator call.  In a build with EQ_USE_OFFLINE its two inner
    gates rotate once each, offline, and what follows is stated where
    rotate delivers the buffer of the next party.  MssAnd4NoComm
    returns an additive sharing whose first slots reconstruct to the
    AND of what the two inner gates reconstruct to, cut to the back
    type of the smallest of the four widths; in a build with
    EQ_USE_OFFLINE that is the AND of the four secrets.  There is no
    online call. *)
Theorem MssAnd4NoComm_composes
    (w : World) (t1 t2 t3 t4 : BShrTy) (shp : list nat) (a b c d : Masked)
    (Ho : EQ_USE_OFFLINE (flags w) = true -> orientation w = RecvFromNext)
    (H12 : 0 <= Z.min (nbits t1) (nbits t2) <= 128)
    (H34 : 0 <= Z.min (nbits t3) (nbits t4) <= 128)
    (Ha : sized (nelems shp) a) (Hb : sized (nelems shp) b)
    (Hc : sized (nelems shp) c) (Hd : sized (nelems shp) d) :
  exists t out w',
    calcBShareBacktype (Z.min (Z.min (nbits t1) (nbits t2)) (Z.min (nbits t3) (nbits t4)))
      = Ok t /\
    MssAnd4NoComm (share_masked t1 shp a) (share_masked t2 shp b)
                  (share_masked t3 shp c) (share_masked t4 shp d) w = Ok (out, w') /\
    comm_log w' =
      (comm_log w ++
       (if EQ_USE_OFFLINE (flags w)
        then [CallRotate "MssAndBB, offline"; CallRotate "MssAndBB, offline"] else []))%list /\
    reconstruct_b out
      = pforeach (nelems shp) (fun idx =>
          wrap t (Z.land (and_of (EQ_USE_OFFLINE (flags w)) a b idx)
                         (and_of (EQ_USE_OFFLINE (flags w)) c d idx))) /\
    (EQ_USE_OFFLINE (flags w) = true ->
     reconstruct_b out
       = pforeach (nelems shp) (fun idx =>
           wrap t (Z.land (Z.land (secret_of a idx) (secret_of b idx))
                          (Z.land (secret_of c idx) (secret_of d idx))))).
Proof.
  destruct (MssAnd4NoComm_spec w t1 t2 t3 t4 shp a b c d Ho H12 H34 Ha Hb Hc Hd)
    as (t & out & w' & Ec & E & Hlog & V).
  exists t, out, w'. split; [exact Ec|]. split; [exact E|]. split; [exact Hlog|].
  split; [exact V|].
  intros Hoff. rewrite V, Hoff. apply pforeach_ext. intros idx Hi.
  unfold and_of, mss_and_value, secret_of. rewrite !Z.lxor_0_r. reflexivity.
Qed.

Lemma MssAnd4NoComm_composes_witness :
  exists t out w',
    calcBShareBacktype (Z.min (Z.min 8 8) (Z.min 8 8)) = Ok t /\
    MssAnd4NoComm
      (share_masked (mkBShrTy PT_U8 8) [1%nat] (mkMasked [0xBC] [1] [0x22] [0x30]))
      (share_masked (mkBShrTy PT_U8 8) [1%nat] (mkMasked [0x5A] [3] [5] [9]))
      (share_masked (mkBShrTy PT_U8 8) [1%nat] (mkMasked [0xFF] [6] [1] [8]))
      (share_masked (mkBShrTy PT_U8 8) [1%nat] (mkMasked [0x0F] [2] [4] [16]))
      (world_seed0 (mkFlags true true)) = Ok (out, w') /\
    comm_log w' =
      (comm_log (world_seed0 (mkFlags true true)) ++
       (if EQ_USE_OFFLINE (flags (world_seed0 (mkFlags true true)))
        then [CallRotate "MssAndBB, offline"; CallRotate "MssAndBB, offline"] else []))%list /\
    reconstruct_b out
      = pforeach (nelems [1%nat]) (fun idx =>
          wrap t (Z.land (and_of (EQ_USE_OFFLINE (flags (world_seed0 (mkFlags true true))))
                            (mkMasked [0xBC] [1] [0x22] [0x30]) (mkMasked [0x5A] [3] [5] [9]) idx)
                         (and_of (EQ_USE_OFFLINE (flags (world_seed0 (mkFlags true true))))
                            (mkMasked [0xFF] [6] [1] [8]) (mkMasked [0x0F] [2] [4] [16]) idx))) /\
    (EQ_USE_OFFLINE (flags (world_seed0 (mkFlags true true))) = true ->
     reconstruct_b out
       = pforeach (nelems [1%nat]) (fun idx =>
           wrap t (Z.land (Z.land (secret_of (mkMasked [0xBC] [1] [0x22] [0x30]) idx)
                                  (secret_of (mkMasked [0x5A] [3] [5] [9]) idx))
                          (Z.land (secret_of (mkMasked [0xFF] [6] [1] [8]) idx)
                                  (secret_of (mkMasked [0x0F] [2] [4] [16]) idx))))).
Proof.
  apply (MssAnd4NoComm_composes (world_seed0 (mkFlags true true))
           (mkBShrTy PT_U8 8) (mkBShrTy PT_U8 8) (mkBShrTy PT_U8 8) (mkBShrTy PT_U8 8)
           [1%nat] (mkMasked [0xBC] [1] [0x22] [0x30]) (mkMasked [0x5A] [3] [5] [9])
           (mkMasked [0xFF] [6] [1] [8]) (mkMasked [0x0F] [2] [4] [16]));
    [reflexivity|cbn; lia|cbn; lia|repeat split|repeat split|repeat split|repeat split].
Defined.

(** X19.  MssAnd3NoComm composes MssAnd2NoComm on the first two
    operands, ResharingMss2Rss on the third and RssAnd2NoComm.  In a
    build without EQ_USE_OFFLINE it makes no communicator call.  In a
    build with EQ_USE_OFFLINE its inner gate rotates once, offline, and
    what follows is stated where rotate delivers the buffer of the next
    party.  MssAnd3NoComm returns an additive sharing whose first slots
    reconstruct to the AND of what the inner gate reconstructs to and
    the third secret, cut to the back type of the smallest width; in a
    build with EQ_USE_OFFLINE that is the AND of the three secrets. *)
Theorem MssAnd3NoComm_composes
    (w : World) (t1 t2 t3 : BShrTy) (shp : list nat) (a b c : Masked)
    (Ho : EQ_USE_OFFLINE (flags w) = true -> orientation w = RecvFromNext)
    (H12 : 0 <= Z.min (nbits t1) (nbits t2) <= 128)
    (H3 : 0 <= nbits t3 <= 128)
    (Ha : sized (nelems shp) a) (Hb : sized (nelems shp) b)
    (Hc : sized (nelems shp) c) :
  exists t out w',
    calcBShareBacktype (Z.min (Z.min (nbits t1) (nbits t2)) (nbits t3)) = Ok t /\
    MssAnd3NoComm (share_masked t1 shp a) (share_masked t2 shp b)
                  (share_masked t3 shp c) w = Ok (out, w') /\
    comm_log w' =
      (comm_log w ++
       (if EQ_USE_OFFLINE (flags w) then [CallRotate "MssAndBB, offline"] else []))%list /\
    reconstruct_b out
      = pforeach (nelems shp) (fun idx =>
          wrap t (Z.land (and_of (EQ_USE_OFFLINE (flags w)) a b idx) (secret_of c idx))) /\
    (EQ_USE_OFFLINE (flags w) = true ->
     reconstruct_b out
       = pforeach (nelems shp) (fun idx =>
           wrap t (Z.land (Z.land (secret_of a idx) (secret_of b idx)) (secret_of c idx)))).
Proof.
  destruct (MssAnd3NoComm_spec w t1 t2 t3 shp a b c Ho H12 H3 Ha Hb Hc)
    as (t & out & w' & Ec & E & Hlog & V).
  exists t, out, w'. split; [exact Ec|]. split; [exact E|]. split; [exact Hlog|].
  split; [exact V|].
  intros Hoff. rewrite V, Hoff. apply pforeach_ext. intros idx Hi.
  unfold and_of, mss_and_value, secret_of. rewrite !Z.lxor_0_r. reflexivity.
Qed.

Lemma MssAnd3NoComm_composes_witness :
  exists t out w',
    calcBShareBacktype (Z.min (Z.min 8 8) 8) = Ok t /\
    MssAnd3NoComm
      (share_masked (mkBShrTy PT_U8 8) [1%nat] (mkMasked [0xBC] [1] [0x22] [0x30]))
      (share_masked (mkBShrTy PT_U8 8) [1%nat] (mkMasked [0x5A] [3] [5] [9]))
      (share_masked (mkBShrTy PT_U8 8) [1%nat] (mkMasked [0xFF] [6] [1] [8]))
      (world_seed0 (mkFlags true true)) = Ok (out, w') /\
    comm_log w' =
      (comm_log (world_seed0 (mkFlags true true)) ++
       (if EQ_USE_OFFLINE (flags (world_seed0 (mkFlags true true)))
        then [CallRotate "MssAndBB, offline"] else []))%list /\
    reconstruct_b out
      = pforeach (nelems [1%nat]) (fun idx =>
          wrap t (Z.land (and_of (EQ_USE_OFFLINE (flags (world_seed0 (mkFlags true true))))
                            (mkMasked [0xBC] [1] [0x22] [0x30]) (mkMasked [0x5A] [3] [5] [9]) idx)
                         (secret_of (mkMasked [0xFF] [6] [1] [8]) idx))) /\
    (EQ_USE_OFFLINE (flags (world_seed0 (mkFlags true true))) = true ->
     reconstruct_b out
       = pforeach (nelems [1%nat]) (fun idx =>
           wrap t (Z.land (Z.land (secret_of (mkMasked [0xBC] [1] [0x22] [0x30]) idx)
                                  (secret_of (mkMasked [0x5A] [3] [5] [9]) idx))
                          (secret_of (mkMasked [0xFF] [6] [1] [8]) idx)))).
Proof.
  apply (MssAnd3NoComm_composes (world_seed0 (mkFlags true true))
           (mkBShrTy PT_U8 8) (mkBShrTy PT_U8 8) (mkBShrTy PT_U8 8)
           [1%nat] (mkMasked [0xBC] [1] [0x22] [0x30]) (mkMasked [0x5A] [3] [5] [9])
           (mkMasked [0xFF] [6] [1] [8]));
    [reflexivity|cbn; lia|cbn; lia|repeat split|repeat split|repeat split].
Defined.

(* ------------------------------------------------------------------ *)
(** ** B2A by oblivious transfer *)

(** X20.  For an input of 1 to SizeOf(field) * 8 bits, when the public
    draw is below 2^64 - 2, B2AByOT returns an A/RSS sharing (the second
    slot of a party is the first slot of the next one) whose three
    summands add up, in the ring of the field, to the low nbits bits of
    the Boolean secret.  It draws once from the public stream and three
    times from the PRSS streams and sends four messages: mc from the
    helper to the receiver, m0 and m1 from the sender to the receiver,
    c2 from the receiver to the helper. *)
Theorem B2AByOT_reconstructs
    (w : World) (ty : BShrTy) (shp : list nat) (b0 b1 b2 : list Z)
    (Hn : 0 < nbits ty <= SizeOfField (default_field w) * 8)
    (Hp : publ_tape (tape w) (publ_counter w) mod 2 ^ 64 < 2 ^ 64 - 2)
    (H0 : length b0 = nelems shp) (H1 : length b1 = nelems shp)
    (H2 : length b2 = nelems shp) :
  exists a0 a1 a2 w',
    B2AByOT (share_b ty shp b0 b1 b2) w = Ok (share_a (default_field w) shp a0 a1 a2, w') /\
    reconstruct_a (share_a (default_field w) shp a0 a1 a2)
      = pforeach (nelems shp) (fun idx => xor3v b0 b1 b2 idx mod 2 ^ nbits ty) /\
    prss_counter w' = (3 + prss_counter w)%nat /\
    publ_counter w' = S (publ_counter w) /\
    let '(P0, P1, P2) := roles (publ_tape (tape w) (publ_counter w) mod 2 ^ 64) in
    comm_log w' =
      (comm_log w ++
       [CallSendAsync P0 P1 "mc"; CallRecv P1 P0 "mc";
        CallSendAsync P2 P1 "m0"; CallRecv P1 P2 "m0";
        CallSendAsync P2 P1 "m1"; CallRecv P1 P2 "m1";
        CallSendAsync P1 P0 "c2"; CallRecv P0 P1 "c2"])%list.
Proof.
  assert (Hp' : 0 <= publ_tape (tape w) (publ_counter w) mod 2 ^ 64 < 2 ^ 64 - 2).
  { split; [|exact Hp]. apply Z.mod_pos_bound. lia. }
  destruct (B2AByOT_spec w ty shp b0 b1 b2 Hn Hp' H0 H1 H2)
    as (a0 & a1 & a2 & w' & E & L0 & L1 & L2 & V & Hc & Hu & Hlog).
  exists a0, a1, a2, w'. split; [exact E|].
  split; [|split; [exact Hc|split; [exact Hu|exact Hlog]]].
  rewrite reconstruct_a_share by assumption. apply pforeach_ext. exact V.
Qed.

Lemma B2AByOT_reconstructs_witness :
  exists a0 a1 a2 w',
    B2AByOT (share_b (mkBShrTy PT_U8 5) [2%nat] [1; 2] [4; 8] [16; 0x3F])
      (mkWorld shipped RecvFromNext FM32
         (mkTape (fun c s _ j => 7 * Z.of_nat c + s + Z.of_nat j) (fun _ => 4)
                 (fun _ _ _ _ => 0)) 0 0 0 [])
      = Ok (share_a
              (default_field
                 (mkWorld shipped RecvFromNext FM32
                    (mkTape (fun c s _ j => 7 * Z.of_nat c + s + Z.of_nat j) (fun _ => 4)
                            (fun _ _ _ _ => 0)) 0 0 0 []))
              [2%nat] a0 a1 a2, w') /\
    reconstruct_a
      (share_a
         (default_field
            (mkWorld shipped RecvFromNext FM32
               (mkTape (fun c s _ j => 7 * Z.of_nat c + s + Z.of_nat j) (fun _ => 4)
                       (fun _ _ _ _ => 0)) 0 0 0 []))
         [2%nat] a0 a1 a2)
      = pforeach (nelems [2%nat])
          (fun idx => xor3v [1; 2] [4; 8] [16; 0x3F] idx mod 2 ^ 5) /\
    prss_counter w' = 3%nat /\
    publ_counter w' = 1%nat /\
    let '(P0, P1, P2) := roles (4 mod 2 ^ 64) in
    comm_log w' =
      ([] ++
       [CallSendAsync P0 P1 "mc"; CallRecv P1 P0 "mc";
        CallSendAsync P2 P1 "m0"; CallRecv P1 P2 "m0";
        CallSendAsync P2 P1 "m1"; CallRecv P1 P2 "m1";
        CallSendAsync P1 P0 "c2"; CallRecv P0 P1 "c2"])%list.
Proof.
  apply (B2AByOT_reconstructs
           (mkWorld shipped RecvFromNext FM32
              (mkTape (fun c s _ j => 7 * Z.of_nat c + s + Z.of_nat j) (fun _ => 4)
                      (fun _ _ _ _ => 0)) 0 0 0 [])
           (mkBShrTy PT_U8 5) [2%nat] [1; 2] [4; 8] [16; 0x3F]);
    try reflexivity; cbn; lia.
Defined.

(** X21.  When the public draw is 2^64 - 2 or 2^64 - 1, the roles
    (pivot + 1) % 3 and (pivot + 2) % 3 are computed from a wrapped
    size_t and two of them fall on one party: on every input of 1 to
    SizeOf(field) * 8 bits B2AByOT then reaches its SPU_THROW at the
    party that has no role. *)
Theorem B2AByOT_throws_at_top_pivots
    (w : World) (ty : BShrTy) (shp : list nat) (b0 b1 b2 : list Z)
    (Hn : 0 < nbits ty <= SizeOfField (default_field w) * 8)
    (Hp : 2 ^ 64 - 2 <= publ_tape (tape w) (publ_counter w) mod 2 ^ 64) :
  B2AByOT (share_b ty shp b0 b1 b2) w = Err Thrown.
Proof. exact (B2AByOT_collision w ty shp b0 b1 b2 Hn Hp). Qed.

Lemma B2AByOT_throws_at_top_pivots_witness :
  B2AByOT (share_b (mkBShrTy PT_U8 5) [2%nat] [1; 2] [4; 8] [16; 0x1F])
    (mkWorld shipped RecvFromNext FM32
       (mkTape (fun _ _ _ _ => 0) (fun _ => 2 ^ 64 - 2) (fun _ _ _ _ => 0)) 0 0 0 [])
    = Err Thrown.
Proof.
  apply (B2AByOT_throws_at_top_pivots
           (mkWorld shipped RecvFromNext FM32
              (mkTape (fun _ _ _ _ => 0) (fun _ => 2 ^ 64 - 2) (fun _ _ _ _ => 0)) 0 0 0 [])
           (mkBShrTy PT_U8 5) [2%nat] [1; 2] [4; 8] [16; 0x1F]);
    cbn; lia.
Defined.

Section B2AWide.

Variable add_bb : Parties BArr -> Parties BArr -> Proto (Parties BArr).

(** X22.  An input wider than the ring of the field is refused: when
    nbits exceeds SizeOf(field) * 8, B2AByOT and B2AByPPA fail on their
    SPU_ENFORCE before they touch the PRG state or the communicator. *)
Theorem B2A_rejects_wide_input (w : World) (inp : Parties BArr)
    (Hn : SizeOfField (default_field w) * 8 < nbits (eltype (party0 inp))) :
  B2AByOT inp w = Err EnforceFailed /\ B2AByPPA add_bb inp w = Err EnforceFailed.
Proof.
  assert (G : (nbits (eltype (party0 inp)) <=? SizeOfField (default_field w) * 8) = false)
    by (apply Z.leb_gt; exact Hn).
  split.
  - unfold B2AByOT, bind, getDefaultField, each_party, lift.
    cbn [pget Z.eqb Pos.eqb]. rewrite G. reflexivity.
  - unfold B2AByPPA, bind, getDefaultField, each_party, lift.
    cbn [pget Z.eqb Pos.eqb]. rewrite G. reflexivity.
Qed.

End B2AWide.

Lemma B2A_rejects_wide_input_witness :
  B2AByOT (share_b (mkBShrTy PT_U64 33) [1%nat] [1] [2] [4]) (world0 shipped RecvFromNext FM32)
    = Err EnforceFailed /\
  B2AByPPA (fun x _ => ret x) (share_b (mkBShrTy PT_U64 33) [1%nat] [1] [2] [4])
    (world0 shipped RecvFromNext FM32) = Err EnforceFailed.
Proof.
  apply (B2A_rejects_wide_input (fun x _ => ret x) (world0 shipped RecvFromNext FM32)
           (share_b (mkBShrTy PT_U64 33) [1%nat] [1] [2] [4])).
  cbn. lia.
Defined.

(* ------------------------------------------------------------------ *)
(** ** B2A by the parallel prefix adder *)

(** X23.  Given a Boolean adder that returns a replicated sharing of the
    sum of two secrets, and a communicator whose rotate delivers the
    buffer of the next party, B2AByPPA returns, for an input of 1 to
    SizeOf(field) * 8 bits, an A/RSS sharing whose three summands add
    up, in the ring of the field, to the Boolean secret reduced to the
    ring: party 0 holds x + r opened from the adder's output, parties 1
    and 2 hold the negated halves of r. *)
Theorem B2AByPPA_reconstructs
    (add_bb : Parties BArr -> Parties BArr -> Proto (Parties BArr))
    (w : World) (ty : BShrTy) (shp : list nat) (b0 b1 b2 : list Z)
    (Hadd : adds_shared add_bb)
    (Ho : orientation w = RecvFromNext)
    (Hn : 0 < nbits ty <= SizeOfField (default_field w) * 8)
    (H0 : length b0 = nelems shp) (H1 : length b1 = nelems shp)
    (H2 : length b2 = nelems shp) :
  exists a0 a1 a2 w',
    B2AByPPA add_bb (share_b ty shp b0 b1 b2) w
      = Ok (share_a (default_field w) shp a0 a1 a2, w') /\
    reconstruct_a (share_a (default_field w) shp a0 a1 a2)
      = pforeach (nelems shp)
          (fun idx => wrap (GetStorageType (default_field w)) (xor3v b0 b1 b2 idx)).
Proof.
  destruct (B2AByPPA_spec add_bb Hadd w ty shp b0 b1 b2 Ho Hn H0 H1 H2)
    as (a0 & a1 & a2 & w' & E & L0 & L1 & L2 & V).
  exists a0, a1, a2, w'. split; [exact E|].
  rewrite reconstruct_a_share by assumption. apply pforeach_ext. exact V.
Qed.

Lemma B2AByPPA_reconstructs_witness :
  exists a0 a1 a2 w',
    B2AByPPA plain_add_bb (share_b (mkBShrTy PT_U16 12) [2%nat] [1; 2] [4; 8] [0x810; 0xFFF])
      (world_seed0 shipped)
      = Ok (share_a (default_field (world_seed0 shipped)) [2%nat] a0 a1 a2, w') /\
    reconstruct_a (share_a (default_field (world_seed0 shipped)) [2%nat] a0 a1 a2)
      = pforeach (nelems [2%nat])
          (fun idx => wrap (GetStorageType (default_field (world_seed0 shipped)))
                        (xor3v [1; 2] [4; 8] [0x810; 0xFFF] idx)).
Proof.
  apply (B2AByPPA_reconstructs plain_add_bb (world_seed0 shipped)
           (mkBShrTy PT_U16 12) [2%nat] [1; 2] [4; 8] [0x810; 0xFFF]);
    [exact plain_add_bb_adds|reflexivity|cbn; lia|reflexivity|reflexivity|reflexivity].
Defined.

(* ------------------------------------------------------------------ *)
(** ** B2ASelector *)

(** X24.  B2ASelector converts: given a Boolean adder that returns a
    replicated sharing of the sum of two secrets, a communicator whose
    rotate delivers the buffer of the next party and a public draw
    below 2^64 - 2, B2ASelector returns, for every B/RSS sharing of 0 to
    SizeOf(field) * 8 bits whose shares fit in nbits bits, an A/RSS
    sharing that reconstructs to the Boolean secret, through the
    oblivious transfer up to 8 bits and through the adder above. *)
Theorem B2ASelector_reconstructs
    (add_bb : Parties BArr -> Parties BArr -> Proto (Parties BArr))
    (w : World) (ty : BShrTy) (shp : list nat) (b0 b1 b2 : list Z)
    (Hadd : adds_shared add_bb)
    (Ho : orientation w = RecvFromNext)
    (Hn : 0 <= nbits ty <= SizeOfField (default_field w) * 8)
    (Hp : publ_tape (tape w) (publ_counter w) mod 2 ^ 64 < 2 ^ 64 - 2)
    (H0 : wf_vec (nbits ty) (nelems shp) b0)
    (H1 : wf_vec (nbits ty) (nelems shp) b1)
    (H2 : wf_vec (nbits ty) (nelems shp) b2) :
  exists a0 a1 a2 w',
    B2ASelector add_bb (share_b ty shp b0 b1 b2) w
      = Ok (share_a (default_field w) shp a0 a1 a2, w') /\
    reconstruct_a (share_a (default_field w) shp a0 a1 a2)
      = reconstruct_b (share_b ty shp b0 b1 b2).
Proof.
  destruct (B2ASelector_spec add_bb Hadd w ty shp b0 b1 b2 Ho Hn Hp H0 H1 H2)
    as (a0 & a1 & a2 & w' & E & V).
  exists a0, a1, a2, w'. split; [exact E|].
  rewrite V. symmetry. apply reconstruct_b_share; [apply H0|apply H1|apply H2].
Qed.

Lemma B2ASelector_reconstructs_witness :
  exists a0 a1 a2 w',
    B2ASelector plain_add_bb (share_b (mkBShrTy PT_U16 12) [2%nat] [1; 2] [4; 8] [0x810; 0xFFF])
      (world_seed0 shipped)
      = Ok (share_a (default_field (world_seed0 shipped)) [2%nat] a0 a1 a2, w') /\
    reconstruct_a (share_a (default_field (world_seed0 shipped)) [2%nat] a0 a1 a2)
      = reconstruct_b (share_b (mkBShrTy PT_U16 12) [2%nat] [1; 2] [4; 8] [0x810; 0xFFF]).
Proof.
  apply (B2ASelector_reconstructs plain_add_bb (world_seed0 shipped)
           (mkBShrTy PT_U16 12) [2%nat] [1; 2] [4; 8] [0x810; 0xFFF]);
    [exact plain_add_bb_adds|reflexivity|cbn; lia|reflexivity| | | ];
    (split; [reflexivity|repeat constructor; cbn; lia]).
Defined.

(* ------------------------------------------------------------------ *)
(** ** EqualAA and EqualAP below the top of the public draw *)

(** X25.  When the public draw that eqz turns into the three roles is
    below 2^64 - 2, EqualAA on A/RSS sharings (x0, x1, x2) and
    (y0, y1, y2) of the same shape and field returns, in every field,
    for every PRG state and both directions of rotate, an 8-bit B/RSS
    array of that shape, with one element for every element of the
    input, that reconstructs to 1 where x0 + x1 + x2 = y0 + y1 + y2 in
    the ring and to 0 elsewhere; EqualAP does the same against the
    public array c.  Both outputs are replicated the way rotate turns:
    the second slot of a party is the first slot of the party whose
    buffer rotate delivers to it. *)
Theorem Equal_reconstructs_equality
    (field : FieldType) (shp : list nat) (x0 x1 x2 y0 y1 y2 c : list Z) (w : World)
    (Hx0 : length x0 = nelems shp) (Hx1 : length x1 = nelems shp)
    (Hx2 : length x2 = nelems shp)
    (Hy0 : length y0 = nelems shp) (Hy1 : length y1 = nelems shp)
    (Hy2 : length y2 = nelems shp)
    (Hc : length c = nelems shp)
    (Hpivot : publ_tape (tape w) (publ_counter w) mod 2 ^ 64 < 2 ^ 64 - 2) :
  exists outAA wAA outAP wAP,
    EqualAA (share_a field shp x0 x1 x2) (share_a field shp y0 y1 y2) w = Ok (outAA, wAA) /\
    EqualAP (share_a field shp x0 x1 x2) (share_p field shp c) w = Ok (outAP, wAP) /\
    (forall rank,
       eltype (pget outAA rank) = mkBShrTy PT_U8 8 /\ shape (pget outAA rank) = shp /\
       eltype (pget outAP rank) = mkBShrTy PT_U8 8 /\ shape (pget outAP rank) = shp) /\
    reconstruct_b outAA =
      pforeach (nelems shp) (fun idx =>
        if wrap (GetStorageType field) (sum3 x0 x1 x2 idx)
           =? wrap (GetStorageType field) (sum3 y0 y1 y2 idx)
        then 1 else 0) /\
    reconstruct_b outAP =
      pforeach (nelems shp) (fun idx =>
        if wrap (GetStorageType field) (sum3 x0 x1 x2 idx)
           =? wrap (GetStorageType field) (view1 c idx)
        then 1 else 0) /\
    (forall rank, 0 <= rank < 3 ->
       length (elems (pget outAA rank)) = nelems shp /\
       length (elems (pget outAP rank)) = nelems shp) /\
    (forall rank idx, 0 <= rank < 3 ->
       slot1 (view2 (elems (pget outAA rank)) idx)
         = slot0 (view2 (elems (pget outAA (turn (orientation w) rank))) idx) /\
       slot1 (view2 (elems (pget outAP rank)) idx)
         = slot0 (view2 (elems (pget outAP (turn (orientation w) rank))) idx)).
Proof.
  destruct (EqualAA_spec field shp x0 x1 x2 y0 y1 y2 w Hx0 Hx1 Hx2 Hy0 Hy1 Hy2 Hpivot)
    as (outAA & wAA & EAA & TAA & RAA).
  destruct (EqualAP_spec field shp x0 x1 x2 c w Hx0 Hx1 Hx2 Hpivot)
    as (outAP & wAP & EAP & TAP & RAP).
  exists outAA, wAA, outAP, wAP.
  split; [exact EAA|]. split; [exact EAP|].
  split; [|split; [exact RAA|split; [exact RAP|split]]].
  - intros rank. destruct (TAA rank) as (A1 & A2). destruct (TAP rank) as (B1 & B2).
    repeat split; assumption.
  - intros rank Hr. split.
    + rewrite (EqualAA_lengths _ _ _ _ _ EAA rank Hr). reflexivity.
    + rewrite (EqualAP_lengths _ _ _ _ _ EAP rank Hr). reflexivity.
  - intros rank idx Hr. split.
    + exact (EqualAA_replicated _ _ _ _ _ EAA rank idx Hr).
    + exact (EqualAP_replicated _ _ _ _ _ EAP rank idx Hr).
Qed.

Lemma Equal_reconstructs_equality_witness :
  exists outAA wAA outAP wAP,
    EqualAA (share_a FM32 [2%nat] [1; 5] [2; 0] [3; 0]) (share_a FM32 [2%nat] [6; 1] [0; 1] [0; 1])
      (world0 shipped RecvFromNext FM32) = Ok (outAA, wAA) /\
    EqualAP (share_a FM32 [2%nat] [1; 5] [2; 0] [3; 0]) (share_p FM32 [2%nat] [7; 5])
      (world0 shipped RecvFromNext FM32) = Ok (outAP, wAP) /\
    (forall rank,
       eltype (pget outAA rank) = mkBShrTy PT_U8 8 /\ shape (pget outAA rank) = [2%nat] /\
       eltype (pget outAP rank) = mkBShrTy PT_U8 8 /\ shape (pget outAP rank) = [2%nat]) /\
    reconstruct_b outAA =
      pforeach (nelems [2%nat]) (fun idx =>
        if wrap (GetStorageType FM32) (sum3 [1; 5] [2; 0] [3; 0] idx)
           =? wrap (GetStorageType FM32) (sum3 [6; 1] [0; 1] [0; 1] idx)
        then 1 else 0) /\
    reconstruct_b outAP =
      pforeach (nelems [2%nat]) (fun idx =>
        if wrap (GetStorageType FM32) (sum3 [1; 5] [2; 0] [3; 0] idx)
           =? wrap (GetStorageType FM32) (view1 [7; 5] idx)
        then 1 else 0) /\
    (forall rank, 0 <= rank < 3 ->
       length (elems (pget outAA rank)) = nelems [2%nat] /\
       length (elems (pget outAP rank)) = nelems [2%nat]) /\
    (forall rank idx, 0 <= rank < 3 ->
       slot1 (view2 (elems (pget outAA rank)) idx)
         = slot0 (view2 (elems (pget outAA
                     (turn (orientation (world0 shipped RecvFromNext FM32)) rank))) idx) /\
       slot1 (view2 (elems (pget outAP rank)) idx)
         = slot0 (view2 (elems (pget outAP
                     (turn (orientation (world0 shipped RecvFromNext FM32)) rank))) idx)).
Proof.
  apply Equal_reconstructs_equality; reflexivity.
Defined.
